(** * The OFI communication layer of the Chapel runtime (comm-ofi.c)

    A shallow embedding of the transmit side of
    [runtime/src/comm/ofi/comm-ofi.c]: completion-context tags, node
    bitmaps, memory-region lookup, the transmit-context table, the RMA
    engine ([ofi_put], [ofi_get]), the active-message request path
    ([amRequestCommon]) and the AMO dispatch ([doAMO]).

    Conventions.
    - Pointers and [size_t]/[uint64_t] values are [Z]; [NULL] is [0].
      Unsigned 64-bit arithmetic that can wrap is written with [u64].
    - A C function with side effects is a function [world -> outcome A]:
      the [world] holds the transmit-context table, the thread-local and
      task-private data the code reads and writes, and the [trace] of the
      calls made to the fabric provider and to the C library.
    - A failed [CHK_TRUE]/[CHK_FALSE]/[INTERNAL_ERROR_V] ends in [Aborted].
    - Loops whose trip count the code does not bound take [fuel]; when it
      runs out the result is [OutOfFuel].
    - Values the program gets from outside (what other threads did to the
      table during a yield, how many completions a CQ read returned, the
      address the allocator handed out, addresses of automatic variables)
      come from an [environ] record and are quantified over in theorems.
    - A call to the provider is recorded once, when the provider accepts
      it: [OFI_RIDE_OUT_EAGAIN] repeats the same call until then, and any
      other failure ends the program inside [OFI_CHK].  A spin on a flag
      the fabric sets ([waitForTxnComplete], [amWaitForDone]) is one
      event.  Debug output, diagnostics counters and communication
      callbacks are left out. *)

From Stdlib Require Import ZArith Bool List Lia.
From stdpp Require Import base list.
Import ListNotations.
Local Open Scope Z_scope.

(** ** Machine integers *)

Definition u64 (x : Z) : Z := x mod 2 ^ 64.

(** [~x] on a [uint64_t]. *)
Definition not64 (x : Z) : Z := 2 ^ 64 - 1 - u64 x.

Definition NULL : Z := 0.

(** ** Transaction tracking (comm-ofi.c:522-561) *)

Inductive txnTrkType_t := txnTrkId | txnTrkDone.

Definition txnTrkTypeCount : Z := 2.

Definition txnTrkType_val (t : txnTrkType_t) : Z :=
  match t with txnTrkId => 0 | txnTrkDone => 1 end.

(** Reading an [int] in [0, txnTrkTypeCount) back as the enum. *)
Definition txnTrkType_of_val (v : Z) : txnTrkType_t :=
  if v =? 0 then txnTrkId else txnTrkDone.

Definition TXNTRK_TYPE_BITS : Z := 1.
Definition TXNTRK_ADDR_BITS : Z := 64 - TXNTRK_TYPE_BITS.
Definition TXNTRK_TYPE_MASK : Z :=
  u64 (u64 (Z.shiftl 1 TXNTRK_TYPE_BITS) - 1).
Definition TXNTRK_ADDR_MASK : Z :=
  not64 (u64 (Z.shiftl TXNTRK_TYPE_MASK TXNTRK_ADDR_BITS)).

Record txnTrkCtx_t := { typ : txnTrkType_t; ptr : Z }.

(** The two [assert]s at the head of [txnTrkEncode]. *)
Definition txnTrkEncode_asserts (p : Z) : bool :=
  (Z.land (u64 (txnTrkTypeCount - 1)) (not64 TXNTRK_TYPE_MASK) =? 0)
  && (Z.land (u64 p) (not64 TXNTRK_ADDR_MASK) =? 0).

Definition txnTrkEncode (t : txnTrkType_t) (p : Z) : Z :=
  Z.lor (u64 (Z.shiftl (txnTrkType_val t) TXNTRK_ADDR_BITS))
        (Z.land (u64 p) TXNTRK_ADDR_MASK).

Definition txnTrkEncodeId (id : Z) : Z := txnTrkEncode txnTrkId id.

Definition txnTrkEncodeDone (pDone : Z) : Z := txnTrkEncode txnTrkDone pDone.

Definition txnTrkDecode (ctx : Z) : txnTrkCtx_t :=
  let u := u64 ctx in
  {| typ := txnTrkType_of_val
              (Z.land (Z.shiftr u TXNTRK_ADDR_BITS) TXNTRK_TYPE_MASK);
     ptr := Z.land u TXNTRK_ADDR_MASK |}.

(** ** Bitmaps (comm-ofi.c:580-676)

    [struct bitmap_t] is a length and an array of 64-bit words.  Reading
    [map[k]] past the end of the array is outside what C defines; the
    model reads [0] there and drops the write. *)

Definition bitmapElemWidth : Z := 64.

Record bitmap_t := { b_len : Z; b_map : list Z }.

Definition bitmapElemIdx (i : Z) : Z := i / bitmapElemWidth.
Definition bitmapOff (i : Z) : Z := i mod bitmapElemWidth.

(** [(((ssize_t) len) - 1) / bitmapElemWidth + 1], with C's division that
    truncates toward zero. *)
Definition bitmapNumElems (len : Z) : Z :=
  Z.quot (len - 1) bitmapElemWidth + 1.

Definition bitmapElemBit (i : Z) : Z := u64 (Z.shiftl 1 (bitmapOff i)).

Definition bitmapElem (b : bitmap_t) (k : Z) : Z :=
  default 0 (b_map b !! Z.to_nat k).

Definition bitmapClear (b : bitmap_t) (i : Z) : bitmap_t :=
  {| b_len := b_len b;
     b_map := <[Z.to_nat (bitmapElemIdx i) :=
                 Z.land (bitmapElem b (bitmapElemIdx i))
                        (not64 (bitmapElemBit i))]> (b_map b) |}.

Definition bitmapSet (b : bitmap_t) (i : Z) : bitmap_t :=
  {| b_len := b_len b;
     b_map := <[Z.to_nat (bitmapElemIdx i) :=
                 Z.lor (bitmapElem b (bitmapElemIdx i))
                       (bitmapElemBit i)]> (b_map b) |}.

Definition bitmapTest (b : bitmap_t) (i : Z) : bool :=
  negb (Z.land (bitmapElem b (bitmapElemIdx i)) (bitmapElemBit i) =? 0).

(** [CHPL_CALLOC_SZ] zero-fills. *)
Definition bitmapAlloc (len : Z) : bitmap_t :=
  {| b_len := len;
     b_map := replicate (Z.to_nat (bitmapNumElems len)) 0 |}.

(** The indices [BITMAP_FOREACH_SET(b, i)] visits, in order: every
    [i < b->len] whose bit is set.  The loop bodies in this file clear
    only the bit they are visiting, so the set can be read up front. *)
Definition bitmapSetBits (b : bitmap_t) : list Z :=
  List.filter (bitmapTest b)
              (List.map Z.of_nat (seq 0 (Z.to_nat (b_len b)))).

(** ** Memory regions (comm-ofi.c:171-182, 2500-2572) *)

Record memEntry := {
  me_addr : Z;
  me_base : Z;
  me_size : Z;
  me_desc : Z;
  me_key : Z
}.

(** A [memTab_t] holds the first [numMemRegions] entries of the array. *)
Definition memTab_t := list memEntry.

(** The pointers are 64 bits wide: [myAddr + size] and [tabAddrEnd],
    the entry's address plus its size, are taken modulo [2 ^ 64]. *)
Fixpoint getMemEntry (tab : memTab_t) (addr size : Z) : option memEntry :=
  match tab with
  | [] => None
  | mr :: tab' =>
      let myAddr := u64 addr in
      let tabAddr := u64 (me_addr mr) in
      let tabAddrEnd := u64 (tabAddr + me_size mr) in
      if (tabAddr <=? myAddr) && (u64 (myAddr + size) <=? tabAddrEnd)
      then Some mr
      else getMemEntry tab' addr size
  end.

(** ** libfabric enumerations the file dispatches on

    [enum fi_op] and [enum fi_datatype] come from libfabric's headers; the
    constructors are the members comm-ofi.c names, and one more for the
    rest of each enumeration. *)

Inductive fi_op :=
| FI_SUM | FI_BOR | FI_BAND | FI_BXOR
| FI_ATOMIC_READ | FI_ATOMIC_WRITE | FI_CSWAP
| FI_OP_OTHER.

Inductive fi_datatype :=
| FI_INT32 | FI_UINT32 | FI_INT64 | FI_UINT64 | FI_FLOAT | FI_DOUBLE
| FI_DATATYPE_OTHER.

Definition fi_op_eqb (a b : fi_op) : bool :=
  match a, b with
  | FI_SUM, FI_SUM | FI_BOR, FI_BOR | FI_BAND, FI_BAND | FI_BXOR, FI_BXOR
  | FI_ATOMIC_READ, FI_ATOMIC_READ | FI_ATOMIC_WRITE, FI_ATOMIC_WRITE
  | FI_CSWAP, FI_CSWAP | FI_OP_OTHER, FI_OP_OTHER => true
  | _, _ => false
  end.

(** ** Active-message requests (comm-ofi.c:2670-2735) *)

Inductive amOp_t :=
| am_opExecOn | am_opExecOnLrg | am_opGet | am_opPut
| am_opAMO | am_opFree | am_opNop | am_opShutdown.

(** The members of the [amRequest_t] union that [amRequestCommon] reads:
    [b.op], and [amo.ofiOp], which it reads only when [b.op] is
    [am_opAMO].  [req_addr] is the address of the request itself. *)
Record amRequest_t := {
  b_op : amOp_t;
  amo_ofiOp : fi_op;
  req_addr : Z
}.

(** ** Globals fixed at initialisation *)

Record ofi_globals := {
  chpl_nodeID : Z;
  chpl_numNodes : Z;
  haveDeliveryComplete : bool;
  max_msg_size : Z;            (* ofi_info->ep_attr->max_msg_size *)
  inject_size : Z;             (* ofi_info->tx_attr->inject_size *)
  tciTabLen : nat;
  numAmHandlers : nat;
  tciTabFixedAssignments : bool;
  txCQLen : Z;
  scalableMemReg : bool;
  memTab : memTab_t;
  memTabMap : Z -> memTab_t;   (* replicated table of every node *)
  orderDummy : Z;
  orderDummyMap : Z -> Z;
  isAtomicValid : fi_datatype -> bool;  (* memoised provider probe *)
  sizeof_amRequest_RMA : Z;
  sizeof_amRequest_AMO : Z;
  offsetof_amo_operand1 : Z;   (* of operand1 in struct amRequest_AMO_t *)
  offsetof_amo_operand2 : Z
}.

Definition mrGetDesc (G : ofi_globals) (addr size : Z) : option Z :=
  if scalableMemReg G then Some NULL
  else match getMemEntry (memTab G) addr size with
       | None => None
       | Some mr => Some (me_desc mr)
       end.

(** Returns [(key, off)] where the C function returns [0] and fills
    [*pKey], [*pOff]; [None] where it returns [-1]. *)
Definition mrGetKey (G : ofi_globals) (iNode addr size : Z)
  : option (Z * Z) :=
  if scalableMemReg G then Some (0, u64 addr)
  else match getMemEntry (memTabMap G iNode) addr size with
       | None => None
       | Some mr => Some (me_key mr, u64 (u64 addr - me_base mr))
       end.

Definition mrGetLocalKey (G : ofi_globals) (addr size : Z) : bool :=
  match mrGetKey G (chpl_nodeID G) addr size with
  | Some _ => true
  | None => false
  end.

(** ** Transmit contexts, task-private data, the world *)

Record perTxCtxInfo_t := {
  allocated : bool;      (* atomic_bool: true = in use *)
  bound : bool;          (* true = bound to an owner thread *)
  txCQ : bool;           (* true = txCQ != NULL *)
  numTxnsOut : Z;        (* transactions in flight now *)
  numTxnsSent : Z        (* transactions ever initiated *)
}.

Record chpl_comm_taskPrvData_t := {
  putBitmap : option bitmap_t;   (* None = NULL *)
  amDonePending : bool;
  taskIsEnding : bool
}.

(** Calls the code makes to the provider, the C library, the tasking
    layer and the CPU atomics.  [Ev_waitForPutsVisAllNodes] and
    [Ev_waitForPutsVisOneNode] mark entry to the two MCM functions. *)
Inductive event :=
| Ev_fi_write (tci : nat) (buf size node raddr key ctx : Z)
| Ev_fi_inject_write (tci : nat) (buf size node raddr key : Z)
| Ev_fi_read (tci : nat) (buf size node raddr key ctx : Z)
| Ev_fi_send (tci : nat) (req size node ctx : Z)
| Ev_fi_inject (tci : nat) (req size node : Z)
| Ev_fi_atomic (tci : nat) (node object key : Z)
               (op : fi_op) (ty : fi_datatype) (ctx : Z)
| Ev_fi_fetch_atomic (tci : nat) (node object key : Z)
                     (op : fi_op) (ty : fi_datatype) (ctx : Z)
| Ev_fi_compare_atomic (tci : nat) (node object key : Z)
                       (op : fi_op) (ty : fi_datatype) (ctx : Z)
| Ev_waitForTxnComplete (tci : nat) (ctx : Z)
| Ev_amWaitForDone (pAmDone : Z)
| Ev_memmove (dst src size : Z)
| Ev_memcpy (dst src size : Z)
| Ev_store (addr val : Z)
| Ev_allocBounceBuf (p size : Z)
| Ev_freeBounceBuf (p : Z)
| Ev_doCpuAMO (obj : Z) (op : fi_op) (ty : fi_datatype) (size : Z)
| Ev_local_yield
| Ev_sched_yield
| Ev_waitForPutsVisAllNodes
| Ev_waitForPutsVisOneNode (node : Z).

Record world := {
  tciTab : list perTxCtxInfo_t;
  _ttcip : option nat;                       (* thread-local; None = NULL *)
  prvData : option chpl_comm_taskPrvData_t;  (* get_comm_taskPrvdata() *)
  yields : nat;                              (* local_yield() calls so far *)
  trace : list event
}.

(** What the embedding takes from outside the modelled code. *)
Record environ := {
  (* what the other threads did to tciTab[] during the k-th local_yield *)
  others : nat -> list perTxCtxInfo_t -> list perTxCtxInfo_t;
  (* the completions one read of a context's transmit CQ returns, given
     the history and the context's numTxnsOut at the time of the read *)
  cqEvents : list event -> Z -> Z;
  (* how often the provider answers -FI_EAGAIN to the next call before
     it accepts it, given the history *)
  eagain : list event -> nat;
  (* the address allocBounceBuf returns, given the history and the size *)
  bounceBuf : list event -> Z -> Z;
  chpl_task_isFixedThread : bool;
  (* addresses of automatic and task-private variables *)
  amDone_addr : Z;        (* &amDone in amRequestCommon *)
  txnDone_addr : Z;       (* &txnDone *)
  prvAmDone_addr : Z;     (* &prvData->amDone *)
  amReq_addr : Z          (* &req in amRequestRMA / amRequestAMO *)
}.

Inductive outcome (A : Type) : Type :=
| Done (a : A) (w : world)
| Aborted (w : world)
| OutOfFuel.
Arguments Done {A} a w.
Arguments Aborted {A} w.
Arguments OutOfFuel {A}.

Definition comm (A : Type) : Type := world -> outcome A.

Definition ret {A} (a : A) : comm A := fun w => Done a w.

Definition bind {A B} (m : comm A) (k : A -> comm B) : comm B :=
  fun w => match m w with
           | Done a w' => k a w'
           | Aborted w' => Aborted w'
           | OutOfFuel => OutOfFuel
           end.

Declare Scope comm_scope.
Delimit Scope comm_scope with comm.
Notation "x <- m ;; k" := (bind m (fun x => k))
  (at level 100, m at next level, right associativity) : comm_scope.
Notation "m ;;; k" := (bind m (fun _ => k))
  (at level 100, right associativity) : comm_scope.
Local Open Scope comm_scope.

Definition abort {A} : comm A := fun w => Aborted w.

Definition emit (e : event) : comm unit :=
  fun w => Done tt {| tciTab := tciTab w; _ttcip := _ttcip w;
                      prvData := prvData w; yields := yields w;
                      trace := trace w ++ [e] |}.

Definition when (b : bool) (m : comm unit) : comm unit :=
  if b then m else ret tt.

(** Modelled from the spec: the [CHK_TRUE] and [CHK_FALSE] macros are
    defined in a header that is not part of this file.  The spec has
    such guards abort the process when the checked expression does not
    have the expected value. *)
Definition CHK_TRUE (b : bool) : comm unit :=
  if b then ret tt else abort.

Definition CHK_FALSE (b : bool) : comm unit :=
  if b then abort else ret tt.

(** [CHK_TRUE(f(...) == 0)] for the lookups that return a value. *)
Definition CHK_SOME {A} (o : option A) : comm A :=
  match o with Some a => ret a | None => abort end.

Definition set_tciTab (tab : list perTxCtxInfo_t) : comm unit :=
  fun w => Done tt {| tciTab := tab; _ttcip := _ttcip w;
                      prvData := prvData w; yields := yields w;
                      trace := trace w |}.

Definition set_ttcip (t : option nat) : comm unit :=
  fun w => Done tt {| tciTab := tciTab w; _ttcip := t;
                      prvData := prvData w; yields := yields w;
                      trace := trace w |}.

Definition set_prvData (p : option chpl_comm_taskPrvData_t) : comm unit :=
  fun w => Done tt {| tciTab := tciTab w; _ttcip := _ttcip w;
                      prvData := p; yields := yields w;
                      trace := trace w |}.

Definition tci0 : perTxCtxInfo_t :=
  {| allocated := false; bound := false; txCQ := false;
     numTxnsOut := 0; numTxnsSent := 0 |}.

(** [tciTab[i]]. *)
Definition tciAt (tab : list perTxCtxInfo_t) (i : nat) : perTxCtxInfo_t :=
  default tci0 (tab !! i).

Definition get_tci (i : nat) : comm perTxCtxInfo_t :=
  fun w => Done (tciAt (tciTab w) i) w.

Definition upd_tci (i : nat) (f : perTxCtxInfo_t -> perTxCtxInfo_t)
  : comm unit :=
  fun w => set_tciTab (<[i := f (tciAt (tciTab w) i)]> (tciTab w)) w.

Definition set_allocated (v : bool) (t : perTxCtxInfo_t) :=
  {| allocated := v; bound := bound t; txCQ := txCQ t;
     numTxnsOut := numTxnsOut t; numTxnsSent := numTxnsSent t |}.

Definition set_bound (v : bool) (t : perTxCtxInfo_t) :=
  {| allocated := allocated t; bound := v; txCQ := txCQ t;
     numTxnsOut := numTxnsOut t; numTxnsSent := numTxnsSent t |}.

Definition set_numTxnsOut (v : Z) (t : perTxCtxInfo_t) :=
  {| allocated := allocated t; bound := bound t; txCQ := txCQ t;
     numTxnsOut := v; numTxnsSent := numTxnsSent t |}.

Definition set_numTxnsSent (v : Z) (t : perTxCtxInfo_t) :=
  {| allocated := allocated t; bound := bound t; txCQ := txCQ t;
     numTxnsOut := numTxnsOut t; numTxnsSent := v |}.

(** [tcip->numTxnsOut++] and [tcip->numTxnsSent++] on [uint64_t]. *)
Definition incr_numTxnsOut (i : nat) : comm unit :=
  upd_tci i (fun t => set_numTxnsOut (u64 (numTxnsOut t + 1)) t).

Definition incr_numTxnsSent (i : nat) : comm unit :=
  upd_tci i (fun t => set_numTxnsSent (u64 (numTxnsSent t + 1)) t).

(** ** The transmit-context table (comm-ofi.c:4039-4153) *)

(** [static __thread int last_iw = 0;] -- the function never assigns it. *)
Definition last_iw : nat := 0.

(** [tciTabLen - numAmHandlers].  Both are [int]s in the source; a
    negative difference makes [++iw >= numWorkerTxCtxs] hold at once,
    like the [0] the subtraction on [nat] gives. *)
Definition numWorkerTxCtxs (G : ofi_globals) : nat :=
  (tciTabLen G - numAmHandlers G)%nat.

(** [atomic_exchange_bool(&tciTab[i].allocated, v)]: the old value and
    the table after the store. *)
Definition atomic_exchange_allocated
  (tab : list perTxCtxInfo_t) (i : nat) (v : bool)
  : bool * list perTxCtxInfo_t :=
  (allocated (tciAt tab i), <[i := set_allocated v (tciAt tab i)]> tab).

(** The inner [do ... while (tcip == NULL && iw != last_iw)] of
    [findFreeTciTabEntry], for [n = numWorkerTxCtxs]: the claimed entry
    (if any), [allBound], and the table.  [k] bounds the iterations;
    [scanTciTab_fuel] shows [S n] is never used up. *)
Fixpoint scanTciTab (k : nat) (n iw : nat) (allBound : bool)
  (tab : list perTxCtxInfo_t)
  : option nat * bool * list perTxCtxInfo_t :=
  match k with
  | O => (None, allBound, tab)
  | S k' =>
      let iw := if (n <=? S iw)%nat then O else S iw in
      let allBound := allBound && bound (tciAt tab iw) in
      let '(was, tab) := atomic_exchange_allocated tab iw true in
      if negb was then (Some iw, allBound, tab)
      else if (iw =? last_iw)%nat then (None, allBound, tab)
      else scanTciTab k' n iw allBound tab
  end.

(** [local_yield()] inside the allocation loop: the other threads run. *)
Definition local_yield (E : environ) : comm unit :=
  fun w => Done tt {| tciTab := others E (yields w) (tciTab w);
                      _ttcip := _ttcip w; prvData := prvData w;
                      yields := S (yields w);
                      trace := trace w ++ [Ev_local_yield] |}.

(** The outer [do ... while (tcip == NULL)] for a worker. *)
Fixpoint findFreeTciTabEntry_worker (G : ofi_globals) (E : environ)
  (fuel : nat) : comm nat :=
  fun w =>
  match fuel with
  | O => OutOfFuel
  | S fuel' =>
      let n := numWorkerTxCtxs G in
      let '(tcip, allBound, tab) :=
        scanTciTab (S n) n last_iw true (tciTab w) in
      (set_tciTab tab ;;;
       match tcip with
       | Some iw => ret iw
       | None =>
           CHK_FALSE allBound ;;;
           local_yield E ;;;
           findFreeTciTabEntry_worker G E fuel'
       end) w
  end.

Definition findFreeTciTabEntry (G : ofi_globals) (E : environ)
  (fuel : nat) (bindToAmHandler : bool) : comm nat :=
  if bindToAmHandler then
    let tcip := numWorkerTxCtxs G in
    fun w =>
      let '(was, tab) := atomic_exchange_allocated (tciTab w) tcip true in
      (set_tciTab tab ;;; CHK_FALSE was ;;; ret tcip) w
  else findFreeTciTabEntry_worker G E fuel.

Definition tciAllocCommon (G : ofi_globals) (E : environ)
  (fuel : nat) (bindToAmHandler : bool) : comm nat :=
  let find : comm nat :=
    i <- findFreeTciTabEntry G E fuel bindToAmHandler ;;
    set_ttcip (Some i) ;;;
    when (bindToAmHandler
          || (tciTabFixedAssignments G && chpl_task_isFixedThread E))
         (upd_tci i (set_bound true)) ;;;
    ret i in
  fun w =>
    match _ttcip w with
    | Some t =>
        if bound (tciAt (tciTab w) t) then Done t w
        else
          let '(was, tab) := atomic_exchange_allocated (tciTab w) t true in
          if negb was then (set_tciTab tab ;;; ret t) w
          else (set_tciTab tab ;;; find) w
    | None => find w
    end.

Definition tciAlloc (G : ofi_globals) (E : environ) (fuel : nat)
  : comm nat :=
  tciAllocCommon G E fuel false.

Definition tciAllocForAmHandler (G : ofi_globals) (E : environ)
  (fuel : nat) : comm nat :=
  tciAllocCommon G E fuel true.

Definition tciFree (tcip : nat) : comm unit :=
  fun w =>
    if negb (bound (tciAt (tciTab w) tcip))
    then upd_tci tcip (set_allocated false) w
    else Done tt w.

(** ** Completions, bounce buffers, low-level GET *)

(** The call through [tcip->checkTxCmplsFn].  Initialisation installs
    [checkTxCmplsCQ] in every context (the counter variant is disabled,
    comm-ofi.c:1661), which does [tcip->numTxnsOut -= numEvents]. *)
Definition checkTxCmplsFn (E : environ) (tcip : nat) : comm unit :=
  fun w =>
    upd_tci tcip
      (fun t =>
         set_numTxnsOut
           (u64 (numTxnsOut t - cqEvents E (trace w) (numTxnsOut t))) t)
      w.

(** [n] calls through [tcip->ensureProgressFn], which for a worker's
    context is [checkTxCmplsFn] (comm-ofi.c:1851-1853). *)
Fixpoint ensureProgress (E : environ) (tcip : nat) (n : nat) : comm unit :=
  match n with
  | O => ret tt
  | S n' => checkTxCmplsFn E tcip ;;; ensureProgress E tcip n'
  end.

(** [OFI_RIDE_OUT_EAGAIN(tcip, expr)] on a thread other than the AM
    handler's (comm-ofi.c:349-366): the call is repeated until the
    provider accepts it, and every [-FI_EAGAIN] is followed by a call
    through [ensureProgressFn].  [e] records the accepted call. *)
Definition OFI_RIDE_OUT_EAGAIN (E : environ) (tcip : nat) (e : event)
  : comm unit :=
  fun w => (ensureProgress E tcip (eagain E (trace w)) ;;; emit e) w.

(** [waitForTxnComplete]: spins, calling [ensureProgressFn] and
    [sched_yield], until the completion the context names has arrived.
    The spin is one event; [cqEvents] gives what it reaped in all. *)
Definition waitForTxnComplete (E : environ) (tcip : nat) (ctx : Z)
  : comm unit :=
  emit (Ev_waitForTxnComplete tcip ctx) ;;;
  checkTxCmplsFn E tcip.

(** [amWaitForDone]: spins with [local_yield] until [*pAmDone] is set by
    the target's RMA write. *)
Definition amWaitForDone (pAmDone : Z) : comm unit :=
  emit (Ev_amWaitForDone pAmDone).

Definition allocBounceBuf (E : environ) (size : Z) : comm Z :=
  fun w =>
    let p := bounceBuf E (trace w) size in
    (emit (Ev_allocBounceBuf p size) ;;; ret p) w.

Definition freeBounceBuf (p : Z) : comm unit :=
  emit (Ev_freeBounceBuf p).

Definition tcipOrAlloc (G : ofi_globals) (E : environ) (fuel : nat)
  (tcip : option nat) : comm nat :=
  match tcip with
  | Some t => ret t
  | None => tciAlloc G E fuel
  end.

Definition tcipFreeIfOwn (tcip : option nat) (myTcip : nat) : comm unit :=
  match tcip with
  | Some _ => ret tt
  | None => tciFree myTcip
  end.

Definition ofi_get_ll (G : ofi_globals) (E : environ) (fuel : nat)
  (addr node raddr size ctx : Z) (tcip : option nat) : comm unit :=
  kr <- CHK_SOME (mrGetKey G node raddr size) ;;
  _ <- CHK_SOME (mrGetDesc G addr size) ;;
  myTcip <- tcipOrAlloc G E fuel tcip ;;
  emit (Ev_fi_read myTcip addr size node (snd kr) (fst kr) ctx) ;;;
  incr_numTxnsOut myTcip ;;;
  incr_numTxnsSent myTcip ;;;
  tcipFreeIfOwn tcip myTcip.

(** ** Memory consistency (comm-ofi.c:2587-2638, 5092-5153) *)

Definition mcmReleaseOneNode (G : ofi_globals) (E : environ) (fuel : nat)
  (node : Z) (tcip : nat) : comm unit :=
  t <- get_tci tcip ;;
  if txCQ t then
    let ctx := txnTrkEncodeDone (txnDone_addr E) in
    ofi_get_ll G E fuel (orderDummy G) node (orderDummyMap G node) 1 ctx
               (Some tcip) ;;;
    waitForTxnComplete E tcip ctx
  else
    ofi_get_ll G E fuel (orderDummy G) node (orderDummyMap G node) 1 NULL
               (Some tcip) ;;;
    waitForTxnComplete E tcip NULL.

(** [while (txCQ != NULL && numTxnsOut >= txCQLen) { sched_yield();
    check; }] in [mcmReleaseAllNodes]. *)
Fixpoint waitForCQRoom (G : ofi_globals) (E : environ) (fuel : nat)
  (tcip : nat) : comm unit :=
  fun w =>
    let t := tciAt (tciTab w) tcip in
    if txCQ t && (txCQLen G <=? numTxnsOut t) then
      match fuel with
      | O => OutOfFuel
      | S fuel' =>
          (emit Ev_sched_yield ;;;
           checkTxCmplsFn E tcip ;;;
           waitForCQRoom G E fuel' tcip) w
      end
    else Done tt w.

(** The body of [BITMAP_FOREACH_SET] in [mcmReleaseAllNodes], run over
    the nodes it visits; the bitmap is threaded through. *)
Fixpoint mcmReleaseNodes (G : ofi_globals) (E : environ) (fuel : nat)
  (nodes : list Z) (b : bitmap_t) (myTcip : nat) : comm bitmap_t :=
  match nodes with
  | [] => ret b
  | node :: nodes' =>
      let b := bitmapClear b node in
      checkTxCmplsFn E myTcip ;;;
      waitForCQRoom G E fuel myTcip ;;;
      mcmReleaseOneNode G E fuel node myTcip ;;;
      mcmReleaseNodes G E fuel nodes' b myTcip
  end.

(** Returns the bitmap as the call leaves [*b]. *)
Definition mcmReleaseAllNodes (G : ofi_globals) (E : environ) (fuel : nat)
  (b : bitmap_t) (tcip : option nat) : comm bitmap_t :=
  myTcip <- tcipOrAlloc G E fuel tcip ;;
  b' <- mcmReleaseNodes G E fuel (bitmapSetBits b) b myTcip ;;
  tcipFreeIfOwn tcip myTcip ;;;
  ret b'.

Definition get_comm_taskPrvdata : comm (option chpl_comm_taskPrvData_t) :=
  fun w => Done (prvData w) w.

Definition set_putBitmap (b : option bitmap_t)
  (p : chpl_comm_taskPrvData_t) :=
  {| putBitmap := b; amDonePending := amDonePending p;
     taskIsEnding := taskIsEnding p |}.

Definition set_amDonePending (v : bool) (p : chpl_comm_taskPrvData_t) :=
  {| putBitmap := putBitmap p; amDonePending := v;
     taskIsEnding := taskIsEnding p |}.

Definition set_taskIsEnding (v : bool) (p : chpl_comm_taskPrvData_t) :=
  {| putBitmap := putBitmap p; amDonePending := amDonePending p;
     taskIsEnding := v |}.

(** The callers modelled here pass [prvData == NULL], so the function
    fetches the task's own data. *)
Definition waitForPutsVisOneNode (G : ofi_globals) (E : environ)
  (fuel : nat) (node : Z) (tcip : nat) : comm unit :=
  emit (Ev_waitForPutsVisOneNode node) ;;;
  t <- get_tci tcip ;;
  when (negb (haveDeliveryComplete G) && bound t)
    (o <- get_comm_taskPrvdata ;;
     myPrvData <- CHK_SOME o ;;
     match putBitmap myPrvData with
     | Some b =>
         when (bitmapTest b node)
           (set_prvData
              (Some (set_putBitmap (Some (bitmapClear b node)) myPrvData)) ;;;
            mcmReleaseOneNode G E fuel node tcip)
     | None => ret tt
     end).

Definition waitForPutsVisAllNodes (G : ofi_globals) (E : environ)
  (fuel : nat) (tcip : option nat) (taskIsEnding : bool) : comm unit :=
  emit Ev_waitForPutsVisAllNodes ;;;
  when ((1 <? chpl_numNodes G) && negb (haveDeliveryComplete G))
    (myTcip <- tcipOrAlloc G E fuel tcip ;;
     t <- get_tci myTcip ;;
     when (bound t)
       (o <- get_comm_taskPrvdata ;;
        myPrvData <- CHK_SOME o ;;
        match putBitmap myPrvData with
        | Some b =>
            b' <- mcmReleaseAllNodes G E fuel b None ;;
            set_prvData
              (Some (set_putBitmap (if taskIsEnding then None else Some b')
                                   myPrvData))
        | None => ret tt
        end) ;;;
     tcipFreeIfOwn tcip myTcip).

Definition retireDelayedAmDone (E : environ) (taskIsEnding : bool)
  : comm unit :=
  o <- get_comm_taskPrvdata ;;
  match o with
  | None => ret tt
  | Some p =>
      p <- (if amDonePending p
            then amWaitForDone (prvAmDone_addr E) ;;;
                 ret (set_amDonePending false p)
            else ret p) ;;
      set_prvData (Some (if taskIsEnding then set_taskIsEnding true p
                         else p))
  end.

(** ** Active-message requests, initiator side (comm-ofi.c:2913-3167) *)

Definition amOp_eqb (a b : amOp_t) : bool :=
  match a, b with
  | am_opExecOn, am_opExecOn | am_opExecOnLrg, am_opExecOnLrg
  | am_opGet, am_opGet | am_opPut, am_opPut | am_opAMO, am_opAMO
  | am_opFree, am_opFree | am_opNop, am_opNop
  | am_opShutdown, am_opShutdown => true
  | _, _ => false
  end.

(** "If blocking, make sure target can RMA PUT the indicator to us."
    [ppAmDone] is [true] when the pointer of that name is not [NULL];
    the result is [pAmDone].  [sizeof( *pAmDone)] is 1. *)
Definition amRequest_setUpDone (G : ofi_globals) (E : environ)
  (ppAmDone : bool) : comm Z :=
  if ppAmDone then
    pAmDone <- (if negb (mrGetLocalKey G (amDone_addr E) 1)
                then p <- allocBounceBuf E 1 ;;
                     CHK_TRUE (mrGetLocalKey G p 1) ;;;
                     ret p
                else ret (amDone_addr E)) ;;
    emit (Ev_store pAmDone 0) ;;;
    ret pAmDone
  else ret NULL.

(** The request itself must be in registered memory too. *)
Definition amRequest_bounceReq (G : ofi_globals) (E : environ)
  (req : amRequest_t) (reqSize : Z) : comm Z :=
  match mrGetDesc G (req_addr req) reqSize with
  | Some _ => ret (req_addr req)
  | None =>
      myReq <- allocBounceBuf E reqSize ;;
      _ <- CHK_SOME (mrGetDesc G myReq reqSize) ;;
      emit (Ev_memcpy myReq (req_addr req) reqSize) ;;;
      ret myReq
  end.

(** The MCM step before the request goes out (comm-ofi.c:3110-3117). *)
Definition amRequest_mcm (G : ofi_globals) (E : environ) (fuel : nat)
  (node : Z) (req : amRequest_t) (myTcip : nat) : comm unit :=
  if amOp_eqb (b_op req) am_opExecOn
     || amOp_eqb (b_op req) am_opExecOnLrg
     || (amOp_eqb (b_op req) am_opAMO
         && negb (fi_op_eqb (amo_ofiOp req) FI_ATOMIC_READ))
  then waitForPutsVisAllNodes G E fuel (Some myTcip) false
  else if amOp_eqb (b_op req) am_opGet || amOp_eqb (b_op req) am_opPut
  then waitForPutsVisOneNode G E fuel node myTcip
  else ret tt.

(** Inject or send (comm-ofi.c:3124-3151).  The callers of
    [amRequestCommon] are not the AM handler. *)
Definition amRequest_xmit (G : ofi_globals) (E : environ)
  (node myReq reqSize pAmDone : Z) (myTcip : nat) : comm unit :=
  if (pAmDone =? NULL) && (reqSize <=? inject_size G) then
    OFI_RIDE_OUT_EAGAIN E myTcip
      (Ev_fi_inject myTcip myReq reqSize node) ;;;
    incr_numTxnsSent myTcip
  else
    let ctx := txnTrkEncodeDone (txnDone_addr E) in
    OFI_RIDE_OUT_EAGAIN E myTcip
      (Ev_fi_send myTcip myReq reqSize node ctx) ;;;
    incr_numTxnsOut myTcip ;;;
    incr_numTxnsSent myTcip ;;;
    waitForTxnComplete E myTcip ctx.

(** What follows the transmission (comm-ofi.c:3153-3166). *)
Definition amRequest_finish (E : environ) (req : amRequest_t)
  (tcip : option nat) (myTcip : nat) (myReq pAmDone : Z) : comm unit :=
  tcipFreeIfOwn tcip myTcip ;;;
  when (negb (myReq =? req_addr req)) (freeBounceBuf myReq) ;;;
  when (negb (pAmDone =? NULL))
    (amWaitForDone pAmDone ;;;
     when (negb (pAmDone =? amDone_addr E)) (freeBounceBuf pAmDone)).

Definition amRequestCommon (G : ofi_globals) (E : environ) (fuel : nat)
  (node : Z) (req : amRequest_t) (reqSize : Z) (ppAmDone : bool)
  (tcip : option nat) : comm unit :=
  pAmDone <- amRequest_setUpDone G E ppAmDone ;;
  myTcip <- tcipOrAlloc G E fuel tcip ;;
  myReq <- amRequest_bounceReq G E req reqSize ;;
  amRequest_mcm G E fuel node req myTcip ;;;
  amRequest_xmit G E node myReq reqSize pAmDone myTcip ;;;
  amRequest_finish E req tcip myTcip myReq pAmDone.

(** For an RMA request the bytes [amo.ofiOp] names belong to [rma.addr];
    [amRequestCommon] does not read them. *)
Definition amRequestRMA (G : ofi_globals) (E : environ) (fuel : nat)
  (node : Z) (op : amOp_t) (addr raddr size : Z) : comm unit :=
  let req := {| b_op := op; amo_ofiOp := FI_OP_OTHER;
                req_addr := amReq_addr E |} in
  retireDelayedAmDone E false ;;;
  amRequestCommon G E fuel node req (sizeof_amRequest_RMA G) true None.

(** Returns [(delayBlocking, pAmDone)]. *)
Definition setUpDelayedAmDone (E : environ) : comm (bool * Z) :=
  o <- get_comm_taskPrvdata ;;
  match o with
  | None => ret (false, NULL)
  | Some p =>
      if taskIsEnding p then ret (true, NULL)
      else
        emit (Ev_store (prvAmDone_addr E) 0) ;;;
        set_prvData (Some (set_amDonePending true p)) ;;;
        ret (true, prvAmDone_addr E)
  end.

Definition amRequestAMO (G : ofi_globals) (E : environ) (fuel : nat)
  (node object operand1 operand2 result : Z)
  (ofiOp : fi_op) (ofiType : fi_datatype) (size : Z) : comm unit :=
  tcip <- tciAlloc G E fuel ;;
  dr <- (if result =? NULL then
           d <- setUpDelayedAmDone E ;; ret (fst d, result)
         else if negb (mrGetLocalKey G result size) then
           p <- allocBounceBuf E size ;;
           CHK_TRUE (mrGetLocalKey G p size) ;;;
           ret (false, p)
         else ret (false, result)) ;;
  let delayBlocking := fst dr in
  let myResult := snd dr in
  let req := {| b_op := am_opAMO; amo_ofiOp := ofiOp;
                req_addr := amReq_addr E |} in
  when (negb (operand1 =? NULL))
       (emit (Ev_memcpy (amReq_addr E + offsetof_amo_operand1 G)
                        operand1 size)) ;;;
  when (negb (operand2 =? NULL))
       (emit (Ev_memcpy (amReq_addr E + offsetof_amo_operand2 G)
                        operand2 size)) ;;;
  amRequestCommon G E fuel node req (sizeof_amRequest_AMO G)
                  (negb delayBlocking) (Some tcip) ;;;
  when (negb (myResult =? result))
       (emit (Ev_memcpy result myResult size) ;;; freeBounceBuf myResult) ;;;
  tciFree tcip.

(** ** The RMA engine (comm-ofi.c:4156-4287, 4479-4579) *)

(** An [assert(p != NULL)] followed by a dereference of [p]: with [NULL]
    the program does not go on either way. *)
Definition assert_SOME {A} (o : option A) : comm A :=
  match o with Some a => ret a | None => abort end.

(** The local buffer, or a bounce buffer when it has no descriptor;
    [copy] says whether the data is copied into the bounce buffer. *)
Definition localOrBounceDesc (G : ofi_globals) (E : environ)
  (addr size : Z) (copy : bool) : comm Z :=
  match mrGetDesc G addr size with
  | Some _ => ret addr
  | None =>
      myAddr <- allocBounceBuf E size ;;
      _ <- CHK_SOME (mrGetDesc G myAddr size) ;;
      when copy (emit (Ev_memcpy myAddr addr size)) ;;;
      ret myAddr
  end.

Definition localOrBounceKey (G : ofi_globals) (E : environ)
  (addr size : Z) (copy : bool) : comm Z :=
  if negb (mrGetLocalKey G addr size) then
    myAddr <- allocBounceBuf E size ;;
    CHK_TRUE (mrGetLocalKey G myAddr size) ;;;
    when copy (emit (Ev_memcpy myAddr addr size)) ;;;
    ret myAddr
  else ret addr.

(** [ofi_put] for a transfer it does not split: the code after the
    [size > max_msg_size] test. *)
Definition ofi_put_xfer (G : ofi_globals) (E : environ) (fuel : nat)
  (addr node raddr size : Z) : comm unit :=
  match mrGetKey G node raddr size with
  | Some (mrKey, mrRaddr) =>
      myAddr <- localOrBounceDesc G E addr size true ;;
      tcip <- tciAlloc G E fuel ;;
      t <- get_tci tcip ;;
      (if haveDeliveryComplete G
          || negb (bound t)
          || (inject_size G <? size)
       then
         let ctx := txnTrkEncodeDone (txnDone_addr E) in
         emit (Ev_fi_write tcip myAddr size node mrRaddr mrKey
                 (if haveDeliveryComplete G then ctx else NULL)) ;;;
         incr_numTxnsOut tcip ;;;
         incr_numTxnsSent tcip ;;;
         when (negb (haveDeliveryComplete G))
           (ofi_get_ll G E fuel (orderDummy G) node (orderDummyMap G node)
                       1 ctx (Some tcip)) ;;;
         waitForTxnComplete E tcip ctx
       else
         emit (Ev_fi_inject_write tcip myAddr size node mrRaddr mrKey) ;;;
         incr_numTxnsSent tcip ;;;
         o <- get_comm_taskPrvdata ;;
         p <- assert_SOME o ;;
         let b := match putBitmap p with
                  | None => bitmapAlloc (chpl_numNodes G)
                  | Some b => b
                  end in
         set_prvData (Some (set_putBitmap (Some (bitmapSet b node)) p))) ;;;
      tciFree tcip ;;;
      when (negb (myAddr =? addr)) (freeBounceBuf myAddr)
  | None =>
      myAddr <- localOrBounceKey G E addr size true ;;
      amRequestRMA G E fuel node am_opGet myAddr raddr size ;;;
      when (negb (myAddr =? addr)) (freeBounceBuf myAddr)
  end.

(** The loop [for (size_t i = 0; i < size; i += chunkSize)] both
    functions use to split a transfer; [xfer off len] is the recursive
    call on the chunk at offset [off]. *)
Fixpoint splitLoop (k : nat) (xfer : Z -> Z -> comm unit)
  (size i chunkSize : Z) : comm unit :=
  if i <? size then
    match k with
    | O => fun _ => OutOfFuel
    | S k' =>
        let chunkSize := if size - i <? chunkSize then size - i
                         else chunkSize in
        xfer i chunkSize ;;;
        splitLoop k' xfer size (i + chunkSize) chunkSize
    end
  else ret tt.

Fixpoint ofi_put (G : ofi_globals) (E : environ) (fuel : nat)
  (addr node raddr size : Z) : comm unit :=
  match fuel with
  | O => fun _ => OutOfFuel
  | S fuel' =>
      if max_msg_size G <? size then
        splitLoop fuel'
          (fun i chunkSize =>
             ofi_put G E fuel' (addr + i) node (raddr + i) chunkSize)
          size 0 (max_msg_size G)
      else ofi_put_xfer G E fuel' addr node raddr size
  end.

(** [__LINE__] where [ofi_get] builds its id context. *)
Definition ofi_get_LINE : Z := 4527.

Definition ofi_get_xfer (G : ofi_globals) (E : environ) (fuel : nat)
  (addr node raddr size : Z) : comm unit :=
  myAddr <-
    match mrGetKey G node raddr size with
    | Some (mrKey, mrRaddr) =>
        myAddr <- localOrBounceDesc G E addr size false ;;
        tcip <- tciAlloc G E fuel ;;
        t <- get_tci tcip ;;
        let ctx := if txCQ t then txnTrkEncodeDone (txnDone_addr E)
                   else txnTrkEncodeId ofi_get_LINE in
        emit (Ev_fi_read tcip myAddr size node mrRaddr mrKey ctx) ;;;
        incr_numTxnsOut tcip ;;;
        incr_numTxnsSent tcip ;;;
        when (negb (haveDeliveryComplete G) && bound t)
          (o <- get_comm_taskPrvdata ;;
           p <- assert_SOME o ;;
           match putBitmap p with
           | Some b =>
               set_prvData
                 (Some (set_putBitmap (Some (bitmapClear b node)) p))
           | None => ret tt
           end) ;;;
        waitForTxnComplete E tcip ctx ;;;
        tciFree tcip ;;;
        ret myAddr
    | None =>
        myAddr <- localOrBounceKey G E addr size false ;;
        amRequestRMA G E fuel node am_opPut myAddr raddr size ;;;
        ret myAddr
    end ;;
  when (negb (myAddr =? addr))
    (emit (Ev_memcpy addr myAddr size) ;;; freeBounceBuf myAddr).

Fixpoint ofi_get (G : ofi_globals) (E : environ) (fuel : nat)
  (addr node raddr size : Z) : comm unit :=
  match fuel with
  | O => fun _ => OutOfFuel
  | S fuel' =>
      if max_msg_size G <? size then
        splitLoop fuel'
          (fun i chunkSize =>
             ofi_get G E fuel' (addr + i) node (raddr + i) chunkSize)
          size 0 (max_msg_size G)
      else ofi_get_xfer G E fuel' addr node raddr size
  end.

(** ** The public PUT and GET (comm-ofi.c:3795-3868)

    The communication callbacks and the diagnostics counters between the
    self-communication test and the call to [ofi_put]/[ofi_get] touch
    nothing modelled here. *)

Definition chpl_comm_put (G : ofi_globals) (E : environ) (fuel : nat)
  (addr node raddr size : Z) : comm unit :=
  retireDelayedAmDone E false ;;;
  CHK_TRUE (negb (addr =? NULL)) ;;;
  CHK_TRUE (negb (raddr =? NULL)) ;;;
  if size =? 0 then ret tt
  else if node =? chpl_nodeID G then emit (Ev_memmove raddr addr size)
  else ofi_put G E fuel addr node raddr size.

Definition chpl_comm_get (G : ofi_globals) (E : environ) (fuel : nat)
  (addr node raddr size : Z) : comm unit :=
  retireDelayedAmDone E false ;;;
  CHK_TRUE (negb (addr =? NULL)) ;;;
  CHK_TRUE (negb (raddr =? NULL)) ;;;
  if size =? 0 then ret tt
  else if node =? chpl_nodeID G then emit (Ev_memmove addr raddr size)
  else ofi_get G E fuel addr node raddr size.

(** ** Atomic memory operations (comm-ofi.c:4749-4862, 5515-5720) *)

(** A non-[NULL] operand or result buffer, or its bounce buffer. *)
Definition amoBounce (G : ofi_globals) (E : environ) (p size : Z)
  (copy : bool) : comm Z :=
  if negb (p =? NULL) then localOrBounceDesc G E p size copy else ret p.

(** [__LINE__] where [ofi_amo] builds its id context. *)
Definition ofi_amo_LINE : Z := 4791.

Definition ofi_amo (G : ofi_globals) (E : environ) (fuel : nat)
  (node object mrKey operand1 operand2 result : Z)
  (ofiOp : fi_op) (ofiType : fi_datatype) (size : Z) : comm unit :=
  myRes <- amoBounce G E result size false ;;
  myOpnd1 <- amoBounce G E operand1 size true ;;
  myOpnd2 <- amoBounce G E operand2 size true ;;
  tcip <- tciAlloc G E fuel ;;
  when (negb (fi_op_eqb ofiOp FI_ATOMIC_READ))
       (waitForPutsVisAllNodes G E fuel (Some tcip) false) ;;;
  t <- get_tci tcip ;;
  let ctx := if txCQ t then txnTrkEncodeDone (txnDone_addr E)
             else txnTrkEncodeId ofi_amo_LINE in
  (if fi_op_eqb ofiOp FI_CSWAP then
     emit (Ev_fi_compare_atomic tcip node object mrKey ofiOp ofiType ctx)
   else if negb (result =? NULL) then
     emit (Ev_fi_fetch_atomic tcip node object mrKey ofiOp ofiType ctx)
   else
     emit (Ev_fi_atomic tcip node object mrKey ofiOp ofiType ctx)) ;;;
  incr_numTxnsOut tcip ;;;
  incr_numTxnsSent tcip ;;;
  waitForTxnComplete E tcip ctx ;;;
  tciFree tcip ;;;
  when (negb (result =? NULL) && negb (myRes =? result))
       (emit (Ev_memcpy result myRes size) ;;; freeBounceBuf myRes) ;;;
  when (negb (myOpnd1 =? operand1)) (freeBounceBuf myOpnd1) ;;;
  when (negb (myOpnd2 =? operand2)) (freeBounceBuf myOpnd2).

Definition is_int_datatype (ty : fi_datatype) : bool :=
  match ty with
  | FI_INT32 | FI_UINT32 | FI_INT64 | FI_UINT64 => true
  | _ => false
  end.

(** The CPU atomic itself is one event; what is modelled is when the
    function performs it and when it ends the program. *)
Definition doCpuAMO (obj : Z) (ofiOp : fi_op) (ofiType : fi_datatype)
  (size : Z) : comm unit :=
  CHK_TRUE ((size =? 4) || (size =? 8)) ;;;
  match ofiOp with
  | FI_ATOMIC_WRITE | FI_ATOMIC_READ | FI_CSWAP =>
      emit (Ev_doCpuAMO obj ofiOp ofiType size)
  | FI_BAND | FI_BOR | FI_BXOR =>
      if is_int_datatype ofiType
      then emit (Ev_doCpuAMO obj ofiOp ofiType size)
      else abort
  | FI_SUM =>
      match ofiType with
      | FI_DATATYPE_OTHER => abort
      | _ => emit (Ev_doCpuAMO obj ofiOp ofiType size)
      end
  | FI_OP_OTHER => abort
  end.

Definition doAMO (G : ofi_globals) (E : environ) (fuel : nat)
  (node object operand1 operand2 result : Z)
  (ofiOp : fi_op) (ofiType : fi_datatype) (size : Z) : comm unit :=
  if chpl_numNodes G <=? 1 then doCpuAMO object ofiOp ofiType size
  else
    retireDelayedAmDone E false ;;;
    match (if isAtomicValid G ofiType
           then mrGetKey G node object size else None) with
    | None =>
        if node =? chpl_nodeID G then
          when (negb (fi_op_eqb ofiOp FI_ATOMIC_READ))
               (waitForPutsVisAllNodes G E fuel None false) ;;;
          doCpuAMO object ofiOp ofiType size
        else
          amRequestAMO G E fuel node object operand1 operand2 result
                       ofiOp ofiType size
    | Some (mrKey, mrRaddr) =>
        ofi_amo G E fuel node mrRaddr mrKey operand1 operand2 result
                ofiOp ofiType size
    end.

(** ** Reading traces *)

(** Calls that put traffic on the fabric. *)
Definition is_fabric_op (e : event) : bool :=
  match e with
  | Ev_fi_write _ _ _ _ _ _ _ | Ev_fi_inject_write _ _ _ _ _ _
  | Ev_fi_read _ _ _ _ _ _ _ | Ev_fi_send _ _ _ _ _
  | Ev_fi_inject _ _ _ _ | Ev_fi_atomic _ _ _ _ _ _ _
  | Ev_fi_fetch_atomic _ _ _ _ _ _ _
  | Ev_fi_compare_atomic _ _ _ _ _ _ _ => true
  | _ => false
  end.

(** Calls that write to memory other than the runtime's own records. *)
Definition is_memory_write (e : event) : bool :=
  match e with
  | Ev_memmove _ _ _ | Ev_memcpy _ _ _ | Ev_store _ _
  | Ev_doCpuAMO _ _ _ _ => true
  | _ => false
  end.

Definition is_cpu_amo (e : event) : bool :=
  match e with Ev_doCpuAMO _ _ _ _ => true | _ => false end.

(** Entries to the two PUT-visibility functions and the transmission of
    an AM request. *)
Definition is_vis_or_am_xmit (e : event) : bool :=
  match e with
  | Ev_waitForPutsVisAllNodes | Ev_waitForPutsVisOneNode _
  | Ev_fi_send _ _ _ _ _ | Ev_fi_inject _ _ _ _ => true
  | _ => false
  end.

(** The events a call added: those after the first [n] of the trace. *)
Definition added (w w' : world) : list event :=
  drop (length (trace w)) (trace w').

(** ** Vocabulary of the statements *)

(** [m] adds to the trace only events that satisfy [P], whether it
    returns or aborts. *)
Definition quiet {A} (P : event -> bool) (m : comm A) : Prop :=
  forall w,
    match m w with
    | Done _ w' | Aborted w' =>
        exists d, trace w' = trace w ++ d /\ forallb P d = true
    | OutOfFuel => True
    end.

Definition ev_none (e : event) : bool := false.

Definition ev_yield (e : event) : bool :=
  match e with Ev_local_yield => true | _ => false end.

Definition ev_bounce (e : event) : bool :=
  match e with
  | Ev_allocBounceBuf _ _ | Ev_freeBounceBuf _ | Ev_memcpy _ _ _ => true
  | _ => false
  end.

(** What forcing PUT visibility can add: dummy GETs, their waits, and
    yields. *)
Definition ev_release (e : event) : bool :=
  match e with
  | Ev_fi_read _ _ _ _ _ _ _ | Ev_waitForTxnComplete _ _
  | Ev_sched_yield | Ev_local_yield => true
  | _ => false
  end.

Definition ev_vis (e : event) : bool :=
  match e with
  | Ev_waitForPutsVisAllNodes | Ev_waitForPutsVisOneNode _ => true
  | _ => ev_release e
  end.

Definition is_wait (e : event) : bool :=
  match e with
  | Ev_waitForTxnComplete _ _ | Ev_amWaitForDone _ => true
  | _ => false
  end.

Definition is_am_xmit (e : event) : bool :=
  match e with
  | Ev_fi_send _ _ _ _ _ | Ev_fi_inject _ _ _ _ => true
  | _ => false
  end.

Definition is_net_atomic (e : event) : bool :=
  match e with
  | Ev_fi_atomic _ _ _ _ _ _ _ | Ev_fi_fetch_atomic _ _ _ _ _ _ _
  | Ev_fi_compare_atomic _ _ _ _ _ _ _ => true
  | _ => false
  end.

(** *** Transmit-context table *)

(** No entry of the worker sub-range [[0, n)] can be claimed. *)
Definition no_free (n : nat) (tab : list perTxCtxInfo_t) : Prop :=
  forall i, (i < n)%nat -> allocated (tciAt tab i) = true.

(** Every entry of the worker sub-range is bound. *)
Definition all_bound (n : nat) (tab : list perTxCtxInfo_t) : Prop :=
  forall i, (i < n)%nat -> bound (tciAt tab i) = true.

(** The table a worker that entered [findFreeTciTabEntry] with table
    [tab] and [y] yields behind it scans in its round [k] (rounds count
    from [0]), as long as its own scans claim nothing. *)
Fixpoint roundTab (E : environ) (y : nat) (tab : list perTxCtxInfo_t)
  (k : nat) : list perTxCtxInfo_t :=
  match k with
  | O => tab
  | S k' => roundTab E (S y) (others E y tab) k'
  end.

(** Every bound entry is allocated. *)
Definition bound_allocated (t : list perTxCtxInfo_t) : Prop :=
  forall i, bound (tciAt t i) = true -> allocated (tciAt t i) = true.

(** Entries bound in [t] are bound in [t']. *)
Definition bound_kept (t t' : list perTxCtxInfo_t) : Prop :=
  forall i, bound (tciAt t i) = true -> bound (tciAt t' i) = true.

(** [t'] keeps the binding discipline of [t]. *)
Definition binding_ok (t t' : list perTxCtxInfo_t) : Prop :=
  bound_allocated t -> bound_allocated t' /\ bound_kept t t'.

(** What the other threads do during a yield keeps both. *)
Definition env_respects_binding (E : environ) : Prop :=
  forall k t,
    bound_allocated t ->
    bound_allocated (others E k t) /\ bound_kept t (others E k t).

(** A call into the table by some thread: its thread-local [_ttcip] and
    yield count are its own, the table is shared. *)
Inductive tci_call :=
| call_tciAllocCommon (E : environ) (fuel : nat) (bindToAmHandler : bool)
                      (ttcip : option nat) (y : nat)
| call_tciFree (tcip : nat).

Definition world_of (tab : list perTxCtxInfo_t) (ttcip : option nat)
  (y : nat) : world :=
  {| tciTab := tab; _ttcip := ttcip; prvData := None; yields := y;
     trace := [] |}.

(** The table after the call; [None] when the call does not return. *)
Definition run_call (G : ofi_globals) (c : tci_call)
  (tab : list perTxCtxInfo_t) : option (list perTxCtxInfo_t) :=
  match c with
  | call_tciAllocCommon E fuel b ttcip y =>
      match tciAllocCommon G E fuel b (world_of tab ttcip y) with
      | Done _ w' => Some (tciTab w')
      | _ => None
      end
  | call_tciFree tcip =>
      match tciFree tcip (world_of tab None O) with
      | Done _ w' => Some (tciTab w')
      | _ => None
      end
  end.

Fixpoint run_calls (G : ofi_globals) (cs : list tci_call)
  (tab : list perTxCtxInfo_t) : option (list perTxCtxInfo_t) :=
  match cs with
  | [] => Some tab
  | c :: cs' =>
      match run_call G c tab with
      | Some t => run_calls G cs' t
      | None => None
      end
  end.

Definition call_env_ok (c : tci_call) : Prop :=
  match c with
  | call_tciAllocCommon E _ _ _ _ => env_respects_binding E
  | call_tciFree _ => True
  end.

(** *** More event classes *)

Definition ev_amWait (e : event) : bool :=
  match e with Ev_amWaitForDone _ => true | _ => false end.

(** Setting up the done flag: a bounce buffer and the store of [0]. *)
Definition ev_setup (e : event) : bool :=
  match e with Ev_store _ _ => true | _ => ev_bounce e end.

(** After the transmission: bounce buffers freed, the done flag
    awaited. *)
Definition ev_finish (e : event) : bool :=
  match e with Ev_amWaitForDone _ => true | _ => ev_bounce e end.

(** Everything [amRequestCommon] can add. *)
Definition ev_amRequest (e : event) : bool :=
  ev_setup e || ev_finish e || ev_vis e || is_am_xmit e.

(** Everything [ofi_put] and [ofi_get] can add. *)
Definition ev_rma (e : event) : bool :=
  match e with
  | Ev_fi_write _ _ _ _ _ _ _ | Ev_fi_inject_write _ _ _ _ _ _ => true
  | _ => ev_amRequest e
  end.

(** Everything [ofi_amo] can add. *)
Definition ev_amo (e : event) : bool :=
  is_net_atomic e || ev_bounce e || ev_vis e.

(** *** Splitting a transfer *)

(** The chunks the loop of [splitLoop] issues, as [(offset, length)]:
    [splitLoop] with the transfer itself left out. *)
Fixpoint loopChunks (k : nat) (size i chunkSize : Z)
  : option (list (Z * Z)) :=
  if i <? size then
    match k with
    | O => None
    | S k' =>
        let chunkSize := if size - i <? chunkSize then size - i
                         else chunkSize in
        match loopChunks k' size (i + chunkSize) chunkSize with
        | Some cs => Some ((i, chunkSize) :: cs)
        | None => None
        end
    end
  else Some [].

(** The recursive calls, one per chunk, in order. *)
Fixpoint runChunks (xfer : Z -> Z -> comm unit) (cs : list (Z * Z))
  : comm unit :=
  match cs with
  | [] => ret tt
  | (off, len) :: cs' => xfer off len ;;; runChunks xfer cs'
  end.

(** The spec's words: [cs] is a list of non-empty chunks, each starting
    where the one before ended, that goes from offset [a] to offset [b]
    exactly: no gap, no overlap, no tail. *)
Inductive covers : Z -> Z -> list (Z * Z) -> Prop :=
| covers_nil a : covers a a []
| covers_cons a b len cs :
    0 < len -> covers (a + len) b cs -> covers a b ((a, len) :: cs).

(** Memory as bytes by address. *)
Definition memory := Z -> Z.

(** One logical transfer of [n] bytes from [saddr] in [src] to [daddr]
    in [dst]: the target memory afterwards. *)
Definition transfer (src dst : memory) (saddr daddr n : Z) : memory :=
  fun a => if (daddr <=? a) && (a <? daddr + n)
           then src (saddr + (a - daddr))
           else dst a.

(** The transfers of the chunks, one after the other. *)
Fixpoint transferChunks (src dst : memory) (saddr daddr : Z)
  (cs : list (Z * Z)) : memory :=
  match cs with
  | [] => dst
  | (off, len) :: cs' =>
      transferChunks src (transfer src dst (saddr + off) (daddr + off) len)
                     saddr daddr cs'
  end.

(** *** The MCM step of an AM request, in the spec's words

    Before an executeOn or a mutating AMO: all nodes.  Before a proxy
    GET or PUT: the one target node.  Before anything else: nothing. *)
Definition mcm_markers (node : Z) (req : amRequest_t) : list event :=
  match b_op req with
  | am_opExecOn | am_opExecOnLrg => [Ev_waitForPutsVisAllNodes]
  | am_opAMO =>
      match amo_ofiOp req with
      | FI_ATOMIC_READ => []
      | _ => [Ev_waitForPutsVisAllNodes]
      end
  | am_opGet | am_opPut => [Ev_waitForPutsVisOneNode node]
  | am_opFree | am_opNop | am_opShutdown => []
  end.

(** *** PUT in message-order mode *)

(** Fabric calls and waits: what a PUT issues and what it blocks on. *)
Definition is_put_traffic (e : event) : bool := is_fabric_op e || is_wait e.

(** The bitmap has a word for bit [i]. *)
Definition bitmap_has_room (b : bitmap_t) (i : Z) : Prop :=
  0 <= i /\ (Z.to_nat (bitmapElemIdx i) < length (b_map b))%nat.

(** The rule for one call of [ofi_put] that returns, for a remote
    address with an MR key: on a bound context and with [size] at most
    [inject_size], one [fi_inject_write], no wait, and the node's bit set
    in the task's bitmap (allocated now if there was none); otherwise
    one [fi_write], then the one-byte [fi_read] from the same node into
    [orderDummy], then the wait for that read. *)
Definition mo_put_discipline (G : ofi_globals) (E : environ) (fuel : nat)
  (addr node raddr size : Z) (w : world) : Prop :=
  forall w',
    ofi_put G E fuel addr node raddr size w = Done tt w' ->
    exists tcip myAddr key off,
      mrGetKey G node raddr size = Some (key, off)
      /\ if bound (tciAt (tciTab w') tcip) && (size <=? inject_size G)
         then
           List.filter is_put_traffic (added w w')
           = [Ev_fi_inject_write tcip myAddr size node off key]
           /\ exists p,
               prvData w = Some p
               /\ let b := match putBitmap p with
                           | None => bitmapAlloc (chpl_numNodes G)
                           | Some b => b
                           end in
                  prvData w'
                  = Some (set_putBitmap (Some (bitmapSet b node)) p)
                  /\ (bitmap_has_room b node ->
                      bitmapTest (bitmapSet b node) node = true)
         else
           exists dkey doff,
             mrGetKey G node (orderDummyMap G node) 1 = Some (dkey, doff)
             /\ List.filter is_put_traffic (added w w')
                = [Ev_fi_write tcip myAddr size node off key NULL;
                   Ev_fi_read tcip (orderDummy G) 1 node doff dkey
                     (txnTrkEncodeDone (txnDone_addr E));
                   Ev_waitForTxnComplete tcip
                     (txnTrkEncodeDone (txnDone_addr E))].

(** [m], when it returns, leaves the world related by [R]. *)
Definition preserves {A} (R : world -> world -> Prop) (m : comm A) : Prop :=
  forall w a w', m w = Done a w' -> R w w'.

Definition same_bound (w w' : world) : Prop :=
  forall i, bound (tciAt (tciTab w') i) = bound (tciAt (tciTab w) i).

Definition same_prvData (w w' : world) : Prop := prvData w' = prvData w.

(** Relations for which [preserves] composes: reflexive and
    transitive. *)
Definition composes (R : world -> world -> Prop) : Prop :=
  (forall w, R w w) /\ (forall w1 w2 w3, R w1 w2 -> R w2 w3 -> R w1 w3).

(** ** A concrete configuration

    Two nodes, message-order mode, a provider with a message limit of
    1000 bytes and an inject limit of 64 bytes, two worker contexts and
    one for the AM handler, scalable memory registration (every address
    has a key). *)
Definition G_demo : ofi_globals :=
  {| chpl_nodeID := 0; chpl_numNodes := 2;
     haveDeliveryComplete := false;
     max_msg_size := 1000; inject_size := 64;
     tciTabLen := 3; numAmHandlers := 1;
     tciTabFixedAssignments := true; txCQLen := 100;
     scalableMemReg := true; memTab := []; memTabMap := fun _ => [];
     orderDummy := 4096; orderDummyMap := fun _ => 4096;
     isAtomicValid := fun _ => true;
     sizeof_amRequest_RMA := 48; sizeof_amRequest_AMO := 72;
     offsetof_amo_operand1 := 40; offsetof_amo_operand2 := 48 |}.

(** The same job on one node. *)
Definition G_single : ofi_globals :=
  {| chpl_nodeID := 0; chpl_numNodes := 1;
     haveDeliveryComplete := false;
     max_msg_size := 1000; inject_size := 64;
     tciTabLen := 3; numAmHandlers := 1;
     tciTabFixedAssignments := true; txCQLen := 100;
     scalableMemReg := true; memTab := []; memTabMap := fun _ => [];
     orderDummy := 4096; orderDummyMap := fun _ => 4096;
     isAtomicValid := fun _ => true;
     sizeof_amRequest_RMA := 48; sizeof_amRequest_AMO := 72;
     offsetof_amo_operand1 := 40; offsetof_amo_operand2 := 48 |}.

(** A completion queue that delivers: a wait for a transaction returns
    when the completions of all the context has in flight are in, and
    has reaped them; any other read of the queue finds nothing. *)
Definition cq_at_wait (tr : list event) (out : Z) : Z :=
  match last tr with
  | Some (Ev_waitForTxnComplete _ _) => out
  | _ => 0
  end.

(** The other threads leave the table alone. *)
Definition E_demo : environ :=
  {| others := fun _ t => t;
     cqEvents := cq_at_wait;
     eagain := fun _ => O;
     bounceBuf := fun _ _ => 8192;
     chpl_task_isFixedThread := true;
     amDone_addr := 512; txnDone_addr := 520;
     prvAmDone_addr := 528; amReq_addr := 536 |}.

(** During the first yield another thread releases entry 1. *)
Definition E_release : environ :=
  {| others := fun k t =>
                 match k with
                 | O => <[1%nat := set_allocated false (tciAt t 1)]> t
                 | _ => t
                 end;
     cqEvents := cq_at_wait;
     eagain := fun _ => O;
     bounceBuf := fun _ _ => 8192;
     chpl_task_isFixedThread := false;
     amDone_addr := 512; txnDone_addr := 520;
     prvAmDone_addr := 528; amReq_addr := 536 |}.

Definition tci_mk (a b : bool) : perTxCtxInfo_t :=
  {| allocated := a; bound := b; txCQ := true;
     numTxnsOut := 0; numTxnsSent := 0 |}.

Definition prv_fresh : chpl_comm_taskPrvData_t :=
  {| putBitmap := None; amDonePending := false; taskIsEnding := false |}.

(** A task on a thread that owns the bound context 0. *)
Definition w_bound : world :=
  {| tciTab := [tci_mk true true; tci_mk false false; tci_mk true true];
     _ttcip := Some O; prvData := Some prv_fresh; yields := O;
     trace := [] |}.

(** A task on a thread with no context yet; both worker contexts are in
    use by other threads, neither is bound. *)
Definition w_busy : world :=
  {| tciTab := [tci_mk true false; tci_mk true false; tci_mk true true];
     _ttcip := None; prvData := Some prv_fresh; yields := O;
     trace := [] |}.

(** A task on a thread with no context yet; both worker contexts free. *)
Definition w_free : world :=
  {| tciTab := [tci_mk false false; tci_mk false false; tci_mk true true];
     _ttcip := None; prvData := Some prv_fresh; yields := O;
     trace := [] |}.

(** The world a run ends in ([w0] when it runs out of fuel). *)
Definition world_after {A} (o : outcome A) (w0 : world) : world :=
  match o with
  | Done _ w | Aborted w => w
  | OutOfFuel => w0
  end.

(** What a worker's search does, round by round, where [T k] is the
    table its [k]-th scan sees and [n] the number of worker contexts:
    it aborts in round [k] only if that scan found all [n] entries
    allocated and all of them bound; it returns [i] in round [k] only if
    entry [i] of the sub-range was free, and is allocated afterwards;
    either way every round before [k] found no free entry and some
    unbound one, and was followed by a yield; it runs out of fuel only
    if every round did. *)
Definition worker_search_rounds (G : ofi_globals) (E : environ)
  (fuel : nat) (w : world) : Prop :=
  let n := numWorkerTxCtxs G in
  let T := roundTab E (yields w) (tciTab w) in
  match findFreeTciTabEntry G E fuel false w with
  | Aborted w' =>
      exists k, (k < fuel)%nat
        /\ (forall j, (j < k)%nat -> no_free n (T j) /\ ~ all_bound n (T j))
        /\ no_free n (T k) /\ all_bound n (T k)
        /\ tciTab w' = T k
  | Done i w' =>
      exists k, (k < fuel)%nat
        /\ (forall j, (j < k)%nat -> no_free n (T j) /\ ~ all_bound n (T j))
        /\ (i < n)%nat
        /\ allocated (tciAt (T k) i) = false
        /\ tciTab w' = <[i := set_allocated true (tciAt (T k) i)]> (T k)
        /\ yields w' = (yields w + k)%nat
        /\ trace w' = trace w ++ repeat Ev_local_yield k
  | OutOfFuel =>
      forall j, (j < fuel)%nat -> no_free n (T j) /\ ~ all_bound n (T j)
  end.

(** A split transfer and the one logical transfer it stands for: there
    is a list [cs] of chunks, non-empty, none longer than
    [max_msg_size], going from offset [0] to offset [size] with no gap,
    overlap or tail, such that [ofi_put] and [ofi_get] run as the
    unsplit transfer on each chunk in order, at both addresses moved by
    the chunk's offset, and such that the chunk transfers leave the
    target memory byte for byte as one transfer of [size] bytes does
    (PUT: from [addr] to [raddr]; GET: from [raddr] to [addr]). *)
Definition split_refines (G : ofi_globals) (E : environ) (fuel : nat)
  (addr node raddr size : Z) (w : world) : Prop :=
  exists cs,
    covers 0 size cs
    /\ Forall (fun ch => 0 < snd ch <= max_msg_size G) cs
    /\ ofi_put G E (S (S fuel)) addr node raddr size w
       = runChunks
           (fun off len =>
              ofi_put_xfer G E fuel (addr + off) node (raddr + off) len)
           cs w
    /\ ofi_get G E (S (S fuel)) addr node raddr size w
       = runChunks
           (fun off len =>
              ofi_get_xfer G E fuel (addr + off) node (raddr + off) len)
           cs w
    /\ (forall src dst a,
           transferChunks src dst addr raddr cs a
           = transfer src dst addr raddr size a)
    /\ (forall src dst a,
           transferChunks src dst raddr addr cs a
           = transfer src dst raddr addr size a).

(** The steps of [amRequestCommon] before the transmission
    (comm-ofi.c:3034-3117); they yield [pAmDone], [myTcip] and
    [myReq]. *)
Definition amRequest_prepare (G : ofi_globals) (E : environ) (fuel : nat)
  (node : Z) (req : amRequest_t) (reqSize : Z) (ppAmDone : bool)
  (tcip : option nat) : comm (Z * nat * Z) :=
  pAmDone <- amRequest_setUpDone G E ppAmDone ;;
  myTcip <- tcipOrAlloc G E fuel tcip ;;
  myReq <- amRequest_bounceReq G E req reqSize ;;
  amRequest_mcm G E fuel node req myTcip ;;;
  ret (pAmDone, myTcip, myReq).

(** [numTxnsOut] after [n] successive reads of the completion queue
    with the history at [tr], starting from [out]. *)
Fixpoint reaped (E : environ) (tr : list event) (n : nat) (out : Z) : Z :=
  match n with
  | O => out
  | S n' => reaped E tr n' (u64 (out - cqEvents E tr out))
  end.

(** A read of the completion queue returns completions of transactions
    in flight: no more than there are. *)
Definition cq_sane (E : environ) : Prop :=
  forall tr out, 0 <= out -> 0 <= cqEvents E tr out <= out.

(** How a call of [amRequestCommon] that took the world from [w] to
    [w'] transmitted the request.  [w1] is the world the steps before
    the transmission left, [w2] the world the transmission left, and
    [myTcip] the context, an entry of the table.  The request was
    transmitted once, between [w1] and [w2]: by [fi_inject] when no
    done flag was asked for and the request is at most [inject_size]
    long, by [fi_send] followed by the wait for its completion
    otherwise.  In both cases [numTxnsSent] went up by one.
    [numTxnsOut] was first lowered by what the retries of the call
    reaped, to [out]; the inject added nothing to it; the send added
    one, and the wait then took off what it reaped. *)
Definition am_inject_rule (G : ofi_globals) (E : environ) (fuel : nat)
  (node : Z) (req : amRequest_t) (reqSize : Z) (ppAmDone : bool)
  (tcip : option nat) (w w' : world) : Prop :=
  exists pAmDone myTcip myReq w1 w2,
    amRequest_prepare G E fuel node req reqSize ppAmDone tcip w
    = Done (pAmDone, myTcip, myReq) w1
    /\ amRequest_xmit G E node myReq reqSize pAmDone myTcip w1 = Done tt w2
    /\ amRequest_finish E req tcip myTcip myReq pAmDone w2 = Done tt w'
    /\ List.filter is_am_xmit (added w w1) = []
    /\ List.filter is_am_xmit (added w2 w') = []
    /\ (myTcip < length (tciTab w1))%nat
    /\ let t1 := tciAt (tciTab w1) myTcip in
       let t2 := tciAt (tciTab w2) myTcip in
       let out := reaped E (trace w1) (eagain E (trace w1)) (numTxnsOut t1) in
       let ctx := txnTrkEncodeDone (txnDone_addr E) in
       numTxnsSent t2 = u64 (numTxnsSent t1 + 1)
       /\ (cq_sane E -> 0 <= numTxnsOut t1 < 2 ^ 64 ->
           0 <= out <= numTxnsOut t1)
       /\ if negb ppAmDone && (reqSize <=? inject_size G)
          then added w1 w2 = [Ev_fi_inject myTcip myReq reqSize node]
               /\ numTxnsOut t2 = out
          else added w1 w2 = [Ev_fi_send myTcip myReq reqSize node ctx;
                              Ev_waitForTxnComplete myTcip ctx]
               /\ numTxnsOut t2
                  = u64 (u64 (out + 1)
                         - cqEvents E (trace w2) (u64 (out + 1))).

(** *** Self-communication and zero-size calls *)

(** The events by which an AMO is carried out: on the CPU or by the
    network. *)
Definition is_amo_exec (e : event) : bool := is_cpu_amo e || is_net_atomic e.

(** Traffic on the fabric and writes to memory. *)
Definition is_traffic_or_write (e : event) : bool :=
  is_fabric_op e || is_memory_write e.

(** The AMO is one the network can do: the type is valid for network
    atomics and the object has an MR key on the target node. *)
Definition amo_is_native (G : ofi_globals) (node obj : Z)
  (ty : fi_datatype) (size : Z) : bool :=
  isAtomicValid G ty
  && match mrGetKey G node obj size with Some _ => true | None => false end.

(** The claim about an AMO on the caller's own node, for one call: it
    is carried out by [doCpuAMO], and by nothing else. *)
Definition self_amo_on_cpu (G : ofi_globals) (E : environ) (fuel : nat)
  (obj operand1 operand2 result : Z) (op : fi_op) (ty : fi_datatype)
  (size : Z) (w : world) : Prop :=
  forall w',
    doAMO G E fuel (chpl_nodeID G) obj operand1 operand2 result op ty size w
    = Done tt w' ->
    List.filter is_amo_exec (added w w') = [Ev_doCpuAMO obj op ty size].

(** The claim about a zero-size call, for one call: it returns, having
    put nothing on the fabric and written no memory. *)
Definition returns_untouched (m : comm unit) (w : world) : Prop :=
  exists w',
    m w = Done tt w'
    /\ List.filter is_traffic_or_write (added w w') = [].

(** Events beside the transmission of an AM request, and beside the
    network atomic of [ofi_amo]. *)
Definition ev_am_side (e : event) : bool :=
  ev_setup e || ev_finish e || ev_vis e.

Definition ev_amo_side (e : event) : bool := ev_bounce e || ev_vis e.

(** The two-node configuration with basic registration and no region
    registered: no address has a key. *)
Definition G_nokey : ofi_globals :=
  {| chpl_nodeID := 0; chpl_numNodes := 2;
     haveDeliveryComplete := false;
     max_msg_size := 1000; inject_size := 64;
     tciTabLen := 3; numAmHandlers := 1;
     tciTabFixedAssignments := true; txCQLen := 100;
     scalableMemReg := false; memTab := []; memTabMap := fun _ => [];
     orderDummy := 4096; orderDummyMap := fun _ => 4096;
     isAtomicValid := fun _ => true;
     sizeof_amRequest_RMA := 48; sizeof_amRequest_AMO := 72;
     offsetof_amo_operand1 := 40; offsetof_amo_operand2 := 48 |}.

(** Requests for the examples. *)
Definition req_nop : amRequest_t :=
  {| b_op := am_opNop; amo_ofiOp := FI_OP_OTHER; req_addr := 536 |}.

Definition req_execOn : amRequest_t :=
  {| b_op := am_opExecOn; amo_ofiOp := FI_OP_OTHER; req_addr := 536 |}.

(** The other threads leave the table alone; the caller is not a fixed
    thread. *)
Definition E_plain : environ :=
  {| others := fun _ t => t;
     cqEvents := cq_at_wait;
     eagain := fun _ => O;
     bounceBuf := fun _ _ => 8192;
     chpl_task_isFixedThread := false;
     amDone_addr := 512; txnDone_addr := 520;
     prvAmDone_addr := 528; amReq_addr := 536 |}.

(** The table as initialisation leaves it. *)
Definition tab_init : list perTxCtxInfo_t :=
  [tci_mk false false; tci_mk false false; tci_mk false false].

(** A fixed thread takes a context (which binds it) and frees it; a
    thread that is not fixed takes one and frees it; the AM handler
    takes its own. *)
Definition calls_demo : list tci_call :=
  [call_tciAllocCommon E_demo 3 false None O;
   call_tciFree 1;
   call_tciAllocCommon E_plain 3 false None O;
   call_tciFree 0;
   call_tciAllocCommon E_plain 3 true None O].

(** The task of [w_bound] after an injected PUT to node 1: bit 1 of its
    bitmap is set. *)
Definition w_pending : world :=
  {| tciTab := [tci_mk true true; tci_mk false false; tci_mk true true];
     _ttcip := Some O;
     prvData := Some {| putBitmap := Some {| b_len := 2; b_map := [2] |};
                        amDonePending := false; taskIsEnding := false |};
     yields := O; trace := [] |}.

Definition req_free : amRequest_t :=
  {| b_op := am_opFree; amo_ofiOp := FI_OP_OTHER; req_addr := 536 |}.

Definition req_get : amRequest_t :=
  {| b_op := am_opGet; amo_ofiOp := FI_OP_OTHER; req_addr := 536 |}.

(** * More of the file *)

(** ** Bitmaps: sizes, zeroing and iteration (comm-ofi.c:604-657) *)

Definition sizeof_bitmapBaseType_t : Z := 8.

Definition bitmapSizeofMap (len : Z) : Z :=
  u64 (bitmapNumElems len * sizeof_bitmapBaseType_t).

(** [offsetof(struct bitmap_t, map)] is the size of the [size_t] before
    it. *)
Definition bitmapSizeof (len : Z) : Z := u64 (8 + bitmapSizeofMap len).

(** [memset(&b->map, 0, bitmapSizeofMap(b->len))]: the first
    [bitmapNumElems(b->len)] words become [0]. *)
Definition bitmapZero (b : bitmap_t) : bitmap_t :=
  {| b_len := b_len b;
     b_map := imap (fun k x =>
                      if (Z.of_nat k <? bitmapNumElems (b_len b)) then 0
                      else x)
                   (b_map b) |}.

(** The inner loop of [BITMAP_FOREACH_SET]:
    [for (_bi = bi; _bi < _bi_end; _bi++)] with [n] iterations to go,
    over the word [_ei]; the indices [i] it hands to the body. *)
Fixpoint BITMAP_FOREACH_SET_bits (b : bitmap_t) (ei : Z) (n : nat)
  (bi : Z) : list Z :=
  match n with
  | O => []
  | S n' =>
      (if negb (Z.land (bitmapElem b ei) (bitmapElemBit bi) =? 0)
       then [ei * bitmapElemWidth + bi]
       else [])
      ++ BITMAP_FOREACH_SET_bits b ei n' (bi + 1)
  end.

(** The outer loop:
    [for (_ei = ei; _ei < _eCnt; _ei++, _bCnt -= _eWid)] with [n]
    iterations to go. *)
Fixpoint BITMAP_FOREACH_SET_elems (b : bitmap_t) (n : nat)
  (ei bCnt : Z) : list Z :=
  match n with
  | O => []
  | S n' =>
      (if negb (bitmapElem b ei =? 0) then
         let bi_end := if bitmapElemWidth <? bCnt then bitmapElemWidth
                       else bCnt in
         BITMAP_FOREACH_SET_bits b ei (Z.to_nat bi_end) 0
       else [])
      ++ BITMAP_FOREACH_SET_elems b n' (ei + 1) (u64 (bCnt - bitmapElemWidth))
  end.

(** [BITMAP_FOREACH_SET(b, i)] for a body that leaves the bitmap alone:
    the values of [i] the body runs with, in order. *)
Definition BITMAP_FOREACH_SET (b : bitmap_t) : list Z :=
  BITMAP_FOREACH_SET_elems b (Z.to_nat (bitmapNumElems (b_len b))) 0
                           (b_len b).

(** ** Vocabulary: memory regions *)

(** The whole range [[addr, addr + size)] lies in the region. *)
Definition me_covers (mr : memEntry) (addr size : Z) : Prop :=
  me_addr mr <= addr /\ addr + size <= me_addr mr + me_size mr.

(** The range [[addr, addr + size)] lies in the 64-bit address space:
    its end does not wrap. *)
Definition range_in_space (addr size : Z) : Prop :=
  0 <= addr /\ 0 <= size /\ addr + size < 2 ^ 64.

Definition region_in_space (mr : memEntry) : Prop :=
  range_in_space (me_addr mr) (me_size mr).

(** What a look-up in a table says about the table. *)
Definition first_covering (tab : memTab_t) (addr size : Z)
  (r : option memEntry) : Prop :=
  match r with
  | Some mr =>
      exists pre post,
        tab = pre ++ mr :: post
        /\ me_covers mr addr size
        /\ Forall (fun e => ~ me_covers e addr size) pre
  | None => Forall (fun e => ~ me_covers e addr size) tab
  end.

(** Two regions, of 100 and of 4096 bytes. *)
Definition tab_two : memTab_t :=
  [{| me_addr := 4096; me_base := 4096; me_size := 100;
      me_desc := 1; me_key := 7 |};
   {| me_addr := 8192; me_base := 8192; me_size := 4096;
      me_desc := 2; me_key := 9 |}].

(** Basic registration with [tab_two] as every node's table. *)
Definition G_two : ofi_globals :=
  {| chpl_nodeID := 0; chpl_numNodes := 2;
     haveDeliveryComplete := false;
     max_msg_size := 1000; inject_size := 64;
     tciTabLen := 3; numAmHandlers := 1;
     tciTabFixedAssignments := true; txCQLen := 100;
     scalableMemReg := false; memTab := tab_two;
     memTabMap := fun _ => tab_two;
     orderDummy := 4096; orderDummyMap := fun _ => 4096;
     isAtomicValid := fun _ => true;
     sizeof_amRequest_RMA := 48; sizeof_amRequest_AMO := 72;
     offsetof_amo_operand1 := 40; offsetof_amo_operand2 := 48 |}.

(** ** Transmit completions (comm-ofi.c:4995-5013) *)

(** [trk.typ] as [txnTrkDecode] computes it, before it is read as a
    [txnTrkType_t]. *)
Definition txnTrkDecode_typ (ctx : Z) : Z :=
  Z.land (Z.shiftr (u64 ctx) TXNTRK_ADDR_BITS) TXNTRK_TYPE_MASK.

(** The loop of [checkTxCmplsCQ] over the [op_context]s of the entries
    [readCQ] returned: the addresses of the done flags it stores [true]
    to, in order; [None] where it reaches [INTERNAL_ERROR_V]. *)
Fixpoint checkTxCmplsCQ_loop (cqes : list Z) : option (list Z) :=
  match cqes with
  | [] => Some []
  | op_context :: cqes' =>
      let trk_typ := txnTrkDecode_typ op_context in
      let trk_ptr := ptr (txnTrkDecode op_context) in
      if trk_typ =? txnTrkType_val txnTrkDone then
        match checkTxCmplsCQ_loop cqes' with
        | Some stores => Some (trk_ptr :: stores)
        | None => None
        end
      else if negb (trk_typ =? txnTrkType_val txnTrkId) then None
      else checkTxCmplsCQ_loop cqes'
  end.

(** [checkTxCmplsCQ]: [tcip->numTxnsOut] afterwards and the flags
    stored to. *)
Definition checkTxCmplsCQ (numTxnsOut : Z) (cqes : list Z)
  : option (Z * list Z) :=
  let numEvents := Z.of_nat (length cqes) in
  match checkTxCmplsCQ_loop cqes with
  | Some stores => Some (u64 (numTxnsOut - numEvents), stores)
  | None => None
  end.

(** The done flags among tagged contexts. *)
Definition done_ptrs (tagged : list (txnTrkType_t * Z)) : list Z :=
  List.map snd
    (List.filter (fun tp => match fst tp with
                            | txnTrkDone => true
                            | txnTrkId => false
                            end) tagged).

(** ** The barrier tree (comm-ofi.c:5862-5892, 5945, 5973) *)

Definition BAR_TREE_NUM_CHILDREN : Z := 64.

Record bar_t := {
  bar_childFirst : Z;
  bar_numChildren : Z;
  bar_parent : Z
}.

(** The three statics [init_bar] sets on node [nodeID] of [numNodes].
    [c_nodeid_t] is [int32_t]; the division truncates.  The sums and
    the product are the code's as long as they fit in an [int32_t],
    that is for [64 * nodeID + 65] below [2 ^ 31]. *)
Definition init_bar (nodeID numNodes : Z) : bar_t :=
  let childFirst := BAR_TREE_NUM_CHILDREN * nodeID + 1 in
  let numChildren :=
    if numNodes <=? childFirst then 0
    else if numNodes <=? childFirst + BAR_TREE_NUM_CHILDREN
         then numNodes - childFirst
         else BAR_TREE_NUM_CHILDREN in
  {| bar_childFirst := childFirst;
     bar_numChildren := numChildren;
     bar_parent := Z.quot (nodeID - 1) BAR_TREE_NUM_CHILDREN |}.

(** [parChild] in [chpl_comm_barrier]: the slot of [child_notify] a node
    sets in its parent. *)
Definition bar_parChild (nodeID : Z) : Z :=
  Z.rem (nodeID - 1) BAR_TREE_NUM_CHILDREN.

(** [child] in the release loop of [chpl_comm_barrier]. *)
Definition bar_child (t : bar_t) (i : Z) : Z := bar_childFirst t + i.

(** ** Numbers of contexts (comm-ofi.c:1737-1816) *)

(** What [init_ofiEpNumCtxs] reads. *)
Record numCtxs_in := {
  in_numAmHandlers : Z;
  in_useScalableTxEp : bool;
  in_max_ep_tx_ctx : Z;        (* dom_attr->max_ep_tx_ctx *)
  in_ep_cnt : Z;               (* dom_attr->ep_cnt *)
  in_max_ep_rx_ctx : Z;        (* dom_attr->max_ep_rx_ctx *)
  in_commConcurrency : Z;      (* chpl_env_rt_get_int("COMM_CONCURRENCY", 0) *)
  in_fixedNumThreads : Z;      (* chpl_task_getFixedNumThreads() *)
  in_taskMaxPar : Z            (* chpl_task_getMaxPar() *)
}.

(** What it sets. *)
Record numCtxs_out := {
  out_numTxCtxs : Z;
  out_numRxCtxs : Z;
  out_tciTabFixedAssignments : bool;
  out_tx_ctx_cnt : option Z    (* ofi_info->ep_attr->tx_ctx_cnt, if set *)
}.

(** The [int] that holds a wider value after an assignment: its low 32
    bits, read as two's complement. *)
Definition int_of (x : Z) : Z := (x + 2 ^ 31) mod 2 ^ 32 - 2 ^ 31.

(** [None] where a [CHK_TRUE] fails.  The warning for a negative
    [COMM_CONCURRENCY] is left out.  The provider's limits are [size_t]
    and so is their difference with [numAmHandlers]; [maxWorkerTxCtxs],
    [numTxCtxs] and the other counts are [int]. *)
Definition init_ofiEpNumCtxs (i : numCtxs_in) : option numCtxs_out :=
  if negb (in_numAmHandlers i =? 1) then None else
  let maxWorkerTxCtxs :=
    if in_useScalableTxEp i
    then int_of (u64 (in_max_ep_tx_ctx i - u64 (in_numAmHandlers i)))
    else int_of (u64 (in_ep_cnt i - u64 (in_numAmHandlers i))) in
  if negb (0 <? maxWorkerTxCtxs) then None else
  let maxWorkerTxCtxs :=
    if 0 <? in_commConcurrency i then
      if in_commConcurrency i <? maxWorkerTxCtxs then in_commConcurrency i
      else maxWorkerTxCtxs
    else maxWorkerTxCtxs in
  let fixedNumThreads := in_fixedNumThreads i in
  if 0 <? fixedNumThreads then
    if negb (fixedNumThreads =? in_taskMaxPar i) then None else
    let maxWorkerTxCtxs :=
      if int_of (fixedNumThreads + 1) <? maxWorkerTxCtxs
      then int_of (fixedNumThreads + 1)
      else maxWorkerTxCtxs in
    let numTxCtxs := int_of (maxWorkerTxCtxs + in_numAmHandlers i) in
    if negb (u64 (in_numAmHandlers i) <=? in_max_ep_rx_ctx i) then None else
    Some {| out_numTxCtxs := numTxCtxs;
            out_numRxCtxs := in_numAmHandlers i;
            out_tciTabFixedAssignments :=
              (maxWorkerTxCtxs =? int_of (fixedNumThreads + 1));
            out_tx_ctx_cnt :=
              if in_useScalableTxEp i then Some (u64 numTxCtxs) else None |}
  else
    let maxWorkerTxCtxs :=
      if in_taskMaxPar i <? maxWorkerTxCtxs then in_taskMaxPar i
      else maxWorkerTxCtxs in
    let numTxCtxs := int_of (maxWorkerTxCtxs + in_numAmHandlers i) in
    if negb (u64 (in_numAmHandlers i) <=? in_max_ep_rx_ctx i) then None else
    Some {| out_numTxCtxs := numTxCtxs;
            out_numRxCtxs := in_numAmHandlers i;
            out_tciTabFixedAssignments := false;
            out_tx_ctx_cnt :=
              if in_useScalableTxEp i then Some (u64 numTxCtxs) else None |}.

(** The values the function reads are values of their types, [size_t]
    for the provider's limits and [int] for the rest, and the thread
    counts are small enough for [fixedNumThreads + 1] and
    [maxWorkerTxCtxs + numAmHandlers] not to overflow. *)
Definition numCtxs_in_range (i : numCtxs_in) : Prop :=
  0 <= in_max_ep_tx_ctx i < 2 ^ 64
  /\ 0 <= in_ep_cnt i < 2 ^ 64
  /\ 0 <= in_max_ep_rx_ctx i < 2 ^ 64
  /\ - 2 ^ 31 <= in_commConcurrency i < 2 ^ 31
  /\ - 2 ^ 31 <= in_fixedNumThreads i < 2 ^ 31 - 2
  /\ - 2 ^ 31 <= in_taskMaxPar i < 2 ^ 31 - 1.

(** The provider's limit on transmit contexts, as the function reads
    it. *)
Definition provider_tx_limit (i : numCtxs_in) : Z :=
  if in_useScalableTxEp i then in_max_ep_tx_ctx i else in_ep_cnt i.

(** What the function guarantees about the number of worker contexts
    [nw = numTxCtxs - numAmHandlers] when it returns. *)
Definition numCtxs_ok (i : numCtxs_in) (o : numCtxs_out) : Prop :=
  let nw := out_numTxCtxs o - in_numAmHandlers i in
  in_numAmHandlers i = 1
  /\ out_numRxCtxs o = 1
  /\ out_numTxCtxs o <= provider_tx_limit i
  /\ (0 < in_commConcurrency i -> nw <= in_commConcurrency i)
  /\ (0 < in_fixedNumThreads i -> 1 <= nw <= in_fixedNumThreads i + 1)
  /\ (in_fixedNumThreads i <= 0 ->
      nw <= in_taskMaxPar i /\ (1 <= in_taskMaxPar i -> 1 <= nw))
  /\ (out_tciTabFixedAssignments o = true
      <-> 0 < in_fixedNumThreads i /\ nw = in_fixedNumThreads i + 1).

(** ** AMOs on the CPU: the data
       (comm-ofi.c:5284-5302, 5312-5427, 5555-5694)

    An object, operand or result of [n] bits is its bit pattern, a [Z]
    in [[0, 2^n)]; [low n] reads the [n] low bits of a wider value, as
    the access through a narrower member of [chpl_amo_datum_t] does.
    The C11 atomics wrap in two's complement for the signed types too, so
    on bit patterns the signed and unsigned operations are the same. *)

Definition low (n v : Z) : Z := v mod 2 ^ n.

(** The value of an [n]-bit pattern read as a signed integer. *)
Definition sint (n v : Z) : Z :=
  if low n v <? 2 ^ (n - 1) then low n v else low n v - 2 ^ n.

(** Arithmetic on [_real32] and [_real64], on bit patterns of the
    given width; the file takes it from the compiler. *)
Record real_ops := {
  real_add : Z -> Z -> Z -> Z;
  real_neg : Z -> Z -> Z;
  real_eq : Z -> Z -> Z -> bool
}.

(** [CPU_INT_ARITH_AMO(_o, _t, _m)] for an operation [f] on a type of
    [n] bits: the object afterwards, and what is stored to [*result]
    when [result] is not [NULL]. *)
Definition CPU_INT_ARITH_AMO (f : Z -> Z -> Z) (n : Z)
  (obj opnd1 : Z) (result : bool) : option (Z * option Z) :=
  let old := low n obj in
  Some (low n (f old (low n opnd1)), if result then Some old else None).

(** [doCpuAMO] on data: [obj], [opnd1] and [opnd2] are what is at
    [obj], [operand1] and [operand2]; [result] says whether the pointer
    of that name is not [NULL].  [None] where the function ends the
    program: the [CHK_TRUE], the [INTERNAL_ERROR_V]s, and the store
    through a [NULL] [result] in the read and compare-and-swap cases. *)
Definition doCpuAMO_data (R : real_ops) (obj opnd1 opnd2 : Z)
  (result : bool) (ofiOp : fi_op) (ofiType : fi_datatype) (size : Z)
  : option (Z * option Z) :=
  if negb ((size =? 4) || (size =? 8)) then None else
  let n := if size =? 4 then 32 else 64 in
  match ofiOp with
  | FI_ATOMIC_WRITE =>
      Some (low n opnd1, if result then Some (low n obj) else None)
  | FI_ATOMIC_READ =>
      if result then Some (low n obj, Some (low n obj)) else None
  | FI_CSWAP =>
      if result then
        let myOpnd1Val := low n opnd1 in
        Some (if low n obj =? myOpnd1Val then low n opnd2 else low n obj,
              Some (low n obj))
      else None
  | FI_BAND =>
      match ofiType with
      | FI_INT32 | FI_UINT32 => CPU_INT_ARITH_AMO Z.land 32 obj opnd1 result
      | FI_INT64 | FI_UINT64 => CPU_INT_ARITH_AMO Z.land 64 obj opnd1 result
      | _ => None
      end
  | FI_BOR =>
      match ofiType with
      | FI_INT32 | FI_UINT32 => CPU_INT_ARITH_AMO Z.lor 32 obj opnd1 result
      | FI_INT64 | FI_UINT64 => CPU_INT_ARITH_AMO Z.lor 64 obj opnd1 result
      | _ => None
      end
  | FI_BXOR =>
      match ofiType with
      | FI_INT32 | FI_UINT32 => CPU_INT_ARITH_AMO Z.lxor 32 obj opnd1 result
      | FI_INT64 | FI_UINT64 => CPU_INT_ARITH_AMO Z.lxor 64 obj opnd1 result
      | _ => None
      end
  | FI_SUM =>
      match ofiType with
      | FI_INT32 | FI_UINT32 => CPU_INT_ARITH_AMO Z.add 32 obj opnd1 result
      | FI_INT64 | FI_UINT64 => CPU_INT_ARITH_AMO Z.add 64 obj opnd1 result
      | FI_FLOAT => CPU_INT_ARITH_AMO (real_add R 32) 32 obj opnd1 result
      | FI_DOUBLE => CPU_INT_ARITH_AMO (real_add R 64) 64 obj opnd1 result
      | FI_DATATYPE_OTHER => None
      end
  | FI_OP_OTHER => None
  end.

(** [sizeof(Type)] and the width of [Type] for the six instances of the
    interface macros. *)
Definition sizeof_Type (ofiType : fi_datatype) : Z :=
  match ofiType with
  | FI_INT32 | FI_UINT32 | FI_FLOAT => 4
  | _ => 8
  end.

Definition bits_Type (ofiType : fi_datatype) : Z := 8 * sizeof_Type ofiType.

(** [NEGATE_I32], [NEGATE_I64] on the value of the signed operand;
    [NEGATE_U_OR_R] on an unsigned operand of [n] bits. *)
Definition NEGATE_I32 (x : Z) : Z := if x =? - 2 ^ 31 then x else - x.
Definition NEGATE_I64 (x : Z) : Z := if x =? - 2 ^ 63 then x else - x.
Definition NEGATE_U (n x : Z) : Z := low n (- x).

(** [Type myOpnd = negate( *(Type* ) operand)], as a bit pattern. *)
Definition negate_operand (R : real_ops) (ofiType : fi_datatype)
  (operand : Z) : Z :=
  match ofiType with
  | FI_INT32 => low 32 (NEGATE_I32 (sint 32 operand))
  | FI_INT64 => low 64 (NEGATE_I64 (sint 64 operand))
  | FI_UINT32 => NEGATE_U 32 (low 32 operand)
  | FI_UINT64 => NEGATE_U 64 (low 64 operand)
  | FI_FLOAT => real_neg R 32 (low 32 operand)
  | _ => real_neg R 64 (low 64 operand)
  end.

(** The interface functions below are taken on one node
    ([chpl_numNodes <= 1]), where [doAMO] is [doCpuAMO]; they return the
    object afterwards and what the caller gets back. *)

(** [chpl_comm_atomic_fetch_add_<type>]: object and [*result]. *)
Definition chpl_comm_atomic_fetch_add (R : real_ops)
  (ofiType : fi_datatype) (operand obj : Z) : option (Z * Z) :=
  match doCpuAMO_data R obj operand 0 true FI_SUM ofiType
                      (sizeof_Type ofiType) with
  | Some (obj', Some res) => Some (obj', res)
  | _ => None
  end.

(** [chpl_comm_atomic_add_<type>]: the object. *)
Definition chpl_comm_atomic_add (R : real_ops)
  (ofiType : fi_datatype) (operand obj : Z) : option Z :=
  match doCpuAMO_data R obj operand 0 false FI_SUM ofiType
                      (sizeof_Type ofiType) with
  | Some (obj', _) => Some obj'
  | None => None
  end.

(** [chpl_comm_atomic_fetch_sub_<type>]: object and [*result]. *)
Definition chpl_comm_atomic_fetch_sub (R : real_ops)
  (ofiType : fi_datatype) (operand obj : Z) : option (Z * Z) :=
  let myOpnd := negate_operand R ofiType operand in
  match doCpuAMO_data R obj myOpnd 0 true FI_SUM ofiType
                      (sizeof_Type ofiType) with
  | Some (obj', Some res) => Some (obj', res)
  | _ => None
  end.

(** [chpl_comm_atomic_sub_<type>]: the object. *)
Definition chpl_comm_atomic_sub (R : real_ops)
  (ofiType : fi_datatype) (operand obj : Z) : option Z :=
  let myOpnd := negate_operand R ofiType operand in
  match doCpuAMO_data R obj myOpnd 0 false FI_SUM ofiType
                      (sizeof_Type ofiType) with
  | Some (obj', _) => Some obj'
  | None => None
  end.

(** [old_value == old_expected] on two values of [Type]. *)
Definition Type_eq (R : real_ops) (ofiType : fi_datatype) (a b : Z)
  : bool :=
  match ofiType with
  | FI_FLOAT => real_eq R 32 a b
  | FI_DOUBLE => real_eq R 64 a b
  | _ => a =? b
  end.

(** [chpl_comm_atomic_cmpxchg_<type>]: the object, [*expected] and
    [*result] afterwards. *)
Definition chpl_comm_atomic_cmpxchg (R : real_ops)
  (ofiType : fi_datatype) (expected desired obj : Z)
  : option (Z * Z * bool) :=
  let old_expected := low (bits_Type ofiType) expected in
  match doCpuAMO_data R obj old_expected desired true FI_CSWAP ofiType
                      (sizeof_Type ofiType) with
  | Some (obj', Some old_value) =>
      let result := Type_eq R ofiType old_value old_expected in
      Some (obj', if result then old_expected else old_value, result)
  | _ => None
  end.

(** [chpl_comm_atomic_xchg_<type>]: object and [*result]. *)
Definition chpl_comm_atomic_xchg (R : real_ops)
  (ofiType : fi_datatype) (desired obj : Z) : option (Z * Z) :=
  match doCpuAMO_data R obj desired 0 true FI_ATOMIC_WRITE ofiType
                      (sizeof_Type ofiType) with
  | Some (obj', Some res) => Some (obj', res)
  | _ => None
  end.

(** An [n]-bit pattern. *)
Definition fits (n v : Z) : Prop := 0 <= v < 2 ^ n.

(** Stand-in real arithmetic for the examples on integer types. *)
Definition R_none : real_ops :=
  {| real_add := fun _ a _ => a; real_neg := fun _ a => a;
     real_eq := fun _ _ _ => false |}.

(** ** Vocabulary: holding a transmit context *)

(** The other threads neither add nor remove table entries. *)
Definition env_keeps_length (E : environ) : Prop :=
  forall k t, length (others E k t) = length t.

(** There are worker contexts, and the table has their entries. *)
Definition table_has_workers (G : ofi_globals) (tab : list perTxCtxInfo_t)
  : Prop :=
  (0 < numWorkerTxCtxs G <= length tab)%nat.

(** The thread's own context, if it has one, is an entry of the
    table. *)
Definition ttcip_in_table (w : world) : Prop :=
  match _ttcip w with
  | Some t => (t < length (tciTab w))%nat
  | None => True
  end.

(** What a thread that got context [i] from a call that took the world
    from [w] to [w'] has: an entry of the table, marked allocated, and
    remembered as the thread's own; and it is the context the thread
    had before, or one of the workers' contexts. *)
Definition holds_tci (G : ofi_globals) (w w' : world) (i : nat) : Prop :=
  (i < length (tciTab w'))%nat
  /\ allocated (tciAt (tciTab w') i) = true
  /\ _ttcip w' = Some i
  /\ (_ttcip w = Some i \/ (i < numWorkerTxCtxs G)%nat).

(** What the AM handler's allocation does on a thread with no context
    yet, where [h] is the handler's entry: it ends the program when the
    entry is taken; otherwise it returns [h], allocated and bound, and
    leaves the other entries alone. *)
Definition amHandler_takes_own (G : ofi_globals) (E : environ)
  (fuel : nat) (w : world) : Prop :=
  let h := numWorkerTxCtxs G in
  if allocated (tciAt (tciTab w) h) then
    exists w', tciAllocForAmHandler G E fuel w = Aborted w'
  else
    exists w',
      tciAllocForAmHandler G E fuel w = Done h w'
      /\ allocated (tciAt (tciTab w') h) = true
      /\ bound (tciAt (tciTab w') h) = true
      /\ _ttcip w' = Some h
      /\ (forall j, j <> h -> tciAt (tciTab w') j = tciAt (tciTab w) j)
      /\ trace w' = trace w.

(** The world after a call marked entry [i] allocated and the thread's
    own, on the spot. *)
Definition took_at_once (w : world) (i : nat) : world :=
  {| tciTab := <[i := set_allocated true (tciAt (tciTab w) i)]> (tciTab w);
     _ttcip := Some i; prvData := prvData w;
     yields := yields w; trace := trace w |}.

(** A thread whose last context was entry 1 and that holds none now.
    Since it freed entry 1 another thread has taken entry 0. *)
Definition w_had_1 : world :=
  {| tciTab := [tci_mk true false; tci_mk false false; tci_mk true true];
     _ttcip := Some 1%nat; prvData := Some prv_fresh; yields := O;
     trace := [] |}.

(** The same thread, but the other thread has taken entry 1. *)
Definition w_lost_1 : world :=
  {| tciTab := [tci_mk false false; tci_mk true false; tci_mk true true];
     _ttcip := Some 1%nat; prvData := Some prv_fresh; yields := O;
     trace := [] |}.

(** ** Vocabulary: forcing PUTs to be visible *)

Definition ev_sched (e : event) : bool :=
  match e with Ev_sched_yield => true | _ => false end.

Definition same_txCQ (w w' : world) : Prop :=
  forall i, txCQ (tciAt (tciTab w') i) = txCQ (tciAt (tciTab w) i).

(** The dummy GET of [mcmReleaseOneNode] for [node] on context [tcip],
    and the wait for it: one byte from the node's [orderDummy] into
    ours.  [cq] says whether the context has a completion queue. *)
Definition dummy_get (G : ofi_globals) (E : environ) (tcip : nat)
  (cq : bool) (node : Z) : list event :=
  match mrGetKey G node (orderDummyMap G node) 1 with
  | Some (key, off) =>
      let ctx := if cq then txnTrkEncodeDone (txnDone_addr E) else NULL in
      [Ev_fi_read tcip (orderDummy G) 1 node off key ctx;
       Ev_waitForTxnComplete tcip ctx]
  | None => []
  end.

(** The map has a word for every bit below [len]. *)
Definition bitmap_roomy (b : bitmap_t) : Prop :=
  forall i, 0 <= i < b_len b -> bitmap_has_room b i.

(** No bit below [len] is set. *)
Definition bitmap_empty (b : bitmap_t) : Prop :=
  forall i, 0 <= i < b_len b -> bitmapTest b i = false.

(** The context a call uses that is given [tcip] in world [w] is [t]
    for sure: the caller passed it, or passed [NULL] on a thread that
    owns the bound context [t]. *)
Definition uses_tci (tcip : option nat) (w : world) (t : nat) : Prop :=
  tcip = Some t
  \/ (tcip = None /\ _ttcip w = Some t
      /\ bound (tciAt (tciTab w) t) = true).

(** What a call of [mcmReleaseAllNodes] that took the world from [w] to
    [w'] did with the bitmap [b], on the context [myTcip] it used: for
    each node whose bit was set,
    in increasing order, one dummy GET and the wait for it, and nothing
    else on the fabric; the bitmap [b'] it leaves has the same length
    and no bit set. *)
Definition releases_all (G : ofi_globals) (E : environ) (b : bitmap_t)
  (tcip : option nat) (w w' : world) (b' : bitmap_t) : Prop :=
  b_len b' = b_len b
  /\ bitmap_empty b'
  /\ (exists myTcip cq,
        (forall t, uses_tci tcip w t ->
                   myTcip = t /\ cq = txCQ (tciAt (tciTab w) t))
        /\ List.filter is_put_traffic (added w w')
           = concat (List.map (dummy_get G E myTcip cq) (bitmapSetBits b)))
  /\ Forall (fun node => mrGetKey G node (orderDummyMap G node) 1 <> None)
            (bitmapSetBits b)
  /\ prvData w' = prvData w.

(** [G_demo] with a third node. *)
Definition G_three : ofi_globals :=
  {| chpl_nodeID := 0; chpl_numNodes := 3;
     haveDeliveryComplete := false;
     max_msg_size := 1000; inject_size := 64;
     tciTabLen := 3; numAmHandlers := 1;
     tciTabFixedAssignments := true; txCQLen := 100;
     scalableMemReg := true; memTab := []; memTabMap := fun _ => [];
     orderDummy := 4096; orderDummyMap := fun _ => 4096;
     isAtomicValid := fun _ => true;
     sizeof_amRequest_RMA := 48; sizeof_amRequest_AMO := 72;
     offsetof_amo_operand1 := 40; offsetof_amo_operand2 := 48 |}.

(** A bitmap for three nodes with the bits of nodes 1 and 2 set. *)
Definition b_nodes_1_2 : bitmap_t := {| b_len := 3; b_map := [6] |}.

(** ** Task creation (comm-ofi.c:2647-2653) *)

Definition chpl_comm_impl_task_create (G : ofi_globals) (E : environ)
  (fuel : nat) : comm unit :=
  retireDelayedAmDone E false ;;;
  waitForPutsVisAllNodes G E fuel None false.

(** The wait for a delayed 'done' that is pending in [p]. *)
Definition pending_wait (E : environ) (p : chpl_comm_taskPrvData_t)
  : list event :=
  if amDonePending p then [Ev_amWaitForDone (prvAmDone_addr E)] else [].

(** What a call that took the world from [w] to [w'] on a thread that
    owns the bound context [t] did for a task whose data was [p]: it
    waited for the pending 'done', if any; then, for each node with its
    bit set in the task's bitmap, in increasing order, it did one dummy
    GET and waited for it; it put nothing else on the fabric; and it
    leaves no 'done' pending and no bit set. *)
Definition puts_forced_visible (G : ofi_globals) (E : environ) (t : nat)
  (p : chpl_comm_taskPrvData_t) (w w' : world) : Prop :=
  exists p',
    prvData w' = Some p'
    /\ amDonePending p' = false
    /\ taskIsEnding p' = taskIsEnding p
    /\ match putBitmap p with
       | Some b =>
           (exists b', putBitmap p' = Some b'
                       /\ b_len b' = b_len b /\ bitmap_empty b')
           /\ List.filter is_put_traffic (added w w')
              = pending_wait E p
                ++ concat (List.map
                             (dummy_get G E t (txCQ (tciAt (tciTab w) t)))
                             (bitmapSetBits b))
       | None =>
           putBitmap p' = None
           /\ List.filter is_put_traffic (added w w') = pending_wait E p
       end.

(** The task's bitmap, if it has one, has a word for every node. *)
Definition prv_roomy (p : chpl_comm_taskPrvData_t) : Prop :=
  match putBitmap p with
  | Some b => bitmap_roomy b
  | None => True
  end.

(** A task that has PUTs to nodes 1 and 2 that may not be visible yet,
    and a 'done' pending. *)
Definition prv_puts_1_2 : chpl_comm_taskPrvData_t :=
  {| putBitmap := Some b_nodes_1_2;
     amDonePending := true; taskIsEnding := false |}.

(** That task on a thread that owns the bound context 0. *)
Definition w_puts_1_2 : world :=
  {| tciTab := [tci_mk true true; tci_mk false false; tci_mk true true];
     _ttcip := Some O; prvData := Some prv_puts_1_2; yields := O;
     trace := [] |}.

(** ** Vocabulary: one transfer *)

(** Fabric calls, waits, and writes to memory: the data path of a
    transfer. *)
Definition is_xfer (e : event) : bool :=
  is_put_traffic e || is_memory_write e.

(** The buffer a transfer hands to the provider for the local side
    [addr]: [addr] itself when it has a descriptor, else the bounce
    buffer allocated for it. *)
Definition local_or_bounce (G : ofi_globals) (E : environ) (w : world)
  (addr size : Z) : Z :=
  match mrGetDesc G addr size with
  | Some _ => addr
  | None => bounceBuf E (trace w) size
  end.

Definition needs_bounce (G : ofi_globals) (addr size : Z) : bool :=
  match mrGetDesc G addr size with
  | Some _ => false
  | None => true
  end.

(** A PUT with delivery-complete, for a call that returns: the data is
    copied to the bounce buffer first if one is used; then one
    [fi_write] with a completion context and the wait for that very
    context; no dummy GET; the task's data is not touched. *)
Definition dc_put_discipline (G : ofi_globals) (E : environ) (fuel : nat)
  (addr node raddr size : Z) (w : world) : Prop :=
  forall w',
    ofi_put G E fuel addr node raddr size w = Done tt w' ->
    exists tcip key off,
      mrGetKey G node raddr size = Some (key, off)
      /\ let myAddr := local_or_bounce G E w addr size in
         let ctx := txnTrkEncodeDone (txnDone_addr E) in
         List.filter is_xfer (added w w')
         = (if needs_bounce G addr size
            then [Ev_memcpy myAddr addr size]
            else [])
           ++ [Ev_fi_write tcip myAddr size node off key ctx;
               Ev_waitForTxnComplete tcip ctx]
      /\ prvData w' = prvData w.

(** What a GET from [node] does to the task's data [o]: the node's bit
    is cleared in the bitmap, if there is one. *)
Definition get_clears (node : Z) (o : option chpl_comm_taskPrvData_t)
  : option chpl_comm_taskPrvData_t :=
  match o with
  | Some p =>
      match putBitmap p with
      | Some b => Some (set_putBitmap (Some (bitmapClear b node)) p)
      | None => Some p
      end
  | None => None
  end.

(** A GET, for a call that returns: one [fi_read] into the local buffer
    or its bounce buffer, the wait for it, and then the copy out of the
    bounce buffer if one was used.  In message-order mode on a bound
    context the node's bit is cleared in the task's bitmap: the GET
    forces the task's earlier PUTs to that node to be visible. *)
Definition get_discipline (G : ofi_globals) (E : environ) (fuel : nat)
  (addr node raddr size : Z) (w : world) : Prop :=
  forall w',
    ofi_get G E fuel addr node raddr size w = Done tt w' ->
    exists tcip key off ctx,
      mrGetKey G node raddr size = Some (key, off)
      /\ let myAddr := local_or_bounce G E w addr size in
         List.filter is_xfer (added w w')
         = [Ev_fi_read tcip myAddr size node off key ctx;
            Ev_waitForTxnComplete tcip ctx]
           ++ (if myAddr =? addr then []
               else [Ev_memcpy addr myAddr size])
      /\ prvData w'
         = if negb (haveDeliveryComplete G)
              && bound (tciAt (tciTab w') tcip)
           then get_clears node (prvData w)
           else prvData w.

(** The two-node configuration on a provider with delivery-complete. *)
Definition G_dc : ofi_globals :=
  {| chpl_nodeID := 0; chpl_numNodes := 2;
     haveDeliveryComplete := true;
     max_msg_size := 1000; inject_size := 64;
     tciTabLen := 3; numAmHandlers := 1;
     tciTabFixedAssignments := true; txCQLen := 100;
     scalableMemReg := true; memTab := []; memTabMap := fun _ => [];
     orderDummy := 4096; orderDummyMap := fun _ => 4096;
     isAtomicValid := fun _ => true;
     sizeof_amRequest_RMA := 48; sizeof_amRequest_AMO := 72;
     offsetof_amo_operand1 := 40; offsetof_amo_operand2 := 48 |}.

(** ** Active messages, target side (comm-ofi.c:3617-3688, 4290-4335) *)

Definition ofi_put_ll (G : ofi_globals) (E : environ) (fuel : nat)
  (addr node raddr size ctx : Z) (tcip : option nat) (useInject : bool)
  : comm unit :=
  kr <- CHK_SOME (mrGetKey G node raddr size) ;;
  _ <- CHK_SOME (mrGetDesc G addr size) ;;
  myTcip <- tcipOrAlloc G E fuel tcip ;;
  (if useInject && (size <=? inject_size G) then
     emit (Ev_fi_inject_write myTcip addr size node (snd kr) (fst kr)) ;;;
     incr_numTxnsSent myTcip
   else
     emit (Ev_fi_write myTcip addr size node (snd kr) (fst kr) ctx) ;;;
     incr_numTxnsOut myTcip ;;;
     incr_numTxnsSent myTcip) ;;;
  tcipFreeIfOwn tcip myTcip.

(** [sizeof(amDone_t)]: the type is [uint8_t]. *)
Definition sizeof_amDone_t : Z := 1.

(** [__LINE__] where [amSendDone] builds its id context. *)
Definition amSendDone_LINE : Z := 3687.

(** [amTcip] is the thread's [amTcip], [None] on every thread but the
    AM handler's; [amDone] is the value of the function's thread-local
    static pointer at the call, and the result is its value at the
    return. *)
Definition amSendDone (G : ofi_globals) (E : environ) (fuel : nat)
  (amTcip : option nat) (amDone node pAmDone : Z) : comm Z :=
  amDone <- (if amDone =? NULL then
               p <- allocBounceBuf E 1 ;;
               emit (Ev_store p 1) ;;;
               ret p
             else ret amDone) ;;
  ofi_put_ll G E fuel amDone node pAmDone sizeof_amDone_t
             (txnTrkEncodeId amSendDone_LINE) amTcip true ;;;
  ret amDone.

(** The members of [struct amRequest_RMA_t] the wrappers read. *)
Record amRequest_RMA_t := {
  rma_b_node : Z;
  rma_b_pAmDone : Z;
  rma_addr : Z;
  rma_raddr : Z;
  rma_size : Z
}.

Definition amWrapGet (G : ofi_globals) (E : environ) (fuel : nat)
  (amTcip : option nat) (amDone : Z) (rma : amRequest_RMA_t) : comm Z :=
  _ <- CHK_SOME (mrGetKey G (rma_b_node rma) (rma_raddr rma)
                          (rma_size rma)) ;;
  ofi_get G E fuel (rma_addr rma) (rma_b_node rma) (rma_raddr rma)
          (rma_size rma) ;;;
  amSendDone G E fuel amTcip amDone (rma_b_node rma) (rma_b_pAmDone rma).

Definition amWrapPut (G : ofi_globals) (E : environ) (fuel : nat)
  (amTcip : option nat) (amDone : Z) (rma : amRequest_RMA_t) : comm Z :=
  _ <- CHK_SOME (mrGetKey G (rma_b_node rma) (rma_raddr rma)
                          (rma_size rma)) ;;
  ofi_put G E fuel (rma_addr rma) (rma_b_node rma) (rma_raddr rma)
          (rma_size rma) ;;;
  amSendDone G E fuel amTcip amDone (rma_b_node rma) (rma_b_pAmDone rma).

(** ** Vocabulary: data before 'done' *)

(** Fabric calls and waits of one PUT by [ofi_put] of [size] bytes at
    [myAddr] to [(key, off)] on [node], on context [tcip]; [bnd] says
    whether the context is bound. *)
Definition put_ops (G : ofi_globals) (E : environ) (tcip : nat)
  (bnd : bool) (myAddr size node off key : Z) : list event :=
  let ctx := txnTrkEncodeDone (txnDone_addr E) in
  if haveDeliveryComplete G then
    [Ev_fi_write tcip myAddr size node off key ctx;
     Ev_waitForTxnComplete tcip ctx]
  else if negb bnd || (inject_size G <? size) then
    Ev_fi_write tcip myAddr size node off key NULL
    :: dummy_get G E tcip true node
  else [Ev_fi_inject_write tcip myAddr size node off key].

(** The PUT was waited for before [ofi_put] returned. *)
Definition put_waited (G : ofi_globals) (bnd : bool) (size : Z) : bool :=
  haveDeliveryComplete G || negb bnd || (inject_size G <? size).

(** The one-byte write of the 'done' indicator from [buf] to [pAmDone]
    on [node], on context [tcip]. *)
Definition done_write (G : ofi_globals) (tcip : nat)
  (buf node pAmDone : Z) : list event :=
  match mrGetKey G node pAmDone sizeof_amDone_t with
  | Some (key, off) =>
      [if sizeof_amDone_t <=? inject_size G
       then Ev_fi_inject_write tcip buf sizeof_amDone_t node off key
       else Ev_fi_write tcip buf sizeof_amDone_t node off key
              (txnTrkEncodeId amSendDone_LINE)]
  | None => []
  end.

(** What a call of [amWrapPut] that took the world from [w] to [w'] put
    on the fabric: the PUT of the data, as [ofi_put] does it, and after
    it the one write of the 'done' indicator, from the buffer [amDone']
    the thread keeps for it.  When the PUT was not waited for, the
    'done' goes out on the same context as the data. *)
Definition data_before_done (G : ofi_globals) (E : environ) (fuel : nat)
  (rma : amRequest_RMA_t) (w w' : world) (amDone' : Z) : Prop :=
  exists w1 tcip tcip2 myAddr key off,
    ofi_put G E fuel (rma_addr rma) (rma_b_node rma) (rma_raddr rma)
            (rma_size rma) w = Done tt w1
    /\ mrGetKey G (rma_b_node rma) (rma_raddr rma) (rma_size rma)
       = Some (key, off)
    /\ mrGetKey G (rma_b_node rma) (rma_b_pAmDone rma) sizeof_amDone_t
       <> None
    /\ let bnd := bound (tciAt (tciTab w1) tcip) in
       (haveDeliveryComplete G = false ->
        put_waited G bnd (rma_size rma) = true ->
        mrGetKey G (rma_b_node rma) (orderDummyMap G (rma_b_node rma)) 1
        <> None)
       /\ List.filter is_put_traffic (added w w')
       = put_ops G E tcip bnd myAddr (rma_size rma) (rma_b_node rma)
                 off key
         ++ done_write G tcip2 amDone' (rma_b_node rma) (rma_b_pAmDone rma)
       /\ (put_waited G bnd (rma_size rma) = false -> tcip2 = tcip).

(** The thread's context pointer and the bindings are as they were. *)
Definition same_thread (w w' : world) : Prop :=
  _ttcip w' = _ttcip w /\ same_bound w w'.

(** A proxied PUT of 50 bytes to node 1, whose task waits at 300000. *)
Definition rma_demo : amRequest_RMA_t :=
  {| rma_b_node := 1; rma_b_pAmDone := 300000;
     rma_addr := 100000; rma_raddr := 200000; rma_size := 50 |}.

(** What a call of [amWrapGet] that took the world from [w] to [w']
    did: the GET of the data, the wait for it and the copy out of the
    bounce buffer if there is one, all before the one write of the
    'done' indicator. *)
Definition get_before_done (G : ofi_globals) (E : environ)
  (rma : amRequest_RMA_t) (w w' : world) (amDone' : Z) : Prop :=
  let node := rma_b_node rma in
  let size := rma_size rma in
  let myAddr := local_or_bounce G E w (rma_addr rma) size in
  exists tcip tcip2 key off ctx d1 d2,
    mrGetKey G node (rma_raddr rma) size = Some (key, off)
    /\ mrGetKey G node (rma_b_pAmDone rma) sizeof_amDone_t <> None
    /\ added w w' = d1 ++ d2
    /\ List.filter is_xfer d1
       = [Ev_fi_read tcip myAddr size node off key ctx;
          Ev_waitForTxnComplete tcip ctx]
         ++ (if myAddr =? rma_addr rma then []
             else [Ev_memcpy (rma_addr rma) myAddr size])
    /\ List.filter is_put_traffic d2
       = done_write G tcip2 amDone' node (rma_b_pAmDone rma).

(** ** Vocabulary: bounce buffers *)

(** The buffers a stretch of the trace allocated, and those it freed,
    in order. *)
Definition allocs (d : list event) : list Z :=
  flat_map (fun e => match e with
                     | Ev_allocBounceBuf p _ => [p]
                     | _ => []
                     end) d.

Definition frees (d : list event) : list Z :=
  flat_map (fun e => match e with
                     | Ev_freeBounceBuf p => [p]
                     | _ => []
                     end) d.

Definition is_alloc_free (e : event) : bool :=
  match e with
  | Ev_allocBounceBuf _ _ | Ev_freeBounceBuf _ => true
  | _ => false
  end.

Definition no_bounce (e : event) : bool := negb (is_alloc_free e).

(** Every buffer allocated was freed, once, and nothing else was. *)
Definition all_freed (d : list event) : Prop :=
  Permutation (allocs d) (frees d).

(** The allocator hands out fresh memory: never [NULL], never the
    address of an object that is [live]. *)
Definition fresh (E : environ) (live : Z -> Prop) : Prop :=
  forall tr sz, bounceBuf E tr sz <> NULL /\ ~ live (bounceBuf E tr sz).

(** What a call that returns [a] did with bounce buffers: [Q a al fr]
    holds of the buffers [al] it allocated and [fr] it freed. *)
Definition ledger {A} (m : comm A) (Q : A -> list Z -> list Z -> Prop)
  : Prop :=
  forall w a w',
    m w = Done a w' ->
    exists d, trace w' = trace w ++ d /\ Q a (allocs d) (frees d).

(** It touched none. *)
Definition clean {A} (m : comm A) : Prop :=
  ledger m (fun _ al fr => al = [] /\ fr = []).

(** It freed what it allocated. *)
Definition hygienic {A} (m : comm A) : Prop :=
  ledger m (fun _ al fr => Permutation al fr).

(** It frees what it allocated, and the buffers [L] besides. *)
Definition owes {A} (L : list Z) (m : comm A) : Prop :=
  ledger m (fun _ al fr => Permutation (L ++ al) fr).

(** Beyond what it frees it allocates the buffers [R my], where [my] is
    what it returns. *)
Definition acquires {A} (R : A -> list Z) (m : comm A) : Prop :=
  ledger m (fun my al fr => Permutation al (R my ++ fr)).

(** The buffers a caller frees that holds [my] in place of [p]. *)
Definition returned (p my : Z) : list Z :=
  if negb (my =? p) then [my] else [].

(** The buffer [amRequestCommon] frees that has [pAmDone] for its
    'done' flag. *)
Definition returned_done (E : environ) (pAmDone : Z) : list Z :=
  if negb (pAmDone =? NULL) && negb (pAmDone =? amDone_addr E)
  then [pAmDone] else [].

(** The objects [amRequestCommon] must not be handed as a bounce
    buffer: its own 'done' flag and the request. *)
Definition am_live (E : environ) (req : Z) (a : Z) : Prop :=
  a = amDone_addr E \/ a = req.

(** The same for a transfer: the caller's buffer, and the 'done' flag
    and request of the AM it may fall back on. *)
Definition xfer_live (E : environ) (addr size : Z) (a : Z) : Prop :=
  a = amDone_addr E \/ a = amReq_addr E \/ addr <= a < addr + size.

(** The two-node configuration with basic registration: this node has
    registered its heap, [4096, 4096 + 2^20), and knows of no region on
    node 1. *)
Definition heap_region : memEntry :=
  {| me_addr := 4096; me_base := 4096; me_size := 1048576;
     me_desc := 77; me_key := 99 |}.

Definition G_heap : ofi_globals :=
  {| chpl_nodeID := 0; chpl_numNodes := 2;
     haveDeliveryComplete := false;
     max_msg_size := 1000; inject_size := 64;
     tciTabLen := 3; numAmHandlers := 1;
     tciTabFixedAssignments := true; txCQLen := 100;
     scalableMemReg := false; memTab := [heap_region];
     memTabMap := fun n => if n =? 0 then [heap_region] else [];
     orderDummy := 4096; orderDummyMap := fun _ => 4096;
     isAtomicValid := fun _ => true;
     sizeof_amRequest_RMA := 48; sizeof_amRequest_AMO := 72;
     offsetof_amo_operand1 := 40; offsetof_amo_operand2 := 48 |}.

(** An allocator that hands out a new page of the heap at every call:
    the address grows with the history. *)
Definition E_heap : environ :=
  {| others := fun _ t => t;
     cqEvents := cq_at_wait;
     eagain := fun _ => O;
     bounceBuf := fun tr _ => 8192 + 4096 * Z.of_nat (length tr);
     chpl_task_isFixedThread := true;
     amDone_addr := 512; txnDone_addr := 520;
     prvAmDone_addr := 528; amReq_addr := 536 |}.

(** The buffer [ofi_amo] frees that holds [my] in place of [result]. *)
Definition returned_res (result my : Z) : list Z :=
  if negb (result =? NULL) && negb (my =? result) then [my] else [].

(** The same for an atomic operation: the caller's operands and result
    besides. *)
Definition amo_live (E : environ) (operand1 operand2 result : Z) (a : Z)
  : Prop :=
  a = amDone_addr E \/ a = amReq_addr E
  \/ a = operand1 \/ a = operand2 \/ a = result.

(** ** executeOn, initiator side (comm-ofi.c:2776-2910) *)

(** The sizes the function takes from the layout of the C types. *)
Record am_layout := {
  sizeof_amRequest_t : Z;
  sizeof_amRequest_execOnLrg_t : Z;   (* sizeof(req.xol) *)
  offsetof_payload : Z       (* offsetof(chpl_comm_on_bundle_t, payload) *)
}.

(** [arg] is the address of the caller's bundle.  The header fields the
    function stores in the bundle are data of the request; [subloc] and
    [fid] are among them and nothing else reads them.  [&req] is
    [amReq_addr E]; [CHPL_CALLOC_SZ] and [CHPL_FREE] are what
    [allocBounceBuf] and [freeBounceBuf] consist of. *)
Definition amRequestExecOn (G : ofi_globals) (E : environ)
  (Ly : am_layout) (fuel : nat) (node arg argSize : Z)
  (fast blocking : bool) : comm unit :=
  CHK_TRUE (negb (fast && negb blocking)) ;;;
  retireDelayedAmDone E false ;;;
  if argSize <=? sizeof_amRequest_t Ly then
    let req := {| b_op := am_opExecOn; amo_ofiOp := FI_OP_OTHER;
                  req_addr := arg |} in
    amRequestCommon G E fuel node req argSize blocking None
  else
    let req := {| b_op := am_opExecOnLrg; amo_ofiOp := FI_OP_OTHER;
                  req_addr := amReq_addr E |} in
    let heapCopyArg := negb blocking || negb (mrGetLocalKey G arg argSize) in
    let payloadSize := argSize - offsetof_payload Ly in
    pPayload <- (if heapCopyArg then
                   p <- allocBounceBuf E payloadSize ;;
                   emit (Ev_memcpy p (arg + offsetof_payload Ly)
                                   payloadSize) ;;;
                   ret p
                 else ret (arg + offsetof_payload Ly)) ;;
    amRequestCommon G E fuel node req (sizeof_amRequest_execOnLrg_t Ly)
                    blocking None ;;;
    when (heapCopyArg && blocking) (freeBounceBuf pPayload).

(** The callbacks and the diagnostics counters between the test and the
    request touch nothing modelled here. *)
Definition chpl_comm_execute_on (G : ofi_globals) (E : environ)
  (Ly : am_layout) (fuel : nat) (node arg argSize : Z) : comm unit :=
  CHK_TRUE (negb (node =? chpl_nodeID G)) ;;;
  amRequestExecOn G E Ly fuel node arg argSize false true.

Definition chpl_comm_execute_on_nb (G : ofi_globals) (E : environ)
  (Ly : am_layout) (fuel : nat) (node arg argSize : Z) : comm unit :=
  CHK_TRUE (negb (node =? chpl_nodeID G)) ;;;
  amRequestExecOn G E Ly fuel node arg argSize false false.

Definition chpl_comm_execute_on_fast (G : ofi_globals) (E : environ)
  (Ly : am_layout) (fuel : nat) (node arg argSize : Z) : comm unit :=
  CHK_TRUE (negb (node =? chpl_nodeID G)) ;;;
  amRequestExecOn G E Ly fuel node arg argSize true true.

(** Everything but the wait for a 'done' flag. *)
Definition ev_nowait (e : event) : bool := negb (ev_amWait e).

(** The objects that must not be handed out as a buffer during an
    executeOn: the 'done' flag, the request, and the caller's bundle. *)
Definition exec_live (E : environ) (arg : Z) (a : Z) : Prop :=
  a = amDone_addr E \/ a = amReq_addr E \/ a = arg.

(** What a non-blocking executeOn with a bundle too large for one
    request did, from [w] to [w']: it copied the payload to the heap;
    after that it waited for no 'done' flag; and it left the copy
    allocated, while it freed every other buffer it allocated. *)
Definition hands_over_payload (Ly : am_layout) (arg argSize : Z)
  (w w' : world) : Prop :=
  let payloadSize := argSize - offsetof_payload Ly in
  exists p d1 d2,
    added w w'
    = d1 ++ Ev_allocBounceBuf p payloadSize
         :: Ev_memcpy p (arg + offsetof_payload Ly) payloadSize
         :: d2
    /\ List.filter ev_amWait d2 = []
    /\ Permutation (allocs (added w w')) (p :: frees (added w w')).

(** The buffers of an executeOn: a blocking one, or one whose bundle
    fits a request, frees all it allocated; the other hands the copy of
    the payload over to the target. *)
Definition execOn_buffers (Ly : am_layout) (arg argSize : Z)
  (blocking : bool) (w w' : world) : Prop :=
  if blocking || (argSize <=? sizeof_amRequest_t Ly)
  then all_freed (added w w')
  else hands_over_payload Ly arg argSize w w'.

(** Requests of up to 64 bytes; the payload starts at offset 40. *)
Definition Ly_demo : am_layout :=
  {| sizeof_amRequest_t := 64; sizeof_amRequest_execOnLrg_t := 56;
     offsetof_payload := 40 |}.

(** ** Vocabulary: the delayed 'done' *)

(** The two flags of the task's private data. *)
Definition prv_flags (w : world) : option (bool * bool) :=
  option_map (fun p => (amDonePending p, taskIsEnding p)) (prvData w).

Definition same_flags (w w' : world) : Prop := prv_flags w' = prv_flags w.

(** What a non-fetching atomic operation done by active message did,
    from [w] to [w'], for a task whose data was [p]: it first waited
    for the 'done' of an earlier such operation, if one was pending;
    after that it waited for no 'done'.  Unless the task is ending, it
    cleared the task's own 'done' flag and left it pending, for the
    task's next operation to wait for; for an ending task nothing is
    left pending. *)
Definition done_delayed (E : environ) (p : chpl_comm_taskPrvData_t)
  (w w' : world) : Prop :=
  exists p' d,
    prvData w' = Some p'
    /\ amDonePending p' = negb (taskIsEnding p)
    /\ taskIsEnding p' = taskIsEnding p
    /\ added w w' = pending_wait E p ++ d
    /\ List.filter ev_amWait d = []
    /\ (taskIsEnding p = false -> In (Ev_store (prvAmDone_addr E) 0) d).

(** A task with a 'done' pending. *)
Definition w_done_pending : world :=
  {| tciTab := [tci_mk true true; tci_mk false false; tci_mk true true];
     _ttcip := Some O;
     prvData := Some {| putBitmap := None; amDonePending := true;
                        taskIsEnding := false |};
     yields := O; trace := [] |}.

(** ** Buffered PUTs (comm-ofi.c:701-839, 4337-4474)

    The unordered PUT interface collects small PUTs in a buffer of the
    task and issues them in one batch.  The buffer, the calls
    [fi_writemsg], [chpl_mem_alloc] and [chpl_mem_free] are not part of
    the world above; this part adds them around it. *)

Definition MAX_UNORDERED_TRANS_SZ : Z := 1024.
Definition MAX_TXNS_IN_FLIGHT : Z := 64.
Definition MAX_CHAINED_PUT_LEN : Z := MAX_TXNS_IN_FLIGHT.

(** [put_buff_task_info_t].  The arrays have [MAX_CHAINED_PUT_LEN]
    elements; [pb_addr] is where the structure is, which gives the
    addresses of the slots of [src_v]; the bytes in [src_v] are not
    modelled. *)
Record put_buff_task_info_t := {
  pb_addr : Z;
  pb_new : bool;
  pb_vi : Z;
  pb_tgt_addr_v : list Z;
  pb_locale_v : list Z;
  pb_src_addr_v : list Z;
  pb_size_v : list Z;
  pb_remote_mr_v : list Z;
  pb_local_mr_v : list Z;
  pb_nodeBitmap : bitmap_t
}.

(** What the functions take from the layout of the structure. *)
Record put_buff_layout := {
  sizeof_put_buff_task_info_t : Z;
  offsetof_src_v : Z
}.

(** [&info->src_v[vi]]. *)
Definition src_v_addr (L : put_buff_layout) (info : put_buff_task_info_t)
  (vi : Z) : Z :=
  pb_addr info + offsetof_src_v L + vi * MAX_UNORDERED_TRANS_SZ.

(** Calls besides those of [event]. *)
Inductive xevent :=
| Xe (e : event)
| Xe_fi_writemsg (tci : nat) (buf size desc node raddr key ctx : Z)
                 (more : bool)                 (* FI_MORE *)
| Xe_chpl_mem_alloc (p size : Z)
| Xe_chpl_mem_free (p : Z).

(** [put_buff] is the task's [prvData->put_buff] and what it points to;
    [None] is [NULL]. *)
Record xworld := {
  xw : world;
  put_buff : option put_buff_task_info_t;
  xtrace : list xevent
}.

Record xenviron := {
  (* the address chpl_mem_alloc returns, given the history and the size *)
  mem_addr : list xevent -> Z -> Z;
  (* what the k-th word of memory it returns holds *)
  uninit : nat -> Z
}.

Inductive xoutcome (A : Type) : Type :=
| XDone (a : A) (s : xworld)
| XAborted (s : xworld)
| XOutOfFuel.

Arguments XDone {A} a s.
Arguments XAborted {A} s.
Arguments XOutOfFuel {A}.

Definition xcomm (A : Type) : Type := xworld -> xoutcome A.

Definition xret {A} (a : A) : xcomm A := fun s => XDone a s.

Definition xbind {A B} (m : xcomm A) (k : A -> xcomm B) : xcomm B :=
  fun s =>
    match m s with
    | XDone a s' => k a s'
    | XAborted s' => XAborted s'
    | XOutOfFuel => XOutOfFuel
    end.

Notation "x <~ m ;; k" := (xbind m (fun x => k))
  (at level 100, m at next level, right associativity) : comm_scope.
Notation "m ~;; k" := (xbind m (fun _ => k))
  (at level 100, right associativity) : comm_scope.

Definition xemit (x : xevent) : xcomm unit :=
  fun s => XDone tt {| xw := xw s; put_buff := put_buff s;
                       xtrace := xtrace s ++ [x] |}.

Definition XCHK_SOME {A} (o : option A) : xcomm A :=
  match o with Some a => xret a | None => fun s => XAborted s end.

Definition set_put_buff (o : option put_buff_task_info_t) : xcomm unit :=
  fun s => XDone tt {| xw := xw s; put_buff := o; xtrace := xtrace s |}.

(** A computation of the world above, run inside: its events go on the
    one trace. *)
Definition lift {A} (m : comm A) : xcomm A :=
  fun s =>
    let after w' := {| xw := w'; put_buff := put_buff s;
                       xtrace := xtrace s
                                 ++ List.map Xe (added (xw s) w') |} in
    match m (xw s) with
    | Done a w' => XDone a (after w')
    | Aborted w' => XAborted (after w')
    | OutOfFuel => XOutOfFuel
    end.

(** [a[i]] for an array of the structure. *)
Definition arr (a : list Z) (i : Z) : Z := default 0 (a !! Z.to_nat i).

(** [task_local_buff_acquire(put_buff, extra_size)]: of the three
    [DEFINE_INIT] blocks the one for [put_buff] runs.  [chpl_mem_alloc]
    does not initialise what it returns; the bitmap's words are the
    [extra_size] bytes behind the structure. *)
Definition task_local_buff_acquire_put_buff (X : xenviron)
  (L : put_buff_layout) (extra_size : Z)
  : xcomm (option put_buff_task_info_t) :=
  fun s =>
    match prvData (xw s) with
    | None => XDone None s
    | Some _ =>
        match put_buff s with
        | Some info => XDone (Some info) s
        | None =>
            let size := sizeof_put_buff_task_info_t L + extra_size in
            let p := mem_addr X (xtrace s) size in
            let garbage (k : nat) :=
              List.map (fun i => uninit X (k + i))
                       (seq 0 (Z.to_nat MAX_CHAINED_PUT_LEN)) in
            let info :=
              {| pb_addr := p; pb_new := true; pb_vi := 0;
                 pb_tgt_addr_v := garbage 0%nat;
                 pb_locale_v := garbage 64%nat;
                 pb_src_addr_v := garbage 128%nat;
                 pb_size_v := garbage 192%nat;
                 pb_remote_mr_v := garbage 256%nat;
                 pb_local_mr_v := garbage 320%nat;
                 pb_nodeBitmap :=
                   {| b_len := uninit X 384;
                      b_map :=
                        List.map (fun i => uninit X (385 + i))
                          (seq 0 (Z.to_nat
                                    (extra_size
                                     / sizeof_bitmapBaseType_t))) |} |} in
            XDone (Some info)
                  {| xw := xw s; put_buff := Some info;
                     xtrace := xtrace s ++ [Xe_chpl_mem_alloc p size] |}
        end
    end.

(** [__LINE__] where [ofi_put_V] builds its id context. *)
Definition ofi_put_V_LINE : Z := 4384.

(** [while (v_len > txCQLen - tcip->numTxnsOut) { sched_yield(); check;
    }]: the subtraction and the comparison are in [uint64_t]. *)
Fixpoint waitForBatchRoom (G : ofi_globals) (E : environ) (fuel : nat)
  (tcip : nat) (v_len : Z) : comm unit :=
  fun w =>
    let t := tciAt (tciTab w) tcip in
    if u64 (txCQLen G - numTxnsOut t) <? u64 v_len then
      match fuel with
      | O => OutOfFuel
      | S fuel' =>
          (emit Ev_sched_yield ;;;
           checkTxCmplsFn E tcip ;;;
           waitForBatchRoom G E fuel' tcip v_len) w
      end
    else Done tt w.

(** [for (int vi = 0; vi < v_len; vi++)] with [n] iterations to go; the
    result is the bitmap as the loop leaves it. *)
Fixpoint ofi_put_V_loop (n : nat) (vi v_len : Z) (tcip : nat)
  (addr_v local_mr_v locale_v raddr_v remote_mr_v size_v : list Z)
  (b : bitmap_t) : xcomm bitmap_t :=
  match n with
  | O => xret b
  | S n' =>
      xemit (Xe_fi_writemsg tcip (arr addr_v vi) (arr size_v vi)
               (arr local_mr_v vi) (arr locale_v vi) (arr raddr_v vi)
               (arr remote_mr_v vi) (txnTrkEncodeId ofi_put_V_LINE)
               (vi <? v_len - 1)) ~;;
      lift (incr_numTxnsOut tcip) ~;;
      lift (incr_numTxnsSent tcip) ~;;
      ofi_put_V_loop n' (vi + 1) v_len tcip
        addr_v local_mr_v locale_v raddr_v remote_mr_v size_v
        (bitmapSet b (arr locale_v vi))
  end.

(** The result is the bitmap as the call leaves [*b]. *)
Definition ofi_put_V (G : ofi_globals) (E : environ) (fuel : nat)
  (v_len : Z)
  (addr_v local_mr_v locale_v raddr_v remote_mr_v size_v : list Z)
  (b : bitmap_t) : xcomm bitmap_t :=
  tcip <~ lift (tciAlloc G E fuel) ;;
  t <~ lift (get_tci tcip) ;;
  (if txCQ t && (u64 (txCQLen G - numTxnsOut t) <? u64 v_len) then
     lift (checkTxCmplsFn E tcip ;;;
           waitForBatchRoom G E fuel tcip v_len)
   else xret tt) ~;;
  b <~ ofi_put_V_loop (Z.to_nat v_len) 0 v_len tcip
         addr_v local_mr_v locale_v raddr_v remote_mr_v size_v
         (bitmapZero b) ;;
  b <~ lift (mcmReleaseAllNodes G E fuel b (Some tcip)) ;;
  lift (tciFree tcip) ~;;
  xret b.

(** The structure is the one the task's pointer refers to: the
    function reads it there and leaves its changes there. *)
Definition put_buff_task_info_flush (G : ofi_globals) (E : environ)
  (fuel : nat) : xcomm unit :=
  fun s =>
    match put_buff s with
    | None => XAborted s
    | Some info =>
        if 0 <? pb_vi info then
          (b <~ ofi_put_V G E fuel (pb_vi info)
                  (pb_src_addr_v info) (pb_local_mr_v info)
                  (pb_locale_v info) (pb_tgt_addr_v info)
                  (pb_remote_mr_v info) (pb_size_v info)
                  (pb_nodeBitmap info) ;;
           set_put_buff
             (Some {| pb_addr := pb_addr info; pb_new := pb_new info;
                      pb_vi := 0;
                      pb_tgt_addr_v := pb_tgt_addr_v info;
                      pb_locale_v := pb_locale_v info;
                      pb_src_addr_v := pb_src_addr_v info;
                      pb_size_v := pb_size_v info;
                      pb_remote_mr_v := pb_remote_mr_v info;
                      pb_local_mr_v := pb_local_mr_v info;
                      pb_nodeBitmap := b |})) s
        else XDone tt s
    end.

(** The entry [do_remote_put_buff] stores at index [vi], and the new
    count. *)
Definition put_buff_store (L : put_buff_layout)
  (info : put_buff_task_info_t) (node size mrRaddr mrKey mrDesc : Z)
  : put_buff_task_info_t :=
  let vi := pb_vi info in
  let k := Z.to_nat vi in
  {| pb_addr := pb_addr info; pb_new := pb_new info;
     pb_vi := vi + 1;
     pb_tgt_addr_v := <[k := mrRaddr]> (pb_tgt_addr_v info);
     pb_locale_v := <[k := node]> (pb_locale_v info);
     pb_src_addr_v := <[k := src_v_addr L info vi]> (pb_src_addr_v info);
     pb_size_v := <[k := size]> (pb_size_v info);
     pb_remote_mr_v := <[k := mrKey]> (pb_remote_mr_v info);
     pb_local_mr_v := <[k := mrDesc]> (pb_local_mr_v info);
     pb_nodeBitmap := pb_nodeBitmap info |}.

(** [if (info->new) { info->nodeBitmap.len = chpl_numNodes; info->new =
    false; }]. *)
Definition put_buff_first_use (G : ofi_globals)
  (info : put_buff_task_info_t) : put_buff_task_info_t :=
  if pb_new info then
    {| pb_addr := pb_addr info; pb_new := false; pb_vi := pb_vi info;
       pb_tgt_addr_v := pb_tgt_addr_v info;
       pb_locale_v := pb_locale_v info;
       pb_src_addr_v := pb_src_addr_v info;
       pb_size_v := pb_size_v info;
       pb_remote_mr_v := pb_remote_mr_v info;
       pb_local_mr_v := pb_local_mr_v info;
       pb_nodeBitmap := {| b_len := chpl_numNodes G;
                           b_map := b_map (pb_nodeBitmap info) |} |}
  else info.

Definition do_remote_put_buff (G : ofi_globals) (E : environ)
  (X : xenviron) (L : put_buff_layout) (fuel : nat)
  (addr node raddr size : Z) : xcomm unit :=
  let extra_size := bitmapSizeofMap (chpl_numNodes G) in
  let direct := lift (ofi_put G E fuel addr node raddr size) in
  if MAX_UNORDERED_TRANS_SZ <? size then direct
  else
    match mrGetKey G node raddr size with
    | None => direct
    | Some (mrKey, mrRaddr) =>
        o <~ task_local_buff_acquire_put_buff X L extra_size ;;
        match o with
        | None => direct
        | Some info =>
            let info := put_buff_first_use G info in
            set_put_buff (Some info) ~;;
            mrDesc <~ XCHK_SOME (mrGetDesc G (src_v_addr L info 0) size) ;;
            xemit (Xe (Ev_memcpy (src_v_addr L info (pb_vi info))
                                 addr size)) ~;;
            let info := put_buff_store L info node size mrRaddr mrKey
                                       mrDesc in
            set_put_buff (Some info) ~;;
            if pb_vi info =? MAX_CHAINED_PUT_LEN
            then put_buff_task_info_flush G E fuel
            else xret tt
        end
    end.

(** The callback and the diagnostics counters between the test for the
    calling node and the call touch nothing modelled here. *)
Definition chpl_comm_put_unordered (G : ofi_globals) (E : environ)
  (X : xenviron) (L : put_buff_layout) (fuel : nat)
  (addr node raddr size : Z) : xcomm unit :=
  lift (retireDelayedAmDone E false) ~;;
  lift (CHK_TRUE (negb (addr =? NULL))) ~;;
  lift (CHK_TRUE (negb (raddr =? NULL))) ~;;
  if size =? 0 then xret tt
  else if node =? chpl_nodeID G
       then lift (emit (Ev_memmove raddr addr size))
       else do_remote_put_buff G E X L fuel addr node raddr size.

(** ** Vocabulary: a batch of buffered PUTs *)

(** The events a call added. *)
Definition xadded (s s' : xworld) : list xevent :=
  drop (length (xtrace s)) (xtrace s').

(** Fabric calls and waits. *)
Definition x_is_traffic (x : xevent) : bool :=
  match x with
  | Xe e => is_put_traffic e
  | Xe_fi_writemsg _ _ _ _ _ _ _ _ _ => true
  | _ => false
  end.

(** The [fi_writemsg] for entry [vi] of a batch of [v_len]. *)
Definition writemsg_at (tcip : nat) (info : put_buff_task_info_t)
  (v_len vi : Z) : xevent :=
  Xe_fi_writemsg tcip (arr (pb_src_addr_v info) vi)
    (arr (pb_size_v info) vi) (arr (pb_local_mr_v info) vi)
    (arr (pb_locale_v info) vi) (arr (pb_tgt_addr_v info) vi)
    (arr (pb_remote_mr_v info) vi) (txnTrkEncodeId ofi_put_V_LINE)
    (vi <? v_len - 1).

(** The entries the buffer holds: indices [0] to [vi - 1]. *)
Definition batch_indices (info : put_buff_task_info_t) : list Z :=
  List.map Z.of_nat (seq 0 (Z.to_nat (pb_vi info))).

Definition batch_writes (tcip : nat) (info : put_buff_task_info_t)
  : list xevent :=
  List.map (writemsg_at tcip info (pb_vi info)) (batch_indices info).

Definition batch_nodes (info : put_buff_task_info_t) : list Z :=
  List.map (arr (pb_locale_v info)) (batch_indices info).

(** The nodes of the job the batch has an entry for, each once, in
    increasing order. *)
Definition batch_targets (G : ofi_globals) (info : put_buff_task_info_t)
  : list Z :=
  List.filter (fun node => existsb (Z.eqb node) (batch_nodes info))
              (List.map Z.of_nat (seq 0 (Z.to_nat (chpl_numNodes G)))).

(** The buffer has been used before, its bitmap has the words for the
    nodes of the job, it holds at most [MAX_CHAINED_PUT_LEN] entries,
    and their target nodes are nodes of the job. *)
Definition buff_ok (G : ofi_globals) (info : put_buff_task_info_t)
  : Prop :=
  pb_new info = false
  /\ b_len (pb_nodeBitmap info) = chpl_numNodes G
  /\ length (b_map (pb_nodeBitmap info))
     = Z.to_nat (bitmapNumElems (chpl_numNodes G))
  /\ 0 <= pb_vi info <= MAX_CHAINED_PUT_LEN
  /\ Forall (fun node => 0 <= node < chpl_numNodes G) (batch_nodes info).

(** The arrays are as they were. *)
Definition same_entries (info info' : put_buff_task_info_t) : Prop :=
  pb_tgt_addr_v info' = pb_tgt_addr_v info
  /\ pb_locale_v info' = pb_locale_v info
  /\ pb_src_addr_v info' = pb_src_addr_v info
  /\ pb_size_v info' = pb_size_v info
  /\ pb_remote_mr_v info' = pb_remote_mr_v info
  /\ pb_local_mr_v info' = pb_local_mr_v info.

(** What a flush that took the world from [s] to [s'] did with the
    buffer [info]: one [fi_writemsg] for each entry, in the order of
    the entries and with [FI_MORE] on all but the last; then, for each
    node the batch wrote to, in increasing order, one dummy GET and the
    wait for it; nothing else on the fabric.  It leaves the buffer
    empty, its entries and its place as they were, and no bit set in
    its bitmap. *)
Definition flushes_batch (G : ofi_globals) (E : environ)
  (info : put_buff_task_info_t) (s s' : xworld) : Prop :=
  exists tcip cq info',
    put_buff s' = Some info'
    /\ pb_vi info' = 0
    /\ pb_addr info' = pb_addr info
    /\ same_entries info info'
    /\ bitmap_empty (pb_nodeBitmap info')
    /\ buff_ok G info'
    /\ List.filter x_is_traffic (xadded s s')
       = batch_writes tcip info
         ++ List.map Xe
              (concat (List.map (dummy_get G E tcip cq)
                                (batch_targets G info))).

(** The state a run ends in ([s0] when it runs out of fuel). *)
Definition xworld_after {A} (o : xoutcome A) (s0 : xworld) : xworld :=
  match o with
  | XDone _ s | XAborted s => s
  | XOutOfFuel => s0
  end.

(** A buffer at 65536 on node 0 of three that holds three PUTs: 8 bytes
    to node 1, 16 to node 2 and 8 more to node 1. *)
Definition info_demo : put_buff_task_info_t :=
  {| pb_addr := 65536; pb_new := false; pb_vi := 3;
     pb_tgt_addr_v := [200000; 300000; 200008];
     pb_locale_v := [1; 2; 1];
     pb_src_addr_v := [67584; 68608; 69632];
     pb_size_v := [8; 16; 8];
     pb_remote_mr_v := [0; 0; 0];
     pb_local_mr_v := [0; 0; 0];
     pb_nodeBitmap := bitmapAlloc 3 |}.

(** A task with that buffer on a thread with no context yet. *)
Definition s_demo : xworld :=
  {| xw := w_free; put_buff := Some info_demo; xtrace := [] |}.

(** ** Vocabulary: the table across a call *)

(** The call left the table and the thread's context alone. *)
Definition same_tab (w w' : world) : Prop :=
  tciTab w' = tciTab w /\ _ttcip w' = _ttcip w.

(** The table has as many entries as before. *)
Definition same_length (w w' : world) : Prop :=
  length (tciTab w') = length (tciTab w).

(** A provider that answers [-FI_EAGAIN] twice to every call, and a
    completion queue each read of which returns one completion as long
    as the context has transactions in flight. *)
Definition E_retry : environ :=
  {| others := fun _ t => t;
     cqEvents := fun _ out => if 0 <? out then 1 else 0;
     eagain := fun _ => 2%nat;
     bounceBuf := fun _ _ => 8192;
     chpl_task_isFixedThread := true;
     amDone_addr := 512; txnDone_addr := 520;
     prvAmDone_addr := 528; amReq_addr := 536 |}.

(** A thread with no context yet; worker context 1 is free, has issued
    seven transactions and has three of them in flight. *)
Definition w_inflight : world :=
  {| tciTab := [tci_mk true false;
                {| allocated := false; bound := false; txCQ := true;
                   numTxnsOut := 3; numTxnsSent := 7 |};
                tci_mk true true];
     _ttcip := None; prvData := Some prv_fresh; yields := O;
     trace := [] |}.

(** ** Vocabulary: a completion queue that delivers *)

(** When a wait for a transaction returns, the reads of the queue made
    during the wait have returned a completion, if the context had a
    transaction in flight. *)
Definition cq_wait_delivers (E : environ) : Prop :=
  forall tr t ctx out,
    0 < out -> 1 <= cqEvents E (tr ++ [Ev_waitForTxnComplete t ctx]) out.

(** The nodes in [nodes] have a key for their [orderDummy], and ours
    has a descriptor. *)
Definition dummies_registered (G : ofi_globals) (nodes : list Z) : Prop :=
  mrGetDesc G (orderDummy G) 1 <> None
  /\ Forall (fun node => mrGetKey G node (orderDummyMap G node) 1 <> None)
            nodes.

(** Context [t] is an entry of the table and its completion queue has
    room: fewer than [txCQLen] transactions are in flight. *)
Definition cq_has_room (G : ofi_globals) (t : nat) (w : world) : Prop :=
  (t < length (tciTab w))%nat
  /\ 0 <= numTxnsOut (tciAt (tciTab w) t) < txCQLen G
  /\ txCQLen G < 2 ^ 64.

(** * Properties *)

(** ** The monad *)

Lemma bind_Done {A B} (m : comm A) (k : A -> comm B) w b w' :
  bind m k w = Done b w' ->
  exists a w1, m w = Done a w1 /\ k a w1 = Done b w'.
Proof.
  unfold bind. destruct (m w) as [a w1| |]; intros H; try discriminate.
  exists a, w1. split; [reflexivity | exact H].
Qed.

Lemma bind_eq_Done {A B} (m : comm A) (k : A -> comm B) w a w1 :
  m w = Done a w1 -> bind m k w = k a w1.
Proof. unfold bind. intros ->. reflexivity. Qed.

Lemma bind_eq_Aborted {A B} (m : comm A) (k : A -> comm B) w w1 :
  m w = Aborted w1 -> bind m k w = Aborted w1.
Proof. unfold bind. intros ->. reflexivity. Qed.

(** ** Completion-context tags *)

Lemma TXNTRK_ADDR_MASK_ones : TXNTRK_ADDR_MASK = Z.ones 63.
Proof. reflexivity. Qed.

Lemma TXNTRK_TYPE_MASK_ones : TXNTRK_TYPE_MASK = Z.ones 1.
Proof. reflexivity. Qed.

Lemma lor_hi_lo (t p : Z) :
  0 <= p < 2 ^ 63 -> Z.lor (t * 2 ^ 63) p = t * 2 ^ 63 + p.
Proof.
  intros Hp.
  assert (Hd : Z.land (t * 2 ^ 63) p = 0).
  { apply Z.bits_inj'. intros n Hn. rewrite Z.land_spec, Z.bits_0.
    destruct (Z.ltb_spec n 63).
    - rewrite Z.mul_pow2_bits_low by lia. reflexivity.
    - rewrite <- (Z.mod_small p (2 ^ 63)) by lia.
      rewrite Z.mod_pow2_bits_high by lia. apply andb_false_r. }
  rewrite <- Z.lxor_lor by exact Hd.
  symmetry. apply Z.add_nocarry_lxor. exact Hd.
Qed.

Lemma txnTrkEncode_sum t p :
  0 <= p < 2 ^ 63 -> txnTrkEncode t p = txnTrkType_val t * 2 ^ 63 + p.
Proof.
  intros Hp. unfold txnTrkEncode.
  rewrite TXNTRK_ADDR_MASK_ones, Z.land_ones by lia.
  unfold u64. rewrite (Z.mod_small p (2 ^ 64)) by lia.
  rewrite (Z.mod_small p) by lia.
  rewrite <- lor_hi_lo by exact Hp.
  destruct t; reflexivity.
Qed.

Lemma hi_lo_div t p :
  0 <= p < 2 ^ 63 -> (t * 2 ^ 63 + p) / 2 ^ 63 = t.
Proof.
  intros Hp. rewrite Z.div_add_l by lia. rewrite (Z.div_small p) by lia. lia.
Qed.

Lemma hi_lo_mod t p :
  0 <= p < 2 ^ 63 -> (t * 2 ^ 63 + p) mod 2 ^ 63 = p.
Proof.
  intros Hp. rewrite Z.add_comm, Z.mod_add by lia. apply Z.mod_small. lia.
Qed.

(** C9.  For both variants and every payload [p] with the top bit clear
    ([0 <= p < 2^63]): the asserts of [txnTrkEncode] pass, decoding the
    encoded word gives back exactly the variant and the payload, bit 63
    of the word is the variant, its low 63 bits are the payload, and the
    word fits 64 bits. *)
Theorem txnTrk_roundtrip (t : txnTrkType_t) (p : Z) :
  0 <= p < 2 ^ 63 ->
  txnTrkEncode_asserts p = true
  /\ txnTrkDecode (txnTrkEncode t p) = {| typ := t; ptr := p |}
  /\ Z.testbit (txnTrkEncode t p) 63
     = match t with txnTrkDone => true | txnTrkId => false end
  /\ Z.land (txnTrkEncode t p) (Z.ones 63) = p
  /\ 0 <= txnTrkEncode t p < 2 ^ 64.
Proof.
  intros Hp.
  assert (Hv : 0 <= txnTrkType_val t <= 1) by (destruct t; simpl; lia).
  assert (Hu : u64 (txnTrkType_val t * 2 ^ 63 + p)
               = txnTrkType_val t * 2 ^ 63 + p).
  { unfold u64. apply Z.mod_small. lia. }
  repeat split.
  - unfold txnTrkEncode_asserts. apply andb_true_intro. split.
    + reflexivity.
    + apply Z.eqb_eq. unfold u64. rewrite (Z.mod_small p) by lia.
      change (not64 TXNTRK_ADDR_MASK) with (1 * 2 ^ 63).
      apply Z.bits_inj'. intros n Hn. rewrite Z.land_spec, Z.bits_0.
      destruct (Z.ltb_spec n 63).
      * rewrite Z.mul_pow2_bits_low by lia. apply andb_false_r.
      * rewrite <- (Z.mod_small p (2 ^ 63)) by lia.
        rewrite Z.mod_pow2_bits_high by lia. reflexivity.
  - rewrite txnTrkEncode_sum by exact Hp. unfold txnTrkDecode.
    rewrite Hu, TXNTRK_ADDR_MASK_ones, TXNTRK_TYPE_MASK_ones.
    rewrite !Z.land_ones by lia.
    change TXNTRK_ADDR_BITS with 63. rewrite Z.shiftr_div_pow2 by lia.
    rewrite hi_lo_div, hi_lo_mod by exact Hp.
    destruct t; reflexivity.
  - rewrite txnTrkEncode_sum by exact Hp.
    rewrite Z.testbit_eqb by lia. rewrite hi_lo_div by exact Hp.
    destruct t; reflexivity.
  - rewrite txnTrkEncode_sum by exact Hp.
    rewrite Z.land_ones by lia. apply hi_lo_mod. exact Hp.
  - rewrite txnTrkEncode_sum by exact Hp. lia.
  - rewrite txnTrkEncode_sum by exact Hp. lia.
Qed.

Lemma txnTrk_roundtrip_witness :
  0 <= 4096 < 2 ^ 63
  /\ txnTrkDecode (txnTrkEncode txnTrkDone 4096)
     = {| typ := txnTrkDone; ptr := 4096 |}.
Proof.
  split; [lia |].
  apply (txnTrk_roundtrip txnTrkDone 4096). lia.
Defined.

(** ** The transmit-context table *)

Lemma tciAt_insert_eq tab i x :
  (i < length tab)%nat -> tciAt (<[i := x]> tab) i = x.
Proof.
  intros H. unfold tciAt. rewrite list_lookup_insert_eq by exact H.
  reflexivity.
Qed.

Lemma tciAt_insert_ne tab i j x :
  i <> j -> tciAt (<[i := x]> tab) j = tciAt tab j.
Proof.
  intros H. unfold tciAt. rewrite list_lookup_insert_ne by exact H.
  reflexivity.
Qed.

(** An exchange that finds the flag already [true] leaves the table as
    it was. *)
Lemma exchange_true_same tab i :
  allocated (tciAt tab i) = true ->
  <[i := set_allocated true (tciAt tab i)]> tab = tab.
Proof.
  intros Ha. unfold tciAt in *.
  destruct (tab !! i) as [x|] eqn:Hx.
  - apply list_insert_id. rewrite Hx. simpl in *.
    destruct x; simpl in *; subst; reflexivity.
  - simpl in Ha. discriminate.
Qed.

Lemma scanTciTab_Some k n iw ab tab j ab' tab' :
  scanTciTab k n iw ab tab = (Some j, ab', tab') ->
  ((iw < j < n)%nat \/ j = O)
  /\ allocated (tciAt tab j) = false
  /\ tab' = <[j := set_allocated true (tciAt tab j)]> tab.
Proof.
  revert iw ab tab.
  induction k as [|k IH]; intros iw ab tab H; simpl in H.
  - discriminate.
  - unfold atomic_exchange_allocated in H.
    remember (if (n <=? S iw)%nat then O else S iw) as iw1 eqn:Hiw1.
    destruct (allocated (tciAt tab iw1)) eqn:Ha; simpl in H.
    + rewrite exchange_true_same in H by exact Ha.
      destruct (Nat.eqb_spec iw1 last_iw) as [He|He]; [discriminate|].
      apply IH in H. destruct H as (Hr & Hf & Ht).
      split; [|split; assumption].
      destruct (Nat.leb_spec n (S iw)); subst iw1.
      * exfalso. apply He. reflexivity.
      * destruct Hr as [Hr|Hr]; [left; lia | right; exact Hr].
    + inversion H; subst j ab' tab'. split; [|split; [exact Ha | reflexivity]].
      destruct (Nat.leb_spec n (S iw)); subst iw1; [right; reflexivity | left; lia].
Qed.

Lemma scanTciTab_None k n iw ab tab ab' tab' :
  (n - iw <= k)%nat -> (1 <= k)%nat ->
  scanTciTab k n iw ab tab = (None, ab', tab') ->
  tab' = tab
  /\ (forall i, (iw < i < n)%nat \/ i = O -> allocated (tciAt tab i) = true)
  /\ (ab' = true <->
      ab = true
      /\ forall i, (iw < i < n)%nat \/ i = O -> bound (tciAt tab i) = true).
Proof.
  revert iw ab tab.
  induction k as [|k IH]; intros iw ab tab Hk H1 H; [lia|].
  simpl in H. unfold atomic_exchange_allocated in H.
  remember (if (n <=? S iw)%nat then O else S iw) as iw1 eqn:Hiw1.
  destruct (allocated (tciAt tab iw1)) eqn:Ha; simpl in H; [|discriminate].
  rewrite exchange_true_same in H by exact Ha.
  destruct (Nat.eqb_spec iw1 last_iw) as [He|He].
  - inversion H; subst ab' tab'. unfold last_iw in He.
    destruct (Nat.leb_spec n (S iw)); subst iw1; [|discriminate].
    split; [reflexivity|]. split.
    + intros i [Hi|Hi]; [lia | subst i; exact Ha].
    + rewrite andb_true_iff. split.
      * intros [? ?]. split; [assumption|].
        intros i [Hi|Hi]; [lia | subst i; assumption].
      * intros [? Hb]. split; [assumption | apply Hb; right; reflexivity].
  - destruct (Nat.leb_spec n (S iw)); subst iw1.
    + exfalso. apply He. reflexivity.
    + apply IH in H; [|lia|lia].
      destruct H as (Ht & Hf & Hb). split; [exact Ht|]. split.
      * intros i [Hi|Hi].
        -- destruct (Nat.eq_dec i (S iw)) as [->|Hne]; [exact Ha|].
           apply Hf. left. lia.
        -- apply Hf. right. exact Hi.
      * rewrite Hb, andb_true_iff. split.
        -- intros [[? Hbi] Hall]. split; [assumption|].
           intros i [Hi|Hi].
           ++ destruct (Nat.eq_dec i (S iw)) as [->|Hne]; [exact Hbi|].
              apply Hall. left. lia.
           ++ apply Hall. right. exact Hi.
        -- intros [? Hall]. split; [split|].
           ++ assumption.
           ++ apply Hall. left. lia.
           ++ intros i [Hi|Hi]; apply Hall; [left; lia | right; exact Hi].
Qed.

(** The inner loop never uses up its [S n] iterations: more fuel gives
    the same result. *)
Lemma scanTciTab_fuel n k iw ab tab :
  (n - iw <= k)%nat -> (1 <= k)%nat ->
  scanTciTab (S k) n iw ab tab = scanTciTab k n iw ab tab.
Proof.
  revert iw ab tab.
  induction k as [|k IH]; intros iw ab tab Hk H1; [lia|].
  cbn [scanTciTab]. unfold atomic_exchange_allocated.
  remember (if (n <=? S iw)%nat then O else S iw) as iw1 eqn:Hiw1.
  destruct (negb (allocated (tciAt tab iw1))); [reflexivity|].
  destruct (Nat.eqb_spec iw1 last_iw) as [He|He]; [reflexivity|].
  destruct (Nat.leb_spec n (S iw)); subst iw1.
  - exfalso. apply He. reflexivity.
  - specialize (IH (S iw) (ab && bound (tciAt tab (S iw)))
                   (<[S iw:=set_allocated true (tciAt tab (S iw))]> tab)).
    cbn [scanTciTab] in IH. unfold atomic_exchange_allocated in IH.
    apply IH; lia.
Qed.

Lemma scan_round_None n tab ab' tab' :
  (0 < n)%nat ->
  scanTciTab (S n) n last_iw true tab = (None, ab', tab') ->
  tab' = tab /\ no_free n tab /\ (ab' = true <-> all_bound n tab).
Proof.
  intros Hn H. apply scanTciTab_None in H; [|unfold last_iw; lia|lia].
  destruct H as (Ht & Hf & Hb). unfold last_iw in *.
  split; [exact Ht|]. split.
  - intros i Hi. apply Hf. destruct i; [right; reflexivity | left; lia].
  - rewrite Hb. split.
    + intros [_ H] i Hi. apply H.
      destruct i; [right; reflexivity | left; lia].
    + intros H. split; [reflexivity|].
      intros i [Hi|Hi]; apply H; lia.
Qed.

Lemma scan_round_Some n tab j ab' tab' :
  (0 < n)%nat ->
  scanTciTab (S n) n last_iw true tab = (Some j, ab', tab') ->
  (j < n)%nat
  /\ allocated (tciAt tab j) = false
  /\ tab' = <[j := set_allocated true (tciAt tab j)]> tab.
Proof.
  intros Hn H. apply scanTciTab_Some in H.
  destruct H as (Hr & Hf & Ht). split; [lia|]. split; assumption.
Qed.

(** C3.  A worker's search ([bindToAmHandler] false) over the worker
    sub-range [[0, n)], [n = tciTabLen - numAmHandlers > 0], where [T k]
    is the table its [k]-th scan sees:
    - it aborts only in a round whose full scan found every entry
      allocated and every entry bound;
    - a round that could claim nothing but saw an unbound entry is
      followed by a yield and another scan;
    - it returns entry [i] only after an exchange that found entry [i]
      free, which is allocated from then on, after one yield per failed
      round;
    - it is still running after [fuel] rounds only if every one of them
      claimed nothing and saw an unbound entry. *)
Theorem findFreeTciTabEntry_worker_rounds G E fuel w :
  (0 < numWorkerTxCtxs G)%nat ->
  worker_search_rounds G E fuel w.
Proof.
  intros Hn. unfold worker_search_rounds. cbn zeta.
  unfold findFreeTciTabEntry.
  revert w. induction fuel as [|fuel IH]; intros w.
  - simpl. intros j Hj. lia.
  - cbn [findFreeTciTabEntry_worker].
    destruct (scanTciTab (S (numWorkerTxCtxs G)) (numWorkerTxCtxs G)
                         last_iw true (tciTab w))
      as [[tcip ab] tab] eqn:Hs.
    destruct tcip as [i|].
    + apply scan_round_Some in Hs; [|exact Hn].
      destruct Hs as (Hi & Hf & Ht).
      cbn. exists O. cbn. repeat split; try assumption; try lia.
      rewrite app_nil_r. reflexivity.
    + apply scan_round_None in Hs; [|exact Hn].
      destruct Hs as (Ht & Hf & Hb). subst tab.
      destruct ab.
      * cbn. exists O. cbn. repeat split; try assumption; try lia.
        apply Hb. reflexivity.
      * assert (Hnb : ~ all_bound (numWorkerTxCtxs G) (tciTab w)).
        { intros H. apply Hb in H. discriminate. }
        cbn.
        set (w1 := {| tciTab := others E (yields w) (tciTab w);
                      _ttcip := _ttcip w; prvData := prvData w;
                      yields := S (yields w);
                      trace := trace w ++ [Ev_local_yield] |}).
        specialize (IH w1).
        change (roundTab E (yields w1) (tciTab w1))
          with (fun k => roundTab E (yields w) (tciTab w) (S k)) in IH.
        destruct (findFreeTciTabEntry_worker G E fuel w1) as [i w'|w'|].
        -- destruct IH as (k & Hk & Hprev & Hi & Ha & Htab & Hy & Htr).
           exists (S k). split; [lia|]. split.
           { intros j Hj. destruct j; [split; assumption|].
             apply Hprev. lia. }
           repeat split; try assumption.
           ++ rewrite Hy. simpl. lia.
           ++ rewrite Htr. simpl. rewrite <- app_assoc. reflexivity.
        -- destruct IH as (k & Hk & Hprev & Hf' & Hb' & Htab).
           exists (S k). split; [lia|]. split.
           { intros j Hj. destruct j; [split; assumption|].
             apply Hprev. lia. }
           repeat split; assumption.
        -- intros j Hj. destruct j; [split; assumption|].
           apply IH. lia.
Qed.

Lemma findFreeTciTabEntry_worker_rounds_witness :
  (0 < numWorkerTxCtxs G_demo)%nat
  /\ worker_search_rounds G_demo E_release 3 w_busy.
Proof.
  split; [vm_compute; lia|].
  apply (findFreeTciTabEntry_worker_rounds G_demo E_release 3 w_busy).
  vm_compute. lia.
Defined.

(** With every entry busy and entry 1 released during the first yield,
    the search fails once, yields, and claims entry 1. *)
Example findFreeTciTabEntry_second_round :
  exists w',
    findFreeTciTabEntry G_demo E_release 3 false w_busy = Done 1%nat w'
    /\ yields w' = 1%nat /\ trace w' = [Ev_local_yield]
    /\ allocated (tciAt (tciTab w') 1) = true.
Proof. eexists. split; [vm_compute; reflexivity|]. repeat split. Qed.

(** When every worker context is allocated and bound the search
    aborts at once. *)
Example findFreeTciTabEntry_all_bound_aborts :
  exists w',
    findFreeTciTabEntry G_demo E_demo 3 false
      {| tciTab := [tci_mk true true; tci_mk true true; tci_mk true true];
         _ttcip := None; prvData := None; yields := O; trace := [] |}
    = Aborted w'.
Proof. eexists. vm_compute. reflexivity. Qed.

(** *** Bound contexts stay bound and allocated *)

Lemma binding_ok_refl t : binding_ok t t.
Proof. intros H. split; [exact H | intros i Hi; exact Hi]. Qed.

Lemma binding_ok_trans t1 t2 t3 :
  binding_ok t1 t2 -> binding_ok t2 t3 -> binding_ok t1 t3.
Proof.
  intros H12 H23 H1. destruct (H12 H1) as [H2 K12].
  destruct (H23 H2) as [H3 K23]. split; [exact H3|].
  intros i Hi. apply K23, K12, Hi.
Qed.

Lemma tciAt_insert tab i j x :
  tciAt (<[i := x]> tab) j
  = if decide (i = j /\ (i < length tab)%nat) then x else tciAt tab j.
Proof.
  destruct (decide (i = j /\ (i < length tab)%nat)) as [[-> Hl]|Hn].
  - apply tciAt_insert_eq. exact Hl.
  - destruct (Nat.eq_dec i j) as [->|Hne].
    + rewrite list_insert_ge by lia. reflexivity.
    + apply tciAt_insert_ne. exact Hne.
Qed.

Lemma binding_ok_claim t i :
  binding_ok t (<[i := set_allocated true (tciAt t i)]> t).
Proof.
  intros H. split; intros j Hj; rewrite tciAt_insert in *;
    destruct (decide _) as [[-> Hl]|]; simpl in *; auto.
Qed.

Lemma binding_ok_bind t i :
  (i < length t -> allocated (tciAt t i) = true)%nat ->
  binding_ok t (<[i := set_bound true (tciAt t i)]> t).
Proof.
  intros Ha H. split; intros j Hj; rewrite tciAt_insert in *;
    destruct (decide _) as [[-> Hl]|]; simpl in *; auto.
Qed.

Lemma binding_ok_release t i :
  bound (tciAt t i) = false ->
  binding_ok t (<[i := set_allocated false (tciAt t i)]> t).
Proof.
  intros Hb H. split; intros j Hj; rewrite tciAt_insert in *;
    destruct (decide _) as [[-> Hl]|]; simpl in *; auto; congruence.
Qed.

Lemma findFree_worker_binding G E fuel w i w' :
  env_respects_binding E ->
  findFreeTciTabEntry_worker G E fuel w = Done i w' ->
  binding_ok (tciTab w) (tciTab w')
  /\ ((i < length (tciTab w'))%nat -> allocated (tciAt (tciTab w') i) = true).
Proof.
  intros HE. revert w.
  induction fuel as [|fuel IH]; intros w H; [discriminate|].
  cbn [findFreeTciTabEntry_worker] in H.
  destruct (scanTciTab (S (numWorkerTxCtxs G)) (numWorkerTxCtxs G)
                       last_iw true (tciTab w))
    as [[tcip ab] tab] eqn:Hs.
  destruct tcip as [j|].
  - apply scanTciTab_Some in Hs. destruct Hs as (_ & _ & ->).
    cbn in H. inversion H; subst i w'. cbn. split.
    + apply binding_ok_claim.
    + intros Hl. rewrite length_insert in Hl.
      rewrite tciAt_insert_eq by exact Hl. reflexivity.
  - apply scanTciTab_None in Hs; [|unfold last_iw; lia|lia].
    destruct Hs as (-> & _ & _).
    destruct ab; cbn in H; [discriminate|].
    apply IH in H. cbn in H. destruct H as [Hok Ha]. split; [|exact Ha].
    eapply binding_ok_trans; [|exact Hok].
    intros Hb. apply HE. exact Hb.
Qed.

Lemma findFree_binding G E fuel b w i w' :
  env_respects_binding E ->
  findFreeTciTabEntry G E fuel b w = Done i w' ->
  binding_ok (tciTab w) (tciTab w')
  /\ ((i < length (tciTab w'))%nat -> allocated (tciAt (tciTab w') i) = true).
Proof.
  intros HE H. destruct b; cbn in H.
  - destruct (allocated (tciAt (tciTab w) (numWorkerTxCtxs G))) eqn:Ha;
      cbn in H; [discriminate|].
    inversion H; subst i w'. cbn. split.
    + apply binding_ok_claim.
    + intros Hl. rewrite length_insert in Hl.
      rewrite tciAt_insert_eq by exact Hl. reflexivity.
  - eapply findFree_worker_binding; eassumption.
Qed.

Lemma tciAllocCommon_find_binding G E fuel b w i w' :
  env_respects_binding E ->
  (i0 <- findFreeTciTabEntry G E fuel b ;;
   set_ttcip (Some i0) ;;;
   when (b || (tciTabFixedAssignments G && chpl_task_isFixedThread E))
        (upd_tci i0 (set_bound true)) ;;;
   ret i0) w = Done i w' ->
  binding_ok (tciTab w) (tciTab w').
Proof.
  intros HE H. apply bind_Done in H. destruct H as (j & w1 & Hf & H).
  apply findFree_binding in Hf; [|exact HE]. destruct Hf as [Hok Ha].
  eapply binding_ok_trans; [exact Hok|].
  cbn in H.
  destruct (b || (tciTabFixedAssignments G && chpl_task_isFixedThread E));
    cbn in H; inversion H; subst; cbn.
  - apply binding_ok_bind. exact Ha.
  - apply binding_ok_refl.
Qed.

Lemma tciAllocCommon_binding G E fuel b w i w' :
  env_respects_binding E ->
  tciAllocCommon G E fuel b w = Done i w' ->
  binding_ok (tciTab w) (tciTab w').
Proof.
  intros HE H. unfold tciAllocCommon in H.
  destruct (_ttcip w) as [t|].
  - destruct (bound (tciAt (tciTab w) t)).
    + inversion H; subst. apply binding_ok_refl.
    + unfold atomic_exchange_allocated in H.
      destruct (allocated (tciAt (tciTab w) t)) eqn:Ha; cbn [negb] in H.
      * rewrite exchange_true_same in H by exact Ha.
        apply bind_Done in H. destruct H as ([] & w1 & Hs & H).
        cbn in Hs. inversion Hs; subst w1.
        apply tciAllocCommon_find_binding in H; [|exact HE]. exact H.
      * cbn in H. inversion H; subst. cbn. apply binding_ok_claim.
  - apply tciAllocCommon_find_binding in H; [|exact HE]. exact H.
Qed.

Lemma tciFree_Done tcip w :
  tciFree tcip w
  = Done tt (if bound (tciAt (tciTab w) tcip) then w
             else {| tciTab := <[tcip := set_allocated false
                                           (tciAt (tciTab w) tcip)]>
                                 (tciTab w);
                     _ttcip := _ttcip w; prvData := prvData w;
                     yields := yields w; trace := trace w |}).
Proof.
  unfold tciFree. destruct (bound (tciAt (tciTab w) tcip)); reflexivity.
Qed.

Lemma tciFree_binding tcip w w' :
  tciFree tcip w = Done tt w' -> binding_ok (tciTab w) (tciTab w').
Proof.
  rewrite tciFree_Done. intros H. inversion H; subst w'.
  destruct (bound (tciAt (tciTab w) tcip)) eqn:Hb.
  - apply binding_ok_refl.
  - cbn. apply binding_ok_release. exact Hb.
Qed.

Lemma run_call_binding G c t t' :
  call_env_ok c -> run_call G c t = Some t' -> binding_ok t t'.
Proof.
  intros Hc H. destruct c as [E fuel b ttcip y|tcip]; cbn in H.
  - destruct (tciAllocCommon G E fuel b (world_of t ttcip y))
      as [i w'| |] eqn:Ha; try discriminate.
    inversion H; subst t'.
    apply tciAllocCommon_binding in Ha; [exact Ha | exact Hc].
  - destruct (tciFree tcip (world_of t None 0)) as [[] w'| |] eqn:Hf;
      try discriminate.
    inversion H; subst t'. apply tciFree_binding in Hf. exact Hf.
Qed.

Lemma run_calls_binding G cs t t' :
  Forall call_env_ok cs -> run_calls G cs t = Some t' -> binding_ok t t'.
Proof.
  intros Hcs. revert t.
  induction Hcs as [|c cs Hc Hcs IH]; intros t H; cbn in H.
  - inversion H; subst. apply binding_ok_refl.
  - destruct (run_call G c t) as [t1|] eqn:H1; [|discriminate].
    eapply binding_ok_trans.
    + eapply run_call_binding; eassumption.
    + apply IH. exact H.
Qed.

(** C6.  (1) [tciFree] leaves everything as it is for a bound context and
    clears [allocated] only for one whose [bound] flag is false.
    (2) From a table in which every bound entry is allocated (as after
    initialisation, where no entry is bound), whatever calls to
    [tciAllocCommon] and [tciFree] the threads make, every entry that is
    bound stays bound, and every bound entry is allocated.
    (3) [tciAllocCommon] hands a thread its cached context when that is
    bound, changing nothing: no exchange on a flag, no yield. *)
Theorem tci_bound_is_permanent G :
  (forall tcip w,
      tciFree tcip w
      = Done tt (if bound (tciAt (tciTab w) tcip) then w
                 else {| tciTab := <[tcip := set_allocated false
                                               (tciAt (tciTab w) tcip)]>
                                     (tciTab w);
                         _ttcip := _ttcip w; prvData := prvData w;
                         yields := yields w; trace := trace w |}))
  /\ (forall cs t t',
         bound_allocated t ->
         Forall call_env_ok cs ->
         run_calls G cs t = Some t' ->
         bound_allocated t' /\ bound_kept t t')
  /\ (forall E fuel b w t,
         _ttcip w = Some t ->
         bound (tciAt (tciTab w) t) = true ->
         tciAllocCommon G E fuel b w = Done t w).
Proof.
  split; [|split].
  - intros tcip w. apply tciFree_Done.
  - intros cs t t' Ht Hcs Hr.
    exact (run_calls_binding G cs t t' Hcs Hr Ht).
  - intros E fuel b w t Ht Hb. unfold tciAllocCommon.
    rewrite Ht, Hb. reflexivity.
Qed.

Lemma env_respects_binding_id E :
  (forall k t, others E k t = t) -> env_respects_binding E.
Proof.
  intros H k t Ht. rewrite H. split; [exact Ht|]. intros i Hi. exact Hi.
Qed.

Lemma tci_bound_is_permanent_witness :
  bound_allocated tab_init
  /\ Forall call_env_ok calls_demo
  /\ run_calls G_demo calls_demo tab_init
     = Some [tci_mk false false; tci_mk true true; tci_mk true true]
  /\ bound_allocated [tci_mk false false; tci_mk true true; tci_mk true true]
  /\ bound_kept tab_init
                [tci_mk false false; tci_mk true true; tci_mk true true].
Proof.
  assert (H0 : bound_allocated tab_init).
  { intros i H. destruct i as [|[|[|i]]]; cbn in H; discriminate. }
  assert (Hc : Forall call_env_ok calls_demo).
  { unfold calls_demo.
    repeat (apply List.Forall_cons;
            [cbn; try exact I; apply env_respects_binding_id; reflexivity|]).
    apply List.Forall_nil. }
  assert (Hr : run_calls G_demo calls_demo tab_init
               = Some [tci_mk false false; tci_mk true true;
                       tci_mk true true])
    by (vm_compute; reflexivity).
  split; [exact H0|]. split; [exact Hc|]. split; [exact Hr|].
  exact (proj1 (proj2 (tci_bound_is_permanent G_demo))
           calls_demo tab_init _ H0 Hc Hr).
Defined.

(** ** What a call adds to the trace *)

Lemma added_app w w' d : trace w' = trace w ++ d -> added w w' = d.
Proof.
  intros H. unfold added. rewrite H. apply drop_app_length.
Qed.

Lemma filter_app_list {A} (f : A -> bool) (l1 l2 : list A) :
  List.filter f (l1 ++ l2) = List.filter f l1 ++ List.filter f l2.
Proof. apply List.filter_app. Qed.

Lemma filter_nil_of_class (P Q : event -> bool) d :
  forallb P d = true ->
  (forall e, P e = true -> Q e = false) ->
  List.filter Q d = [].
Proof.
  intros Hd HPQ. induction d as [|e d IH]; [reflexivity|].
  cbn in Hd. apply andb_true_iff in Hd. destruct Hd as [He Hd].
  cbn. rewrite (HPQ e He). apply IH. exact Hd.
Qed.

Lemma forallb_weaken (P Q : event -> bool) d :
  (forall e, P e = true -> Q e = true) ->
  forallb P d = true -> forallb Q d = true.
Proof.
  intros HPQ. induction d as [|e d IH]; [reflexivity|].
  cbn. rewrite !andb_true_iff. intros [He Hd]. split; auto.
Qed.

Lemma quiet_Done {A} P (m : comm A) w a w' :
  quiet P m -> m w = Done a w' ->
  exists d, trace w' = trace w ++ d /\ forallb P d = true.
Proof. intros Hq H. specialize (Hq w). rewrite H in Hq. exact Hq. Qed.

Lemma quiet_Aborted {A} P (m : comm A) w w' :
  quiet P m -> m w = Aborted w' ->
  exists d, trace w' = trace w ++ d /\ forallb P d = true.
Proof. intros Hq H. specialize (Hq w). rewrite H in Hq. exact Hq. Qed.

Lemma quiet_weaken {A} (P Q : event -> bool) (m : comm A) :
  (forall e, P e = true -> Q e = true) -> quiet P m -> quiet Q m.
Proof.
  intros HPQ Hq w. specialize (Hq w).
  destruct (m w) as [a w'|w'|]; [| |exact I];
    destruct Hq as (d & Ht & Hd); exists d; split; try assumption;
    eapply forallb_weaken; eassumption.
Qed.

Lemma quiet_ret {A} P (a : A) : quiet P (ret a).
Proof. intros w. cbn. exists []. rewrite app_nil_r. split; reflexivity. Qed.

Lemma quiet_abort {A} P : quiet P (@abort A).
Proof. intros w. cbn. exists []. rewrite app_nil_r. split; reflexivity. Qed.

Lemma quiet_OutOfFuel {A} P : quiet P (fun _ => @OutOfFuel A).
Proof. intros w. exact I. Qed.

Lemma quiet_emit P e : P e = true -> quiet P (emit e).
Proof.
  intros He w. cbn. exists [e]. split; [reflexivity|].
  cbn. rewrite He. reflexivity.
Qed.

Lemma quiet_bind {A B} P (m : comm A) (k : A -> comm B) :
  quiet P m -> (forall a, quiet P (k a)) -> quiet P (bind m k).
Proof.
  intros Hm Hk w. unfold bind. specialize (Hm w).
  destruct (m w) as [a w1|w1|]; [| exact Hm | exact I].
  destruct Hm as (d1 & Ht1 & Hd1). specialize (Hk a w1).
  destruct (k a w1) as [b w2|w2|]; [| |exact I];
    destruct Hk as (d2 & Ht2 & Hd2); exists (d1 ++ d2);
    (split; [rewrite Ht2, Ht1, app_assoc; reflexivity
            | rewrite forallb_app, Hd1, Hd2; reflexivity]).
Qed.

Lemma quiet_when P b m : quiet P m -> quiet P (when b m).
Proof. intros H. destruct b; [exact H | apply quiet_ret]. Qed.

Lemma quiet_CHK_TRUE P b : quiet P (CHK_TRUE b).
Proof. destruct b; [apply quiet_ret | apply quiet_abort]. Qed.

Lemma quiet_CHK_FALSE P b : quiet P (CHK_FALSE b).
Proof. destruct b; [apply quiet_abort | apply quiet_ret]. Qed.

Lemma quiet_CHK_SOME {A} P (o : option A) : quiet P (CHK_SOME o).
Proof. destruct o; [apply quiet_ret | apply quiet_abort]. Qed.

Lemma quiet_assert_SOME {A} P (o : option A) : quiet P (assert_SOME o).
Proof. destruct o; [apply quiet_ret | apply quiet_abort]. Qed.

(** A step that returns and leaves the trace as it is. *)
Lemma quiet_silent {A} P (m : comm A) :
  (forall w, exists a w', m w = Done a w' /\ trace w' = trace w) ->
  quiet P m.
Proof.
  intros H w. destruct (H w) as (a & w' & -> & Ht).
  exists []. rewrite app_nil_r. split; [exact Ht | reflexivity].
Qed.

Lemma quiet_set_tciTab P t : quiet P (set_tciTab t).
Proof. apply quiet_silent. intros w. eexists _, _. split; reflexivity. Qed.

Lemma quiet_set_ttcip P t : quiet P (set_ttcip t).
Proof. apply quiet_silent. intros w. eexists _, _. split; reflexivity. Qed.

Lemma quiet_set_prvData P p : quiet P (set_prvData p).
Proof. apply quiet_silent. intros w. eexists _, _. split; reflexivity. Qed.

Lemma quiet_get_tci P i : quiet P (get_tci i).
Proof. apply quiet_silent. intros w. eexists _, _. split; reflexivity. Qed.

Lemma quiet_get_comm_taskPrvdata P : quiet P get_comm_taskPrvdata.
Proof. apply quiet_silent. intros w. eexists _, _. split; reflexivity. Qed.

Lemma quiet_upd_tci P i f : quiet P (upd_tci i f).
Proof. apply quiet_silent. intros w. eexists _, _. split; reflexivity. Qed.

Lemma quiet_incr_numTxnsOut P i : quiet P (incr_numTxnsOut i).
Proof. apply quiet_upd_tci. Qed.

Lemma quiet_incr_numTxnsSent P i : quiet P (incr_numTxnsSent i).
Proof. apply quiet_upd_tci. Qed.

Lemma quiet_checkTxCmplsFn P E i : quiet P (checkTxCmplsFn E i).
Proof. apply quiet_silent. intros w. eexists _, _. split; reflexivity. Qed.

Lemma quiet_tciFree P i : quiet P (tciFree i).
Proof.
  apply quiet_silent. intros w. rewrite tciFree_Done.
  eexists _, _. split; [reflexivity|].
  destruct (bound (tciAt (tciTab w) i)); reflexivity.
Qed.

(** A function that inspects the world before it chooses what to run. *)
Lemma quiet_fun {A} P (f : world -> comm A) :
  (forall w0, quiet P (f w0)) -> quiet P (fun w => f w w).
Proof. intros H w. apply (H w w). Qed.

Lemma quiet_ensureProgress P E i n : quiet P (ensureProgress E i n).
Proof.
  induction n as [|n IH]; cbn [ensureProgress]; [apply quiet_ret|].
  apply quiet_bind; [apply quiet_checkTxCmplsFn|intros _; exact IH].
Qed.

Lemma quiet_OFI_RIDE_OUT_EAGAIN P E i e :
  P e = true -> quiet P (OFI_RIDE_OUT_EAGAIN E i e).
Proof.
  intros He. unfold OFI_RIDE_OUT_EAGAIN.
  apply (quiet_fun P
           (fun w0 => ensureProgress E i (eagain E (trace w0)) ;;; emit e)).
  intros w0. apply quiet_bind; [apply quiet_ensureProgress|intros _].
  apply quiet_emit. exact He.
Qed.

Create HintDb quiet.
#[local] Hint Resolve quiet_ret quiet_abort quiet_OutOfFuel quiet_when
  quiet_CHK_TRUE quiet_CHK_FALSE quiet_CHK_SOME quiet_assert_SOME
  quiet_set_tciTab quiet_set_ttcip quiet_set_prvData quiet_get_tci
  quiet_get_comm_taskPrvdata quiet_upd_tci quiet_incr_numTxnsOut
  quiet_incr_numTxnsSent quiet_checkTxCmplsFn quiet_tciFree : quiet.

(** Takes a [quiet] goal apart along the structure of the program. *)
Ltac quiet_step :=
  match goal with
  | |- quiet _ (bind _ _) => apply quiet_bind; [|intros]
  | |- quiet _ (emit _) => apply quiet_emit; reflexivity
  | |- quiet _ (OFI_RIDE_OUT_EAGAIN _ _ _) =>
      apply quiet_OFI_RIDE_OUT_EAGAIN; reflexivity
  | |- quiet _ (when _ _) => apply quiet_when
  | |- quiet _ (if ?b then _ else _) => destruct b
  | |- quiet _ (match ?o with Some _ => _ | None => _ end) => destruct o
  | |- quiet _ (match ?p with (_, _) => _ end) => destruct p
  | |- quiet _ _ => solve [auto with quiet]
  end.

Ltac quiet_auto := repeat quiet_step.

(** Class inclusions between event predicates hold by cases. *)
Ltac class_incl := intros []; cbn; intros; congruence.

(** *** Event classes of the functions *)

Lemma quiet_local_yield E : quiet ev_yield (local_yield E).
Proof. intros w. cbn. exists [Ev_local_yield]. split; reflexivity. Qed.

Lemma quiet_findFree_worker G E fuel :
  quiet ev_yield (findFreeTciTabEntry_worker G E fuel).
Proof.
  induction fuel as [|fuel IH]; [apply quiet_OutOfFuel|].
  intros w. cbn [findFreeTciTabEntry_worker].
  destruct (scanTciTab _ _ _ _ _) as [[tcip ab] tab].
  refine (quiet_bind ev_yield _ _ _ _ w); [auto with quiet|intros _].
  destruct tcip; [auto with quiet|].
  apply quiet_bind; [auto with quiet|intros _].
  apply quiet_bind; [apply quiet_local_yield|intros _]. exact IH.
Qed.

Lemma quiet_findFree G E fuel b :
  quiet ev_yield (findFreeTciTabEntry G E fuel b).
Proof.
  unfold findFreeTciTabEntry. destruct b; [|apply quiet_findFree_worker].
  intros w. unfold atomic_exchange_allocated.
  refine (quiet_bind ev_yield _ _ _ _ w); [auto with quiet|intros _].
  quiet_auto.
Qed.

Lemma quiet_tciAllocCommon G E fuel b :
  quiet ev_yield (tciAllocCommon G E fuel b).
Proof.
  unfold tciAllocCommon.
  set (find := bind (findFreeTciTabEntry G E fuel b) _).
  assert (Hfind : quiet ev_yield find).
  { subst find. apply quiet_bind; [apply quiet_findFree|intros i].
    quiet_auto. }
  intros w. destruct (_ttcip w) as [t|]; [|apply Hfind].
  destruct (bound (tciAt (tciTab w) t)).
  - apply (quiet_ret ev_yield t w).
  - unfold atomic_exchange_allocated.
    destruct (negb (allocated (tciAt (tciTab w) t))).
    + apply (quiet_bind ev_yield (set_tciTab _) (fun _ => ret t));
        auto with quiet.
    + apply (quiet_bind ev_yield (set_tciTab _) (fun _ => find));
        auto with quiet.
Qed.

Lemma quiet_tciAlloc G E fuel : quiet ev_yield (tciAlloc G E fuel).
Proof. apply quiet_tciAllocCommon. Qed.

Lemma quiet_tcipOrAlloc G E fuel tcip :
  quiet ev_yield (tcipOrAlloc G E fuel tcip).
Proof. destruct tcip; [apply quiet_ret | apply quiet_tciAlloc]. Qed.

Lemma quiet_tcipFreeIfOwn P tcip myTcip :
  quiet P (tcipFreeIfOwn tcip myTcip).
Proof. destruct tcip; cbn; auto with quiet. Qed.

Lemma quiet_allocBounceBuf E size : quiet ev_bounce (allocBounceBuf E size).
Proof.
  intros w. unfold allocBounceBuf.
  apply (quiet_bind ev_bounce
           (emit (Ev_allocBounceBuf (bounceBuf E (trace w) size) size))
           (fun _ => ret (bounceBuf E (trace w) size))).
  - apply quiet_emit. reflexivity.
  - intros _. apply quiet_ret.
Qed.

Lemma quiet_freeBounceBuf p : quiet ev_bounce (freeBounceBuf p).
Proof. apply quiet_emit. reflexivity. Qed.

Lemma quiet_localOrBounceDesc G E addr size copy :
  quiet ev_bounce (localOrBounceDesc G E addr size copy).
Proof.
  unfold localOrBounceDesc. destruct (mrGetDesc G addr size).
  - apply quiet_ret.
  - apply quiet_bind; [apply quiet_allocBounceBuf|intros p]. quiet_auto.
Qed.

Lemma quiet_localOrBounceKey G E addr size copy :
  quiet ev_bounce (localOrBounceKey G E addr size copy).
Proof.
  unfold localOrBounceKey. destruct (negb (mrGetLocalKey G addr size)).
  - apply quiet_bind; [apply quiet_allocBounceBuf|intros p]. quiet_auto.
  - apply quiet_ret.
Qed.

Lemma quiet_waitForTxnComplete E tcip ctx :
  quiet ev_release (waitForTxnComplete E tcip ctx).
Proof. unfold waitForTxnComplete. quiet_auto. Qed.

Lemma quiet_amWaitForDone p : quiet ev_amWait (amWaitForDone p).
Proof. apply quiet_emit. reflexivity. Qed.

Ltac quiet_from lem := eapply quiet_weaken; [|apply lem]; class_incl.

Lemma quiet_ofi_get_ll G E fuel addr node raddr size ctx tcip :
  quiet ev_release (ofi_get_ll G E fuel addr node raddr size ctx tcip).
Proof.
  unfold ofi_get_ll.
  apply quiet_bind; [auto with quiet|intros kr].
  apply quiet_bind; [auto with quiet|intros _].
  apply quiet_bind; [quiet_from quiet_tcipOrAlloc|intros myTcip].
  quiet_auto. apply quiet_tcipFreeIfOwn.
Qed.

Lemma quiet_mcmReleaseOneNode G E fuel node tcip :
  quiet ev_release (mcmReleaseOneNode G E fuel node tcip).
Proof.
  unfold mcmReleaseOneNode.
  apply quiet_bind; [auto with quiet|intros t].
  destruct (txCQ t);
    (apply quiet_bind; [apply quiet_ofi_get_ll|intros _];
     apply quiet_waitForTxnComplete).
Qed.

Lemma quiet_waitForCQRoom G E fuel tcip :
  quiet ev_release (waitForCQRoom G E fuel tcip).
Proof.
  induction fuel as [|fuel IH]; intros w; cbn [waitForCQRoom];
    destruct (txCQ (tciAt (tciTab w) tcip)
              && (txCQLen G <=? numTxnsOut (tciAt (tciTab w) tcip)));
    try exact I; try apply (quiet_ret ev_release tt w).
  apply (quiet_bind ev_release (emit Ev_sched_yield)
           (fun _ => checkTxCmplsFn E tcip ;;; waitForCQRoom G E fuel tcip)).
  - apply quiet_emit. reflexivity.
  - intros _. apply quiet_bind; [auto with quiet|intros _]. exact IH.
Qed.

Lemma quiet_mcmReleaseNodes G E fuel nodes b myTcip :
  quiet ev_release (mcmReleaseNodes G E fuel nodes b myTcip).
Proof.
  revert b. induction nodes as [|node nodes IH]; intros b;
    cbn [mcmReleaseNodes]; [apply quiet_ret|].
  apply quiet_bind; [auto with quiet|intros _].
  apply quiet_bind; [apply quiet_waitForCQRoom|intros _].
  apply quiet_bind; [apply quiet_mcmReleaseOneNode|intros _].
  apply IH.
Qed.

Lemma quiet_mcmReleaseAllNodes G E fuel b tcip :
  quiet ev_release (mcmReleaseAllNodes G E fuel b tcip).
Proof.
  unfold mcmReleaseAllNodes.
  apply quiet_bind; [quiet_from quiet_tcipOrAlloc|intros myTcip].
  apply quiet_bind; [apply quiet_mcmReleaseNodes|intros b'].
  apply quiet_bind; [apply quiet_tcipFreeIfOwn|intros _]. apply quiet_ret.
Qed.

(** After its marker, [waitForPutsVisOneNode] adds only what releasing
    a node adds. *)
Lemma quiet_waitForPutsVisOneNode_body G E fuel node tcip :
  quiet ev_release
    (t <- get_tci tcip ;;
     when (negb (haveDeliveryComplete G) && bound t)
       (o <- get_comm_taskPrvdata ;;
        myPrvData <- CHK_SOME o ;;
        match putBitmap myPrvData with
        | Some b =>
            when (bitmapTest b node)
              (set_prvData
                 (Some (set_putBitmap (Some (bitmapClear b node))
                                      myPrvData)) ;;;
               mcmReleaseOneNode G E fuel node tcip)
        | None => ret tt
        end)).
Proof.
  apply quiet_bind; [auto with quiet|intros t].
  apply quiet_when.
  apply quiet_bind; [auto with quiet|intros o].
  apply quiet_bind; [auto with quiet|intros p].
  destruct (putBitmap p); [|apply quiet_ret].
  apply quiet_when.
  apply quiet_bind; [auto with quiet|intros _].
  apply quiet_mcmReleaseOneNode.
Qed.

Lemma quiet_waitForPutsVisAllNodes_body G E fuel tcip (taskIsEnding : bool) :
  quiet ev_release
    (when ((1 <? chpl_numNodes G) && negb (haveDeliveryComplete G))
       (myTcip <- tcipOrAlloc G E fuel tcip ;;
        t <- get_tci myTcip ;;
        when (bound t)
          (o <- get_comm_taskPrvdata ;;
           myPrvData <- CHK_SOME o ;;
           match putBitmap myPrvData with
           | Some b =>
               b' <- mcmReleaseAllNodes G E fuel b None ;;
               set_prvData
                 (Some (set_putBitmap
                          (if taskIsEnding then None else Some b')
                          myPrvData))
           | None => ret tt
           end) ;;;
        tcipFreeIfOwn tcip myTcip)).
Proof.
  apply quiet_when.
  apply quiet_bind; [quiet_from quiet_tcipOrAlloc|intros myTcip].
  apply quiet_bind; [auto with quiet|intros t].
  apply quiet_bind; [|intros _; apply quiet_tcipFreeIfOwn].
  apply quiet_when.
  apply quiet_bind; [auto with quiet|intros o].
  apply quiet_bind; [auto with quiet|intros p].
  destruct (putBitmap p); [|apply quiet_ret].
  apply quiet_bind; [apply quiet_mcmReleaseAllNodes|intros b'].
  auto with quiet.
Qed.

Lemma quiet_waitForPutsVisOneNode G E fuel node tcip :
  quiet ev_vis (waitForPutsVisOneNode G E fuel node tcip).
Proof.
  unfold waitForPutsVisOneNode.
  apply quiet_bind; [apply quiet_emit; reflexivity|intros _].
  quiet_from quiet_waitForPutsVisOneNode_body.
Qed.

Lemma quiet_waitForPutsVisAllNodes G E fuel tcip taskIsEnding :
  quiet ev_vis (waitForPutsVisAllNodes G E fuel tcip taskIsEnding).
Proof.
  unfold waitForPutsVisAllNodes.
  apply quiet_bind; [apply quiet_emit; reflexivity|intros _].
  quiet_from quiet_waitForPutsVisAllNodes_body.
Qed.

Lemma quiet_retireDelayedAmDone E b :
  quiet ev_amWait (retireDelayedAmDone E b).
Proof.
  unfold retireDelayedAmDone.
  apply quiet_bind; [auto with quiet|intros o].
  destruct o as [p|]; [|apply quiet_ret].
  apply quiet_bind; [|intros p'; auto with quiet].
  destruct (amDonePending p); [|apply quiet_ret].
  apply quiet_bind; [apply quiet_amWaitForDone|intros _]. apply quiet_ret.
Qed.

(** ** The public PUT and GET: NULL, empty and local transfers *)

Lemma retireDelayedAmDone_returns E b w :
  exists w' d,
    retireDelayedAmDone E b w = Done tt w'
    /\ trace w' = trace w ++ d
    /\ forallb ev_amWait d = true
    /\ tciTab w' = tciTab w
    /\ _ttcip w' = _ttcip w.
Proof.
  unfold retireDelayedAmDone, bind, get_comm_taskPrvdata.
  destruct (prvData w) as [p|] eqn:Hp.
  - destruct (amDonePending p) eqn:Hd; cbn.
    + eexists _, [Ev_amWaitForDone (prvAmDone_addr E)]. cbn.
      split; [reflexivity|]. repeat split.
    + eexists _, []. cbn. split; [reflexivity|].
      rewrite app_nil_r. repeat split.
  - cbn. exists w, []. rewrite app_nil_r. repeat split.
Qed.

Lemma amWait_not_traffic d :
  forallb ev_amWait d = true ->
  List.filter (fun e => is_fabric_op e || is_memory_write e) d = [].
Proof.
  intros H. eapply filter_nil_of_class; [exact H|]. intros []; cbn; congruence.
Qed.

Lemma NULL_check_fails addr raddr :
  addr = NULL \/ raddr = NULL ->
  forall w,
    (CHK_TRUE (negb (addr =? NULL)) ;;;
     CHK_TRUE (negb (raddr =? NULL))) w = Aborted w.
Proof.
  intros H w. unfold bind, CHK_TRUE.
  destruct (Z.eqb_spec addr NULL) as [Ha|Ha]; cbn; [reflexivity|].
  destruct (Z.eqb_spec raddr NULL) as [Hr|Hr]; cbn; [reflexivity|].
  destruct H; contradiction.
Qed.

(** C10.  [chpl_comm_put] and [chpl_comm_get] called with [addr] or
    [raddr] equal to [NULL] abort at the [CHK_TRUE] guards, whatever
    the size and the node: the guards come before the test for an empty
    transfer and before the local [memmove], so nothing has been moved
    and nothing has gone to the fabric when the program aborts. *)
Theorem chpl_comm_put_get_NULL_aborts G E fuel addr node raddr size w :
  addr = NULL \/ raddr = NULL ->
  (exists w',
      chpl_comm_put G E fuel addr node raddr size w = Aborted w'
      /\ List.filter (fun e => is_fabric_op e || is_memory_write e)
                     (added w w') = [])
  /\ (exists w',
         chpl_comm_get G E fuel addr node raddr size w = Aborted w'
         /\ List.filter (fun e => is_fabric_op e || is_memory_write e)
                        (added w w') = []).
Proof.
  intros H.
  destruct (retireDelayedAmDone_returns E false w)
    as (w1 & d & Hr & Ht & Hd & _ & _).
  pose proof (NULL_check_fails addr raddr H w1) as Hc.
  unfold bind in Hc.
  assert (Hf : List.filter (fun e => is_fabric_op e || is_memory_write e)
                           (added w w1) = []).
  { rewrite (added_app w w1 d Ht). apply amWait_not_traffic. exact Hd. }
  split; exists w1; (split; [|exact Hf]).
  - unfold chpl_comm_put, bind. rewrite Hr.
    destruct (CHK_TRUE (negb (addr =? NULL)) w1) as [[] w2|w2|];
      [|exact Hc|discriminate].
    destruct (CHK_TRUE (negb (raddr =? NULL)) w2) as [[] w3|w3|];
      [discriminate|exact Hc|discriminate].
  - unfold chpl_comm_get, bind. rewrite Hr.
    destruct (CHK_TRUE (negb (addr =? NULL)) w1) as [[] w2|w2|];
      [|exact Hc|discriminate].
    destruct (CHK_TRUE (negb (raddr =? NULL)) w2) as [[] w3|w3|];
      [discriminate|exact Hc|discriminate].
Qed.

Lemma chpl_comm_put_get_NULL_aborts_witness :
  (NULL = NULL \/ 200000 = NULL)
  /\ (exists w',
         chpl_comm_put G_demo E_demo 4 NULL 0 200000 0 w_free = Aborted w'
         /\ List.filter (fun e => is_fabric_op e || is_memory_write e)
                        (added w_free w') = [])
  /\ (exists w',
         chpl_comm_get G_demo E_demo 4 NULL 0 200000 0 w_free = Aborted w'
         /\ List.filter (fun e => is_fabric_op e || is_memory_write e)
                        (added w_free w') = []).
Proof.
  split; [left; reflexivity|].
  apply (chpl_comm_put_get_NULL_aborts G_demo E_demo 4 NULL 0 200000 0
                                       w_free).
  left. reflexivity.
Defined.


Lemma NULL_check_passes addr raddr :
  addr <> NULL -> raddr <> NULL ->
  forall A (k : comm A) w,
    (CHK_TRUE (negb (addr =? NULL)) ;;;
     CHK_TRUE (negb (raddr =? NULL)) ;;; k) w = k w.
Proof.
  intros Ha Hr A k w. unfold bind, CHK_TRUE.
  destruct (Z.eqb_spec addr NULL); [contradiction|].
  destruct (Z.eqb_spec raddr NULL); [contradiction|]. reflexivity.
Qed.

(** An empty PUT or GET with valid pointers returns having moved
    nothing and sent nothing. *)
Lemma chpl_comm_put_get_empty G E fuel addr node raddr w :
  addr <> NULL -> raddr <> NULL ->
  (exists w',
      chpl_comm_put G E fuel addr node raddr 0 w = Done tt w'
      /\ List.filter (fun e => is_fabric_op e || is_memory_write e)
                     (added w w') = []
      /\ tciTab w' = tciTab w)
  /\ (exists w',
         chpl_comm_get G E fuel addr node raddr 0 w = Done tt w'
         /\ List.filter (fun e => is_fabric_op e || is_memory_write e)
                        (added w w') = []
         /\ tciTab w' = tciTab w).
Proof.
  intros Ha Hr.
  destruct (retireDelayedAmDone_returns E false w)
    as (w1 & d & Hret & Ht & Hd & Htab & _).
  assert (Hf : List.filter (fun e => is_fabric_op e || is_memory_write e)
                           (added w w1) = []).
  { rewrite (added_app w w1 d Ht). apply amWait_not_traffic. exact Hd. }
  split; exists w1; (split; [|split; [exact Hf | exact Htab]]).
  - unfold chpl_comm_put. rewrite (bind_eq_Done _ _ _ _ _ Hret).
    rewrite NULL_check_passes by assumption. reflexivity.
  - unfold chpl_comm_get. rewrite (bind_eq_Done _ _ _ _ _ Hret).
    rewrite NULL_check_passes by assumption. reflexivity.
Qed.

(** A PUT or GET to the caller's own node is one [memmove]. *)
Lemma chpl_comm_put_get_self G E fuel addr node raddr size w :
  node = chpl_nodeID G -> addr <> NULL -> raddr <> NULL -> size <> 0 ->
  (exists w',
      chpl_comm_put G E fuel addr node raddr size w = Done tt w'
      /\ List.filter (fun e => is_fabric_op e || is_memory_write e)
                     (added w w') = [Ev_memmove raddr addr size]
      /\ tciTab w' = tciTab w)
  /\ (exists w',
         chpl_comm_get G E fuel addr node raddr size w = Done tt w'
         /\ List.filter (fun e => is_fabric_op e || is_memory_write e)
                        (added w w') = [Ev_memmove addr raddr size]
         /\ tciTab w' = tciTab w).
Proof.
  intros Hn Ha Hr Hs.
  destruct (retireDelayedAmDone_returns E false w)
    as (w1 & d & Hret & Ht & Hd & Htab & _).
  pose proof (amWait_not_traffic d Hd) as Hf.
  assert (Hz : (size =? 0) = false) by (apply Z.eqb_neq; exact Hs).
  assert (Hnode : (node =? chpl_nodeID G) = true)
    by (apply Z.eqb_eq; exact Hn).
  split.
  - exists {| tciTab := tciTab w1; _ttcip := _ttcip w1;
              prvData := prvData w1; yields := yields w1;
              trace := trace w1 ++ [Ev_memmove raddr addr size] |}.
    split; [|split; [|exact Htab]].
    + unfold chpl_comm_put. rewrite (bind_eq_Done _ _ _ _ _ Hret).
      rewrite NULL_check_passes by assumption. rewrite Hz, Hnode.
      reflexivity.
    + erewrite added_app; [|cbn; rewrite Ht, <- app_assoc; reflexivity].
      rewrite filter_app_list, Hf. reflexivity.
  - exists {| tciTab := tciTab w1; _ttcip := _ttcip w1;
              prvData := prvData w1; yields := yields w1;
              trace := trace w1 ++ [Ev_memmove addr raddr size] |}.
    split; [|split; [|exact Htab]].
    + unfold chpl_comm_get. rewrite (bind_eq_Done _ _ _ _ _ Hret).
      rewrite NULL_check_passes by assumption. rewrite Hz, Hnode.
      reflexivity.
    + erewrite added_app; [|cbn; rewrite Ht, <- app_assoc; reflexivity].
      rewrite filter_app_list, Hf. reflexivity.
Qed.

(** ** Splitting a transfer that exceeds the provider's message size *)

Lemma splitLoop_runChunks k xfer size i c cs :
  loopChunks k size i c = Some cs ->
  splitLoop k xfer size i c = runChunks xfer cs.
Proof.
  revert i c cs. induction k as [|k IH]; intros i c cs H.
  - cbn in *. destruct (i <? size); [discriminate|].
    inversion H; subst. reflexivity.
  - cbn [loopChunks] in H. cbn [splitLoop].
    destruct (i <? size); [|inversion H; subst; reflexivity].
    destruct (loopChunks k size _ _) as [cs'|] eqn:Hl; [|discriminate].
    inversion H; subst cs. cbn [runChunks].
    rewrite (IH _ _ _ Hl). reflexivity.
Qed.

(** With a positive chunk size the loop ends, and its chunks go from
    [i] to [size], none longer than the chunk size. *)
Lemma loopChunks_covers k size i c :
  0 < c -> 0 <= i <= size -> (size - i) / c < Z.of_nat k ->
  exists cs,
    loopChunks k size i c = Some cs
    /\ covers i size cs
    /\ Forall (fun ch => 0 < snd ch <= c) cs.
Proof.
  revert i c. induction k as [|k IH]; intros i c Hc Hi Hk.
  - exfalso. assert (0 <= (size - i) / c) by (apply Z.div_pos; lia). lia.
  - cbn [loopChunks]. destruct (Z.ltb_spec i size) as [Hlt|Hge].
    + destruct (Z.ltb_spec (size - i) c) as [Hlast|Hfull].
      * (* the last, shorter chunk *)
        destruct k as [|k'].
        -- cbn. replace (i + (size - i)) with size by lia.
           rewrite Z.ltb_irrefl. eexists. split; [reflexivity|]. split.
           ++ constructor; [lia|]. replace (i + (size - i)) with size by lia.
              constructor.
           ++ repeat constructor; cbn; lia.
        -- cbn [loopChunks]. replace (i + (size - i)) with size by lia.
           rewrite Z.ltb_irrefl. eexists. split; [reflexivity|]. split.
           ++ constructor; [lia|]. replace (i + (size - i)) with size by lia.
              constructor.
           ++ repeat constructor; cbn; lia.
      * destruct (IH (i + c) c) as (cs & Hl & Hcov & Hall); [lia|lia| |].
        { replace (size - (i + c)) with ((size - i) + (-1) * c) by lia.
          rewrite Z.div_add by lia. lia. }
        rewrite Hl. eexists. split; [reflexivity|]. split.
        -- constructor; [lia|exact Hcov].
        -- constructor; [cbn; lia|exact Hall].
    + assert (i = size) by lia. subst i.
      exists []. split; [reflexivity|]. split; constructor.
Qed.

(** The chunks together write what one transfer of the whole range
    writes. *)
Lemma transferChunks_covers src saddr daddr i size cs :
  covers i size cs ->
  forall dst a,
    transferChunks src dst saddr daddr cs a
    = if (daddr + i <=? a) && (a <? daddr + size)
      then src (saddr + (a - daddr))
      else dst a.
Proof.
  induction 1 as [i|i size len cs Hlen Hcov IH]; intros dst a.
  - cbn. destruct (Z.leb_spec (daddr + i) a), (Z.ltb_spec a (daddr + i));
      cbn; try reflexivity; lia.
  - cbn [transferChunks]. rewrite IH. unfold transfer.
    assert (Hle : i + len <= size).
    { clear -Hcov. induction Hcov; lia. }
    destruct (Z.leb_spec (daddr + (i + len)) a),
             (Z.ltb_spec a (daddr + size)),
             (Z.leb_spec (daddr + i) a),
             (Z.ltb_spec a (daddr + i + len)); cbn; try lia;
      try reflexivity.
    f_equal. lia.
Qed.

Lemma ofi_put_unsplit G E fuel addr node raddr size :
  size <= max_msg_size G ->
  ofi_put G E (S fuel) addr node raddr size
  = ofi_put_xfer G E fuel addr node raddr size.
Proof.
  intros H. cbn [ofi_put].
  destruct (Z.ltb_spec (max_msg_size G) size); [lia|reflexivity].
Qed.

Lemma ofi_get_unsplit G E fuel addr node raddr size :
  size <= max_msg_size G ->
  ofi_get G E (S fuel) addr node raddr size
  = ofi_get_xfer G E fuel addr node raddr size.
Proof.
  intros H. cbn [ofi_get].
  destruct (Z.ltb_spec (max_msg_size G) size); [lia|reflexivity].
Qed.

Lemma ofi_put_split G E fuel addr node raddr size :
  (max_msg_size G <? size) = true ->
  ofi_put G E (S fuel) addr node raddr size
  = splitLoop fuel
      (fun i chunkSize =>
         ofi_put G E fuel (addr + i) node (raddr + i) chunkSize)
      size 0 (max_msg_size G).
Proof. intros H. cbn [ofi_put]. rewrite H. reflexivity. Qed.

Lemma ofi_get_split G E fuel addr node raddr size :
  (max_msg_size G <? size) = true ->
  ofi_get G E (S fuel) addr node raddr size
  = splitLoop fuel
      (fun i chunkSize =>
         ofi_get G E fuel (addr + i) node (raddr + i) chunkSize)
      size 0 (max_msg_size G).
Proof. intros H. cbn [ofi_get]. rewrite H. reflexivity. Qed.

Lemma runChunks_ext xfer xfer' cs (P : Z * Z -> Prop) :
  Forall P cs ->
  (forall off len, P (off, len) -> xfer off len = xfer' off len) ->
  runChunks xfer cs = runChunks xfer' cs.
Proof.
  intros Hall Hx. induction Hall as [|[off len] cs Hp Hall IH];
    [reflexivity|].
  cbn [runChunks]. rewrite (Hx off len Hp), IH. reflexivity.
Qed.

(** C4.  A transfer of [size] bytes, [size] beyond the provider's
    (positive) [max_msg_size], given fuel for its chunks: [ofi_put] and
    [ofi_get] run as the unsplit transfer on each chunk of a list [cs],
    in order, at the source and destination addresses moved by the
    chunk's offset; the chunks are non-empty, none longer than
    [max_msg_size], each starts where the one before ended, and they go
    from offset [0] to offset [size] exactly; and the chunk transfers
    leave the target memory, byte for byte, as one transfer of the whole
    range does (for a PUT from [addr] to [raddr], for a GET from [raddr]
    to [addr]). *)
Theorem ofi_put_get_split G E fuel addr node raddr size w :
  0 < max_msg_size G < size ->
  size / max_msg_size G < Z.of_nat fuel ->
  split_refines G E fuel addr node raddr size w.
Proof.
  intros Hm Hf. unfold split_refines.
  destruct (loopChunks_covers (S fuel) size 0 (max_msg_size G))
    as (cs & Hl & Hcov & Hall); [lia|lia| |].
  { rewrite Z.sub_0_r. lia. }
  exists cs. split; [exact Hcov|]. split; [exact Hall|].
  assert (Hlt : (max_msg_size G <? size) = true) by (apply Z.ltb_lt; lia).
  split; [|split; [|split]].
  - rewrite ofi_put_split by exact Hlt.
    rewrite (splitLoop_runChunks _ _ _ _ _ _ Hl).
    rewrite (runChunks_ext _
               (fun off len =>
                  ofi_put_xfer G E fuel (addr + off) node (raddr + off) len)
               cs _ Hall); [reflexivity|].
    intros off len Hp. cbn in Hp. apply ofi_put_unsplit. lia.
  - rewrite ofi_get_split by exact Hlt.
    rewrite (splitLoop_runChunks _ _ _ _ _ _ Hl).
    rewrite (runChunks_ext _
               (fun off len =>
                  ofi_get_xfer G E fuel (addr + off) node (raddr + off) len)
               cs _ Hall); [reflexivity|].
    intros off len Hp. cbn in Hp. apply ofi_get_unsplit. lia.
  - intros src dst a.
    rewrite (transferChunks_covers src addr raddr 0 size cs Hcov).
    unfold transfer. rewrite Z.add_0_r. reflexivity.
  - intros src dst a.
    rewrite (transferChunks_covers src raddr addr 0 size cs Hcov).
    unfold transfer. rewrite Z.add_0_r. reflexivity.
Qed.

Lemma ofi_put_get_split_witness :
  0 < max_msg_size G_demo < 2500
  /\ 2500 / max_msg_size G_demo < Z.of_nat 3
  /\ split_refines G_demo E_demo 3 100000 1 200000 2500 w_bound.
Proof.
  split; [vm_compute; split; reflexivity|].
  split; [vm_compute; reflexivity|].
  apply (ofi_put_get_split G_demo E_demo 3 100000 1 200000 2500 w_bound).
  - vm_compute. split; reflexivity.
  - vm_compute. reflexivity.
Defined.

(** The chunks of a transfer of 2500 bytes with [max_msg_size] 1000. *)
Example loopChunks_2500 :
  loopChunks 4 2500 0 (max_msg_size G_demo)
  = Some [(0, 1000); (1000, 1000); (2000, 500)].
Proof. reflexivity. Qed.



(** With [max_msg_size = 0] the loop never advances: no amount of fuel
    lets it finish. *)
Lemma loopChunks_zero_chunk k size :
  0 < size -> loopChunks k size 0 0 = None.
Proof.
  intros Hs. induction k as [|k IH]; cbn [loopChunks].
  - destruct (Z.ltb_spec 0 size); [reflexivity|lia].
  - destruct (Z.ltb_spec 0 size); [|lia].
    destruct (Z.ltb_spec (size - 0) 0); [lia|].
    change (0 + 0) with 0. rewrite IH. reflexivity.
Qed.

(** ** Active-message requests *)

Lemma quiet_amRequest_setUpDone G E ppAmDone :
  quiet ev_setup (amRequest_setUpDone G E ppAmDone).
Proof.
  unfold amRequest_setUpDone. destruct ppAmDone; [|apply quiet_ret].
  apply quiet_bind; [|intros p; quiet_auto].
  destruct (negb (mrGetLocalKey G (amDone_addr E) 1)); [|apply quiet_ret].
  apply quiet_bind; [quiet_from quiet_allocBounceBuf|intros p]. quiet_auto.
Qed.

Lemma quiet_amRequest_bounceReq G E req reqSize :
  quiet ev_bounce (amRequest_bounceReq G E req reqSize).
Proof.
  unfold amRequest_bounceReq. destruct (mrGetDesc G (req_addr req) reqSize).
  - apply quiet_ret.
  - apply quiet_bind; [apply quiet_allocBounceBuf|intros p]. quiet_auto.
Qed.

Lemma quiet_amRequest_finish E req tcip myTcip myReq pAmDone :
  quiet ev_finish (amRequest_finish E req tcip myTcip myReq pAmDone).
Proof.
  unfold amRequest_finish.
  apply quiet_bind; [apply quiet_tcipFreeIfOwn|intros _].
  apply quiet_bind; [apply quiet_when; apply quiet_emit; reflexivity|].
  intros _. apply quiet_when.
  apply quiet_bind; [apply quiet_emit; reflexivity|intros _].
  apply quiet_when. apply quiet_emit. reflexivity.
Qed.

Lemma quiet_amRequest_mcm G E fuel node req myTcip :
  quiet ev_vis (amRequest_mcm G E fuel node req myTcip).
Proof.
  unfold amRequest_mcm.
  destruct (_ || _ || _); [apply quiet_waitForPutsVisAllNodes|].
  destruct (_ || _); [apply quiet_waitForPutsVisOneNode|apply quiet_ret].
Qed.

(** The MCM step adds the marker the spec calls for, and besides it only
    what releasing nodes adds. *)
Lemma amRequest_mcm_Done G E fuel node req myTcip w w' :
  amRequest_mcm G E fuel node req myTcip w = Done tt w' ->
  exists d,
    trace w' = trace w ++ mcm_markers node req ++ d
    /\ forallb ev_release d = true.
Proof.
  unfold amRequest_mcm, mcm_markers. intros H.
  assert (Hall : forall tc te,
             waitForPutsVisAllNodes G E fuel tc te w = Done tt w' ->
             exists d, trace w' = trace w ++ [Ev_waitForPutsVisAllNodes] ++ d
                       /\ forallb ev_release d = true).
  { intros tc te Hw. unfold waitForPutsVisAllNodes in Hw.
    apply bind_Done in Hw. destruct Hw as ([] & w1 & He & Hw).
    cbn in He. inversion He; subst w1. clear He.
    eapply quiet_Done in Hw; [|apply quiet_waitForPutsVisAllNodes_body].
    destruct Hw as (d & Ht & Hd). exists d. split; [|exact Hd].
    rewrite Ht. cbn. rewrite <- app_assoc. reflexivity. }
  assert (Hone :
             waitForPutsVisOneNode G E fuel node myTcip w = Done tt w' ->
             exists d, trace w' = trace w ++ [Ev_waitForPutsVisOneNode node] ++ d
                       /\ forallb ev_release d = true).
  { intros Hw. unfold waitForPutsVisOneNode in Hw.
    apply bind_Done in Hw. destruct Hw as ([] & w1 & He & Hw).
    cbn in He. inversion He; subst w1. clear He.
    eapply quiet_Done in Hw; [|apply quiet_waitForPutsVisOneNode_body].
    destruct Hw as (d & Ht & Hd). exists d. split; [|exact Hd].
    rewrite Ht. cbn. rewrite <- app_assoc. reflexivity. }
  assert (Hnone : ret tt w = Done tt w' ->
                  exists d, trace w' = trace w ++ [] ++ d
                            /\ forallb ev_release d = true).
  { intros Hw. inversion Hw; subst. exists []. cbn.
    rewrite app_nil_r. split; reflexivity. }
  destruct (b_op req); destruct (amo_ofiOp req);
    cbn [amOp_eqb fi_op_eqb orb andb negb] in H;
    first [exact (Hall _ _ H) | exact (Hone H) | exact (Hnone H)].
Qed.

(** What [n] calls through [ensureProgressFn] leave. *)
Lemma ensureProgress_Done E tcip n w :
  exists w',
    ensureProgress E tcip n w = Done tt w'
    /\ trace w' = trace w
    /\ _ttcip w' = _ttcip w /\ prvData w' = prvData w
    /\ length (tciTab w') = length (tciTab w)
    /\ ((tcip < length (tciTab w))%nat ->
        numTxnsSent (tciAt (tciTab w') tcip)
        = numTxnsSent (tciAt (tciTab w) tcip)
        /\ numTxnsOut (tciAt (tciTab w') tcip)
           = reaped E (trace w) n (numTxnsOut (tciAt (tciTab w) tcip))).
Proof.
  revert w. induction n as [|n IH]; intros w; cbn [ensureProgress reaped].
  - exists w. repeat split; reflexivity.
  - unfold bind at 1.
    change (checkTxCmplsFn E tcip w)
      with (Done tt
              {| tciTab :=
                   <[tcip := set_numTxnsOut
                               (u64 (numTxnsOut (tciAt (tciTab w) tcip)
                                     - cqEvents E (trace w)
                                         (numTxnsOut (tciAt (tciTab w) tcip))))
                               (tciAt (tciTab w) tcip)]> (tciTab w);
                 _ttcip := _ttcip w; prvData := prvData w;
                 yields := yields w; trace := trace w |}).
    cbv beta iota.
    match goal with
    | |- exists w', ensureProgress E tcip n ?w1 = _ /\ _ =>
        destruct (IH w1) as (w' & Hr & Ht & Hc & Hp & Hl & Hn)
    end.
    cbn [trace _ttcip prvData tciTab] in Ht, Hc, Hp, Hl, Hn.
    rewrite length_insert in Hl, Hn.
    exists w'. split; [exact Hr|]. split; [exact Ht|]. split; [exact Hc|].
    split; [exact Hp|]. split; [exact Hl|].
    intros Hi. destruct (Hn Hi) as (Hs & Ho).
    rewrite tciAt_insert_eq in Hs, Ho by exact Hi.
    split; [exact Hs|exact Ho].
Qed.

(** The transmission always returns; this is the world it leaves. *)
Lemma amRequest_xmit_Done G E node myReq reqSize pAmDone myTcip w :
  exists w',
    amRequest_xmit G E node myReq reqSize pAmDone myTcip w = Done tt w'
    /\ _ttcip w' = _ttcip w /\ prvData w' = prvData w
    /\ length (tciTab w') = length (tciTab w)
    /\ let out := reaped E (trace w) (eagain E (trace w))
                     (numTxnsOut (tciAt (tciTab w) myTcip)) in
       if (pAmDone =? NULL) && (reqSize <=? inject_size G)
       then trace w' = trace w ++ [Ev_fi_inject myTcip myReq reqSize node]
            /\ ((myTcip < length (tciTab w))%nat ->
                numTxnsSent (tciAt (tciTab w') myTcip)
                = u64 (numTxnsSent (tciAt (tciTab w) myTcip) + 1)
                /\ numTxnsOut (tciAt (tciTab w') myTcip) = out)
       else trace w' = trace w
                       ++ [Ev_fi_send myTcip myReq reqSize node
                             (txnTrkEncodeDone (txnDone_addr E));
                           Ev_waitForTxnComplete myTcip
                             (txnTrkEncodeDone (txnDone_addr E))]
            /\ ((myTcip < length (tciTab w))%nat ->
                numTxnsSent (tciAt (tciTab w') myTcip)
                = u64 (numTxnsSent (tciAt (tciTab w) myTcip) + 1)
                /\ numTxnsOut (tciAt (tciTab w') myTcip)
                   = u64 (u64 (out + 1)
                          - cqEvents E (trace w') (u64 (out + 1)))).
Proof.
  unfold amRequest_xmit, OFI_RIDE_OUT_EAGAIN. cbv zeta.
  destruct (ensureProgress_Done E myTcip (eagain E (trace w)) w)
    as (w1 & Hr & Ht & Hc & Hp & Hl & Hn).
  destruct ((pAmDone =? NULL) && (reqSize <=? inject_size G)).
  - unfold bind at 1. unfold bind at 1. rewrite Hr.
    eexists. split; [reflexivity|]. cbn.
    rewrite length_insert, Ht. repeat split; try assumption.
    + rewrite tciAt_insert_eq by (rewrite Hl; assumption). cbn.
      destruct (Hn H) as (-> & _). reflexivity.
    + rewrite tciAt_insert_eq by (rewrite Hl; assumption). cbn.
      destruct (Hn H) as (_ & ->). reflexivity.
  - unfold bind at 1. unfold bind at 1. rewrite Hr.
    eexists. split; [reflexivity|]. cbn.
    rewrite !length_insert, Ht. repeat split; try assumption.
    + rewrite <- app_assoc. reflexivity.
    + rewrite !tciAt_insert_eq
        by (rewrite ?length_insert, ?Hl; assumption). cbn.
      destruct (Hn H) as (-> & _). reflexivity.
    + rewrite !tciAt_insert_eq
        by (rewrite ?length_insert, ?Hl; assumption). cbn.
      destruct (Hn H) as (_ & ->). rewrite <- app_assoc. reflexivity.
Qed.



(** There: the entry to [waitForPutsVisAllNodes], then the inject. *)
Example amRequestCommon_execOn_trace :
  trace (world_after
           (amRequestCommon G_demo E_demo 4 1 req_execOn 16 false None
                            w_free) w_free)
  = [Ev_waitForPutsVisAllNodes; Ev_fi_inject 1 536 16 1].
Proof. vm_compute. reflexivity. Qed.

(** A blocking Nop is sent, not injected, and no visibility is forced. *)
Example amRequestCommon_nop_blocking_trace :
  trace (world_after
           (amRequestCommon G_demo E_demo 4 1 req_nop 16 true None
                            w_free) w_free)
  = [Ev_store 512 0;
     Ev_fi_send 1 536 16 1 (txnTrkEncodeDone 520);
     Ev_waitForTxnComplete 1 (txnTrkEncodeDone 520);
     Ev_amWaitForDone 512].
Proof. vm_compute. reflexivity. Qed.


Lemma amRequest_setUpDone_result G E ppAmDone w p w1 :
  amDone_addr E <> NULL ->
  (forall tr sz, bounceBuf E tr sz <> NULL) ->
  amRequest_setUpDone G E ppAmDone w = Done p w1 ->
  (p =? NULL) = negb ppAmDone.
Proof.
  intros Ha Hb H. unfold amRequest_setUpDone in H.
  destruct ppAmDone; cbn [negb].
  - apply Z.eqb_neq.
    apply bind_Done in H. destruct H as (q & w2 & Hq & H).
    apply bind_Done in H. destruct H as ([] & w3 & _ & H).
    inversion H; subst q.
    destruct (negb (mrGetLocalKey G (amDone_addr E) 1)).
    + apply bind_Done in Hq. destruct Hq as (r & w4 & Hr & Hq).
      apply bind_Done in Hq. destruct Hq as ([] & w5 & _ & Hq).
      inversion Hq; subst r.
      unfold allocBounceBuf in Hr.
      apply bind_Done in Hr. destruct Hr as ([] & w6 & _ & Hr).
      inversion Hr. apply Hb.
    + inversion Hq; subst. exact Ha.
  - inversion H. reflexivity.
Qed.

(** ** Bitmaps *)

Lemma bitmapElemBit_pow2 i : 0 <= i -> bitmapElemBit i = 2 ^ (i mod 64).
Proof.
  intros Hi. unfold bitmapElemBit, bitmapOff, bitmapElemWidth, u64.
  rewrite Z.shiftl_1_l.
  assert (0 <= i mod 64 < 64) by (apply Z.mod_pos_bound; lia).
  apply Z.mod_small. split; [apply Z.pow_nonneg; lia|].
  apply Z.pow_lt_mono_r; lia.
Qed.

(** Setting bit [i] makes the test of bit [i] succeed. *)
Lemma bitmapTest_bitmapSet b i :
  bitmap_has_room b i -> bitmapTest (bitmapSet b i) i = true.
Proof.
  intros [Hi Hlen]. unfold bitmapTest, bitmapSet, bitmapElem. cbn.
  rewrite list_lookup_insert_eq by exact Hlen. cbn.
  rewrite bitmapElemBit_pow2 by exact Hi.
  apply negb_true_iff, Z.eqb_neq. intros H.
  assert (Hb : Z.testbit
                 (Z.land (Z.lor (default 0 (b_map b !! Z.to_nat (bitmapElemIdx i)))
                                (2 ^ (i mod 64)))
                         (2 ^ (i mod 64))) (i mod 64) = true).
  { assert (0 <= i mod 64) by (apply Z.mod_pos_bound; lia).
    rewrite Z.land_spec, Z.lor_spec, Z.pow2_bits_true by lia.
    rewrite orb_true_r. reflexivity. }
  rewrite H, Z.bits_0 in Hb. discriminate.
Qed.

(** A fresh bitmap for [len] nodes has room for every node below
    [len]. *)
Lemma bitmapAlloc_has_room len i :
  0 <= i < len -> bitmap_has_room (bitmapAlloc len) i.
Proof.
  intros Hi. split; [lia|]. unfold bitmapAlloc, bitmapNumElems,
    bitmapElemIdx, bitmapElemWidth. cbn.
  rewrite length_replicate.
  assert (H1 : i / 64 <= (len - 1) / 64) by (apply Z.div_le_mono; lia).
  assert (H2 : 0 <= i / 64) by (apply Z.div_pos; lia).
  rewrite Z.quot_div_nonneg by lia. lia.
Qed.

(** ** What a call leaves unchanged *)

Lemma preserves_ret {A} R (a : A) :
  (forall w, R w w) -> preserves R (ret a).
Proof. intros Hr w a' w' H. inversion H; subst. apply Hr. Qed.

Lemma preserves_bind {A B} R (m : comm A) (k : A -> comm B) :
  (forall w1 w2 w3, R w1 w2 -> R w2 w3 -> R w1 w3) ->
  preserves R m -> (forall a, preserves R (k a)) -> preserves R (bind m k).
Proof.
  intros Ht Hm Hk w b w' H. apply bind_Done in H.
  destruct H as (a & w1 & H1 & H2).
  eapply Ht; [eapply Hm; exact H1 | eapply Hk; exact H2].
Qed.

Lemma same_bound_refl w : same_bound w w.
Proof. intros i. reflexivity. Qed.

Lemma same_bound_trans w1 w2 w3 :
  same_bound w1 w2 -> same_bound w2 w3 -> same_bound w1 w3.
Proof. intros H1 H2 i. rewrite H2, H1. reflexivity. Qed.

Lemma same_prvData_refl w : same_prvData w w.
Proof. reflexivity. Qed.

Lemma same_prvData_trans w1 w2 w3 :
  same_prvData w1 w2 -> same_prvData w2 w3 -> same_prvData w1 w3.
Proof. unfold same_prvData. congruence. Qed.

Lemma bound_upd t i f j :
  (forall x, bound (f x) = bound x) ->
  bound (tciAt (<[i := f (tciAt t i)]> t) j) = bound (tciAt t j).
Proof.
  intros Hf. rewrite tciAt_insert.
  destruct (decide _) as [[-> _]|]; [apply Hf | reflexivity].
Qed.

Lemma same_bound_upd_tci i f :
  (forall x, bound (f x) = bound x) -> preserves same_bound (upd_tci i f).
Proof.
  intros Hf w a w' H. cbn in H. inversion H; subst. intros j. cbn.
  apply bound_upd. exact Hf.
Qed.

Lemma same_bound_silent {A} (m : comm A) :
  (forall w a w', m w = Done a w' -> tciTab w' = tciTab w) ->
  preserves same_bound m.
Proof. intros Hm w a w' H i. rewrite (Hm w a w' H). reflexivity. Qed.

Lemma same_bound_tciFree i : preserves same_bound (tciFree i).
Proof.
  intros w a w' H. rewrite tciFree_Done in H. inversion H; subst.
  destruct (bound (tciAt (tciTab w) i)); [apply same_bound_refl|].
  intros j. cbn. apply bound_upd. reflexivity.
Qed.

Lemma same_bound_checkTxCmplsFn E i : preserves same_bound (checkTxCmplsFn E i).
Proof.
  intros w a w' H. cbn in H. inversion H; subst. intros j. cbn.
  apply bound_upd. reflexivity.
Qed.

Lemma same_prvData_tciTab_only {A} (m : comm A) :
  (forall w a w', m w = Done a w' -> prvData w' = prvData w) ->
  preserves same_prvData m.
Proof. intros Hm w a w' H. exact (Hm w a w' H). Qed.

Lemma composes_same_bound : composes same_bound.
Proof. split; [apply same_bound_refl | apply same_bound_trans]. Qed.

Lemma composes_same_prvData : composes same_prvData.
Proof. split; [apply same_prvData_refl | apply same_prvData_trans]. Qed.

Lemma pres_ret {A} R (a : A) : composes R -> preserves R (ret a).
Proof. intros [Hr _]. apply preserves_ret. exact Hr. Qed.

Lemma pres_bind {A B} R (m : comm A) (k : A -> comm B) :
  composes R ->
  preserves R m -> (forall a, preserves R (k a)) -> preserves R (bind m k).
Proof. intros [_ Ht]. apply preserves_bind. exact Ht. Qed.

Lemma pres_abort {A} R : preserves R (@abort A).
Proof. intros w a w' H. discriminate. Qed.

Lemma pres_OutOfFuel {A} R : preserves R (fun _ => @OutOfFuel A).
Proof. intros w a w' H. discriminate. Qed.

Lemma pres_when R b m : composes R -> preserves R m -> preserves R (when b m).
Proof. intros HR H. destruct b; [exact H | apply pres_ret; exact HR]. Qed.

Lemma pres_CHK_TRUE R b : composes R -> preserves R (CHK_TRUE b).
Proof. intros HR. destruct b; [apply pres_ret; exact HR | apply pres_abort]. Qed.

Lemma pres_CHK_FALSE R b : composes R -> preserves R (CHK_FALSE b).
Proof. intros HR. destruct b; [apply pres_abort | apply pres_ret; exact HR]. Qed.

Lemma pres_CHK_SOME {A} R (o : option A) :
  composes R -> preserves R (CHK_SOME o).
Proof. intros HR. destruct o; [apply pres_ret; exact HR | apply pres_abort]. Qed.

Lemma pres_assert_SOME {A} R (o : option A) :
  composes R -> preserves R (assert_SOME o).
Proof. intros HR. destruct o; [apply pres_ret; exact HR | apply pres_abort]. Qed.

(** Steps that change neither the table nor the task-private data. *)
Lemma pres_emit_bound e : preserves same_bound (emit e).
Proof. intros w a w' H. inversion H; subst. intros i. reflexivity. Qed.

Lemma pres_emit_prv e : preserves same_prvData (emit e).
Proof. intros w a w' H. inversion H; subst. reflexivity. Qed.

Lemma pres_get_tci R i : composes R -> preserves R (get_tci i).
Proof. intros [Hr _] w a w' H. inversion H; subst. apply Hr. Qed.

Lemma pres_get_prv R : composes R -> preserves R get_comm_taskPrvdata.
Proof. intros [Hr _] w a w' H. inversion H; subst. apply Hr. Qed.

Lemma pres_set_prvData_bound p : preserves same_bound (set_prvData p).
Proof. intros w a w' H. inversion H; subst. intros i. reflexivity. Qed.

Lemma pres_set_tciTab_prv t : preserves same_prvData (set_tciTab t).
Proof. intros w a w' H. inversion H; subst. reflexivity. Qed.

Lemma pres_set_ttcip_prv t : preserves same_prvData (set_ttcip t).
Proof. intros w a w' H. inversion H; subst. reflexivity. Qed.

Lemma pres_upd_tci_prv i f : preserves same_prvData (upd_tci i f).
Proof. intros w a w' H. inversion H; subst. reflexivity. Qed.

Lemma pres_local_yield_prv E : preserves same_prvData (local_yield E).
Proof. intros w a w' H. inversion H; subst. reflexivity. Qed.

Lemma pres_findFree_worker_prv G E fuel :
  preserves same_prvData (findFreeTciTabEntry_worker G E fuel).
Proof.
  induction fuel as [|fuel IH]; [apply pres_OutOfFuel|].
  intros w a w' H. cbn [findFreeTciTabEntry_worker] in H.
  destruct (scanTciTab _ _ _ _ _) as [[tcip ab] tab].
  apply bind_Done in H. destruct H as ([] & w1 & H1 & H).
  inversion H1; subst w1. clear H1.
  destruct tcip as [i|].
  - inversion H; subst. reflexivity.
  - apply bind_Done in H. destruct H as ([] & w2 & H2 & H).
    destruct ab; cbn in H2; [discriminate|]. inversion H2; subst w2.
    apply bind_Done in H. destruct H as ([] & w3 & H3 & H).
    inversion H3; subst w3. apply IH in H. exact H.
Qed.

Lemma pres_findFree_prv G E fuel b :
  preserves same_prvData (findFreeTciTabEntry G E fuel b).
Proof.
  destruct b; [|apply pres_findFree_worker_prv].
  intros w a w' H. cbn in H.
  destruct (allocated (tciAt (tciTab w) (numWorkerTxCtxs G)));
    cbn in H; [discriminate|]. inversion H; subst. reflexivity.
Qed.

Lemma pres_tciAllocCommon_prv G E fuel b :
  preserves same_prvData (tciAllocCommon G E fuel b).
Proof.
  assert (Hfind : preserves same_prvData
            (i <- findFreeTciTabEntry G E fuel b ;;
             set_ttcip (Some i) ;;;
             when (b || (tciTabFixedAssignments G
                         && chpl_task_isFixedThread E))
                  (upd_tci i (set_bound true)) ;;;
             ret i)).
  { apply pres_bind; [apply composes_same_prvData
                     |apply pres_findFree_prv|intros i].
    apply pres_bind; [apply composes_same_prvData
                     |apply pres_set_ttcip_prv|intros _].
    apply pres_bind; [apply composes_same_prvData| |intros _].
    - apply pres_when; [apply composes_same_prvData|apply pres_upd_tci_prv].
    - apply pres_ret. apply composes_same_prvData. }
  intros w a w' H. unfold tciAllocCommon in H.
  destruct (_ttcip w) as [t|]; [|exact (Hfind w a w' H)].
  destruct (bound (tciAt (tciTab w) t)).
  - inversion H; subst. reflexivity.
  - unfold atomic_exchange_allocated in H.
    destruct (negb (allocated (tciAt (tciTab w) t))).
    + cbn in H. inversion H; subst. reflexivity.
    + apply bind_Done in H. destruct H as ([] & w1 & H1 & H).
      inversion H1; subst w1. apply Hfind in H. exact H.
Qed.

Lemma pres_ensureProgress R E i n :
  composes R -> preserves R (checkTxCmplsFn E i) ->
  preserves R (ensureProgress E i n).
Proof.
  intros HR Hc. induction n as [|n IH]; cbn [ensureProgress];
    [apply pres_ret; exact HR|].
  apply pres_bind; [exact HR|exact Hc|intros _; exact IH].
Qed.

Lemma pres_OFI_RIDE_OUT_EAGAIN R E i e :
  composes R -> preserves R (checkTxCmplsFn E i) -> preserves R (emit e) ->
  preserves R (OFI_RIDE_OUT_EAGAIN E i e).
Proof.
  intros HR Hc He w a w' H. unfold OFI_RIDE_OUT_EAGAIN in H.
  revert H. apply pres_bind; [exact HR| |intros _; exact He].
  apply pres_ensureProgress; assumption.
Qed.

Lemma pres_allocBounceBuf R E size :
  (forall e, preserves R (emit e)) -> composes R ->
  preserves R (allocBounceBuf E size).
Proof.
  intros He HR w a w' H. unfold allocBounceBuf in H.
  apply bind_Done in H. destruct H as ([] & w1 & H1 & H).
  inversion H; subst. eapply He. exact H1.
Qed.

Lemma pres_localOrBounceDesc R G E addr size copy :
  (forall e, preserves R (emit e)) -> composes R ->
  preserves R (localOrBounceDesc G E addr size copy).
Proof.
  intros He HR. unfold localOrBounceDesc.
  destruct (mrGetDesc G addr size); [apply pres_ret; exact HR|].
  apply pres_bind; [exact HR|apply pres_allocBounceBuf; assumption|intros p].
  apply pres_bind; [exact HR|apply pres_CHK_SOME; exact HR|intros _].
  apply pres_bind; [exact HR|apply pres_when; [exact HR|apply He]|intros _].
  apply pres_ret. exact HR.
Qed.

Lemma pres_waitForTxnComplete_bound E tcip ctx :
  preserves same_bound (waitForTxnComplete E tcip ctx).
Proof.
  unfold waitForTxnComplete.
  apply pres_bind; [apply composes_same_bound|apply pres_emit_bound|].
  intros _. apply same_bound_checkTxCmplsFn.
Qed.

Lemma pres_incr_numTxnsOut_bound i : preserves same_bound (incr_numTxnsOut i).
Proof. apply same_bound_upd_tci. reflexivity. Qed.

Lemma pres_incr_numTxnsSent_bound i :
  preserves same_bound (incr_numTxnsSent i).
Proof. apply same_bound_upd_tci. reflexivity. Qed.

(** The low-level GET on a context the caller holds. *)
Lemma pres_ofi_get_ll_bound G E fuel addr node raddr size ctx tcip :
  preserves same_bound
    (ofi_get_ll G E fuel addr node raddr size ctx (Some tcip)).
Proof.
  unfold ofi_get_ll. pose proof composes_same_bound as HR.
  apply pres_bind; [exact HR|apply pres_CHK_SOME; exact HR|intros kr].
  apply pres_bind; [exact HR|apply pres_CHK_SOME; exact HR|intros _].
  apply pres_bind; [exact HR|apply pres_ret; exact HR|intros myTcip].
  apply pres_bind; [exact HR|apply pres_emit_bound|intros _].
  apply pres_bind; [exact HR|apply pres_incr_numTxnsOut_bound|intros _].
  apply pres_bind; [exact HR|apply pres_incr_numTxnsSent_bound|intros _].
  apply pres_ret. exact HR.
Qed.

(** With a context in hand the low-level GET is a straight line: it
    returns when both lookups succeed, adding one [fi_read]. *)
Lemma ofi_get_ll_held G E fuel addr node raddr size ctx tcip w w' :
  ofi_get_ll G E fuel addr node raddr size ctx (Some tcip) w = Done tt w' ->
  exists key off,
    mrGetKey G node raddr size = Some (key, off)
    /\ trace w' = trace w ++ [Ev_fi_read tcip addr size node off key ctx]
    /\ prvData w' = prvData w.
Proof.
  unfold ofi_get_ll. intros H.
  destruct (mrGetKey G node raddr size) as [[key off]|]; [|discriminate].
  destruct (mrGetDesc G addr size); [|discriminate].
  cbn in H. inversion H; subst. cbn. exists key, off. repeat split.
Qed.

(** ** PUT in message-order mode *)

Lemma put_head G E fuel addr size copy w myAddr w1 tcip w2 :
  localOrBounceDesc G E addr size copy w = Done myAddr w1 ->
  tciAlloc G E fuel w1 = Done tcip w2 ->
  exists d,
    trace w2 = trace w ++ d
    /\ List.filter is_put_traffic d = []
    /\ prvData w2 = prvData w.
Proof.
  intros H1 H2.
  pose proof (pres_localOrBounceDesc same_prvData G E addr size copy
                pres_emit_prv composes_same_prvData w myAddr w1 H1) as P1.
  pose proof (pres_tciAllocCommon_prv G E fuel false w1 tcip w2 H2) as P2.
  eapply quiet_Done in H1; [|apply quiet_localOrBounceDesc].
  eapply quiet_Done in H2; [|apply quiet_tciAlloc].
  destruct H1 as (d1 & T1 & Q1). destruct H2 as (d2 & T2 & Q2).
  exists (d1 ++ d2). split; [rewrite T2, T1, app_assoc; reflexivity|].
  split; [|unfold same_prvData in *; congruence].
  rewrite filter_app_list.
  rewrite (filter_nil_of_class ev_bounce is_put_traffic d1 Q1)
    by (intros []; cbn; congruence).
  rewrite (filter_nil_of_class ev_yield is_put_traffic d2 Q2)
    by (intros []; cbn; congruence).
  reflexivity.
Qed.

Lemma put_tail tcip myAddr addr w3 w' :
  (tciFree tcip ;;;
   when (negb (myAddr =? addr)) (freeBounceBuf myAddr)) w3 = Done tt w' ->
  exists d,
    trace w' = trace w3 ++ d
    /\ List.filter is_put_traffic d = []
    /\ same_bound w3 w'
    /\ prvData w' = prvData w3.
Proof.
  intros H. apply bind_Done in H. destruct H as ([] & w4 & Hf & H).
  pose proof (same_bound_tciFree tcip w3 tt w4 Hf) as B1.
  rewrite tciFree_Done in Hf. inversion Hf as [Hw4]. clear Hf.
  assert (T4 : trace w4 = trace w3 /\ prvData w4 = prvData w3).
  { subst w4. destruct (bound (tciAt (tciTab w3) tcip)); split; reflexivity. }
  destruct T4 as [T4 P4].
  destruct (negb (myAddr =? addr)); cbn in H; inversion H; subst w'.
  - exists [Ev_freeBounceBuf myAddr]. cbn. rewrite T4.
    repeat split; assumption.
  - exists []. rewrite app_nil_r. repeat split; assumption.
Qed.

(** C1, as the code has it.  In message-order mode, for a PUT the
    engine does not split ([size] at most [max_msg_size]) and whose
    remote address has an MR key, a call that returns obeys
    [mo_put_discipline]: on a bound context and with [size] at most
    [inject_size] it issues one [fi_inject_write], waits for nothing,
    and sets the node's bit in the task's bitmap, allocating the bitmap
    if the task had none; otherwise it issues one [fi_write], then the
    one-byte [fi_read] from the same node into [orderDummy], and waits
    for that read. *)
Theorem ofi_put_mo_unsplit G E fuel addr node raddr size w :
  haveDeliveryComplete G = false ->
  size <= max_msg_size G ->
  mrGetKey G node raddr size <> None ->
  mo_put_discipline G E (S fuel) addr node raddr size w.
Proof.
  intros HDC Hsz Hkey w' H.
  rewrite ofi_put_unsplit in H by exact Hsz.
  unfold ofi_put_xfer in H.
  destruct (mrGetKey G node raddr size) as [[key off]|] eqn:Hk;
    [|contradiction].
  apply bind_Done in H. destruct H as (myAddr & w1 & H1 & H).
  apply bind_Done in H. destruct H as (tcip & w2 & H2 & H).
  apply bind_Done in H. destruct H as (t & w2' & Ht & H).
  inversion Ht; subst t w2'. clear Ht.
  apply bind_Done in H. destruct H as ([] & w3 & Hbody & Htail).
  destruct (put_head G E fuel addr size true w myAddr w1 tcip w2 H1 H2)
    as (dh & Th & Fh & Ph).
  destruct (put_tail tcip myAddr addr w3 w' Htail) as (dt & Tt & Ft & Bt & Pt).
  exists tcip, myAddr, key, off. split; [reflexivity|].
  rewrite HDC in Hbody. cbn [orb negb] in Hbody.
  destruct (bound (tciAt (tciTab w2) tcip)) eqn:Hb; cbn [negb orb] in Hbody.
  - destruct (Z.ltb_spec (inject_size G) size) as [Hbig|Hsmall].
    + (* bound, too big to inject: write, dummy GET, wait *)
      assert (Hc : bound (tciAt (tciTab w') tcip) && (size <=? inject_size G)
                   = false).
      { apply andb_false_iff. right. apply Z.leb_gt. exact Hbig. }
      rewrite Hc.
      apply bind_Done in Hbody. destruct Hbody as ([] & wa & Ha & Hbody).
      apply bind_Done in Hbody. destruct Hbody as ([] & wb & Hb1 & Hbody).
      apply bind_Done in Hbody. destruct Hbody as ([] & wc & Hb2 & Hbody).
      apply bind_Done in Hbody. destruct Hbody as ([] & wd & Hg & Hw).
      cbn [negb when] in Hg.
      apply ofi_get_ll_held in Hg. destruct Hg as (dkey & doff & Hdk & Tg & _).
      inversion Ha; subst wa. inversion Hb1; subst wb. inversion Hb2; subst wc.
      cbn in Tg. inversion Hw; subst w3. cbn in Tt.
      exists dkey, doff. split; [exact Hdk|].
      erewrite added_app;
        [|rewrite Tt, Tg, Th, <- !app_assoc; reflexivity].
      rewrite !filter_app_list, Fh, Ft. reflexivity.
    + (* bound, small enough: inject and record the node *)
      assert (Hc : bound (tciAt (tciTab w') tcip) && (size <=? inject_size G)
                   = true).
      { apply andb_true_iff. split; [|apply Z.leb_le; exact Hsmall].
        rewrite Bt.
        apply bind_Done in Hbody. destruct Hbody as ([] & wa & Ha & Hbody).
        apply bind_Done in Hbody. destruct Hbody as ([] & wb & Hb1 & Hbody).
        apply bind_Done in Hbody. destruct Hbody as (o & wc & Ho & Hbody).
        apply bind_Done in Hbody. destruct Hbody as (p & wd & Hp & Hs).
        inversion Ha; subst wa. inversion Hb1; subst wb.
        inversion Ho; subst o wc. clear Ha Hb1 Ho.
        destruct (prvData _) in Hp; [|discriminate].
        inversion Hp; subst wd. inversion Hs; subst w3. cbn.
        rewrite bound_upd by reflexivity. exact Hb. }
      rewrite Hc.
      apply bind_Done in Hbody. destruct Hbody as ([] & wa & Ha & Hbody).
      apply bind_Done in Hbody. destruct Hbody as ([] & wb & Hb1 & Hbody).
      apply bind_Done in Hbody. destruct Hbody as (o & wc & Ho & Hbody).
      apply bind_Done in Hbody. destruct Hbody as (p & wd & Hp & Hs).
      inversion Ha; subst wa. inversion Hb1; subst wb.
      inversion Ho; subst o wc. clear Ha Hb1 Ho.
      cbn in Hp. rewrite Ph in Hp.
      destruct (prvData w) as [p0|] eqn:Hp0; [|discriminate].
      inversion Hp; subst p wd. inversion Hs; subst w3. cbn in Tt, Pt.
      split.
      * erewrite added_app;
          [|rewrite Tt, Th, <- !app_assoc; reflexivity].
        rewrite !filter_app_list, Fh, Ft. reflexivity.
      * exists p0. split; [reflexivity|]. cbn zeta. split; [exact Pt|].
        apply bitmapTest_bitmapSet.
  - (* not bound: write, dummy GET, wait *)
    assert (Hc : bound (tciAt (tciTab w') tcip) && (size <=? inject_size G)
                 = false).
    { apply andb_false_iff. left. rewrite Bt.
      apply bind_Done in Hbody. destruct Hbody as ([] & wa & Ha & Hbody).
      apply bind_Done in Hbody. destruct Hbody as ([] & wb & Hb1 & Hbody).
      apply bind_Done in Hbody. destruct Hbody as ([] & wc & Hb2 & Hbody).
      apply bind_Done in Hbody. destruct Hbody as ([] & wd & Hg & Hw).
      cbn [negb when] in Hg.
      rewrite (pres_waitForTxnComplete_bound _ _ _ _ _ _ Hw).
      rewrite (pres_ofi_get_ll_bound _ _ _ _ _ _ _ _ _ _ _ _ Hg).
      rewrite (pres_incr_numTxnsSent_bound _ _ _ _ Hb2).
      rewrite (pres_incr_numTxnsOut_bound _ _ _ _ Hb1).
      rewrite (pres_emit_bound _ _ _ _ Ha). exact Hb. }
    rewrite Hc.
    apply bind_Done in Hbody. destruct Hbody as ([] & wa & Ha & Hbody).
    apply bind_Done in Hbody. destruct Hbody as ([] & wb & Hb1 & Hbody).
    apply bind_Done in Hbody. destruct Hbody as ([] & wc & Hb2 & Hbody).
    apply bind_Done in Hbody. destruct Hbody as ([] & wd & Hg & Hw).
    cbn [negb when] in Hg.
    apply ofi_get_ll_held in Hg. destruct Hg as (dkey & doff & Hdk & Tg & _).
    inversion Ha; subst wa. inversion Hb1; subst wb. inversion Hb2; subst wc.
    cbn in Tg. inversion Hw; subst w3. cbn in Tt.
    exists dkey, doff. split; [exact Hdk|].
    erewrite added_app;
      [|rewrite Tt, Tg, Th, <- !app_assoc; reflexivity].
    rewrite !filter_app_list, Fh, Ft. reflexivity.
Qed.

(** *** A PUT that is split need not end with a wait *)

(** C1, as stated, fails.  Message-order mode, the remote address has a
    key, the thread holds the bound context 0, [inject_size] is 64 and
    [max_msg_size] is 1000: a PUT of 1010 bytes is split into a chunk of
    1000 bytes ([fi_write], dummy [fi_read], wait) and a chunk of 10
    bytes, which is injected and not waited for.  The PUT is larger than
    [inject_size], yet it is not "one [fi_write], the dummy GET, the
    wait". *)
Lemma ofi_put_mo_split_counterexample :
  haveDeliveryComplete G_demo = false
  /\ mrGetKey G_demo 1 200000 1010 <> None
  /\ ofi_put G_demo E_demo 4 100000 1 200000 1010 w_bound
     = Done tt (world_after
                  (ofi_put G_demo E_demo 4 100000 1 200000 1010 w_bound)
                  w_bound)
  /\ List.filter is_put_traffic
       (trace (world_after
                 (ofi_put G_demo E_demo 4 100000 1 200000 1010 w_bound)
                 w_bound))
     = [Ev_fi_write 0 100000 1000 1 200000 0 NULL;
        Ev_fi_read 0 4096 1 1 4096 0 (txnTrkEncodeDone 520);
        Ev_waitForTxnComplete 0 (txnTrkEncodeDone 520);
        Ev_fi_inject_write 0 101000 10 1 201000 0]
  /\ ~ mo_put_discipline G_demo E_demo 4 100000 1 200000 1010 w_bound.
Proof.
  split; [reflexivity|]. split; [discriminate|].
  assert (Hrun : ofi_put G_demo E_demo 4 100000 1 200000 1010 w_bound
                 = Done tt (world_after
                              (ofi_put G_demo E_demo 4 100000 1 200000 1010
                                       w_bound) w_bound))
    by (vm_compute; reflexivity).
  split; [exact Hrun|]. split; [vm_compute; reflexivity|].
  intros H. specialize (H _ Hrun).
  destruct H as (tcip & myAddr & key & off & _ & Hif).
  change (1010 <=? inject_size G_demo) with false in Hif.
  rewrite andb_false_r in Hif.
  destruct Hif as (dkey & doff & _ & Hf).
  vm_compute in Hf. discriminate Hf.
Qed.

Lemma ofi_put_mo_unsplit_witness :
  haveDeliveryComplete G_demo = false
  /\ 50 <= max_msg_size G_demo
  /\ mrGetKey G_demo 1 200000 50 <> None
  /\ mo_put_discipline G_demo E_demo 3 100000 1 200000 50 w_bound.
Proof.
  split; [reflexivity|]. split; [vm_compute; discriminate|].
  split; [discriminate|].
  apply (ofi_put_mo_unsplit G_demo E_demo 2 100000 1 200000 50 w_bound).
  - reflexivity.
  - vm_compute. discriminate.
  - discriminate.
Defined.

(** The hypothesis of [mo_put_discipline] is met there: the PUT
    returns, by the inject path. *)
Example ofi_put_mo_inject_runs :
  exists w',
    ofi_put G_demo E_demo 3 100000 1 200000 50 w_bound = Done tt w'
    /\ trace w' = [Ev_fi_inject_write 0 100000 50 1 200000 0]
    /\ (exists p b, prvData w' = Some p /\ putBitmap p = Some b
                    /\ bitmapTest b 1 = true).
Proof.
  eexists. split; [vm_compute; reflexivity|].
  split; [reflexivity|]. eexists _, _. repeat split.
Qed.

(** And by the write path on a context that is not bound. *)
Example ofi_put_mo_write_runs :
  exists w',
    ofi_put G_demo E_release 3 100000 1 200000 50 w_free = Done tt w'
    /\ trace w' = [Ev_fi_write 1 100000 50 1 200000 0 NULL;
                   Ev_fi_read 1 4096 1 1 4096 0 (txnTrkEncodeDone 520);
                   Ev_waitForTxnComplete 1 (txnTrkEncodeDone 520)]
    /\ prvData w' = Some prv_fresh.
Proof.
  eexists. split; [vm_compute; reflexivity|]. split; reflexivity.
Qed.

(** ** Atomic memory operations *)

Lemma doCpuAMO_Done obj op ty size w w' :
  doCpuAMO obj op ty size w = Done tt w' ->
  (size = 4 \/ size = 8)
  /\ trace w' = trace w ++ [Ev_doCpuAMO obj op ty size].
Proof.
  unfold doCpuAMO. intros H.
  apply bind_Done in H. destruct H as ([] & w1 & Hc & H).
  unfold CHK_TRUE in Hc.
  destruct ((size =? 4) || (size =? 8)) eqn:Hs; [|discriminate].
  inversion Hc; subst w1. split.
  - apply orb_true_iff in Hs. destruct Hs as [Hs|Hs];
      apply Z.eqb_eq in Hs; [left|right]; exact Hs.
  - destruct op; destruct ty; cbn in H; try discriminate;
      inversion H; subst; reflexivity.
Qed.

Lemma doCpuAMO_size_0 obj op ty w : doCpuAMO obj op ty 0 w = Aborted w.
Proof. reflexivity. Qed.

Lemma quiet_amoBounce G E p size copy :
  quiet ev_bounce (amoBounce G E p size copy).
Proof.
  unfold amoBounce. destruct (negb (p =? NULL));
    [apply quiet_localOrBounceDesc | apply quiet_ret].
Qed.

(** [ofi_amo], when it returns, has issued one network atomic. *)
Lemma ofi_amo_Done G E fuel node object mrKey operand1 operand2 result
  ofiOp ofiType size w w' :
  ofi_amo G E fuel node object mrKey operand1 operand2 result
          ofiOp ofiType size w = Done tt w' ->
  exists dpre x dpost,
    trace w' = trace w ++ dpre ++ x :: dpost
    /\ is_net_atomic x = true
    /\ forallb ev_amo_side dpre = true
    /\ forallb ev_amo_side dpost = true.
Proof.
  unfold ofi_amo. intros H.
  apply bind_Done in H. destruct H as (myRes & w1 & H1 & H).
  apply bind_Done in H. destruct H as (myOpnd1 & w2 & H2 & H).
  apply bind_Done in H. destruct H as (myOpnd2 & w3 & H3 & H).
  apply bind_Done in H. destruct H as (tcip & w4 & H4 & H).
  apply bind_Done in H. destruct H as ([] & w5 & H5 & H).
  apply bind_Done in H. destruct H as (t & w5' & Ht & H).
  inversion Ht; subst t w5'. clear Ht.
  apply bind_Done in H. destruct H as ([] & w6 & Hx & Hpost).
  eapply quiet_Done in H1; [|apply quiet_amoBounce].
  eapply quiet_Done in H2; [|apply quiet_amoBounce].
  eapply quiet_Done in H3; [|apply quiet_amoBounce].
  eapply quiet_Done in H4; [|apply quiet_tciAlloc].
  eapply quiet_Done in H5;
    [|apply quiet_when; apply quiet_waitForPutsVisAllNodes].
  eapply (quiet_Done ev_amo_side) in Hpost.
  2:{ apply quiet_bind; [auto with quiet|intros _].
      apply quiet_bind; [auto with quiet|intros _].
      apply quiet_bind; [quiet_from quiet_waitForTxnComplete|intros _].
      apply quiet_bind; [auto with quiet|intros _].
      unfold freeBounceBuf. quiet_auto. }
  destruct H1 as (d1 & T1 & Q1). destruct H2 as (d2 & T2 & Q2).
  destruct H3 as (d3 & T3 & Q3). destruct H4 as (d4 & T4 & Q4).
  destruct H5 as (d5 & T5 & Q5). destruct Hpost as (d7 & T7 & Q7).
  assert (Hx' : exists x, trace w6 = trace w5 ++ [x]
                          /\ is_net_atomic x = true).
  { destruct (fi_op_eqb ofiOp FI_CSWAP);
      [|destruct (negb (result =? NULL))];
      inversion Hx; subst w6; eexists; split; reflexivity. }
  destruct Hx' as (x & T6 & Hnx).
  exists (d1 ++ d2 ++ d3 ++ d4 ++ d5), x, d7.
  split; [rewrite T7, T6, T5, T4, T3, T2, T1, <- !app_assoc; reflexivity|].
  split; [exact Hnx|]. split; [|exact Q7].
  rewrite !forallb_app.
  rewrite (forallb_weaken ev_bounce ev_amo_side d1) by
    (try exact Q1; intros []; cbn; congruence).
  rewrite (forallb_weaken ev_bounce ev_amo_side d2) by
    (try exact Q2; intros []; cbn; congruence).
  rewrite (forallb_weaken ev_bounce ev_amo_side d3) by
    (try exact Q3; intros []; cbn; congruence).
  rewrite (forallb_weaken ev_yield ev_amo_side d4) by
    (try exact Q4; intros []; cbn; congruence).
  rewrite (forallb_weaken ev_vis ev_amo_side d5) by
    (try exact Q5; intros []; cbn; congruence).
  reflexivity.
Qed.

(** [amRequestCommon], when it returns, has transmitted the request. *)
Lemma amRequestCommon_Done G E fuel node req reqSize ppAmDone tcip w w' :
  amRequestCommon G E fuel node req reqSize ppAmDone tcip w = Done tt w' ->
  exists dpre x dpost,
    trace w' = trace w ++ dpre ++ x :: dpost
    /\ is_am_xmit x = true
    /\ forallb ev_am_side dpre = true
    /\ forallb ev_am_side dpost = true.
Proof.
  unfold amRequestCommon. intros H.
  apply bind_Done in H. destruct H as (pAmDone & w1 & H1 & H).
  apply bind_Done in H. destruct H as (myTcip & w2 & H2 & H).
  apply bind_Done in H. destruct H as (myReq & w3 & H3 & H).
  apply bind_Done in H. destruct H as ([] & w4 & H4 & H).
  apply bind_Done in H. destruct H as ([] & w5 & H5 & H6).
  eapply quiet_Done in H1; [|apply quiet_amRequest_setUpDone].
  eapply quiet_Done in H2; [|apply quiet_tcipOrAlloc].
  eapply quiet_Done in H3; [|apply quiet_amRequest_bounceReq].
  eapply quiet_Done in H4; [|apply quiet_amRequest_mcm].
  eapply quiet_Done in H6; [|apply quiet_amRequest_finish].
  destruct H1 as (d1 & T1 & Q1). destruct H2 as (d2 & T2 & Q2).
  destruct H3 as (d3 & T3 & Q3). destruct H4 as (d4 & T4 & Q4).
  destruct H6 as (d6 & T6 & Q6).
  destruct (amRequest_xmit_Done G E node myReq reqSize pAmDone myTcip w4)
    as (w5' & Hx & _ & _ & _ & Hd5).
  rewrite Hx in H5. inversion H5; subst w5'. clear H5.
  assert (Q0 : forallb ev_am_side (d1 ++ d2 ++ d3 ++ d4) = true).
  { rewrite !forallb_app.
    rewrite (forallb_weaken ev_setup ev_am_side d1) by
      (try exact Q1; intros []; cbn; congruence).
    rewrite (forallb_weaken ev_yield ev_am_side d2) by
      (try exact Q2; intros []; cbn; congruence).
    rewrite (forallb_weaken ev_bounce ev_am_side d3) by
      (try exact Q3; intros []; cbn; congruence).
    rewrite (forallb_weaken ev_vis ev_am_side d4) by
      (try exact Q4; intros []; cbn; congruence).
    reflexivity. }
  assert (Q6' : forallb ev_am_side d6 = true).
  { eapply forallb_weaken; [|exact Q6]. intros []; cbn; congruence. }
  destruct ((pAmDone =? NULL) && (reqSize <=? inject_size G));
    destruct Hd5 as [T5 _].
  - exists (d1 ++ d2 ++ d3 ++ d4), (Ev_fi_inject myTcip myReq reqSize node), d6.
    split; [rewrite T6, T5, T4, T3, T2, T1, <- !app_assoc; reflexivity|].
    split; [reflexivity|]. split; assumption.
  - exists (d1 ++ d2 ++ d3 ++ d4),
           (Ev_fi_send myTcip myReq reqSize node
              (txnTrkEncodeDone (txnDone_addr E))),
           (Ev_waitForTxnComplete myTcip (txnTrkEncodeDone (txnDone_addr E))
              :: d6).
    split; [rewrite T6, T5, T4, T3, T2, T1, <- !app_assoc; reflexivity|].
    split; [reflexivity|]. split; [exact Q0|]. cbn. exact Q6'.
Qed.

Lemma quiet_setUpDelayedAmDone E : quiet ev_setup (setUpDelayedAmDone E).
Proof.
  unfold setUpDelayedAmDone.
  apply quiet_bind; [auto with quiet|intros o].
  destruct o as [p|]; [|apply quiet_ret].
  destruct (taskIsEnding p); [apply quiet_ret|]. quiet_auto.
Qed.

(** [amRequestAMO], when it returns, has put a request on the fabric. *)
Lemma amRequestAMO_Done G E fuel node object operand1 operand2 result
  ofiOp ofiType size w w' :
  amRequestAMO G E fuel node object operand1 operand2 result
               ofiOp ofiType size w = Done tt w' ->
  exists dpre x dpost,
    trace w' = trace w ++ dpre ++ x :: dpost
    /\ is_am_xmit x = true
    /\ forallb ev_am_side dpre = true
    /\ forallb ev_am_side dpost = true.
Proof.
  unfold amRequestAMO. intros H.
  apply bind_Done in H. destruct H as (tcip & w1 & H1 & H).
  apply bind_Done in H. destruct H as (dr & w2 & H2 & H).
  apply bind_Done in H. destruct H as ([] & w3 & H3 & H).
  apply bind_Done in H. destruct H as ([] & w4 & H4 & H).
  apply bind_Done in H. destruct H as ([] & w5 & H5 & H6).
  eapply quiet_Done in H1; [|apply quiet_tciAlloc].
  eapply (quiet_Done ev_setup) in H2.
  2:{ destruct (result =? NULL).
      - apply quiet_bind; [apply quiet_setUpDelayedAmDone|intros d].
        apply quiet_ret.
      - destruct (negb (mrGetLocalKey G result size)); [|apply quiet_ret].
        apply quiet_bind; [quiet_from quiet_allocBounceBuf|intros p].
        quiet_auto. }
  eapply (quiet_Done ev_bounce) in H3; [|quiet_auto].
  eapply (quiet_Done ev_bounce) in H4; [|quiet_auto].
  apply amRequestCommon_Done in H5.
  eapply (quiet_Done ev_bounce) in H6.
  2:{ apply quiet_bind; [|intros _; auto with quiet].
      apply quiet_when. unfold freeBounceBuf. quiet_auto. }
  destruct H1 as (d1 & T1 & Q1). destruct H2 as (d2 & T2 & Q2).
  destruct H3 as (d3 & T3 & Q3). destruct H4 as (d4 & T4 & Q4).
  destruct H5 as (dpre & x & dpost & T5 & Hx & Qpre & Qpost).
  destruct H6 as (d6 & T6 & Q6).
  exists (d1 ++ d2 ++ d3 ++ d4 ++ dpre), x, (dpost ++ d6).
  split; [rewrite T6, T5, T4, T3, T2, T1, <- !app_assoc; reflexivity|].
  split; [exact Hx|]. split.
  - rewrite !forallb_app, Qpre.
    rewrite (forallb_weaken ev_yield ev_am_side d1) by
      (try exact Q1; intros []; cbn; congruence).
    rewrite (forallb_weaken ev_setup ev_am_side d2) by
      (try exact Q2; intros []; cbn; congruence).
    rewrite (forallb_weaken ev_bounce ev_am_side d3) by
      (try exact Q3; intros []; cbn; congruence).
    rewrite (forallb_weaken ev_bounce ev_am_side d4) by
      (try exact Q4; intros []; cbn; congruence).
    reflexivity.
  - rewrite forallb_app, Qpost.
    rewrite (forallb_weaken ev_bounce ev_am_side d6) by
      (try exact Q6; intros []; cbn; congruence).
    reflexivity.
Qed.

(** ** Self-communication *)

Lemma amWait_not_amo d :
  forallb ev_amWait d = true -> List.filter is_amo_exec d = [].
Proof.
  intros H. eapply filter_nil_of_class; [exact H|]. intros []; cbn; congruence.
Qed.

Lemma amo_side_not_amo d :
  forallb ev_amo_side d = true -> List.filter is_amo_exec d = [].
Proof.
  intros H. eapply filter_nil_of_class; [exact H|]. intros []; cbn; congruence.
Qed.

(** An AMO on the caller's own node, in a job of several nodes: by the
    network when it is native, by [doCpuAMO] when it is not. *)
Lemma doAMO_self G E fuel obj operand1 operand2 result op ty size w w' :
  1 < chpl_numNodes G ->
  doAMO G E fuel (chpl_nodeID G) obj operand1 operand2 result op ty size w
  = Done tt w' ->
  if amo_is_native G (chpl_nodeID G) obj ty size
  then exists x, is_net_atomic x = true
                 /\ List.filter is_amo_exec (added w w') = [x]
  else List.filter is_amo_exec (added w w') = [Ev_doCpuAMO obj op ty size].
Proof.
  intros Hn H. unfold doAMO in H.
  destruct (Z.leb_spec (chpl_numNodes G) 1); [lia|].
  apply bind_Done in H. destruct H as ([] & w1 & Hr & H).
  eapply quiet_Done in Hr; [|apply quiet_retireDelayedAmDone].
  destruct Hr as (d1 & T1 & Q1). apply amWait_not_amo in Q1.
  unfold amo_is_native.
  destruct (isAtomicValid G ty); cbn [andb];
    [destruct (mrGetKey G (chpl_nodeID G) obj size) as [[key off]|]|].
  - apply ofi_amo_Done in H.
    destruct H as (dpre & x & dpost & T & Hx & Qpre & Qpost).
    exists x. split; [exact Hx|].
    erewrite added_app; [|rewrite T, T1, <- !app_assoc; reflexivity].
    rewrite !filter_app_list, Q1. cbn [List.filter].
    rewrite (amo_side_not_amo _ Qpre), (amo_side_not_amo _ Qpost).
    unfold is_amo_exec at 1. rewrite Hx, orb_true_r. reflexivity.
  - rewrite Z.eqb_refl in H.
    apply bind_Done in H. destruct H as ([] & w2 & Hv & H).
    eapply quiet_Done in Hv;
      [|apply quiet_when; apply quiet_waitForPutsVisAllNodes].
    destruct Hv as (d2 & T2 & Q2).
    apply doCpuAMO_Done in H. destruct H as [_ T3].
    erewrite added_app; [|rewrite T3, T2, T1, <- !app_assoc; reflexivity].
    rewrite !filter_app_list, Q1.
    rewrite (filter_nil_of_class ev_vis is_amo_exec d2 Q2)
      by (intros []; cbn; congruence).
    reflexivity.
  - rewrite Z.eqb_refl in H.
    apply bind_Done in H. destruct H as ([] & w2 & Hv & H).
    eapply quiet_Done in Hv;
      [|apply quiet_when; apply quiet_waitForPutsVisAllNodes].
    destruct Hv as (d2 & T2 & Q2).
    apply doCpuAMO_Done in H. destruct H as [_ T3].
    erewrite added_app; [|rewrite T3, T2, T1, <- !app_assoc; reflexivity].
    rewrite !filter_app_list, Q1.
    rewrite (filter_nil_of_class ev_vis is_amo_exec d2 Q2)
      by (intros []; cbn; congruence).
    reflexivity.
Qed.

(** C7, as the code has it.  A PUT or GET to the caller's own node, with
    valid pointers and a size that is not zero, returns after one
    [memmove] of the data (into [raddr] for a PUT, into [addr] for a
    GET) and puts nothing on the fabric.  An AMO on the caller's own
    node, in a job of more than one node, is carried out by [doCpuAMO]
    when the type is not valid for network atomics or the object has no
    MR key; when both hold it is carried out by one network atomic. *)
Theorem self_communication G E fuel :
  (forall addr raddr size w,
      addr <> NULL -> raddr <> NULL -> size <> 0 ->
      (exists w',
          chpl_comm_put G E fuel addr (chpl_nodeID G) raddr size w
          = Done tt w'
          /\ List.filter is_traffic_or_write (added w w')
             = [Ev_memmove raddr addr size])
      /\ (exists w',
             chpl_comm_get G E fuel addr (chpl_nodeID G) raddr size w
             = Done tt w'
             /\ List.filter is_traffic_or_write (added w w')
                = [Ev_memmove addr raddr size]))
  /\ (forall obj operand1 operand2 result op ty size w w',
         1 < chpl_numNodes G ->
         doAMO G E fuel (chpl_nodeID G) obj operand1 operand2 result
               op ty size w = Done tt w' ->
         if amo_is_native G (chpl_nodeID G) obj ty size
         then exists x, is_net_atomic x = true
                        /\ List.filter is_amo_exec (added w w') = [x]
         else List.filter is_amo_exec (added w w')
              = [Ev_doCpuAMO obj op ty size]).
Proof.
  split.
  - intros addr raddr size w Ha Hr Hs.
    destruct (chpl_comm_put_get_self G E fuel addr (chpl_nodeID G) raddr
                size w eq_refl Ha Hr Hs)
      as [(w1 & Hp & Fp & _) (w2 & Hg & Fg & _)].
    split; [exists w1 | exists w2]; split; assumption.
  - intros obj operand1 operand2 result op ty size w w' Hn H.
    exact (doAMO_self G E fuel obj operand1 operand2 result op ty size
                      w w' Hn H).
Qed.

Lemma self_communication_witness :
  (100000 <> NULL /\ 200000 <> NULL /\ 8 <> 0
   /\ exists w',
       chpl_comm_put G_demo E_demo 4 100000 (chpl_nodeID G_demo) 200000 8
                     w_free = Done tt w'
       /\ List.filter is_traffic_or_write (added w_free w')
          = [Ev_memmove 200000 100000 8])
  /\ (1 < chpl_numNodes G_nokey
      /\ doAMO G_nokey E_demo 4 (chpl_nodeID G_nokey) 100000 300 0 0
               FI_SUM FI_INT64 8 w_free
         = Done tt (world_after
                      (doAMO G_nokey E_demo 4 (chpl_nodeID G_nokey) 100000
                             300 0 0 FI_SUM FI_INT64 8 w_free) w_free)
      /\ List.filter is_amo_exec
           (added w_free
              (world_after
                 (doAMO G_nokey E_demo 4 (chpl_nodeID G_nokey) 100000
                        300 0 0 FI_SUM FI_INT64 8 w_free) w_free))
         = [Ev_doCpuAMO 100000 FI_SUM FI_INT64 8]).
Proof.
  split.
  - split; [discriminate|]. split; [discriminate|]. split; [discriminate|].
    apply (self_communication G_demo E_demo 4); discriminate.
  - assert (Hn : 1 < chpl_numNodes G_nokey) by reflexivity.
    assert (Hrun : doAMO G_nokey E_demo 4 (chpl_nodeID G_nokey) 100000 300
                         0 0 FI_SUM FI_INT64 8 w_free
                   = Done tt (world_after
                                (doAMO G_nokey E_demo 4 (chpl_nodeID G_nokey)
                                       100000 300 0 0 FI_SUM FI_INT64 8
                                       w_free) w_free))
      by (vm_compute; reflexivity).
    split; [exact Hn|]. split; [exact Hrun|].
    pose proof (proj2 (self_communication G_nokey E_demo 4)
                  100000 300 0 0 FI_SUM FI_INT64 8 w_free _ Hn Hrun) as X.
    change (amo_is_native G_nokey (chpl_nodeID G_nokey) 100000 FI_INT64 8)
      with false in X.
    exact X.
Defined.

(** C7, as stated, fails.  In the two-node configuration, where every
    type is valid for network atomics and every address has a key, a
    64-bit add on an object of the caller's own node goes out as one
    [fi_atomic]; [doCpuAMO] is not called.  And a PUT to the caller's
    own node with [addr == NULL] aborts before any [memmove]. *)
Lemma self_amo_counterexample :
  1 < chpl_numNodes G_demo
  /\ doAMO G_demo E_demo 4 (chpl_nodeID G_demo) 100000 300 0 0
           FI_SUM FI_INT64 8 w_free
     = Done tt (world_after
                  (doAMO G_demo E_demo 4 (chpl_nodeID G_demo) 100000 300 0 0
                         FI_SUM FI_INT64 8 w_free) w_free)
  /\ List.filter is_amo_exec
       (trace (world_after
                 (doAMO G_demo E_demo 4 (chpl_nodeID G_demo) 100000 300 0 0
                        FI_SUM FI_INT64 8 w_free) w_free))
     = [Ev_fi_atomic 1 0 100000 0 FI_SUM FI_INT64 (txnTrkEncodeDone 520)]
  /\ ~ self_amo_on_cpu G_demo E_demo 4 100000 300 0 0 FI_SUM FI_INT64 8
                       w_free
  /\ chpl_comm_put G_demo E_demo 4 NULL (chpl_nodeID G_demo) 200000 8 w_free
     = Aborted w_free.
Proof.
  split; [reflexivity|].
  assert (Hrun : doAMO G_demo E_demo 4 (chpl_nodeID G_demo) 100000 300 0 0
                       FI_SUM FI_INT64 8 w_free
                 = Done tt (world_after
                              (doAMO G_demo E_demo 4 (chpl_nodeID G_demo)
                                     100000 300 0 0 FI_SUM FI_INT64 8 w_free)
                              w_free))
    by (vm_compute; reflexivity).
  split; [exact Hrun|]. split; [vm_compute; reflexivity|].
  split; [|vm_compute; reflexivity].
  intros H. specialize (H _ Hrun). vm_compute in H. discriminate H.
Qed.

(** ** Zero-size calls *)

Lemma In_added w w' dpre x dpost :
  trace w' = trace w ++ dpre ++ x :: dpost -> In x (added w w').
Proof.
  intros H. rewrite (added_app w w' _ H). apply in_or_app. right. left.
  reflexivity.
Qed.

(** [doAMO] has no path for a zero size: it aborts on one node, and on
    several it returns only after it has put something on the fabric. *)
Lemma doAMO_size_0 G E fuel node obj operand1 operand2 result op ty w :
  (chpl_numNodes G <= 1 ->
   doAMO G E fuel node obj operand1 operand2 result op ty 0 w = Aborted w)
  /\ (forall w',
         doAMO G E fuel node obj operand1 operand2 result op ty 0 w
         = Done tt w' ->
         exists x, In x (added w w') /\ is_fabric_op x = true).
Proof.
  split.
  - intros Hn. unfold doAMO.
    destruct (Z.leb_spec (chpl_numNodes G) 1); [reflexivity|lia].
  - intros w' H. unfold doAMO in H.
    destruct (chpl_numNodes G <=? 1); [discriminate|].
    apply bind_Done in H. destruct H as ([] & w1 & Hr & H).
    eapply quiet_Done in Hr; [|apply quiet_retireDelayedAmDone].
    destruct Hr as (d1 & T1 & _).
    destruct (if isAtomicValid G ty then mrGetKey G node obj 0 else None)
      as [[key off]|].
    + apply ofi_amo_Done in H.
      destruct H as (dpre & x & dpost & T & Hx & _ & _).
      exists x. split.
      * apply (In_added w w' (d1 ++ dpre) x dpost).
        rewrite T, T1, <- !app_assoc. reflexivity.
      * destruct x; try discriminate; reflexivity.
    + destruct (node =? chpl_nodeID G).
      * apply bind_Done in H. destruct H as ([] & w2 & _ & H).
        discriminate H.
      * apply amRequestAMO_Done in H.
        destruct H as (dpre & x & dpost & T & Hx & _ & _).
        exists x. split.
        -- apply (In_added w w' (d1 ++ dpre) x dpost).
           rewrite T, T1, <- !app_assoc. reflexivity.
        -- destruct x; try discriminate; reflexivity.
Qed.

(** C8, as the code has it.  A PUT or GET of size zero with valid
    pointers returns, having put nothing on the fabric and written no
    memory.  [doAMO] has no such path: with size zero it aborts in a
    single-node job, and in any job it never returns without having put
    something on the fabric (it aborts in [doCpuAMO], whose sizes are 4
    and 8, or sends the AMO out as a request or a network atomic). *)
Theorem zero_size_calls G E fuel :
  (forall addr node raddr w,
      addr <> NULL -> raddr <> NULL ->
      returns_untouched (chpl_comm_put G E fuel addr node raddr 0) w
      /\ returns_untouched (chpl_comm_get G E fuel addr node raddr 0) w)
  /\ (forall node obj operand1 operand2 result op ty w,
         (chpl_numNodes G <= 1 ->
          doAMO G E fuel node obj operand1 operand2 result op ty 0 w
          = Aborted w)
         /\ ~ returns_untouched
                (doAMO G E fuel node obj operand1 operand2 result op ty 0) w).
Proof.
  split.
  - intros addr node raddr w Ha Hr.
    destruct (chpl_comm_put_get_empty G E fuel addr node raddr w Ha Hr)
      as [(w1 & Hp & Fp & _) (w2 & Hg & Fg & _)].
    split; [exists w1 | exists w2]; split; assumption.
  - intros node obj operand1 operand2 result op ty w.
    destruct (doAMO_size_0 G E fuel node obj operand1 operand2 result op ty w)
      as [Hab Hdone].
    split; [exact Hab|].
    intros (w' & Hrun & Hf).
    destruct (Hdone w' Hrun) as (x & Hin & Hx).
    assert (Hin' : In x (List.filter is_traffic_or_write (added w w'))).
    { apply List.filter_In. split; [exact Hin|].
      unfold is_traffic_or_write. rewrite Hx. reflexivity. }
    rewrite Hf in Hin'. destruct Hin'.
Qed.

Lemma zero_size_calls_witness :
  100000 <> NULL /\ 200000 <> NULL
  /\ returns_untouched (chpl_comm_put G_demo E_demo 4 100000 1 200000 0)
                       w_free
  /\ returns_untouched (chpl_comm_get G_demo E_demo 4 100000 1 200000 0)
                       w_free
  /\ chpl_numNodes G_single <= 1
  /\ doAMO G_single E_demo 4 0 100000 300 0 0 FI_SUM FI_INT64 0 w_free
     = Aborted w_free.
Proof.
  split; [discriminate|]. split; [discriminate|].
  destruct (proj1 (zero_size_calls G_demo E_demo 4) 100000 1 200000 w_free)
    as [Hp Hg]; [discriminate|discriminate|].
  split; [exact Hp|]. split; [exact Hg|].
  split; [vm_compute; discriminate|].
  apply (proj2 (zero_size_calls G_single E_demo 4)
           0 100000 300 0 0 FI_SUM FI_INT64 w_free).
  vm_compute. discriminate.
Defined.

(** C8, as stated, fails.  On one node an AMO of size zero aborts at
    the size check of [doCpuAMO]; and a PUT of size zero whose [addr] is
    [NULL] aborts at the pointer check.  Neither returns. *)
Lemma zero_size_counterexample :
  doAMO G_single E_demo 4 0 100000 300 0 0 FI_SUM FI_INT64 0 w_free
  = Aborted w_free
  /\ ~ returns_untouched
       (doAMO G_single E_demo 4 0 100000 300 0 0 FI_SUM FI_INT64 0) w_free
  /\ chpl_comm_put G_demo E_demo 4 NULL 1 200000 0 w_free = Aborted w_free
  /\ ~ returns_untouched
       (chpl_comm_put G_demo E_demo 4 NULL 1 200000 0) w_free.
Proof.
  split; [vm_compute; reflexivity|]. split.
  - intros (w' & H & _). vm_compute in H. discriminate H.
  - split; [vm_compute; reflexivity|].
    intros (w' & H & _). vm_compute in H. discriminate H.
Qed.

(** ** The MCM step at work

    A task with a PUT to node 1 pending sends requests to node 1. *)

(** Before an ExecOn the pending PUT is forced out by a dummy GET from
    node 1, and its bit is cleared. *)
Example execOn_forces_pending_put :
  exists w',
    amRequestCommon G_demo E_demo 4 1 req_execOn 16 false None w_pending
    = Done tt w'
    /\ trace w' = [Ev_waitForPutsVisAllNodes;
                   Ev_fi_read 0 4096 1 1 4096 0 (txnTrkEncodeDone 520);
                   Ev_waitForTxnComplete 0 (txnTrkEncodeDone 520);
                   Ev_fi_inject 0 536 16 1]
    /\ (exists p b, prvData w' = Some p /\ putBitmap p = Some b
                    /\ bitmapTest b 1 = false).
Proof.
  eexists. split; [vm_compute; reflexivity|]. split; [reflexivity|].
  eexists _, _. repeat split.
Qed.

(** Before a proxy Get to node 1 likewise, through
    [waitForPutsVisOneNode]. *)
Example get_forces_pending_put_on_target :
  exists w',
    amRequestCommon G_demo E_demo 4 1 req_get 48 true None w_pending
    = Done tt w'
    /\ List.filter (fun e => is_vis_or_am_xmit e || is_fabric_op e) (trace w')
       = [Ev_waitForPutsVisOneNode 1;
          Ev_fi_read 0 4096 1 1 4096 0 (txnTrkEncodeDone 520);
          Ev_fi_send 0 536 48 1 (txnTrkEncodeDone 520)].
Proof. eexists. split; [vm_compute; reflexivity|]. reflexivity. Qed.

(** A Free goes out at once; the PUT stays pending. *)
Example free_forces_nothing :
  exists w',
    amRequestCommon G_demo E_demo 4 1 req_free 16 false None w_pending
    = Done tt w'
    /\ trace w' = [Ev_fi_inject 0 536 16 1]
    /\ prvData w' = prvData w_pending.
Proof. eexists. split; [vm_compute; reflexivity|]. split; reflexivity. Qed.

(** * More properties *)

(** ** Bitmaps: set, clear, test *)

Lemma bitmapElemIdx_off i : 0 <= i -> i = 64 * bitmapElemIdx i + bitmapOff i.
Proof.
  intros _. unfold bitmapElemIdx, bitmapOff, bitmapElemWidth.
  apply Z.div_mod. lia.
Qed.

Lemma land_pow2_test w k :
  0 <= k -> negb (Z.land w (2 ^ k) =? 0) = Z.testbit w k.
Proof.
  intros Hk. destruct (Z.testbit w k) eqn:Hb.
  - apply negb_true_iff, Z.eqb_neq. intros H.
    assert (Ht : Z.testbit (Z.land w (2 ^ k)) k = true)
      by (rewrite Z.land_spec, Hb, Z.pow2_bits_true by lia; reflexivity).
    rewrite H, Z.bits_0 in Ht. discriminate.
  - apply negb_false_iff, Z.eqb_eq. apply Z.bits_inj'. intros m Hm.
    rewrite Z.land_spec, Z.bits_0, Z.pow2_bits_eqb by lia.
    destruct (Z.eqb_spec k m) as [->|]; [rewrite Hb|rewrite andb_false_r];
      reflexivity.
Qed.

Lemma bitmapTest_testbit b j :
  0 <= j ->
  bitmapTest b j = Z.testbit (bitmapElem b (bitmapElemIdx j)) (bitmapOff j).
Proof.
  intros Hj. unfold bitmapTest. rewrite bitmapElemBit_pow2 by exact Hj.
  apply land_pow2_test. apply (Z.mod_pos_bound j 64). reflexivity.
Qed.

Lemma not64_pow2 k :
  0 <= k < 64 -> not64 (2 ^ k) = Z.ldiff (Z.ones 64) (2 ^ k).
Proof.
  intros Hk. unfold not64, u64.
  rewrite Z.mod_small
    by (split; [apply Z.pow_nonneg; lia|apply Z.pow_lt_mono_r; lia]).
  rewrite <- Z.sub_nocarry_ldiff.
  - rewrite Z.ones_equiv. lia.
  - apply Z.bits_inj'. intros m Hm.
    rewrite Z.ldiff_spec, Z.bits_0, Z.pow2_bits_eqb by lia.
    destruct (Z.eqb_spec k m) as [->|]; [|reflexivity].
    rewrite Z.ones_spec_low by lia. reflexivity.
Qed.

Lemma bitmapElem_insert_eq b k x :
  (Z.to_nat k < length (b_map b))%nat ->
  default 0 (<[Z.to_nat k := x]> (b_map b) !! Z.to_nat k) = x.
Proof. intros H. rewrite list_lookup_insert_eq by exact H. reflexivity. Qed.

Lemma elemIdx_off_inj i j :
  0 <= i -> 0 <= j ->
  bitmapElemIdx i = bitmapElemIdx j -> bitmapOff i = bitmapOff j -> i = j.
Proof.
  intros Hi Hj H1 H2.
  rewrite (bitmapElemIdx_off i Hi), (bitmapElemIdx_off j Hj). lia.
Qed.

Lemma elemIdx_nonneg i : 0 <= i -> 0 <= bitmapElemIdx i.
Proof. intros H. apply Z.div_pos; [exact H|reflexivity]. Qed.

Lemma bitmapOff_range i : 0 <= bitmapOff i < 64.
Proof. apply Z.mod_pos_bound. reflexivity. Qed.

Lemma bitmapTest_bitmapSet_any b i j :
  bitmap_has_room b i -> 0 <= j ->
  bitmapTest (bitmapSet b i) j = (i =? j) || bitmapTest b j.
Proof.
  intros [Hi Hlen] Hj.
  rewrite !bitmapTest_testbit by exact Hj.
  unfold bitmapSet, bitmapElem at 1. cbn [b_map].
  destruct (Z.eq_dec (bitmapElemIdx i) (bitmapElemIdx j)) as [He|He].
  - rewrite <- He, bitmapElem_insert_eq by exact Hlen.
    rewrite bitmapElemBit_pow2 by exact Hi.
    pose proof (bitmapOff_range i) as Ho. pose proof (bitmapOff_range j).
    change (i mod 64) with (bitmapOff i).
    rewrite Z.lor_spec, Z.pow2_bits_eqb by lia.
    rewrite orb_comm. f_equal.
    destruct (Z.eqb_spec i j) as [->|Hne]; [apply Z.eqb_refl|].
    apply Z.eqb_neq. intros Hoff. apply Hne.
    apply elemIdx_off_inj; assumption.
  - rewrite list_lookup_insert_ne.
    + destruct (Z.eqb_spec i j) as [->|]; [congruence|reflexivity].
    + pose proof (elemIdx_nonneg i Hi). pose proof (elemIdx_nonneg j Hj). lia.
Qed.

Lemma bitmapTest_bitmapClear_any b i j :
  bitmap_has_room b i -> 0 <= j ->
  bitmapTest (bitmapClear b i) j = negb (i =? j) && bitmapTest b j.
Proof.
  intros [Hi Hlen] Hj.
  rewrite !bitmapTest_testbit by exact Hj.
  unfold bitmapClear, bitmapElem at 1. cbn [b_map].
  destruct (Z.eq_dec (bitmapElemIdx i) (bitmapElemIdx j)) as [He|He].
  - rewrite <- He, bitmapElem_insert_eq by exact Hlen.
    rewrite bitmapElemBit_pow2 by exact Hi.
    pose proof (bitmapOff_range i) as Ho. pose proof (bitmapOff_range j).
    change (i mod 64) with (bitmapOff i).
    rewrite not64_pow2 by exact Ho.
    rewrite Z.land_spec, Z.ldiff_spec, Z.ones_spec_low,
      Z.pow2_bits_eqb by lia.
    rewrite andb_comm. cbn [andb]. f_equal. f_equal.
    destruct (Z.eqb_spec i j) as [->|Hne]; [apply Z.eqb_refl|].
    apply Z.eqb_neq. intros Hoff. apply Hne.
    apply elemIdx_off_inj; assumption.
  - rewrite list_lookup_insert_ne.
    + destruct (Z.eqb_spec i j) as [->|]; [congruence|reflexivity].
    + pose proof (elemIdx_nonneg i Hi). pose proof (elemIdx_nonneg j Hj). lia.
Qed.

(** X1: after [bitmapSet(b, i)] the test of bit [i] succeeds and the
    test of every other bit gives what it gave before, when the map has a
    word for bit [i]. *)
Theorem bitmapSet_then_Test b i j :
  bitmap_has_room b i -> 0 <= j ->
  bitmapTest (bitmapSet b i) j = (i =? j) || bitmapTest b j.
Proof. apply bitmapTest_bitmapSet_any. Qed.

Lemma bitmapSet_then_Test_witness :
  bitmap_has_room {| b_len := 130; b_map := [5; 0; 1] |} 70
  /\ 0 <= 2
  /\ bitmapTest (bitmapSet {| b_len := 130; b_map := [5; 0; 1] |} 70) 2
     = (70 =? 2) || bitmapTest {| b_len := 130; b_map := [5; 0; 1] |} 2.
Proof.
  assert (H1 : bitmap_has_room {| b_len := 130; b_map := [5; 0; 1] |} 70)
    by (split; [lia|vm_compute; lia]).
  assert (H2 : 0 <= 2) by lia.
  split; [exact H1|]. split; [exact H2|].
  exact (bitmapSet_then_Test _ 70 2 H1 H2).
Defined.

(** X2: after [bitmapClear(b, i)] the test of bit [i] fails and the test
    of every other bit gives what it gave before, when the map has a
    word for bit [i]. *)
Theorem bitmapClear_then_Test b i j :
  bitmap_has_room b i -> 0 <= j ->
  bitmapTest (bitmapClear b i) j = negb (i =? j) && bitmapTest b j.
Proof. apply bitmapTest_bitmapClear_any. Qed.

Lemma bitmapClear_then_Test_witness :
  bitmap_has_room {| b_len := 130; b_map := [5; 0; 1] |} 2
  /\ 0 <= 2
  /\ bitmapTest (bitmapClear {| b_len := 130; b_map := [5; 0; 1] |} 2) 2
     = negb (2 =? 2) && bitmapTest {| b_len := 130; b_map := [5; 0; 1] |} 2.
Proof.
  assert (H1 : bitmap_has_room {| b_len := 130; b_map := [5; 0; 1] |} 2)
    by (split; [lia|vm_compute; lia]).
  assert (H2 : 0 <= 2) by lia.
  split; [exact H1|]. split; [exact H2|].
  exact (bitmapClear_then_Test _ 2 2 H1 H2).
Defined.

(** ** Bitmaps: allocation *)

Lemma bitmapElem_replicate n k : default 0 (replicate n 0 !! k) = 0.
Proof.
  destruct (replicate n 0 !! k) as [x|] eqn:H; [|reflexivity].
  apply lookup_replicate in H. cbn. apply H.
Qed.

Lemma bitmapTest_bitmapAlloc len j : bitmapTest (bitmapAlloc len) j = false.
Proof.
  unfold bitmapTest, bitmapElem, bitmapAlloc. cbn [b_map].
  rewrite bitmapElem_replicate. reflexivity.
Qed.

(** X3: a bitmap from [bitmapAlloc(len)] has every bit clear, and after
    one [bitmapSet] of a bit below [len] it holds that bit and no
    other. *)
Theorem bitmapAlloc_Set_Test len i j :
  0 <= i < len -> 0 <= j ->
  bitmapTest (bitmapAlloc len) j = false
  /\ bitmapTest (bitmapSet (bitmapAlloc len) i) j = (i =? j).
Proof.
  intros Hi Hj. split; [apply bitmapTest_bitmapAlloc|].
  rewrite bitmapTest_bitmapSet_any
    by (try apply bitmapAlloc_has_room; assumption).
  rewrite bitmapTest_bitmapAlloc. apply orb_false_r.
Qed.

Lemma bitmapAlloc_Set_Test_witness :
  0 <= 64 < 65 /\ 0 <= 64
  /\ bitmapTest (bitmapAlloc 65) 64 = false
  /\ bitmapTest (bitmapSet (bitmapAlloc 65) 64) 64 = (64 =? 64).
Proof.
  assert (H1 : 0 <= 64 < 65) by lia.
  assert (H2 : 0 <= 64) by lia.
  split; [exact H1|]. split; [exact H2|].
  exact (bitmapAlloc_Set_Test 65 64 64 H1 H2).
Defined.

(** ** Bitmaps: iteration *)

Lemma bitmapTest_at b ei bi :
  0 <= ei -> 0 <= bi < 64 ->
  bitmapTest b (ei * 64 + bi)
  = negb (Z.land (bitmapElem b ei) (bitmapElemBit bi) =? 0).
Proof.
  intros He Hb. unfold bitmapTest, bitmapElemIdx, bitmapElemBit, bitmapOff,
    bitmapElemWidth.
  rewrite Z.div_add_l, Z.div_small, Z.add_0_r by lia.
  rewrite Z.add_comm, Z.mod_add by lia. reflexivity.
Qed.

Lemma FOREACH_bits_spec b ei n bi :
  0 <= ei -> 0 <= bi -> bi + Z.of_nat n <= 64 ->
  BITMAP_FOREACH_SET_bits b ei n bi
  = List.filter (bitmapTest b)
      (List.map Z.of_nat (seq (Z.to_nat (ei * 64 + bi)) n)).
Proof.
  intros He. revert bi. induction n as [|n IH]; intros bi Hb Hn;
    [reflexivity|].
  cbn [BITMAP_FOREACH_SET_bits seq List.map List.filter].
  rewrite Z2Nat.id by lia.
  rewrite bitmapTest_at by lia.
  rewrite IH by lia.
  replace (Z.to_nat (ei * 64 + (bi + 1))) with (S (Z.to_nat (ei * 64 + bi)))
    by lia.
  unfold bitmapElemWidth.
  destruct (negb (Z.land (bitmapElem b ei) (bitmapElemBit bi) =? 0));
    reflexivity.
Qed.

Lemma FOREACH_bits_zero b ei n bi :
  bitmapElem b ei = 0 -> BITMAP_FOREACH_SET_bits b ei n bi = [].
Proof.
  intros H. revert bi. induction n as [|n IH]; intros bi; [reflexivity|].
  cbn [BITMAP_FOREACH_SET_bits]. rewrite H, IH. reflexivity.
Qed.

Lemma FOREACH_elems_spec b n ei bCnt :
  0 <= ei -> 0 <= bCnt < 2 ^ 64 -> bCnt <= 64 * Z.of_nat n ->
  (64 * (Z.of_nat n - 1) < bCnt \/ (bCnt = 0 /\ (n <= 1)%nat)) ->
  BITMAP_FOREACH_SET_elems b n ei bCnt
  = List.filter (bitmapTest b)
      (List.map Z.of_nat (seq (Z.to_nat (ei * 64)) (Z.to_nat bCnt))).
Proof.
  revert ei bCnt. induction n as [|n IH]; intros ei bCnt He Hb Hle Hlow.
  - replace bCnt with 0 by lia. reflexivity.
  - cbn [BITMAP_FOREACH_SET_elems]. unfold bitmapElemWidth.
    set (m := if 64 <? bCnt then 64 else bCnt).
    assert (Hm : 0 <= m <= 64 /\ m <= bCnt)
      by (unfold m; destruct (Z.ltb_spec 64 bCnt); lia).
    replace (if negb (bitmapElem b ei =? 0)
             then BITMAP_FOREACH_SET_bits b ei (Z.to_nat m) 0 else [])
      with (BITMAP_FOREACH_SET_bits b ei (Z.to_nat m) 0).
    2:{ destruct (Z.eqb_spec (bitmapElem b ei) 0) as [Hz|]; [|reflexivity].
        cbn [negb]. apply FOREACH_bits_zero. exact Hz. }
    rewrite FOREACH_bits_spec by lia. rewrite Z.add_0_r.
    replace (Z.to_nat bCnt) with (Z.to_nat m + Z.to_nat (bCnt - m))%nat
      by lia.
    rewrite seq_app, List.map_app, filter_app_list. f_equal.
    destruct (Z.ltb_spec 64 bCnt) as [Hgt|Hsmall].
    + assert (m = 64) by (unfold m; destruct (Z.ltb_spec 64 bCnt); lia).
      subst m. rewrite IH.
      * unfold u64. rewrite Z.mod_small by lia.
        replace (Z.to_nat ((ei + 1) * 64))
          with (Z.to_nat (ei * 64) + Z.to_nat 64)%nat by lia.
        reflexivity.
      * lia.
      * unfold u64. rewrite Z.mod_small by lia. lia.
      * unfold u64. rewrite Z.mod_small by lia. lia.
      * unfold u64. rewrite Z.mod_small by lia. lia.
    + assert (m = bCnt) by (unfold m; destruct (Z.ltb_spec 64 bCnt); lia).
      subst m. rewrite Z.sub_diag. cbn [Z.to_nat seq List.map List.filter].
      assert (n = O) by lia. subst n. reflexivity.
Qed.

Lemma bitmapNumElems_bounds len :
  0 <= len ->
  1 <= bitmapNumElems len
  /\ len <= 64 * bitmapNumElems len
  /\ (64 * (bitmapNumElems len - 1) < len
      \/ (len = 0 /\ bitmapNumElems len = 1)).
Proof.
  intros Hl. unfold bitmapNumElems, bitmapElemWidth.
  destruct (Z.eq_dec len 0) as [->|Hne];
    [replace (Z.quot (0 - 1) 64 + 1) with 1 by reflexivity; lia|].
  rewrite Z.quot_div_nonneg by lia.
  pose proof (Z.div_mod (len - 1) 64 ltac:(lia)).
  pose proof (Z.mod_pos_bound (len - 1) 64 ltac:(lia)).
  assert (0 <= (len - 1) / 64) by (apply Z.div_pos; lia).
  lia.
Qed.

(** X4: [BITMAP_FOREACH_SET] runs its body for exactly the indices below
    [b->len] whose bit is set, each once, in increasing order. *)
Theorem BITMAP_FOREACH_SET_visits b :
  0 <= b_len b < 2 ^ 63 ->
  BITMAP_FOREACH_SET b
  = List.filter (bitmapTest b)
      (List.map Z.of_nat (seq 0 (Z.to_nat (b_len b)))).
Proof.
  intros Hl. unfold BITMAP_FOREACH_SET.
  destruct (bitmapNumElems_bounds (b_len b)) as (H1 & H2 & H3); [lia|].
  rewrite FOREACH_elems_spec; [reflexivity|lia|lia|lia|lia].
Qed.

Lemma BITMAP_FOREACH_SET_visits_witness :
  0 <= 130 < 2 ^ 63
  /\ BITMAP_FOREACH_SET {| b_len := 130; b_map := [5; 0; 7] |}
     = List.filter (bitmapTest {| b_len := 130; b_map := [5; 0; 7] |})
         (List.map Z.of_nat (seq 0 (Z.to_nat 130))).
Proof.
  assert (H : 0 <= 130 < 2 ^ 63) by lia.
  split; [exact H|].
  exact (BITMAP_FOREACH_SET_visits {| b_len := 130; b_map := [5; 0; 7] |} H).
Defined.

(** There the loop visits bits 0 and 2 of the first word and bits 128
    and 129 of the third; bit 130 is set in the map but is not below
    [len]. *)
Example BITMAP_FOREACH_SET_130 :
  BITMAP_FOREACH_SET {| b_len := 130; b_map := [5; 0; 7] |}
  = [0; 2; 128; 129].
Proof. reflexivity. Qed.

(** ** Memory regions *)

Lemma u64_small x : 0 <= x < 2 ^ 64 -> u64 x = x.
Proof. intros H. unfold u64. apply Z.mod_small. exact H. Qed.

(** Where nothing wraps, the test [getMemEntry] applies to an entry says
    that the region holds the range. *)
Lemma me_covers_test mr addr size :
  range_in_space addr size -> region_in_space mr ->
  (u64 (me_addr mr) <=? u64 addr)
  && (u64 (u64 addr + size) <=? u64 (u64 (me_addr mr) + me_size mr)) = true
  <-> me_covers mr addr size.
Proof.
  unfold me_covers, range_in_space, region_in_space.
  intros (Ha & Hs & He) (Hb & Hz & Hf).
  rewrite (u64_small addr), (u64_small (me_addr mr)) by lia.
  rewrite (u64_small (addr + size)),
    (u64_small (me_addr mr + me_size mr)) by lia.
  rewrite andb_true_iff, !Z.leb_le. reflexivity.
Qed.

Lemma getMemEntry_first tab addr size :
  range_in_space addr size -> Forall region_in_space tab ->
  first_covering tab addr size (getMemEntry tab addr size).
Proof.
  intros Hr Htab.
  induction tab as [|mr tab IH]; cbn [getMemEntry]; [apply List.Forall_nil|].
  apply List.Forall_cons_iff in Htab. destruct Htab as [Hmr Htab].
  specialize (IH Htab). cbv zeta.
  destruct ((u64 (me_addr mr) <=? u64 addr)
            && (u64 (u64 addr + size)
                <=? u64 (u64 (me_addr mr) + me_size mr))) eqn:Ht.
  - exists [], tab. split; [reflexivity|]. split; [|apply List.Forall_nil].
    apply (me_covers_test mr addr size Hr Hmr). exact Ht.
  - assert (Hn : ~ me_covers mr addr size)
      by (intros H; apply (me_covers_test mr addr size Hr Hmr) in H;
          congruence).
    destruct (getMemEntry tab addr size) as [mr'|]; cbn in *.
    + destruct IH as (pre & post & -> & Hc & Hpre).
      exists (mr :: pre), post. split; [reflexivity|]. split; [exact Hc|].
      apply List.Forall_cons; assumption.
    + apply List.Forall_cons; assumption.
Qed.

Lemma tab_two_in_space : Forall region_in_space tab_two.
Proof.
  repeat apply List.Forall_cons; try apply List.Forall_nil;
    unfold region_in_space, range_in_space; cbn; lia.
Qed.

(** X5: [getMemEntry], for a range and a table of regions none of which
    runs past the end of the 64-bit address space.  It returns the first
    entry of the table whose region holds the whole range
    [[addr, addr + size)], and [NULL] exactly when no entry does; a
    range that only overlaps a region is not found. *)
Theorem getMemEntry_first_covering tab addr size :
  range_in_space addr size ->
  Forall region_in_space tab ->
  first_covering tab addr size (getMemEntry tab addr size)
  /\ (getMemEntry tab addr size = None
      <-> forall mr, In mr tab -> ~ me_covers mr addr size).
Proof.
  intros Hr Htab.
  pose proof (getMemEntry_first tab addr size Hr Htab) as H.
  split; [exact H|].
  destruct (getMemEntry tab addr size) as [mr|]; cbn in H.
  - split; [discriminate|]. intros Hall.
    destruct H as (pre & post & -> & Hc & _).
    exfalso. apply (Hall mr); [|exact Hc].
    apply in_or_app. right. left. reflexivity.
  - split; [|reflexivity]. intros _ mr Hin.
    rewrite List.Forall_forall in H. apply H. exact Hin.
Qed.

Lemma getMemEntry_first_covering_witness :
  range_in_space 8200 16
  /\ Forall region_in_space tab_two
  /\ first_covering tab_two 8200 16 (getMemEntry tab_two 8200 16)
  /\ (getMemEntry tab_two 8200 16 = None
      <-> forall mr, In mr tab_two -> ~ me_covers mr 8200 16).
Proof.
  assert (H1 : range_in_space 8200 16)
    by (unfold range_in_space; lia).
  split; [exact H1|]. split; [exact tab_two_in_space|].
  exact (getMemEntry_first_covering tab_two 8200 16 H1 tab_two_in_space).
Defined.

(** The range lies in the second region. *)
Example getMemEntry_second :
  getMemEntry tab_two 8200 16
  = Some {| me_addr := 8192; me_base := 8192; me_size := 4096;
            me_desc := 2; me_key := 9 |}.
Proof. reflexivity. Qed.

(** A range that straddles the end of the first region. *)
Example getMemEntry_straddle :
  getMemEntry tab_two 4190 10 = None.
Proof. reflexivity. Qed.

(** A range whose end wraps around the address space is judged by the
    wrapped end: [8200 + (2 ^ 64 - 100)] is [8100] modulo [2 ^ 64]. *)
Example getMemEntry_wrapped :
  getMemEntry tab_two 8200 (2 ^ 64 - 100)
  = Some {| me_addr := 8192; me_base := 8192; me_size := 4096;
            me_desc := 2; me_key := 9 |}.
Proof. reflexivity. Qed.

(** X6: [mrGetKey].  With scalable registration it succeeds for every
    address, with key [0] and the address itself as offset.  Otherwise,
    for a range and a table of regions that do not run past the end of
    the address space, it succeeds exactly when a region in the target
    node's table holds the whole range, and then returns that region's
    key and the offset of [addr] from the region's [base], as a
    [uint64_t]. *)
Theorem mrGetKey_result G iNode addr size :
  range_in_space addr size ->
  Forall region_in_space (memTabMap G iNode) ->
  (scalableMemReg G = true ->
   mrGetKey G iNode addr size = Some (0, u64 addr))
  /\ (scalableMemReg G = false ->
      match mrGetKey G iNode addr size with
      | Some (key, off) =>
          exists mr,
            In mr (memTabMap G iNode) /\ me_covers mr addr size
            /\ key = me_key mr
            /\ u64 (off + me_base mr) = u64 addr
      | None =>
          forall mr, In mr (memTabMap G iNode) -> ~ me_covers mr addr size
      end).
Proof.
  intros Hr Htab.
  unfold mrGetKey. split; intros ->; [reflexivity|].
  pose proof (getMemEntry_first (memTabMap G iNode) addr size Hr Htab) as H.
  destruct (getMemEntry (memTabMap G iNode) addr size) as [mr|]; cbn in H.
  - destruct H as (pre & post & Hpp & Hc & _).
    exists mr. split; [rewrite Hpp; apply in_or_app; right; left; reflexivity|].
    split; [exact Hc|]. split; [reflexivity|].
    unfold u64. rewrite Zplus_mod_idemp_l.
    replace (addr mod 2 ^ 64 - me_base mr + me_base mr)
      with (addr mod 2 ^ 64) by lia.
    apply Z.mod_mod. lia.
  - intros mr Hin. rewrite List.Forall_forall in H. apply H. exact Hin.
Qed.

Lemma mrGetKey_result_witness :
  range_in_space 8200 16
  /\ Forall region_in_space (memTabMap G_two 1)
  /\ (scalableMemReg G_two = true ->
      mrGetKey G_two 1 8200 16 = Some (0, u64 8200))
  /\ (scalableMemReg G_two = false ->
      match mrGetKey G_two 1 8200 16 with
      | Some (key, off) =>
          exists mr,
            In mr (memTabMap G_two 1) /\ me_covers mr 8200 16
            /\ key = me_key mr
            /\ u64 (off + me_base mr) = u64 8200
      | None =>
          forall mr, In mr (memTabMap G_two 1) -> ~ me_covers mr 8200 16
      end).
Proof.
  assert (H1 : range_in_space 8200 16)
    by (unfold range_in_space; lia).
  assert (H2 : Forall region_in_space (memTabMap G_two 1))
    by exact tab_two_in_space.
  split; [exact H1|]. split; [exact H2|].
  exact (mrGetKey_result G_two 1 8200 16 H1 H2).
Defined.

(** The key of the second region and the offset into it. *)
Example mrGetKey_two :
  mrGetKey G_two 1 8200 16 = Some (9, 8).
Proof. reflexivity. Qed.

(** ** Transmit completions *)

Lemma txnTrkDecode_typ_bit ctx :
  txnTrkDecode_typ ctx = 0 \/ txnTrkDecode_typ ctx = 1.
Proof.
  unfold txnTrkDecode_typ. rewrite TXNTRK_TYPE_MASK_ones.
  rewrite Z.land_ones by lia.
  pose proof (Z.mod_pos_bound (Z.shiftr (u64 ctx) TXNTRK_ADDR_BITS) (2 ^ 1)
                ltac:(lia)).
  change (2 ^ 1) with 2 in *. lia.
Qed.

Lemma txnTrkDecode_Encode t p :
  0 <= p < 2 ^ 63 ->
  txnTrkDecode_typ (txnTrkEncode t p) = txnTrkType_val t
  /\ ptr (txnTrkDecode (txnTrkEncode t p)) = p.
Proof.
  intros Hp.
  assert (Hv : 0 <= txnTrkType_val t <= 1) by (destruct t; simpl; lia).
  assert (Hu : u64 (txnTrkType_val t * 2 ^ 63 + p)
               = txnTrkType_val t * 2 ^ 63 + p)
    by (unfold u64; apply Z.mod_small; lia).
  rewrite txnTrkEncode_sum by exact Hp.
  unfold txnTrkDecode_typ, txnTrkDecode. cbn [ptr].
  rewrite Hu, TXNTRK_ADDR_MASK_ones, TXNTRK_TYPE_MASK_ones.
  rewrite !Z.land_ones by lia.
  change TXNTRK_ADDR_BITS with 63. rewrite Z.shiftr_div_pow2 by lia.
  rewrite hi_lo_div, hi_lo_mod by exact Hp.
  split; [|reflexivity]. apply Z.mod_small. change (2 ^ 1) with 2. lia.
Qed.

Lemma checkTxCmplsCQ_loop_total cqes :
  exists stores, checkTxCmplsCQ_loop cqes = Some stores.
Proof.
  induction cqes as [|c cqes [stores IH]]; [exists []; reflexivity|].
  cbn [checkTxCmplsCQ_loop]. rewrite IH. cbn [txnTrkType_val].
  destruct (txnTrkDecode_typ_bit c) as [-> | ->]; cbn; eauto.
Qed.

Lemma checkTxCmplsCQ_loop_tagged tagged :
  Forall (fun tp => 0 <= snd tp < 2 ^ 63) tagged ->
  checkTxCmplsCQ_loop
    (List.map (fun tp => txnTrkEncode (fst tp) (snd tp)) tagged)
  = Some (done_ptrs tagged).
Proof.
  induction 1 as [|[t p] tagged Hp _ IH]; [reflexivity|].
  cbn [List.map checkTxCmplsCQ_loop fst snd]. cbn [snd] in Hp.
  destruct (txnTrkDecode_Encode t p Hp) as [-> ->]. rewrite IH.
  destruct t; reflexivity.
Qed.

(** X7: [checkTxCmplsCQ] never reaches its "unexpected trk.typ" error,
    whatever contexts the completion queue hands back; it takes the
    number of entries off [numTxnsOut]; and for contexts made by
    [txnTrkEncodeDone] and [txnTrkEncodeId] from values below [2^63] it
    stores to exactly the done flags, in the order of the entries, and to
    nothing for the ids. *)
Theorem checkTxCmplsCQ_flags numTxnsOut :
  (forall cqes, exists stores,
      checkTxCmplsCQ numTxnsOut cqes
      = Some (u64 (numTxnsOut - Z.of_nat (length cqes)), stores))
  /\ (forall tagged,
         Forall (fun tp => 0 <= snd tp < 2 ^ 63) tagged ->
         checkTxCmplsCQ numTxnsOut
           (List.map (fun tp => txnTrkEncode (fst tp) (snd tp)) tagged)
         = Some (u64 (numTxnsOut - Z.of_nat (length tagged)),
                 done_ptrs tagged)).
Proof.
  split.
  - intros cqes. destruct (checkTxCmplsCQ_loop_total cqes) as [stores H].
    exists stores. unfold checkTxCmplsCQ. rewrite H. reflexivity.
  - intros tagged H. unfold checkTxCmplsCQ.
    rewrite checkTxCmplsCQ_loop_tagged by exact H.
    rewrite length_map. reflexivity.
Qed.

(** Two completions: a wait on the flag at 520 and an id. *)
Example checkTxCmplsCQ_two :
  checkTxCmplsCQ 2 [txnTrkEncodeDone 520; txnTrkEncodeId 4527]
  = Some (0, [520]).
Proof. reflexivity. Qed.

(** ** The barrier tree *)

Lemma quot_rem_64 a :
  0 <= a -> Z.quot a 64 = a / 64 /\ Z.rem a 64 = a mod 64.
Proof.
  intros H. split; [apply Z.quot_div_nonneg|apply Z.rem_mod_nonneg]; lia.
Qed.

(** X8: the barrier trees the nodes compute agree, from the child's
    side.  Every node [c] other than node [0] has a parent [p] with a
    smaller number; in [p]'s own tree [c] is one of the children [p]
    waits for and releases; and the slot of [child_notify] that [c] sets
    in [p] is the one [p] reads for that child. *)
Theorem bar_parent_has_child c numNodes :
  0 < c < numNodes ->
  let p := bar_parent (init_bar c numNodes) in
  let t := init_bar p numNodes in
  0 <= p < c
  /\ 0 <= bar_parChild c < bar_numChildren t
  /\ bar_child t (bar_parChild c) = c.
Proof.
  intros Hc. cbn zeta. unfold init_bar, bar_parChild, bar_child,
    BAR_TREE_NUM_CHILDREN. cbn [bar_parent bar_childFirst bar_numChildren].
  destruct (quot_rem_64 (c - 1) ltac:(lia)) as [-> ->].
  pose proof (Z.div_mod (c - 1) 64 ltac:(lia)) as Hd.
  pose proof (Z.mod_pos_bound (c - 1) 64 ltac:(lia)) as Hm.
  assert (0 <= (c - 1) / 64) by (apply Z.div_pos; lia).
  repeat split; try lia.
  destruct (Z.leb_spec numNodes (64 * ((c - 1) / 64) + 1)); [lia|].
  destruct (Z.leb_spec numNodes (64 * ((c - 1) / 64) + 1 + 64)); lia.
Qed.

Lemma bar_parent_has_child_witness :
  0 < 130 < 200
  /\ let p := bar_parent (init_bar 130 200) in
     let t := init_bar p 200 in
     0 <= p < 130
     /\ 0 <= bar_parChild 130 < bar_numChildren t
     /\ bar_child t (bar_parChild 130) = 130.
Proof.
  assert (H : 0 < 130 < 200) by lia.
  split; [exact H|]. exact (bar_parent_has_child 130 200 H).
Defined.

(** X9: the same from the parent's side, where the [int32_t]
    arithmetic of [init_bar] does not overflow on the parent: the job
    has fewer than [2 ^ 31] nodes and [64 * p + 65] is below [2 ^ 31].
    Every child a node [p] counts is a node of the job, other than node
    [0] and [p] itself, which has [p] as its parent and sets the slot
    [p] reads for it. *)
Theorem bar_child_has_parent p numNodes i :
  0 <= p < numNodes ->
  numNodes < 2 ^ 31 ->
  BAR_TREE_NUM_CHILDREN * p + 1 + BAR_TREE_NUM_CHILDREN < 2 ^ 31 ->
  0 <= i < bar_numChildren (init_bar p numNodes) ->
  let c := bar_child (init_bar p numNodes) i in
  p < c < numNodes
  /\ bar_parent (init_bar c numNodes) = p
  /\ bar_parChild c = i.
Proof.
  intros Hp _ _ Hi. cbn zeta. revert Hi.
  unfold init_bar, bar_parChild, bar_child, BAR_TREE_NUM_CHILDREN.
  cbn [bar_parent bar_childFirst bar_numChildren]. intros Hi.
  assert (Hi64 : 0 <= i < 64 /\ 64 * p + 1 + i < numNodes).
  { destruct (Z.leb_spec numNodes (64 * p + 1)); [lia|].
    destruct (Z.leb_spec numNodes (64 * p + 1 + 64)); lia. }
  destruct (quot_rem_64 (64 * p + 1 + i - 1) ltac:(lia)) as [-> ->].
  replace (64 * p + 1 + i - 1) with (p * 64 + i) by lia.
  assert (Hq : (p * 64 + i) / 64 = p)
    by (rewrite Z.div_add_l, Z.div_small; lia).
  assert (Hr : (p * 64 + i) mod 64 = i)
    by (rewrite Z.add_comm, Z.mod_add, Z.mod_small; lia).
  rewrite Hq, Hr. lia.
Qed.

Lemma bar_child_has_parent_witness :
  0 <= 2 < 200
  /\ 200 < 2 ^ 31
  /\ BAR_TREE_NUM_CHILDREN * 2 + 1 + BAR_TREE_NUM_CHILDREN < 2 ^ 31
  /\ 0 <= 1 < bar_numChildren (init_bar 2 200)
  /\ let c := bar_child (init_bar 2 200) 1 in
     2 < c < 200
     /\ bar_parent (init_bar c 200) = 2
     /\ bar_parChild c = 1.
Proof.
  assert (H1 : 0 <= 2 < 200) by lia.
  assert (H2 : 200 < 2 ^ 31) by lia.
  assert (H3 : BAR_TREE_NUM_CHILDREN * 2 + 1 + BAR_TREE_NUM_CHILDREN
               < 2 ^ 31) by (vm_compute; reflexivity).
  assert (H4 : 0 <= 1 < bar_numChildren (init_bar 2 200))
    by (vm_compute; split; [discriminate|reflexivity]).
  split; [exact H1|]. split; [exact H2|]. split; [exact H3|].
  split; [exact H4|].
  exact (bar_child_has_parent 2 200 1 H1 H2 H3 H4).
Defined.

(** Node 2 of 200 has the 64 children 129..192; node 3 has the 7
    children 193..199; node 4 has none. *)
Example init_bar_200 :
  init_bar 2 200 = {| bar_childFirst := 129; bar_numChildren := 64;
                      bar_parent := 0 |}
  /\ init_bar 3 200 = {| bar_childFirst := 193; bar_numChildren := 7;
                         bar_parent := 0 |}
  /\ bar_numChildren (init_bar 4 200) = 0.
Proof. repeat split. Qed.

(** ** Numbers of contexts *)

Lemma int_of_small x : - 2 ^ 31 <= x < 2 ^ 31 -> int_of x = x.
Proof. intros H. unfold int_of. rewrite Z.mod_small; lia. Qed.

(** A [size_t] that is positive as an [int] is at least that [int]. *)
Lemma int_of_pos_le y : 0 <= y -> 0 < int_of y -> 0 < int_of y <= y
                                  /\ int_of y < 2 ^ 31.
Proof.
  unfold int_of. intros Hy Hp.
  pose proof (Z.div_mod (y + 2 ^ 31) (2 ^ 32) ltac:(lia)) as Hd.
  pose proof (Z.mod_pos_bound (y + 2 ^ 31) (2 ^ 32) ltac:(lia)) as Hm.
  assert (0 <= (y + 2 ^ 31) / 2 ^ 32) by (apply Z.div_pos; lia).
  lia.
Qed.

(** X10: [init_ofiEpNumCtxs], for inputs that are values of their C
    types with thread counts below [2 ^ 31 - 2].  When it returns there
    is one AM handler and one receive context; the transmit contexts do
    not exceed the provider's limit; the worker contexts do not exceed a
    positive [COMM_CONCURRENCY]; with a fixed number of threads there is
    at least one worker context and at most one more than threads, and
    [tciTabFixedAssignments] is set exactly when there is one more than
    threads; without, the worker contexts do not exceed the tasking
    layer's parallelism, and there is at least one if that parallelism is
    at least one. *)
Theorem init_ofiEpNumCtxs_bounds i o :
  numCtxs_in_range i ->
  init_ofiEpNumCtxs i = Some o -> numCtxs_ok i o.
Proof.
  intros (Rt & Re & Rr & Rc & Rf & Rp).
  unfold init_ofiEpNumCtxs, numCtxs_ok, provider_tx_limit.
  destruct (Z.eqb_spec (in_numAmHandlers i) 1) as [Ham|]; [|discriminate].
  cbn [negb]. rewrite Ham.
  change (u64 1) with 1.
  set (lim := if in_useScalableTxEp i then in_max_ep_tx_ctx i
              else in_ep_cnt i).
  assert (Rl : 0 <= lim < 2 ^ 64)
    by (unfold lim; destruct (in_useScalableTxEp i); assumption).
  replace (if in_useScalableTxEp i
           then int_of (u64 (in_max_ep_tx_ctx i - 1))
           else int_of (u64 (in_ep_cnt i - 1)))
    with (int_of (u64 (lim - 1)))
    by (unfold lim; destruct (in_useScalableTxEp i); reflexivity).
  set (mw0 := int_of (u64 (lim - 1))).
  destruct (Z.ltb_spec 0 mw0) as [Hmw0|]; [|discriminate]. cbn [negb].
  assert (Hlim : 0 < mw0 <= lim - 1 /\ mw0 < 2 ^ 31).
  { destruct (Z.eq_dec lim 0) as [Hz|Hz].
    - exfalso. unfold mw0 in Hmw0. rewrite Hz in Hmw0.
      vm_compute in Hmw0. discriminate.
    - assert (Hu : u64 (lim - 1) = lim - 1)
        by (unfold u64; apply Z.mod_small; lia).
      unfold mw0 in *. rewrite Hu in *.
      apply int_of_pos_le; [lia|exact Hmw0]. }
  set (mw1 := if 0 <? in_commConcurrency i
              then if in_commConcurrency i <? mw0 then in_commConcurrency i
                   else mw0
              else mw0).
  assert (Hmw1 : 1 <= mw1 <= mw0
                 /\ (0 < in_commConcurrency i -> mw1 <= in_commConcurrency i)).
  { unfold mw1. destruct (Z.ltb_spec 0 (in_commConcurrency i));
      [destruct (Z.ltb_spec (in_commConcurrency i) mw0)|]; lia. }
  destruct (Z.ltb_spec 0 (in_fixedNumThreads i)) as [Hfix|Hfix].
  - destruct (Z.eqb_spec (in_fixedNumThreads i) (in_taskMaxPar i));
      [|discriminate]. cbn [negb].
    destruct (Z.leb_spec 1 (in_max_ep_rx_ctx i)); [|discriminate].
    cbn [negb]. intros [= <-].
    cbn [out_numTxCtxs out_numRxCtxs out_tciTabFixedAssignments].
    rewrite (int_of_small (in_fixedNumThreads i + 1)) by lia.
    destruct (Z.ltb_spec (in_fixedNumThreads i + 1) mw1);
      [rewrite Z.eqb_refl|]; rewrite int_of_small by lia;
      repeat split; intros; try lia; try (apply Z.eqb_eq; lia);
      try match goal with
          | H : (_ =? _) = true |- _ => apply Z.eqb_eq in H; lia
          end.
  - destruct (Z.leb_spec 1 (in_max_ep_rx_ctx i)); [|discriminate].
    cbn [negb]. intros [= <-].
    cbn [out_numTxCtxs out_numRxCtxs out_tciTabFixedAssignments].
    destruct (Z.ltb_spec (in_taskMaxPar i) mw1);
      rewrite int_of_small by lia;
      repeat split; intros; try lia; try discriminate.
Qed.

Lemma init_ofiEpNumCtxs_bounds_witness :
  numCtxs_in_range
    {| in_numAmHandlers := 1; in_useScalableTxEp := true;
       in_max_ep_tx_ctx := 64; in_ep_cnt := 1; in_max_ep_rx_ctx := 8;
       in_commConcurrency := 0; in_fixedNumThreads := 16;
       in_taskMaxPar := 16 |}
  /\ init_ofiEpNumCtxs
       {| in_numAmHandlers := 1; in_useScalableTxEp := true;
          in_max_ep_tx_ctx := 64; in_ep_cnt := 1; in_max_ep_rx_ctx := 8;
          in_commConcurrency := 0; in_fixedNumThreads := 16;
          in_taskMaxPar := 16 |}
     = Some {| out_numTxCtxs := 18; out_numRxCtxs := 1;
               out_tciTabFixedAssignments := true;
               out_tx_ctx_cnt := Some 18 |}
  /\ numCtxs_ok
       {| in_numAmHandlers := 1; in_useScalableTxEp := true;
          in_max_ep_tx_ctx := 64; in_ep_cnt := 1; in_max_ep_rx_ctx := 8;
          in_commConcurrency := 0; in_fixedNumThreads := 16;
          in_taskMaxPar := 16 |}
       {| out_numTxCtxs := 18; out_numRxCtxs := 1;
          out_tciTabFixedAssignments := true;
          out_tx_ctx_cnt := Some 18 |}.
Proof.
  assert (R : numCtxs_in_range
                {| in_numAmHandlers := 1; in_useScalableTxEp := true;
                   in_max_ep_tx_ctx := 64; in_ep_cnt := 1;
                   in_max_ep_rx_ctx := 8; in_commConcurrency := 0;
                   in_fixedNumThreads := 16; in_taskMaxPar := 16 |})
    by (unfold numCtxs_in_range; cbn; lia).
  assert (H : init_ofiEpNumCtxs
                {| in_numAmHandlers := 1; in_useScalableTxEp := true;
                   in_max_ep_tx_ctx := 64; in_ep_cnt := 1;
                   in_max_ep_rx_ctx := 8; in_commConcurrency := 0;
                   in_fixedNumThreads := 16; in_taskMaxPar := 16 |}
              = Some {| out_numTxCtxs := 18; out_numRxCtxs := 1;
                        out_tciTabFixedAssignments := true;
                        out_tx_ctx_cnt := Some 18 |})
    by reflexivity.
  split; [exact R|]. split; [exact H|].
  exact (init_ofiEpNumCtxs_bounds _ _ R H).
Defined.

(** With 4 threads but only 3 contexts to be had, the threads share:
    no fixed assignments. *)
Example init_ofiEpNumCtxs_short :
  init_ofiEpNumCtxs
    {| in_numAmHandlers := 1; in_useScalableTxEp := false;
       in_max_ep_tx_ctx := 1; in_ep_cnt := 4; in_max_ep_rx_ctx := 1;
       in_commConcurrency := 0; in_fixedNumThreads := 4;
       in_taskMaxPar := 4 |}
  = Some {| out_numTxCtxs := 4; out_numRxCtxs := 1;
            out_tciTabFixedAssignments := false;
            out_tx_ctx_cnt := None |}.
Proof. reflexivity. Qed.

(** A provider limit of [2 ^ 32 + 6] endpoints leaves [5] in the [int]
    [maxWorkerTxCtxs]: six transmit contexts for sixteen threads. *)
Example init_ofiEpNumCtxs_truncated :
  init_ofiEpNumCtxs
    {| in_numAmHandlers := 1; in_useScalableTxEp := false;
       in_max_ep_tx_ctx := 1; in_ep_cnt := 2 ^ 32 + 6;
       in_max_ep_rx_ctx := 1;
       in_commConcurrency := 0; in_fixedNumThreads := 16;
       in_taskMaxPar := 16 |}
  = Some {| out_numTxCtxs := 6; out_numRxCtxs := 1;
            out_tciTabFixedAssignments := false;
            out_tx_ctx_cnt := None |}.
Proof. reflexivity. Qed.

(** A limit of [2 ^ 31 + 1] makes [maxWorkerTxCtxs] negative, and the
    check that follows fails. *)
Example init_ofiEpNumCtxs_negative :
  init_ofiEpNumCtxs
    {| in_numAmHandlers := 1; in_useScalableTxEp := false;
       in_max_ep_tx_ctx := 1; in_ep_cnt := 2 ^ 31 + 1;
       in_max_ep_rx_ctx := 1;
       in_commConcurrency := 0; in_fixedNumThreads := 16;
       in_taskMaxPar := 16 |}
  = None.
Proof. reflexivity. Qed.

(** ** AMOs on the CPU: the data *)

Lemma pow2_32 : 2 ^ 32 = 4294967296.
Proof. reflexivity. Qed.

Lemma pow2_64 : 2 ^ 64 = 18446744073709551616.
Proof. reflexivity. Qed.

Lemma pow2_31 : 2 ^ 31 = 2147483648.
Proof. reflexivity. Qed.

Lemma pow2_63 : 2 ^ 63 = 9223372036854775808.
Proof. reflexivity. Qed.

(** Unfolds the data model down to [mod] by numerals. *)
Ltac amo_arith :=
  cbv [fits low sint NEGATE_I32 NEGATE_I64 NEGATE_U negate_operand
       bits_Type sizeof_Type] in *;
  change (8 * 4) with 32 in *; change (8 * 8) with 64 in *;
  change (32 - 1) with 31 in *; change (64 - 1) with 63 in *;
  rewrite ?pow2_32, ?pow2_64, ?pow2_31, ?pow2_63 in *.

Lemma bits_Type_int ty :
  is_int_datatype ty = true ->
  (bits_Type ty = 32 /\ sizeof_Type ty = 4)
  \/ (bits_Type ty = 64 /\ sizeof_Type ty = 8).
Proof. destruct ty; cbn; intros H; try discriminate; auto. Qed.

Lemma negate_operand_low R ty operand :
  is_int_datatype ty = true -> fits (bits_Type ty) operand ->
  low (bits_Type ty) (negate_operand R ty operand)
  = low (bits_Type ty) (- operand).
Proof.
  destruct ty; cbn [is_int_datatype]; intros Hty Hf; try discriminate;
    amo_arith.
  - destruct (Z.ltb_spec (operand mod 4294967296) 2147483648);
      match goal with
      | |- context [?x =? ?y] => destruct (Z.eqb_spec x y)
      end; Z.div_mod_to_equations; lia.
  - Z.div_mod_to_equations; lia.
  - destruct (Z.ltb_spec (operand mod 18446744073709551616)
                         9223372036854775808);
      match goal with
      | |- context [?x =? ?y] => destruct (Z.eqb_spec x y)
      end; Z.div_mod_to_equations; lia.
  - Z.div_mod_to_equations; lia.
Qed.

Lemma fetch_SUM_int R ty obj opnd result :
  is_int_datatype ty = true ->
  doCpuAMO_data R obj opnd 0 result FI_SUM ty (sizeof_Type ty)
  = Some (low (bits_Type ty) (obj + opnd),
          if result then Some (low (bits_Type ty) obj) else None).
Proof.
  destruct ty; cbn [is_int_datatype]; intros Hty; try discriminate;
    cbn; unfold CPU_INT_ARITH_AMO; do 2 f_equal;
    unfold low; apply eq_sym, Zplus_mod.
Qed.

Lemma low_fits n v : fits n v -> low n v = v.
Proof. intros H. apply Z.mod_small. exact H. Qed.

(** X11: [chpl_comm_atomic_fetch_sub] on an integer type subtracts
    modulo [2^n], for every operand including the most negative one,
    and hands back the old value; negating the operand does not overflow
    the signed type. *)
Theorem chpl_comm_atomic_fetch_sub_int R ty operand obj :
  is_int_datatype ty = true ->
  fits (bits_Type ty) operand -> fits (bits_Type ty) obj ->
  chpl_comm_atomic_fetch_sub R ty operand obj
  = Some (low (bits_Type ty) (obj - operand), obj)
  /\ - 2 ^ 31 <= NEGATE_I32 (sint 32 operand) < 2 ^ 31
  /\ - 2 ^ 63 <= NEGATE_I64 (sint 64 operand) < 2 ^ 63.
Proof.
  intros Hty Hop Hobj. split.
  - unfold chpl_comm_atomic_fetch_sub.
    rewrite fetch_SUM_int by exact Hty.
    rewrite (low_fits _ obj Hobj). f_equal. f_equal.
    unfold low. rewrite Zplus_mod.
    fold (low (bits_Type ty) (negate_operand R ty operand)).
    rewrite negate_operand_low by assumption.
    unfold low. rewrite <- Zplus_mod. f_equal.
  - amo_arith. split.
    + destruct (Z.ltb_spec (operand mod 4294967296) 2147483648);
        match goal with
        | |- context [?x =? ?y] => destruct (Z.eqb_spec x y)
        end; Z.div_mod_to_equations; lia.
    + destruct (Z.ltb_spec (operand mod 18446744073709551616)
                           9223372036854775808);
        match goal with
        | |- context [?x =? ?y] => destruct (Z.eqb_spec x y)
        end; Z.div_mod_to_equations; lia.
Qed.

Lemma chpl_comm_atomic_fetch_sub_int_witness :
  is_int_datatype FI_INT32 = true
  /\ fits (bits_Type FI_INT32) (2 ^ 31)
  /\ fits (bits_Type FI_INT32) 5
  /\ chpl_comm_atomic_fetch_sub R_none FI_INT32 (2 ^ 31) 5
     = Some (low (bits_Type FI_INT32) (5 - 2 ^ 31), 5).
Proof.
  assert (H1 : is_int_datatype FI_INT32 = true) by reflexivity.
  assert (H2 : fits (bits_Type FI_INT32) (2 ^ 31))
    by (vm_compute; split; [discriminate|reflexivity]).
  assert (H3 : fits (bits_Type FI_INT32) 5)
    by (vm_compute; split; [discriminate|reflexivity]).
  split; [exact H1|]. split; [exact H2|]. split; [exact H3|].
  exact (proj1 (chpl_comm_atomic_fetch_sub_int R_none FI_INT32 (2 ^ 31) 5
                  H1 H2 H3)).
Defined.

(** Subtracting [INT32_MIN] from 5: the operand is its own negation,
    and the object wraps to [5 + 2^31]. *)
Example fetch_sub_INT32_MIN :
  chpl_comm_atomic_fetch_sub R_none FI_INT32 (2 ^ 31) 5
  = Some (5 + 2 ^ 31, 5).
Proof. reflexivity. Qed.

(** X12: adding an operand and then subtracting the same operand, or
    the other way round, leaves an object of an integer type as it was,
    overflow or not. *)
Theorem chpl_comm_atomic_add_sub_roundtrip R ty operand obj :
  is_int_datatype ty = true ->
  fits (bits_Type ty) operand -> fits (bits_Type ty) obj ->
  (exists obj1,
      chpl_comm_atomic_add R ty operand obj = Some obj1
      /\ chpl_comm_atomic_sub R ty operand obj1 = Some obj)
  /\ (exists obj1,
         chpl_comm_atomic_sub R ty operand obj = Some obj1
         /\ chpl_comm_atomic_add R ty operand obj1 = Some obj).
Proof.
  intros Hty Hop Hobj.
  assert (Hneg := negate_operand_low R ty operand Hty Hop).
  unfold chpl_comm_atomic_add, chpl_comm_atomic_sub.
  rewrite !fetch_SUM_int by exact Hty.
  split; eexists; (split; [reflexivity|]);
    rewrite fetch_SUM_int by exact Hty; f_equal.
  - unfold low in *. rewrite Zplus_mod, Z.mod_mod, Hneg, <- Zplus_mod.
    + replace (obj + operand + - operand) with obj by lia.
      apply Z.mod_small. exact Hobj.
    + destruct (bits_Type_int ty Hty) as [[-> _]|[-> _]]; discriminate.
  - unfold low in *. rewrite Zplus_mod_idemp_l.
    replace (obj + negate_operand R ty operand + operand)
      with (obj + operand + negate_operand R ty operand) by lia.
    rewrite Zplus_mod, Hneg, <- Zplus_mod.
    replace (obj + operand + - operand) with obj by lia.
    apply Z.mod_small. exact Hobj.
Qed.

Lemma chpl_comm_atomic_add_sub_roundtrip_witness :
  is_int_datatype FI_UINT64 = true
  /\ fits (bits_Type FI_UINT64) (2 ^ 64 - 1)
  /\ fits (bits_Type FI_UINT64) 7
  /\ exists obj1,
      chpl_comm_atomic_add R_none FI_UINT64 (2 ^ 64 - 1) 7 = Some obj1
      /\ chpl_comm_atomic_sub R_none FI_UINT64 (2 ^ 64 - 1) obj1 = Some 7.
Proof.
  assert (H1 : is_int_datatype FI_UINT64 = true) by reflexivity.
  assert (H2 : fits (bits_Type FI_UINT64) (2 ^ 64 - 1))
    by (vm_compute; split; [discriminate|reflexivity]).
  assert (H3 : fits (bits_Type FI_UINT64) 7)
    by (vm_compute; split; [discriminate|reflexivity]).
  split; [exact H1|]. split; [exact H2|]. split; [exact H3|].
  exact (proj1 (chpl_comm_atomic_add_sub_roundtrip R_none FI_UINT64
                  (2 ^ 64 - 1) 7 H1 H2 H3)).
Defined.

(** X13: [chpl_comm_atomic_cmpxchg] on an integer type.  The object
    becomes [desired] exactly when it held [*expected], [*result] says
    whether it did, and [*expected] holds the object's old value
    afterwards either way. *)
Theorem chpl_comm_atomic_cmpxchg_int R ty expected desired obj :
  is_int_datatype ty = true ->
  fits (bits_Type ty) expected -> fits (bits_Type ty) desired ->
  fits (bits_Type ty) obj ->
  chpl_comm_atomic_cmpxchg R ty expected desired obj
  = Some (if obj =? expected then desired else obj, obj, obj =? expected).
Proof.
  intros Hty He Hd Ho. unfold chpl_comm_atomic_cmpxchg, doCpuAMO_data.
  rewrite (low_fits _ expected He).
  destruct (bits_Type_int ty Hty) as [[Hb Hs]|[Hb Hs]];
    rewrite Hs; rewrite Hb in *; cbn [Z.eqb orb negb Pos.eqb];
    rewrite !low_fits by assumption;
    replace (Type_eq R ty obj expected) with (obj =? expected)
      by (destruct ty; try discriminate; reflexivity);
    destruct (Z.eqb_spec obj expected) as [->|]; reflexivity.
Qed.

Lemma chpl_comm_atomic_cmpxchg_int_witness :
  is_int_datatype FI_INT64 = true
  /\ fits (bits_Type FI_INT64) 3 /\ fits (bits_Type FI_INT64) 9
  /\ fits (bits_Type FI_INT64) 4
  /\ chpl_comm_atomic_cmpxchg R_none FI_INT64 3 9 4
     = Some (if 4 =? 3 then 9 else 4, 4, 4 =? 3).
Proof.
  assert (H1 : is_int_datatype FI_INT64 = true) by reflexivity.
  assert (H2 : fits (bits_Type FI_INT64) 3)
    by (vm_compute; split; [discriminate|reflexivity]).
  assert (H3 : fits (bits_Type FI_INT64) 9)
    by (vm_compute; split; [discriminate|reflexivity]).
  assert (H4 : fits (bits_Type FI_INT64) 4)
    by (vm_compute; split; [discriminate|reflexivity]).
  split; [exact H1|]. split; [exact H2|]. split; [exact H3|].
  split; [exact H4|].
  exact (chpl_comm_atomic_cmpxchg_int R_none FI_INT64 3 9 4 H1 H2 H3 H4).
Defined.

(** ** Holding a transmit context *)

Lemma findFree_worker_index G E fuel w i w' :
  env_keeps_length E -> (0 < numWorkerTxCtxs G)%nat ->
  findFreeTciTabEntry_worker G E fuel w = Done i w' ->
  (i < numWorkerTxCtxs G)%nat
  /\ length (tciTab w') = length (tciTab w)
  /\ _ttcip w' = _ttcip w
  /\ ((i < length (tciTab w'))%nat ->
      allocated (tciAt (tciTab w') i) = true).
Proof.
  intros HE Hn. revert w.
  induction fuel as [|fuel IH]; intros w H; [discriminate|].
  cbn [findFreeTciTabEntry_worker] in H.
  destruct (scanTciTab (S (numWorkerTxCtxs G)) (numWorkerTxCtxs G)
                       last_iw true (tciTab w))
    as [[tcip ab] tab] eqn:Hs.
  destruct tcip as [j|].
  - apply scan_round_Some in Hs; [|exact Hn]. destruct Hs as (Hj & _ & ->).
    cbn in H. inversion H; subst i w'. cbn.
    rewrite length_insert. split; [exact Hj|].
    split; [reflexivity|]. split; [reflexivity|].
    intros Hl. rewrite tciAt_insert_eq by exact Hl. reflexivity.
  - apply scanTciTab_None in Hs; [|unfold last_iw; lia|lia].
    destruct Hs as (-> & _ & _).
    destruct ab; cbn in H; [discriminate|].
    apply IH in H. cbn in H. rewrite HE in H. exact H.
Qed.

Lemma find_worker_holds G E fuel w i w' :
  env_keeps_length E -> table_has_workers G (tciTab w) ->
  (i0 <- findFreeTciTabEntry G E fuel false ;;
   set_ttcip (Some i0) ;;;
   when (false || (tciTabFixedAssignments G && chpl_task_isFixedThread E))
        (upd_tci i0 (set_bound true)) ;;;
   ret i0) w = Done i w' ->
  (i < length (tciTab w'))%nat
  /\ allocated (tciAt (tciTab w') i) = true
  /\ _ttcip w' = Some i
  /\ (i < numWorkerTxCtxs G)%nat.
Proof.
  intros HE Hlen H. apply bind_Done in H. destruct H as (j & w1 & Hf & H).
  apply findFree_worker_index in Hf; [|exact HE|apply Hlen].
  destruct Hf as (Hj & Hl & _ & Ha).
  unfold table_has_workers in Hlen.
  assert (Hj1 : (j < length (tciTab w1))%nat) by lia.
  specialize (Ha Hj1). cbn in H.
  destruct (tciTabFixedAssignments G && chpl_task_isFixedThread E);
    cbn in H; inversion H; subst; cbn.
  - rewrite length_insert, tciAt_insert_eq by exact Hj1.
    repeat split; try assumption.
  - repeat split; assumption.
Qed.

(** X14: the context [tciAlloc] returns.  On a table with its worker
    entries in place, where bound entries are allocated, the index
    returned is an entry of the table, marked allocated, and recorded as
    the thread's own; it is the thread's previous context or one of the
    workers' contexts, never the AM handler's. *)
Theorem tciAlloc_holds G E fuel w i w' :
  env_keeps_length E ->
  table_has_workers G (tciTab w) ->
  bound_allocated (tciTab w) ->
  ttcip_in_table w ->
  tciAlloc G E fuel w = Done i w' ->
  holds_tci G w w' i.
Proof.
  intros HE Hlen Hba Hin H. unfold tciAlloc, tciAllocCommon in H.
  unfold holds_tci, ttcip_in_table in *.
  destruct (_ttcip w) as [t|] eqn:Ht.
  - destruct (bound (tciAt (tciTab w) t)) eqn:Hb.
    + inversion H; subst i w'. rewrite Ht.
      repeat split; auto.
    + unfold atomic_exchange_allocated in H.
      destruct (allocated (tciAt (tciTab w) t)) eqn:Ha; cbn [negb] in H.
      * rewrite exchange_true_same in H by exact Ha.
        apply bind_Done in H. destruct H as ([] & w1 & Hs & H).
        cbn in Hs. inversion Hs; subst w1.
        apply find_worker_holds in H; [|exact HE|exact Hlen].
        destruct H as (H1 & H2 & H3 & H4). repeat split; auto.
      * cbn in H. inversion H; subst i w'. cbn.
        rewrite length_insert, tciAt_insert_eq by exact Hin.
        repeat split; auto.
  - apply find_worker_holds in H; [|exact HE|exact Hlen].
    destruct H as (H1 & H2 & H3 & H4). repeat split; auto.
Qed.

Lemma env_keeps_length_E_release : env_keeps_length E_release.
Proof.
  intros k t. destruct k; cbn; [apply length_insert|reflexivity].
Qed.

Lemma tciAlloc_holds_witness :
  env_keeps_length E_release
  /\ table_has_workers G_demo (tciTab w_busy)
  /\ bound_allocated (tciTab w_busy)
  /\ ttcip_in_table w_busy
  /\ tciAlloc G_demo E_release 3 w_busy
     = Done 1%nat (world_after (tciAlloc G_demo E_release 3 w_busy) w_busy)
  /\ holds_tci G_demo w_busy
       (world_after (tciAlloc G_demo E_release 3 w_busy) w_busy) 1.
Proof.
  assert (H1 := env_keeps_length_E_release).
  assert (H2 : table_has_workers G_demo (tciTab w_busy))
    by (vm_compute; lia).
  assert (H3 : bound_allocated (tciTab w_busy)).
  { intros i H. destruct i as [|[|[|i]]]; vm_compute in H |- *; congruence. }
  assert (H4 : ttcip_in_table w_busy) by exact I.
  assert (H5 : tciAlloc G_demo E_release 3 w_busy
               = Done 1%nat
                   (world_after (tciAlloc G_demo E_release 3 w_busy) w_busy))
    by (vm_compute; reflexivity).
  split; [exact H1|]. split; [exact H2|]. split; [exact H3|].
  split; [exact H4|]. split; [exact H5|].
  exact (tciAlloc_holds G_demo E_release 3 w_busy 1 _ H1 H2 H3 H4 H5).
Defined.

(** The context a [tciAlloc] returned is recorded as the thread's
    own. *)
Lemma tciAlloc_records G E fuel w i w1 :
  tciAlloc G E fuel w = Done i w1 -> _ttcip w1 = Some i.
Proof.
  intros Ha. unfold tciAlloc, tciAllocCommon in Ha.
  assert (Hfind : forall w0,
             (i0 <- findFreeTciTabEntry G E fuel false ;;
              set_ttcip (Some i0) ;;;
              when (false || (tciTabFixedAssignments G
                              && chpl_task_isFixedThread E))
                   (upd_tci i0 (set_bound true)) ;;;
              ret i0) w0 = Done i w1 -> _ttcip w1 = Some i).
  { intros w0 H. apply bind_Done in H. destruct H as (j & w3 & _ & H).
    cbn in H.
    destruct (tciTabFixedAssignments G && chpl_task_isFixedThread E);
      cbn in H; inversion H; subst; reflexivity. }
  destruct (_ttcip w) as [t|] eqn:Ht0; [|eapply Hfind; exact Ha].
  destruct (bound (tciAt (tciTab w) t)).
  - inversion Ha; subst. exact Ht0.
  - unfold atomic_exchange_allocated in Ha.
    destruct (allocated (tciAt (tciTab w) t)); cbn [negb] in Ha.
    + apply bind_Done in Ha. destruct Ha as ([] & w3 & _ & Ha).
      eapply Hfind; exact Ha.
    + cbn in Ha. inversion Ha; subst. cbn. exact Ht0.
Qed.



(** Entry 0 was taken meanwhile, entry 1 was not: the thread has
    context 1 again, and entry 0 is as the other thread left it. *)
Example tciAlloc_again_1 :
  tciAlloc G_demo E_plain 3 w_had_1
  = Done 1%nat
      {| tciTab := [tci_mk true false; tci_mk true false; tci_mk true true];
         _ttcip := Some 1%nat; prvData := Some prv_fresh; yields := O;
         trace := [] |}.
Proof. vm_compute. reflexivity. Qed.

(** Entry 1 was taken meanwhile: the thread searches and gets
    context 0. *)
Example tciAlloc_lost_1 :
  tciAlloc G_demo E_plain 3 w_lost_1
  = Done 0%nat
      {| tciTab := [tci_mk true false; tci_mk true false; tci_mk true true];
         _ttcip := Some 0%nat; prvData := Some prv_fresh; yields := O;
         trace := [] |}.
Proof. vm_compute. reflexivity. Qed.

(** X16: the AM handler's allocation.  On a thread that has no context
    yet it takes the entry after the workers' entries and no other: it
    ends the program if that entry is already allocated, and otherwise
    returns it allocated and bound, without a yield, leaving every other
    entry as it was. *)
Theorem tciAllocForAmHandler_own G E fuel w :
  _ttcip w = None ->
  (numWorkerTxCtxs G < length (tciTab w))%nat ->
  amHandler_takes_own G E fuel w.
Proof.
  intros Ht Hl. unfold amHandler_takes_own, tciAllocForAmHandler,
    tciAllocCommon. rewrite Ht. cbn [findFreeTciTabEntry orb].
  unfold atomic_exchange_allocated.
  destruct (allocated (tciAt (tciTab w) (numWorkerTxCtxs G))) eqn:Ha.
  - eexists. unfold bind. cbn. rewrite Ha. cbn. reflexivity.
  - eexists. split; [unfold bind; cbn; rewrite Ha; cbn; reflexivity|]. cbn.
    rewrite !tciAt_insert_eq
      by (rewrite ?length_insert; exact Hl).
    repeat split.
    intros j Hj. rewrite !tciAt_insert_ne by congruence. reflexivity.
Qed.

Lemma tciAllocForAmHandler_own_witness :
  _ttcip w_free = None
  /\ (numWorkerTxCtxs G_demo < length (tciTab w_free))%nat
  /\ amHandler_takes_own G_demo E_demo 3 w_free.
Proof.
  assert (H1 : _ttcip w_free = None) by reflexivity.
  assert (H2 : (numWorkerTxCtxs G_demo < length (tciTab w_free))%nat)
    by (vm_compute; lia).
  split; [exact H1|]. split; [exact H2|].
  exact (tciAllocForAmHandler_own G_demo E_demo 3 w_free H1 H2).
Defined.

(** ** Forcing PUTs to be visible *)

Lemma same_txCQ_refl w : same_txCQ w w.
Proof. intros i. reflexivity. Qed.

Lemma same_txCQ_trans w1 w2 w3 :
  same_txCQ w1 w2 -> same_txCQ w2 w3 -> same_txCQ w1 w3.
Proof. intros H1 H2 i. rewrite H2, H1. reflexivity. Qed.

Lemma composes_same_txCQ : composes same_txCQ.
Proof. split; [apply same_txCQ_refl | apply same_txCQ_trans]. Qed.

Lemma txCQ_upd t i f j :
  (forall x, txCQ (f x) = txCQ x) ->
  txCQ (tciAt (<[i := f (tciAt t i)]> t) j) = txCQ (tciAt t j).
Proof.
  intros Hf. rewrite tciAt_insert.
  destruct (decide _) as [[-> _]|]; [apply Hf | reflexivity].
Qed.

Lemma same_txCQ_upd_tci i f :
  (forall x, txCQ (f x) = txCQ x) -> preserves same_txCQ (upd_tci i f).
Proof.
  intros Hf w a w' H. cbn in H. inversion H; subst. intros j. cbn.
  apply txCQ_upd. exact Hf.
Qed.

(** What a step keeps while PUTs are forced out: which contexts have a
    CQ, and the task's data. *)
Lemma checkTxCmplsFn_step E tcip w w' :
  checkTxCmplsFn E tcip w = Done tt w' ->
  trace w' = trace w /\ same_txCQ w w' /\ prvData w' = prvData w.
Proof.
  intros H. cbn in H. inversion H; subst. cbn.
  split; [reflexivity|]. split; [|reflexivity].
  intros j. cbn. apply txCQ_upd. reflexivity.
Qed.

Lemma quiet_sched_waitForCQRoom G E fuel tcip :
  quiet ev_sched (waitForCQRoom G E fuel tcip).
Proof.
  induction fuel as [|fuel IH]; intros w; cbn [waitForCQRoom];
    destruct (txCQ (tciAt (tciTab w) tcip)
              && (txCQLen G <=? numTxnsOut (tciAt (tciTab w) tcip)));
    try exact I; try apply (quiet_ret ev_sched tt w).
  apply (quiet_bind ev_sched (emit Ev_sched_yield)
           (fun _ => checkTxCmplsFn E tcip ;;; waitForCQRoom G E fuel tcip)).
  - apply quiet_emit. reflexivity.
  - intros _. apply quiet_bind; [auto with quiet|intros _]. exact IH.
Qed.

Lemma waitForCQRoom_keeps G E fuel tcip w w' :
  waitForCQRoom G E fuel tcip w = Done tt w' ->
  same_txCQ w w' /\ prvData w' = prvData w.
Proof.
  revert w. induction fuel as [|fuel IH]; intros w H;
    cbn [waitForCQRoom] in H;
    destruct (txCQ (tciAt (tciTab w) tcip)
              && (txCQLen G <=? numTxnsOut (tciAt (tciTab w) tcip)));
    try discriminate;
    try (inversion H; subst; split; [apply same_txCQ_refl|reflexivity]).
  apply bind_Done in H. destruct H as ([] & w1 & H1 & H).
  apply bind_Done in H. destruct H as ([] & w2 & H2 & H).
  cbn in H1. inversion H1; subst w1. clear H1.
  apply checkTxCmplsFn_step in H2. destruct H2 as (_ & T2 & P2).
  apply IH in H. destruct H as (T3 & P3).
  split.
  - eapply same_txCQ_trans; [|exact T3].
    intros j. rewrite T2. reflexivity.
  - rewrite P3, P2. reflexivity.
Qed.

Lemma waitForCQRoom_step G E fuel tcip w w' :
  waitForCQRoom G E fuel tcip w = Done tt w' ->
  exists d, trace w' = trace w ++ d
            /\ List.filter is_put_traffic d = []
            /\ same_txCQ w w' /\ prvData w' = prvData w.
Proof.
  intros H. pose proof (waitForCQRoom_keeps _ _ _ _ _ _ H) as [T P].
  eapply quiet_Done in H; [|apply quiet_sched_waitForCQRoom].
  destruct H as (d & Hd & Q). exists d. repeat split; try assumption.
  apply (filter_nil_of_class ev_sched); [exact Q|].
  intros []; cbn; congruence.
Qed.

Lemma mcmReleaseOneNode_step G E fuel node tcip w w' :
  mcmReleaseOneNode G E fuel node tcip w = Done tt w' ->
  mrGetKey G node (orderDummyMap G node) 1 <> None
  /\ trace w' = trace w
                ++ dummy_get G E tcip (txCQ (tciAt (tciTab w) tcip)) node
  /\ same_txCQ w w' /\ prvData w' = prvData w.
Proof.
  unfold mcmReleaseOneNode, dummy_get. intros H.
  apply bind_Done in H. destruct H as (t & w0 & Ht & H).
  cbn in Ht. inversion Ht; subst t w0. clear Ht.
  assert (Hstep : forall ctx,
             (ofi_get_ll G E fuel (orderDummy G) node (orderDummyMap G node)
                         1 ctx (Some tcip) ;;;
              waitForTxnComplete E tcip ctx) w = Done tt w' ->
             exists key off,
               mrGetKey G node (orderDummyMap G node) 1 = Some (key, off)
               /\ trace w' = trace w
                             ++ [Ev_fi_read tcip (orderDummy G) 1 node off
                                   key ctx;
                                 Ev_waitForTxnComplete tcip ctx]
               /\ same_txCQ w w' /\ prvData w' = prvData w).
  { intros ctx Hc. unfold ofi_get_ll in Hc.
    destruct (mrGetKey G node (orderDummyMap G node) 1) as [[key off]|];
      [|discriminate].
    destruct (mrGetDesc G (orderDummy G) 1); [|discriminate].
    cbn in Hc. inversion Hc; subst w'. cbn. exists key, off.
    split; [reflexivity|]. split; [rewrite <- app_assoc; reflexivity|].
    split; [|reflexivity].
    intros j. cbn. rewrite !txCQ_upd by reflexivity. reflexivity. }
  destruct (txCQ (tciAt (tciTab w) tcip));
    apply Hstep in H; destruct H as (key & off & Hk & Htr & Hq & Hp);
    rewrite Hk; (split; [discriminate|]); repeat split; assumption.
Qed.

(** The bitmap after the loop: the visited bits cleared, one by one. *)
Lemma mcmReleaseNodes_step G E fuel nodes b myTcip w b' w' :
  mcmReleaseNodes G E fuel nodes b myTcip w = Done b' w' ->
  b' = fold_left bitmapClear nodes b
  /\ List.filter is_put_traffic (added w w')
     = concat (List.map (dummy_get G E myTcip
                           (txCQ (tciAt (tciTab w) myTcip))) nodes)
  /\ Forall (fun node => mrGetKey G node (orderDummyMap G node) 1 <> None)
            nodes
  /\ (exists d, trace w' = trace w ++ d)
  /\ same_txCQ w w' /\ prvData w' = prvData w.
Proof.
  revert b w. induction nodes as [|node nodes IH]; intros b w H;
    cbn [mcmReleaseNodes] in H.
  - inversion H; subst. split; [reflexivity|].
    split; [unfold added; rewrite drop_all; reflexivity|].
    split; [apply List.Forall_nil|].
    split; [exists []; rewrite app_nil_r; reflexivity|].
    split; [apply same_txCQ_refl|reflexivity].
  - apply bind_Done in H. destruct H as ([] & w1 & H1 & H).
    apply bind_Done in H. destruct H as ([] & w2 & H2 & H).
    apply bind_Done in H. destruct H as ([] & w3 & H3 & H).
    apply checkTxCmplsFn_step in H1. destruct H1 as (T1 & Q1 & P1).
    apply waitForCQRoom_step in H2.
    destruct H2 as (d2 & T2 & F2 & Q2 & P2).
    apply mcmReleaseOneNode_step in H3. destruct H3 as (K3 & T3 & Q3 & P3).
    apply IH in H. destruct H as (Hb & F4 & K4 & (d4 & T4) & Q4 & P4).
    assert (Hcq2 : txCQ (tciAt (tciTab w2) myTcip)
                   = txCQ (tciAt (tciTab w) myTcip))
      by (rewrite Q2, Q1; reflexivity).
    assert (Hcq3 : txCQ (tciAt (tciTab w3) myTcip)
                   = txCQ (tciAt (tciTab w) myTcip))
      by (rewrite Q3; exact Hcq2).
    rewrite Hcq2 in T3. rewrite Hcq3 in F4.
    assert (Htr : trace w'
                  = trace w
                    ++ (d2 ++ dummy_get G E myTcip
                                 (txCQ (tciAt (tciTab w) myTcip)) node
                           ++ d4)).
    { rewrite T4, T3, T2, T1. rewrite <- !app_assoc. reflexivity. }
    split; [exact Hb|]. split.
    + rewrite (added_app _ _ _ Htr). rewrite !filter_app_list, F2.
      cbn [app List.map concat]. f_equal.
      * unfold dummy_get.
        destruct (mrGetKey G node (orderDummyMap G node) 1) as [[k o]|];
          reflexivity.
      * rewrite <- F4. rewrite (added_app _ _ _ T4). reflexivity.
    + split; [apply List.Forall_cons; assumption|].
      split; [eexists; exact Htr|]. split.
      * eapply same_txCQ_trans; [|exact Q4].
        eapply same_txCQ_trans; [|exact Q3].
        eapply same_txCQ_trans; [exact Q1|exact Q2].
      * rewrite P4, P3, P2, P1. reflexivity.
Qed.

Lemma bitmapClear_room b i j :
  bitmap_has_room b j -> bitmap_has_room (bitmapClear b i) j.
Proof.
  intros [H1 H2]. split; [exact H1|]. cbn. rewrite length_insert. exact H2.
Qed.

Lemma fold_bitmapClear_len nodes b :
  b_len (fold_left bitmapClear nodes b) = b_len b.
Proof.
  revert b. induction nodes as [|n nodes IH]; intros b; [reflexivity|].
  cbn [fold_left]. rewrite IH. reflexivity.
Qed.

Lemma fold_bitmapClear_test nodes b j :
  0 <= j -> (forall n, In n nodes -> bitmap_has_room b n) ->
  bitmapTest (fold_left bitmapClear nodes b) j
  = bitmapTest b j && negb (existsb (Z.eqb j) nodes).
Proof.
  intros Hj. revert b. induction nodes as [|n nodes IH]; intros b Hroom.
  - cbn. rewrite andb_true_r. reflexivity.
  - cbn [fold_left existsb]. rewrite IH.
    + rewrite bitmapTest_bitmapClear_any;
        [|apply Hroom; left; reflexivity|exact Hj].
      rewrite (Z.eqb_sym j n).
      destruct (n =? j), (bitmapTest b j), (existsb (Z.eqb j) nodes);
        reflexivity.
    + intros m Hm. apply bitmapClear_room. apply Hroom. right. exact Hm.
Qed.

Lemma bitmapSetBits_In b i :
  In i (bitmapSetBits b) <-> (0 <= i < b_len b /\ bitmapTest b i = true).
Proof.
  unfold bitmapSetBits. rewrite List.filter_In, List.in_map_iff. split.
  - intros [(k & <- & Hk) Ht]. apply List.in_seq in Hk.
    split; [lia|exact Ht].
  - intros [Hi Ht]. split; [|exact Ht].
    exists (Z.to_nat i). split; [lia|]. apply List.in_seq. lia.
Qed.

Lemma released_bitmap_empty b :
  bitmap_roomy b -> bitmap_empty (fold_left bitmapClear (bitmapSetBits b) b).
Proof.
  intros Hroom i Hi. rewrite fold_bitmapClear_len in Hi.
  rewrite fold_bitmapClear_test.
  - destruct (bitmapTest b i) eqn:Ht; [|reflexivity]. cbn.
    apply negb_false_iff. apply List.existsb_exists. exists i.
    split; [|apply Z.eqb_refl]. apply bitmapSetBits_In. split; assumption.
  - lia.
  - intros n Hn. apply bitmapSetBits_In in Hn. apply Hroom. apply Hn.
Qed.

Lemma tcipOrAlloc_step G E fuel tcip w myTcip w1 :
  tcipOrAlloc G E fuel tcip w = Done myTcip w1 ->
  (forall t, uses_tci tcip w t -> myTcip = t /\ w1 = w)
  /\ (exists d, trace w1 = trace w ++ d
                /\ List.filter is_put_traffic d = [])
  /\ prvData w1 = prvData w.
Proof.
  intros H. destruct tcip as [t|]; cbn [tcipOrAlloc] in H.
  - inversion H; subst.
    split; [intros t' [[= <-]|[? _]]; [split; reflexivity|discriminate]|].
    split; [exists []; rewrite app_nil_r; split; reflexivity|reflexivity].
  - split.
    { intros t [?|(_ & Ht & Hb)]; [discriminate|].
      unfold tciAlloc, tciAllocCommon in H. rewrite Ht, Hb in H.
      inversion H; subst. split; reflexivity. }
    split.
    + eapply quiet_Done in H; [|apply quiet_tciAlloc].
      destruct H as (d & Hd & Q). exists d. split; [exact Hd|].
      apply (filter_nil_of_class ev_yield); [exact Q|].
      intros []; cbn; congruence.
    + exact (pres_tciAllocCommon_prv G E fuel false w myTcip w1 H).
Qed.

Lemma tcipFreeIfOwn_step tcip myTcip w w' :
  tcipFreeIfOwn tcip myTcip w = Done tt w' ->
  trace w' = trace w /\ prvData w' = prvData w.
Proof.
  destruct tcip; cbn [tcipFreeIfOwn]; intros H.
  - inversion H; subst. split; reflexivity.
  - rewrite tciFree_Done in H. inversion H; subst.
    destruct (bound (tciAt (tciTab w) myTcip)); split; reflexivity.
Qed.

Lemma mcmReleaseAllNodes_step G E fuel b tcip w b' w' :
  mcmReleaseAllNodes G E fuel b tcip w = Done b' w' ->
  b' = fold_left bitmapClear (bitmapSetBits b) b
  /\ (exists myTcip cq,
        (forall t, uses_tci tcip w t ->
                   myTcip = t /\ cq = txCQ (tciAt (tciTab w) t))
        /\ List.filter is_put_traffic (added w w')
           = concat (List.map (dummy_get G E myTcip cq) (bitmapSetBits b)))
  /\ Forall (fun node => mrGetKey G node (orderDummyMap G node) 1 <> None)
            (bitmapSetBits b)
  /\ prvData w' = prvData w.
Proof.
  intros H. unfold mcmReleaseAllNodes in H.
  apply bind_Done in H. destruct H as (myTcip & w0 & H0 & H).
  apply bind_Done in H. destruct H as (b1 & w1 & H1 & H).
  apply bind_Done in H. destruct H as ([] & w2 & H2 & H).
  cbn in H. inversion H; subst b1 w2. clear H.
  apply tcipOrAlloc_step in H0. destruct H0 as (Hs & (d0 & T0 & F0) & P0).
  apply mcmReleaseNodes_step in H1.
  destruct H1 as (-> & F1 & K & (d1 & T1) & _ & P1).
  apply tcipFreeIfOwn_step in H2. destruct H2 as (T2 & P2).
  split; [reflexivity|]. split.
  - exists myTcip, (txCQ (tciAt (tciTab w0) myTcip)). split.
    + intros t Ht. destruct (Hs t Ht) as [-> ->]. split; reflexivity.
    + rewrite <- F1. rewrite (added_app _ _ _ T1).
      assert (Htr : trace w' = trace w ++ (d0 ++ d1))
        by (rewrite T2, T1, T0, app_assoc; reflexivity).
      rewrite (added_app _ _ _ Htr), filter_app_list, F0. reflexivity.
  - split; [exact K|]. rewrite P2, P1, P0. reflexivity.
Qed.

(** X17: [mcmReleaseAllNodes].  When it returns it has issued, for each
    node whose bit was set in the bitmap and in increasing order of
    node, one one-byte GET from that node's [orderDummy] and waited for
    it, and put nothing else on the fabric; every such node had a key
    for its [orderDummy]; and the bitmap it leaves has no bit set. *)
Theorem mcmReleaseAllNodes_releases G E fuel b tcip w b' w' :
  bitmap_roomy b ->
  mcmReleaseAllNodes G E fuel b tcip w = Done b' w' ->
  releases_all G E b tcip w w' b'.
Proof.
  intros Hroom H. apply mcmReleaseAllNodes_step in H.
  destruct H as (-> & F & K & P).
  unfold releases_all. split; [apply fold_bitmapClear_len|].
  split; [apply released_bitmap_empty; exact Hroom|].
  repeat split; assumption.
Qed.

Lemma bitmap_roomy_b3 : bitmap_roomy b_nodes_1_2.
Proof.
  intros i Hi. cbn in Hi. split; [lia|].
  unfold bitmapElemIdx, bitmapElemWidth. rewrite Z.div_small by lia.
  cbn. lia.
Qed.

Lemma mcmReleaseAllNodes_releases_witness :
  bitmap_roomy b_nodes_1_2
  /\ mcmReleaseAllNodes G_three E_demo 3 b_nodes_1_2 (Some O) w_bound
     = Done (bitmapAlloc 3)
            (world_after (mcmReleaseAllNodes G_three E_demo 3 b_nodes_1_2
                                             (Some O) w_bound) w_bound)
  /\ releases_all G_three E_demo b_nodes_1_2 (Some O) w_bound
       (world_after (mcmReleaseAllNodes G_three E_demo 3 b_nodes_1_2
                                        (Some O) w_bound) w_bound)
       (bitmapAlloc 3).
Proof.
  assert (H1 := bitmap_roomy_b3).
  assert (H2 : mcmReleaseAllNodes G_three E_demo 3 b_nodes_1_2 (Some O)
                                  w_bound
               = Done (bitmapAlloc 3)
                      (world_after
                         (mcmReleaseAllNodes G_three E_demo 3 b_nodes_1_2
                                             (Some O) w_bound) w_bound))
    by (vm_compute; reflexivity).
  split; [exact H1|]. split; [exact H2|].
  exact (mcmReleaseAllNodes_releases G_three E_demo 3 b_nodes_1_2 (Some O)
           w_bound _ _ H1 H2).
Defined.

(** There, with a completion queue that delivers: a GET from node 1,
    its wait, a GET from node 2, its wait; nothing is left in flight,
    and two transactions have been issued. *)
Example mcmReleaseAllNodes_trace :
  let w' := world_after (mcmReleaseAllNodes G_three E_demo 3 b_nodes_1_2
                                            (Some O) w_bound) w_bound in
  trace w'
  = [Ev_fi_read 0 4096 1 1 4096 0 (txnTrkEncodeDone 520);
     Ev_waitForTxnComplete 0 (txnTrkEncodeDone 520);
     Ev_fi_read 0 4096 1 2 4096 0 (txnTrkEncodeDone 520);
     Ev_waitForTxnComplete 0 (txnTrkEncodeDone 520)]
  /\ numTxnsOut (tciAt (tciTab w') 0) = 0
  /\ numTxnsSent (tciAt (tciTab w') 0) = 2.
Proof. vm_compute. repeat split. Qed.

(** ** Task creation *)

Lemma retireDelayedAmDone_step E b w p :
  prvData w = Some p ->
  exists w1,
    retireDelayedAmDone E b w = Done tt w1
    /\ trace w1 = trace w ++ pending_wait E p
    /\ tciTab w1 = tciTab w /\ _ttcip w1 = _ttcip w
    /\ prvData w1
       = Some (let p1 := set_amDonePending false p in
               if b then set_taskIsEnding true p1 else p1).
Proof.
  intros Hp. unfold retireDelayedAmDone, pending_wait, bind,
    get_comm_taskPrvdata. rewrite Hp.
  destruct p as [bm pend ending]. destruct pend; cbn.
  - eexists. split; [reflexivity|]. cbn.
    repeat split; destruct b; reflexivity.
  - eexists. split; [reflexivity|]. cbn. rewrite app_nil_r.
    repeat split; destruct b; reflexivity.
Qed.

Lemma waitForPutsVisAllNodes_bound_step G E fuel ending t p w w' :
  1 < chpl_numNodes G -> haveDeliveryComplete G = false ->
  _ttcip w = Some t -> bound (tciAt (tciTab w) t) = true ->
  prvData w = Some p -> prv_roomy p ->
  waitForPutsVisAllNodes G E fuel None ending w = Done tt w' ->
  match putBitmap p with
  | Some b =>
      (exists b', prvData w'
                  = Some (set_putBitmap (if ending then None else Some b') p)
                  /\ b_len b' = b_len b /\ bitmap_empty b')
      /\ List.filter is_put_traffic (added w w')
         = concat (List.map (dummy_get G E t (txCQ (tciAt (tciTab w) t)))
                            (bitmapSetBits b))
  | None =>
      prvData w' = Some p
      /\ List.filter is_put_traffic (added w w') = []
  end.
Proof.
  intros Hn Hdc Ht Hb Hp Hroom H. unfold waitForPutsVisAllNodes in H.
  apply bind_Done in H. destruct H as ([] & w0 & H0 & H).
  cbn in H0. inversion H0; subst w0. clear H0.
  assert (Hc : (1 <? chpl_numNodes G) && negb (haveDeliveryComplete G)
               = true).
  { rewrite Hdc. apply andb_true_intro. split; [apply Z.ltb_lt; lia|].
    reflexivity. }
  rewrite Hc in H. cbn [when] in H.
  apply bind_Done in H. destruct H as (myTcip & w1 & H1 & H).
  cbn [tcipOrAlloc] in H1. unfold tciAlloc, tciAllocCommon in H1.
  cbn [_ttcip tciTab] in H1. rewrite Ht, Hb in H1.
  inversion H1; subst myTcip w1. clear H1.
  apply bind_Done in H. destruct H as (ti & w2 & H2 & H).
  cbn in H2. inversion H2; subst ti w2. clear H2.
  apply bind_Done in H. destruct H as ([] & w3 & H3 & H).
  cbn [tcipFreeIfOwn] in H. rewrite tciFree_Done in H.
  rewrite Hb in H3. cbn [when] in H3.
  apply bind_Done in H3. destruct H3 as (o & w4 & H4 & H3).
  cbn in H4. inversion H4; subst o w4. clear H4. rewrite Hp in H3.
  cbn [CHK_SOME] in H3.
  apply bind_Done in H3. destruct H3 as (p0 & w5 & H5 & H3).
  cbn in H5. inversion H5; subst p0 w5. clear H5.
  assert (Hfin : trace w' = trace w3 /\ prvData w' = prvData w3).
  { inversion H; subst w'.
    destruct (bound (tciAt (tciTab w3) t)); split; reflexivity. }
  destruct Hfin as [Tf Pf]. clear H.
  unfold prv_roomy in Hroom.
  destruct (putBitmap p) as [b|].
  - apply bind_Done in H3. destruct H3 as (b' & w6 & H6 & H3).
    cbn in H3. inversion H3; subst w3. clear H3.
    pose proof (mcmReleaseAllNodes_releases _ _ _ _ _ _ _ _ Hroom H6)
      as (Hl & He & (myTcip & cq & Hu & F) & _ & P6).
    destruct (Hu t) as [-> ->];
      [right; repeat split; assumption|].
    cbn [tciTab] in F. split.
    + exists b'. cbn in Pf. rewrite Pf. repeat split; assumption.
    + cbn [trace] in Tf.
      eapply quiet_Done in H6; [|apply quiet_mcmReleaseAllNodes].
      destruct H6 as (d & Hd & _).
      pose proof (added_app _ _ _ Hd) as Hadd6. cbn [trace] in Hd.
      assert (Htr : trace w' = trace w ++ ([Ev_waitForPutsVisAllNodes] ++ d))
        by (rewrite Tf, Hd, <- app_assoc; reflexivity).
      rewrite (added_app _ _ _ Htr). rewrite filter_app_list.
      cbn [List.filter is_put_traffic is_fabric_op is_wait orb app].
      rewrite <- F, Hadd6. reflexivity.
  - cbn in H3. inversion H3; subst w3. clear H3. cbn in Tf, Pf.
    split; [exact Pf|].
    rewrite (added_app _ _ _ Tf). reflexivity.
Qed.

(** X18: [chpl_comm_impl_task_create] on a thread that owns a bound
    context, in message-order mode on more than one node.  When it
    returns, the task has waited for its delayed 'done', if one was
    pending; every node with its bit set in the task's PUT bitmap has
    had its dummy GET, in increasing order, and nothing else went onto
    the fabric; and the task is left with no 'done' pending and no bit
    set. *)
Theorem chpl_comm_impl_task_create_visible G E fuel t p w w' :
  1 < chpl_numNodes G -> haveDeliveryComplete G = false ->
  _ttcip w = Some t -> bound (tciAt (tciTab w) t) = true ->
  prvData w = Some p -> prv_roomy p ->
  chpl_comm_impl_task_create G E fuel w = Done tt w' ->
  puts_forced_visible G E t p w w'.
Proof.
  intros Hn Hdc Ht Hb Hp Hroom H. unfold chpl_comm_impl_task_create in H.
  apply bind_Done in H. destruct H as ([] & w1 & H1 & H).
  destruct (retireDelayedAmDone_step E false w p Hp)
    as (w1' & H1' & T1 & Tab1 & Tt1 & P1).
  rewrite H1' in H1. inversion H1; subst w1'. clear H1 H1'. cbn zeta in P1.
  cbv iota in P1.
  pose proof (waitForPutsVisAllNodes_bound_step G E fuel false t
                (set_amDonePending false p) w1 w' Hn Hdc) as Hw.
  rewrite Tab1, Tt1 in Hw. specialize (Hw Ht Hb P1).
  assert (Hroom1 : prv_roomy (set_amDonePending false p))
    by (destruct p; exact Hroom).
  specialize (Hw Hroom1 H).
  assert (Hadd : forall d, List.filter is_put_traffic (added w1 w') = d ->
                 List.filter is_put_traffic (added w w')
                 = pending_wait E p ++ d).
  { intros d Hd.
    eapply quiet_Done in H; [|apply quiet_waitForPutsVisAllNodes].
    destruct H as (d1 & Hd1 & _).
    rewrite (added_app _ _ _ Hd1) in Hd.
    assert (Htr : trace w' = trace w ++ (pending_wait E p ++ d1))
      by (rewrite Hd1, T1, app_assoc; reflexivity).
    rewrite (added_app _ _ _ Htr), filter_app_list, Hd. f_equal.
    unfold pending_wait. destruct (amDonePending p); reflexivity. }
  unfold puts_forced_visible.
  replace (putBitmap (set_amDonePending false p)) with (putBitmap p) in Hw
    by (destruct p; reflexivity).
  destruct (putBitmap p) as [b|] eqn:Hbm.
  - destruct Hw as ((b' & Pw & Hl & He) & F).
    eexists. split; [exact Pw|]. cbn.
    split; [reflexivity|]. split; [reflexivity|]. split.
    + exists b'. repeat split; assumption.
    + apply Hadd. exact F.
  - destruct Hw as (Pw & F).
    eexists. split; [exact Pw|]. cbn.
    split; [reflexivity|]. split; [reflexivity|]. split; [exact Hbm|].
    rewrite (Hadd [] F). apply app_nil_r.
Qed.

Lemma chpl_comm_impl_task_create_visible_witness :
  1 < chpl_numNodes G_three
  /\ haveDeliveryComplete G_three = false
  /\ _ttcip w_puts_1_2 = Some O
  /\ bound (tciAt (tciTab w_puts_1_2) O) = true
  /\ prvData w_puts_1_2 = Some prv_puts_1_2
  /\ prv_roomy prv_puts_1_2
  /\ chpl_comm_impl_task_create G_three E_demo 3 w_puts_1_2
     = Done tt (world_after
                  (chpl_comm_impl_task_create G_three E_demo 3 w_puts_1_2)
                  w_puts_1_2)
  /\ puts_forced_visible G_three E_demo O prv_puts_1_2 w_puts_1_2
       (world_after (chpl_comm_impl_task_create G_three E_demo 3 w_puts_1_2)
                    w_puts_1_2).
Proof.
  assert (H1 : 1 < chpl_numNodes G_three) by (cbn; lia).
  assert (H2 : haveDeliveryComplete G_three = false) by reflexivity.
  assert (H3 : _ttcip w_puts_1_2 = Some O) by reflexivity.
  assert (H4 : bound (tciAt (tciTab w_puts_1_2) O) = true) by reflexivity.
  assert (H5 : prvData w_puts_1_2 = Some prv_puts_1_2) by reflexivity.
  assert (H6 : prv_roomy prv_puts_1_2) by exact bitmap_roomy_b3.
  assert (H7 : chpl_comm_impl_task_create G_three E_demo 3 w_puts_1_2
               = Done tt (world_after
                            (chpl_comm_impl_task_create G_three E_demo 3
                                                        w_puts_1_2)
                            w_puts_1_2))
    by (vm_compute; reflexivity).
  split; [exact H1|]. split; [exact H2|]. split; [exact H3|].
  split; [exact H4|]. split; [exact H5|]. split; [exact H6|].
  split; [exact H7|].
  exact (chpl_comm_impl_task_create_visible G_three E_demo 3 O prv_puts_1_2
           w_puts_1_2 _ H1 H2 H3 H4 H5 H6 H7).
Defined.

(** There: the wait for the pending 'done', then the dummy GETs from
    nodes 1 and 2, each waited for. *)
Example chpl_comm_impl_task_create_trace :
  List.filter is_put_traffic
    (trace (world_after
              (chpl_comm_impl_task_create G_three E_demo 3 w_puts_1_2)
              w_puts_1_2))
  = [Ev_amWaitForDone 528;
     Ev_fi_read 0 4096 1 1 4096 0 (txnTrkEncodeDone 520);
     Ev_waitForTxnComplete 0 (txnTrkEncodeDone 520);
     Ev_fi_read 0 4096 1 2 4096 0 (txnTrkEncodeDone 520);
     Ev_waitForTxnComplete 0 (txnTrkEncodeDone 520)].
Proof. vm_compute. reflexivity. Qed.

(** ** One transfer *)

Lemma localOrBounceDesc_step G E addr size copy w myAddr w1 :
  localOrBounceDesc G E addr size copy w = Done myAddr w1 ->
  myAddr = local_or_bounce G E w addr size
  /\ (exists d, trace w1 = trace w ++ d
                /\ List.filter is_xfer d
                   = if needs_bounce G addr size && copy
                     then [Ev_memcpy myAddr addr size] else [])
  /\ prvData w1 = prvData w
  /\ tciTab w1 = tciTab w /\ _ttcip w1 = _ttcip w.
Proof.
  unfold localOrBounceDesc, local_or_bounce, needs_bounce. intros H.
  destruct (mrGetDesc G addr size) as [desc|].
  - inversion H; subst. split; [reflexivity|]. split.
    + exists []. rewrite app_nil_r. split; reflexivity.
    + repeat split.
  - unfold allocBounceBuf, bind in H. cbn in H.
    destruct (mrGetDesc G (bounceBuf E (trace w) size) size); [|discriminate].
    cbn in H. destruct copy; cbn in H; inversion H; subst; cbn.
    + split; [reflexivity|]. split; [|repeat split].
      eexists. split; [rewrite <- app_assoc; reflexivity|]. reflexivity.
    + split; [reflexivity|]. split; [|repeat split].
      eexists. split; [reflexivity|]. reflexivity.
Qed.

Lemma tciAlloc_step G E fuel w tcip w1 :
  tciAlloc G E fuel w = Done tcip w1 ->
  (exists d, trace w1 = trace w ++ d /\ List.filter is_xfer d = [])
  /\ prvData w1 = prvData w.
Proof.
  intros H. split.
  - eapply quiet_Done in H; [|apply quiet_tciAlloc].
    destruct H as (d & Hd & Q). exists d. split; [exact Hd|].
    apply (filter_nil_of_class ev_yield); [exact Q|].
    intros []; cbn; congruence.
  - exact (pres_tciAllocCommon_prv G E fuel false w tcip w1 H).
Qed.

Lemma xfer_tail tcip myAddr addr w3 w' :
  (tciFree tcip ;;;
   when (negb (myAddr =? addr)) (freeBounceBuf myAddr)) w3 = Done tt w' ->
  exists d,
    trace w' = trace w3 ++ d
    /\ List.filter is_xfer d = []
    /\ same_bound w3 w'
    /\ prvData w' = prvData w3.
Proof.
  intros H. apply bind_Done in H. destruct H as ([] & w4 & Hf & H).
  pose proof (same_bound_tciFree tcip w3 tt w4 Hf) as B1.
  rewrite tciFree_Done in Hf. inversion Hf as [Hw4]. clear Hf.
  assert (T4 : trace w4 = trace w3 /\ prvData w4 = prvData w3).
  { subst w4. destruct (bound (tciAt (tciTab w3) tcip)); split; reflexivity. }
  destruct T4 as [T4 P4].
  destruct (negb (myAddr =? addr)); cbn in H; inversion H; subst w'.
  - exists [Ev_freeBounceBuf myAddr]. cbn. rewrite T4.
    repeat split; assumption.
  - exists []. rewrite app_nil_r. repeat split; assumption.
Qed.

(** X19: a PUT with delivery-complete.  For a PUT the engine does not
    split and whose remote address has an MR key, a call that returns
    has copied the data to a bounce buffer first when the local buffer
    has no descriptor, then issued one [fi_write] carrying a completion
    context and waited for that context; it has done no dummy GET, and
    the task's bitmap is as it was. *)
Theorem ofi_put_dc_unsplit G E fuel addr node raddr size w :
  haveDeliveryComplete G = true ->
  size <= max_msg_size G ->
  mrGetKey G node raddr size <> None ->
  dc_put_discipline G E (S fuel) addr node raddr size w.
Proof.
  intros HDC Hsz Hkey w' H.
  rewrite ofi_put_unsplit in H by exact Hsz.
  unfold ofi_put_xfer in H.
  destruct (mrGetKey G node raddr size) as [[key off]|] eqn:Hk;
    [|contradiction].
  apply bind_Done in H. destruct H as (myAddr & w1 & H1 & H).
  apply bind_Done in H. destruct H as (tcip & w2 & H2 & H).
  apply bind_Done in H. destruct H as (t & w2' & Ht & H).
  inversion Ht; subst t w2'. clear Ht.
  apply bind_Done in H. destruct H as ([] & w3 & Hbody & Htail).
  apply localOrBounceDesc_step in H1.
  destruct H1 as (Hmy & (d1 & T1 & F1) & P1 & _).
  apply tciAlloc_step in H2. destruct H2 as ((d2 & T2 & F2) & P2).
  destruct (xfer_tail tcip myAddr addr w3 w' Htail)
    as (dt & Tt & Ft & _ & Pt).
  rewrite HDC in Hbody. cbn [orb negb when] in Hbody.
  cbn in Hbody. inversion Hbody; subst w3. clear Hbody.
  cbn in Tt, Pt.
  exists tcip, key, off. split; [reflexivity|]. cbn zeta.
  rewrite <- Hmy. split.
  - erewrite added_app;
      [|rewrite Tt, T2, T1, <- !app_assoc; reflexivity].
    rewrite !filter_app_list, F1, F2, Ft. rewrite andb_true_r.
    cbn. rewrite ?app_nil_r. reflexivity.
  - rewrite Pt, P2, P1. reflexivity.
Qed.

(** One GET from an address with a key. *)
Lemma ofi_get_keyed_step G E fuel addr node raddr size key off w w' :
  mrGetKey G node raddr size = Some (key, off) ->
  ofi_get_xfer G E fuel addr node raddr size w = Done tt w' ->
  exists tcip ctx,
    (let myAddr := local_or_bounce G E w addr size in
     exists d,
       trace w' = trace w ++ d
       /\ List.filter is_xfer d
          = [Ev_fi_read tcip myAddr size node off key ctx;
             Ev_waitForTxnComplete tcip ctx]
            ++ (if myAddr =? addr then []
                else [Ev_memcpy addr myAddr size]))
    /\ prvData w'
       = if negb (haveDeliveryComplete G)
            && bound (tciAt (tciTab w') tcip)
         then get_clears node (prvData w)
         else prvData w.
Proof.
  intros Hk H. unfold ofi_get_xfer in H. rewrite Hk in H.
  apply bind_Done in H. destruct H as (myAddr0 & w5 & H & Hout).
  apply bind_Done in H. destruct H as (myAddr & w1 & H1 & H).
  apply bind_Done in H. destruct H as (tcip & w2 & H2 & H).
  apply bind_Done in H. destruct H as (t & w2' & Ht & H).
  inversion Ht; subst t w2'. clear Ht.
  apply localOrBounceDesc_step in H1.
  destruct H1 as (Hmy & (d1 & T1 & F1) & P1 & _).
  apply tciAlloc_step in H2. destruct H2 as ((d2 & T2 & F2) & P2).
  rewrite andb_false_r in F1.
  set (ctx := if txCQ (tciAt (tciTab w2) tcip)
              then txnTrkEncodeDone (txnDone_addr E)
              else txnTrkEncodeId ofi_get_LINE) in *.
  apply bind_Done in H. destruct H as ([] & wa & Ha & H).
  apply bind_Done in H. destruct H as ([] & wb & Hb1 & H).
  apply bind_Done in H. destruct H as ([] & wc & Hb2 & H).
  apply bind_Done in H. destruct H as ([] & wd & Hclr & H).
  apply bind_Done in H. destruct H as ([] & we & Hw & H).
  apply bind_Done in H. destruct H as ([] & wf & Hf & H).
  inversion H; subst myAddr0 w5. clear H.
  inversion Ha; subst wa. inversion Hb1; subst wb. inversion Hb2; subst wc.
  clear Ha Hb1 Hb2.
  (* the bitmap step *)
  assert (Hd : trace wd = trace w2
                          ++ [Ev_fi_read tcip myAddr size node off key ctx]
               /\ prvData wd
                  = (if negb (haveDeliveryComplete G)
                        && bound (tciAt (tciTab w2) tcip)
                     then get_clears node (prvData w2)
                     else prvData w2)
               /\ (forall i, bound (tciAt (tciTab wd) i)
                             = bound (tciAt (tciTab w2) i))).
  { destruct (negb (haveDeliveryComplete G)
              && bound (tciAt (tciTab w2) tcip)); cbn [when] in Hclr.
    - unfold bind, get_comm_taskPrvdata in Hclr. cbn in Hclr.
      unfold get_clears.
      destruct (prvData w2) as [p|]; [|discriminate]. cbn in Hclr.
      destruct (putBitmap p); unfold set_prvData, ret in Hclr;
        inversion Hclr; subst wd; cbn;
        (split; [reflexivity|]); (split; [reflexivity|]);
        intros i; rewrite !bound_upd by reflexivity; reflexivity.
    - inversion Hclr; subst wd. cbn.
      split; [reflexivity|]. split; [reflexivity|].
      intros i. rewrite !bound_upd by reflexivity. reflexivity. }
  destruct Hd as (Td & Pd & Bd).
  pose proof (pres_waitForTxnComplete_bound _ _ _ _ _ _ Hw) as Bw.
  cbn in Hw. inversion Hw; subst we. clear Hw.
  pose proof (same_bound_tciFree _ _ _ _ Hf) as Bf.
  rewrite tciFree_Done in Hf. inversion Hf as [Hwf]. clear Hf.
  assert (Tf : trace wf = trace wd ++ [Ev_waitForTxnComplete tcip ctx]
               /\ prvData wf = prvData wd).
  { subst wf.
    match goal with
    | |- context [if ?c then _ else _] => destruct c
    end; split; reflexivity. }
  destruct Tf as [Tf Pf].
  assert (Bout : bound (tciAt (tciTab w') tcip)
                 = bound (tciAt (tciTab w2) tcip)).
  { transitivity (bound (tciAt (tciTab wf) tcip)).
    - destruct (negb (myAddr =? addr)); cbn in Hout; inversion Hout;
        reflexivity.
    - rewrite Bf, Bw, Bd. reflexivity. }
  exists tcip, ctx. cbn zeta.
  rewrite <- Hmy, Bout. split.
  - destruct (myAddr =? addr); cbn in Hout; inversion Hout; subst w'; cbn.
    + eexists. split; [rewrite Tf, Td, T2, T1, <- !app_assoc; reflexivity|].
      rewrite !filter_app_list, F1, F2. reflexivity.
    + eexists. split; [rewrite Tf, Td, T2, T1, <- !app_assoc; reflexivity|].
      rewrite !filter_app_list, F1, F2. reflexivity.
  - assert (Pw' : prvData w' = prvData wf)
      by (destruct (negb (myAddr =? addr)); cbn in Hout; inversion Hout;
          reflexivity).
    rewrite Pw', Pf, Pd, P2, P1. reflexivity.
Qed.


(** X20: a GET.  For a GET the engine does not split and whose remote
    address has an MR key, a call that returns has issued one [fi_read]
    into the local buffer, or into a bounce buffer when the local buffer
    has no descriptor, has waited for it, and has then copied the data
    out of the bounce buffer if it used one.  In message-order mode on a
    bound context it has cleared the node's bit in the task's bitmap;
    otherwise the task's data is as it was. *)
Theorem ofi_get_unsplit_discipline G E fuel addr node raddr size w :
  size <= max_msg_size G ->
  mrGetKey G node raddr size <> None ->
  get_discipline G E (S fuel) addr node raddr size w.
Proof.
  intros Hsz Hkey w' H.
  rewrite ofi_get_unsplit in H by exact Hsz.
  destruct (mrGetKey G node raddr size) as [[key off]|] eqn:Hk;
    [|contradiction].
  destruct (ofi_get_keyed_step G E fuel addr node raddr size key off w w'
              Hk H) as (tcip & ctx & (d & T & F) & P).
  exists tcip, key, off, ctx. split; [reflexivity|]. cbn zeta.
  split; [|exact P].
  erewrite added_app; [|exact T]. exact F.
Qed.

Lemma ofi_put_dc_unsplit_witness :
  haveDeliveryComplete G_dc = true
  /\ 100 <= max_msg_size G_dc
  /\ mrGetKey G_dc 1 200000 100 <> None
  /\ dc_put_discipline G_dc E_demo 4 100000 1 200000 100 w_bound.
Proof.
  assert (H1 : haveDeliveryComplete G_dc = true) by reflexivity.
  assert (H2 : 100 <= max_msg_size G_dc) by (cbn; lia).
  assert (H3 : mrGetKey G_dc 1 200000 100 <> None) by discriminate.
  split; [exact H1|]. split; [exact H2|]. split; [exact H3|].
  exact (ofi_put_dc_unsplit G_dc E_demo 3 100000 1 200000 100 w_bound
           H1 H2 H3).
Defined.

(** There the PUT of 100 bytes runs to the end: a write with a
    completion context, and the wait for it. *)
Example ofi_put_dc_runs :
  exists w',
    ofi_put G_dc E_demo 4 100000 1 200000 100 w_bound = Done tt w'
    /\ trace w' = [Ev_fi_write 0 100000 100 1 200000 0
                     (txnTrkEncodeDone 520);
                   Ev_waitForTxnComplete 0 (txnTrkEncodeDone 520)]
    /\ prvData w' = prvData w_bound.
Proof. eexists. split; [vm_compute; reflexivity|]. split; reflexivity. Qed.

Lemma ofi_get_unsplit_discipline_witness :
  100 <= max_msg_size G_demo
  /\ mrGetKey G_demo 1 200000 100 <> None
  /\ get_discipline G_demo E_demo 4 100000 1 200000 100 w_pending.
Proof.
  assert (H2 : 100 <= max_msg_size G_demo) by (cbn; lia).
  assert (H3 : mrGetKey G_demo 1 200000 100 <> None) by discriminate.
  split; [exact H2|]. split; [exact H3|].
  exact (ofi_get_unsplit_discipline G_demo E_demo 3 100000 1 200000 100
           w_pending H2 H3).
Defined.

(** There the GET from node 1 runs to the end and clears bit 1 of the
    task's bitmap. *)
Example ofi_get_runs :
  exists w' p b,
    ofi_get G_demo E_demo 4 100000 1 200000 100 w_pending = Done tt w'
    /\ trace w' = [Ev_fi_read 0 100000 100 1 200000 0
                     (txnTrkEncodeDone 520);
                   Ev_waitForTxnComplete 0 (txnTrkEncodeDone 520)]
    /\ prvData w' = Some p /\ putBitmap p = Some b
    /\ bitmapTest b 1 = false.
Proof.
  eexists _, _, _. split; [vm_compute; reflexivity|].
  repeat split.
Qed.

(** ** Active messages, target side *)

Lemma tciAlloc_ttcip G E fuel w i w' :
  tciAlloc G E fuel w = Done i w' -> _ttcip w' = Some i.
Proof.
  unfold tciAlloc, tciAllocCommon. intros H.
  assert (Hfind : forall w0,
            (i0 <- findFreeTciTabEntry G E fuel false ;;
             set_ttcip (Some i0) ;;;
             when (false || (tciTabFixedAssignments G
                             && chpl_task_isFixedThread E))
                  (upd_tci i0 (set_bound true)) ;;;
             ret i0) w0 = Done i w' -> _ttcip w' = Some i).
  { intros w0 H0. apply bind_Done in H0. destruct H0 as (j & w1 & _ & H0).
    cbn in H0.
    destruct (tciTabFixedAssignments G && chpl_task_isFixedThread E);
      cbn in H0; inversion H0; subst; reflexivity. }
  destruct (_ttcip w) as [t|] eqn:Ht; [|exact (Hfind _ H)].
  destruct (bound (tciAt (tciTab w) t)).
  - inversion H; subst. exact Ht.
  - unfold atomic_exchange_allocated in H.
    destruct (allocated (tciAt (tciTab w) t)); cbn [negb] in H.
    + apply bind_Done in H. destruct H as ([] & w1 & _ & H).
      exact (Hfind _ H).
    + cbn in H. inversion H; subst. cbn. exact Ht.
Qed.

Lemma tciAlloc_bound G E fuel w h :
  _ttcip w = Some h -> bound (tciAt (tciTab w) h) = true ->
  tciAlloc G E fuel w = Done h w.
Proof.
  intros Ht Hb. unfold tciAlloc, tciAllocCommon. rewrite Ht, Hb.
  reflexivity.
Qed.

Lemma composes_same_thread : composes same_thread.
Proof.
  split.
  - intros w. split; [reflexivity|apply same_bound_refl].
  - intros w1 w2 w3 [T1 B1] [T2 B2]. split; [congruence|].
    eapply same_bound_trans; eassumption.
Qed.

Lemma pres_emit_thread e : preserves same_thread (emit e).
Proof.
  intros w a w' H. inversion H; subst. split; [reflexivity|].
  intros i. reflexivity.
Qed.

Lemma pres_upd_tci_thread i f :
  (forall x, bound (f x) = bound x) -> preserves same_thread (upd_tci i f).
Proof.
  intros Hf w a w' H. split.
  - cbn in H. inversion H; subst. reflexivity.
  - exact (same_bound_upd_tci i f Hf w a w' H).
Qed.

Lemma pres_set_prvData_thread p : preserves same_thread (set_prvData p).
Proof.
  intros w a w' H. inversion H; subst. split; [reflexivity|].
  intros i. reflexivity.
Qed.

Lemma pres_tciFree_thread i : preserves same_thread (tciFree i).
Proof.
  intros w a w' H. split; [|exact (same_bound_tciFree i w a w' H)].
  rewrite tciFree_Done in H. inversion H; subst.
  destruct (bound (tciAt (tciTab w) i)); reflexivity.
Qed.

Lemma pres_checkTxCmplsFn_thread E i :
  preserves same_thread (checkTxCmplsFn E i).
Proof.
  intros w a w' H. split; [|exact (same_bound_checkTxCmplsFn E i w a w' H)].
  cbn in H. inversion H; subst. reflexivity.
Qed.

Ltac pres_thread :=
  repeat first
    [ apply pres_ret; apply composes_same_thread
    | apply pres_bind; [apply composes_same_thread| |intros ?]
    | apply pres_when; [apply composes_same_thread|]
    | apply pres_CHK_SOME; apply composes_same_thread
    | apply pres_CHK_TRUE; apply composes_same_thread
    | apply pres_assert_SOME; apply composes_same_thread
    | apply pres_get_tci; apply composes_same_thread
    | apply pres_get_prv; apply composes_same_thread
    | apply pres_abort
    | apply pres_emit_thread
    | apply pres_set_prvData_thread
    | apply pres_tciFree_thread
    | apply pres_checkTxCmplsFn_thread
    | apply pres_upd_tci_thread; reflexivity
    | match goal with
      | |- preserves _ (if ?c then _ else _) => destruct c
      | |- preserves _ (match ?o with Some _ => _ | None => _ end) =>
          destruct o
      end ].

Lemma pres_waitForTxnComplete_thread E tcip ctx :
  preserves same_thread (waitForTxnComplete E tcip ctx).
Proof. unfold waitForTxnComplete. pres_thread. Qed.

Lemma pres_ofi_get_ll_thread G E fuel addr node raddr size ctx tcip :
  preserves same_thread
    (ofi_get_ll G E fuel addr node raddr size ctx (Some tcip)).
Proof.
  unfold ofi_get_ll, tcipOrAlloc, tcipFreeIfOwn, incr_numTxnsOut,
    incr_numTxnsSent.
  pres_thread.
Qed.

Lemma pres_localOrBounceDesc_thread G E addr size copy :
  preserves same_thread (localOrBounceDesc G E addr size copy).
Proof.
  apply pres_localOrBounceDesc;
    [apply pres_emit_thread|apply composes_same_thread].
Qed.

(** One PUT to an address with a key: the context it used is the
    thread's own afterwards, and what it put on the fabric is
    [put_ops]. *)
Lemma ofi_put_keyed_step G E fuel addr node raddr size key off w w' :
  mrGetKey G node raddr size = Some (key, off) ->
  ofi_put_xfer G E fuel addr node raddr size w = Done tt w' ->
  exists tcip myAddr,
    _ttcip w' = Some tcip
    /\ (forall h, _ttcip w = Some h -> bound (tciAt (tciTab w) h) = true ->
                  tcip = h /\ bound (tciAt (tciTab w') h) = true)
    /\ let bnd := bound (tciAt (tciTab w') tcip) in
       (haveDeliveryComplete G = false -> put_waited G bnd size = true ->
        mrGetKey G node (orderDummyMap G node) 1 <> None)
       /\ exists d,
           trace w' = trace w ++ d
           /\ List.filter is_put_traffic d
              = put_ops G E tcip bnd myAddr size node off key.
Proof.
  intros Hk H. unfold ofi_put_xfer in H. rewrite Hk in H.
  apply bind_Done in H. destruct H as (myAddr & w1 & H1 & H).
  apply bind_Done in H. destruct H as (tcip & w2 & H2 & H).
  apply bind_Done in H. destruct H as (t & w2' & Ht & H).
  inversion Ht; subst t w2'. clear Ht.
  destruct (pres_localOrBounceDesc_thread G E addr size true w myAddr w1 H1)
    as [T1 B1].
  pose proof (tciAlloc_ttcip G E fuel w1 tcip w2 H2) as T2.
  assert (K : same_thread w2 w').
  { revert H.
    match goal with
    | |- ?m w2 = _ -> _ =>
        assert (P : preserves same_thread m)
    end.
    { unfold ofi_get_ll, tcipOrAlloc, tcipFreeIfOwn, incr_numTxnsOut,
        incr_numTxnsSent, waitForTxnComplete, freeBounceBuf.
      pres_thread. }
    intros H. exact (P w2 tt w' H). }
  destruct K as [T3 B3].
  apply bind_Done in H. destruct H as ([] & w3 & Hbody & Htail).
  destruct (put_head G E fuel addr size true w myAddr w1 tcip w2 H1 H2)
    as (dh & Th & Fh & Ph).
  destruct (put_tail tcip myAddr addr w3 w' Htail) as (dt & Tt & Ft & Bt & Pt).
  exists tcip, myAddr.
  split; [congruence|].
  split.
  { intros h Hh Hb.
    rewrite <- T1 in Hh. rewrite <- (B1 h) in Hb.
    rewrite (tciAlloc_bound G E fuel w1 h Hh Hb) in H2.
    inversion H2; subst. split; [reflexivity|].
    rewrite (B3 _). exact Hb. }
  cbn zeta. rewrite (B3 tcip). unfold put_ops, put_waited.
  destruct (haveDeliveryComplete G) eqn:HDC; cbn [orb negb] in *.
  - (* delivery-complete: write with a context, wait for it *)
    split; [discriminate|].
    apply bind_Done in Hbody. destruct Hbody as ([] & wa & Ha & Hbody).
    apply bind_Done in Hbody. destruct Hbody as ([] & wb & Hb1 & Hbody).
    apply bind_Done in Hbody. destruct Hbody as ([] & wc & Hb2 & Hbody).
    apply bind_Done in Hbody. destruct Hbody as ([] & wd & Hg & Hw).
    cbn [negb when] in Hg.
    inversion Ha; subst wa. inversion Hb1; subst wb. inversion Hb2; subst wc.
    inversion Hg; subst wd. inversion Hw; subst w3. cbn in Tt.
    eexists. split; [rewrite Tt, Th, <- !app_assoc; reflexivity|].
    rewrite !filter_app_list, Fh, Ft. reflexivity.
  - destruct (negb (bound (tciAt (tciTab w2) tcip)) || (inject_size G <? size))
      eqn:Hc.
    + (* write, dummy GET, wait *)
      apply bind_Done in Hbody. destruct Hbody as ([] & wa & Ha & Hbody).
      apply bind_Done in Hbody. destruct Hbody as ([] & wb & Hb1 & Hbody).
      apply bind_Done in Hbody. destruct Hbody as ([] & wc & Hb2 & Hbody).
      apply bind_Done in Hbody. destruct Hbody as ([] & wd & Hg & Hw).
      cbn [negb when] in Hg.
      apply ofi_get_ll_held in Hg. destruct Hg as (dkey & doff & Hdk & Tg & _).
      inversion Ha; subst wa. inversion Hb1; subst wb. inversion Hb2; subst wc.
      cbn in Tg. inversion Hw; subst w3. cbn in Tt.
      split; [intros _ _; rewrite Hdk; discriminate|].
      unfold dummy_get. rewrite Hdk.
      eexists. split; [rewrite Tt, Tg, Th, <- !app_assoc; reflexivity|].
      rewrite !filter_app_list, Fh, Ft. reflexivity.
    + (* inject *)
      split; [discriminate|].
      apply bind_Done in Hbody. destruct Hbody as ([] & wa & Ha & Hbody).
      apply bind_Done in Hbody. destruct Hbody as ([] & wb & Hb1 & Hbody).
      apply bind_Done in Hbody. destruct Hbody as (o & wc & Ho & Hbody).
      apply bind_Done in Hbody. destruct Hbody as (p & wd & Hp & Hs).
      inversion Ha; subst wa. inversion Hb1; subst wb.
      inversion Ho; subst o wc. clear Ha Hb1 Ho.
      destruct (prvData _) in Hp; [|discriminate].
      inversion Hp; subst wd. inversion Hs; subst w3. cbn in Tt.
      eexists. split; [rewrite Tt, Th, <- !app_assoc; reflexivity|].
      rewrite !filter_app_list, Fh, Ft. reflexivity.
Qed.

(** The 'done' indicator: one write of one byte, nothing waited for. *)
Lemma amSendDone_step G E fuel amTcip amDone node pAmDone w amDone' w' :
  amSendDone G E fuel amTcip amDone node pAmDone w = Done amDone' w' ->
  exists tcip2,
    mrGetKey G node pAmDone sizeof_amDone_t <> None
    /\ (exists d, trace w' = trace w ++ d
                  /\ List.filter is_put_traffic d
                     = done_write G tcip2 amDone' node pAmDone)
    /\ (forall h, uses_tci amTcip w h -> tcip2 = h)
    /\ amDone' = (if amDone =? NULL then bounceBuf E (trace w) 1
                  else amDone)
    /\ prvData w' = prvData w.
Proof.
  unfold amSendDone. intros H.
  apply bind_Done in H. destruct H as (buf & w1 & H1 & H).
  apply bind_Done in H. destruct H as ([] & w2 & H2 & H).
  inversion H; subst amDone' w2. clear H.
  assert (S1 : exists d1,
             trace w1 = trace w ++ d1
             /\ List.filter is_put_traffic d1 = []
             /\ tciTab w1 = tciTab w /\ _ttcip w1 = _ttcip w
             /\ prvData w1 = prvData w
             /\ buf = (if amDone =? NULL then bounceBuf E (trace w) 1
                       else amDone)).
  { destruct (amDone =? NULL).
    - unfold allocBounceBuf, bind in H1. cbn in H1. inversion H1; subst.
      cbn. eexists. split; [rewrite <- app_assoc; reflexivity|].
      repeat split.
    - inversion H1; subst. exists []. rewrite app_nil_r. repeat split. }
  destruct S1 as (d1 & T1 & F1 & Tab1 & Tt1 & P1 & Hbuf).
  unfold ofi_put_ll in H2.
  destruct (mrGetKey G node pAmDone sizeof_amDone_t) as [[key off]|] eqn:Hk;
    [|discriminate].
  destruct (mrGetDesc G buf sizeof_amDone_t); [|discriminate].
  cbn [CHK_SOME] in H2.
  apply bind_Done in H2. destruct H2 as (kr & wa & Ha & H2).
  inversion Ha; subst kr wa. clear Ha.
  apply bind_Done in H2. destruct H2 as (x & wa & Ha & H2).
  inversion Ha; subst x wa. clear Ha.
  apply bind_Done in H2. destruct H2 as (tcip2 & w2 & Halloc & H2).
  apply bind_Done in H2. destruct H2 as ([] & w3 & Hop & Hfree).
  apply tcipOrAlloc_step in Halloc.
  destruct Halloc as (Huse & (d2 & T2 & F2) & P2).
  apply tcipFreeIfOwn_step in Hfree. destruct Hfree as [T4 P4].
  exists tcip2. split; [discriminate|].
  split; [|split; [|split; [exact Hbuf|]]].
  - unfold done_write. rewrite Hk. cbn [andb snd fst] in Hop.
    destruct (sizeof_amDone_t <=? inject_size G).
    + apply bind_Done in Hop. destruct Hop as ([] & wb & Hb & Hop).
      inversion Hb; subst wb. inversion Hop; subst w3. cbn in T4.
      eexists. split; [rewrite T4, T2, T1, <- !app_assoc; reflexivity|].
      rewrite !filter_app_list, F1, F2. reflexivity.
    + apply bind_Done in Hop. destruct Hop as ([] & wb & Hb & Hop).
      apply bind_Done in Hop. destruct Hop as ([] & wc & Hc & Hop).
      inversion Hb; subst wb. inversion Hc; subst wc.
      inversion Hop; subst w3. cbn in T4.
      eexists. split; [rewrite T4, T2, T1, <- !app_assoc; reflexivity|].
      rewrite !filter_app_list, F1, F2. reflexivity.
  - intros h Hu. apply Huse.
    destruct Hu as [->|(-> & Ht & Hb)]; [left; reflexivity|].
    right. rewrite Tt1, Tab1. repeat split; assumption.
  - rewrite P4.
    assert (P3 : prvData w3 = prvData w2).
    { destruct (true && (sizeof_amDone_t <=? inject_size G)).
      - apply bind_Done in Hop. destruct Hop as ([] & wb & Hb & Hop).
        inversion Hb; subst wb. inversion Hop; subst w3. reflexivity.
      - apply bind_Done in Hop. destruct Hop as ([] & wb & Hb & Hop).
        apply bind_Done in Hop. destruct Hop as ([] & wc & Hc & Hop).
        inversion Hb; subst wb. inversion Hc; subst wc.
        inversion Hop; subst w3. reflexivity. }
    congruence.
Qed.

(** X21: [amWrapPut], the target's side of a GET done for the initiator
    by active message, on a task's thread.  For a PUT the engine does
    not split, a call that returns has put the data on the fabric as
    [ofi_put] does and after it the one write of the 'done' indicator;
    nothing follows the 'done'.  Either the data PUT was waited for
    before the 'done' went out, or both went out on the same bound
    context. *)
Theorem amWrapPut_data_before_done G E fuel amDone rma w amDone' w' :
  rma_size rma <= max_msg_size G ->
  amWrapPut G E (S fuel) None amDone rma w = Done amDone' w' ->
  data_before_done G E (S fuel) rma w w' amDone'.
Proof.
  intros Hsz H. unfold amWrapPut in H.
  destruct (mrGetKey G (rma_b_node rma) (rma_raddr rma) (rma_size rma))
    as [[key off]|] eqn:Hk; [|discriminate].
  apply bind_Done in H. destruct H as (x & wa & Ha & H).
  inversion Ha; subst x wa. clear Ha.
  apply bind_Done in H. destruct H as ([] & w1 & Hput & Hdone).
  pose proof Hput as Hput'.
  rewrite ofi_put_unsplit in Hput' by exact Hsz.
  apply (ofi_put_keyed_step _ _ _ _ _ _ _ key off) in Hput'; [|exact Hk].
  destruct Hput' as (tcip & myAddr & Tt & _ & Hdk & d1 & T1 & F1).
  apply amSendDone_step in Hdone.
  destruct Hdone as (tcip2 & Hkd & (d2 & T2 & F2) & Huse & _ & _).
  exists w1, tcip, tcip2, myAddr, key, off.
  split; [exact Hput|]. split; [exact Hk|]. split; [exact Hkd|].
  cbn zeta. split; [exact Hdk|]. split.
  - erewrite added_app; [|rewrite T2, T1, <- app_assoc; reflexivity].
    rewrite filter_app_list, F1, F2. reflexivity.
  - intros Hw. apply Huse. right. split; [reflexivity|].
    split; [exact Tt|]. unfold put_waited in Hw.
    destruct (bound (tciAt (tciTab w1) tcip)); [reflexivity|].
    destruct (haveDeliveryComplete G); discriminate.
Qed.

Lemma amWrapPut_data_before_done_witness :
  rma_size rma_demo <= max_msg_size G_demo
  /\ amWrapPut G_demo E_demo 3 None 0 rma_demo w_bound
     = Done 8192
         (world_after (amWrapPut G_demo E_demo 3 None 0 rma_demo w_bound)
                      w_bound)
  /\ data_before_done G_demo E_demo 3 rma_demo w_bound
       (world_after (amWrapPut G_demo E_demo 3 None 0 rma_demo w_bound)
                    w_bound)
       8192.
Proof.
  assert (H1 : rma_size rma_demo <= max_msg_size G_demo)
    by (vm_compute; discriminate).
  assert (H2 : amWrapPut G_demo E_demo 3 None 0 rma_demo w_bound
               = Done 8192
                   (world_after
                      (amWrapPut G_demo E_demo 3 None 0 rma_demo w_bound)
                      w_bound))
    by (vm_compute; reflexivity).
  split; [exact H1|]. split; [exact H2|].
  exact (amWrapPut_data_before_done G_demo E_demo 2 0 rma_demo w_bound
           _ _ H1 H2).
Defined.

(** There, on the bound context 0: the data is injected, the thread
    gets its one-byte buffer and stores 1 in it, and the 'done' is
    injected behind the data. *)
Example amWrapPut_bound_trace :
  trace (world_after (amWrapPut G_demo E_demo 3 None 0 rma_demo w_bound)
                     w_bound)
  = [Ev_fi_inject_write 0 100000 50 1 200000 0;
     Ev_allocBounceBuf 8192 1;
     Ev_store 8192 1;
     Ev_fi_inject_write 0 8192 1 1 300000 0].
Proof. vm_compute. reflexivity. Qed.

(** On a thread whose context is not bound the data is written and
    forced to be visible before the 'done' goes out. *)
Example amWrapPut_unbound_trace :
  trace (world_after
           (amWrapPut G_demo E_plain 3 None 0 rma_demo w_free) w_free)
  = [Ev_fi_write 1 100000 50 1 200000 0 NULL;
     Ev_fi_read 1 4096 1 1 4096 0 (txnTrkEncodeDone 520);
     Ev_waitForTxnComplete 1 (txnTrkEncodeDone 520);
     Ev_allocBounceBuf 8192 1;
     Ev_store 8192 1;
     Ev_fi_inject_write 1 8192 1 1 300000 0].
Proof. vm_compute. reflexivity. Qed.

(** ** The target's side of a proxied PUT *)

(** X23: [amWrapGet], the target's side of a PUT done for the initiator
    by active message.  For a GET the engine does not split, a call
    that returns has read the data, waited for the read and copied the
    data out of its bounce buffer, if it used one, before it wrote the
    'done' indicator; it put nothing else on the fabric. *)
Theorem amWrapGet_data_before_done G E fuel amTcip amDone rma w amDone' w' :
  rma_size rma <= max_msg_size G ->
  amWrapGet G E (S fuel) amTcip amDone rma w = Done amDone' w' ->
  get_before_done G E rma w w' amDone'.
Proof.
  intros Hsz H. unfold amWrapGet in H.
  destruct (mrGetKey G (rma_b_node rma) (rma_raddr rma) (rma_size rma))
    as [[key off]|] eqn:Hk; [|discriminate].
  apply bind_Done in H. destruct H as (x & wa & Ha & H).
  inversion Ha; subst x wa. clear Ha.
  apply bind_Done in H. destruct H as ([] & w1 & Hget & Hdone).
  rewrite ofi_get_unsplit in Hget by exact Hsz.
  apply (ofi_get_keyed_step _ _ _ _ _ _ _ key off) in Hget; [|exact Hk].
  destruct Hget as (tcip & ctx & (d1 & T1 & F1) & _).
  apply amSendDone_step in Hdone.
  destruct Hdone as (tcip2 & Hkd & (d2 & T2 & F2) & _).
  unfold get_before_done. cbn zeta.
  exists tcip, tcip2, key, off, ctx, d1, d2.
  split; [exact Hk|]. split; [exact Hkd|].
  split; [apply added_app; rewrite T2, T1, <- app_assoc; reflexivity|].
  split; [exact F1|exact F2].
Qed.

Lemma amWrapGet_data_before_done_witness :
  rma_size rma_demo <= max_msg_size G_demo
  /\ amWrapGet G_demo E_demo 3 None 0 rma_demo w_bound
     = Done 8192
         (world_after (amWrapGet G_demo E_demo 3 None 0 rma_demo w_bound)
                      w_bound)
  /\ get_before_done G_demo E_demo rma_demo w_bound
       (world_after (amWrapGet G_demo E_demo 3 None 0 rma_demo w_bound)
                    w_bound)
       8192.
Proof.
  assert (H1 : rma_size rma_demo <= max_msg_size G_demo)
    by (vm_compute; discriminate).
  assert (H2 : amWrapGet G_demo E_demo 3 None 0 rma_demo w_bound
               = Done 8192
                   (world_after
                      (amWrapGet G_demo E_demo 3 None 0 rma_demo w_bound)
                      w_bound))
    by (vm_compute; reflexivity).
  split; [exact H1|]. split; [exact H2|].
  exact (amWrapGet_data_before_done G_demo E_demo 2 None 0 rma_demo w_bound
           _ _ H1 H2).
Defined.

(** ** Bounce buffers *)

Lemma allocs_app d1 d2 : allocs (d1 ++ d2) = allocs d1 ++ allocs d2.
Proof. unfold allocs. apply flat_map_app. Qed.

Lemma frees_app d1 d2 : frees (d1 ++ d2) = frees d1 ++ frees d2.
Proof. unfold frees. apply flat_map_app. Qed.

Lemma no_bounce_allocs d : forallb no_bounce d = true -> allocs d = [].
Proof.
  induction d as [|e d IH]; [reflexivity|]. cbn [forallb]. intros H.
  apply andb_true_iff in H. destruct H as [He Hd].
  change (e :: d) with ([e] ++ d). rewrite allocs_app, (IH Hd).
  destruct e; try reflexivity; discriminate.
Qed.

Lemma no_bounce_frees d : forallb no_bounce d = true -> frees d = [].
Proof.
  induction d as [|e d IH]; [reflexivity|]. cbn [forallb]. intros H.
  apply andb_true_iff in H. destruct H as [He Hd].
  change (e :: d) with ([e] ++ d). rewrite frees_app, (IH Hd).
  destruct e; try reflexivity; discriminate.
Qed.

Lemma clean_of_quiet {A} P (m : comm A) :
  (forall e, P e = true -> no_bounce e = true) -> quiet P m -> clean m.
Proof.
  intros HP Hq w a w' H.
  eapply quiet_Done in H; [|eapply quiet_weaken; [exact HP|exact Hq]].
  destruct H as (d & T & Q). exists d. split; [exact T|].
  split; [apply no_bounce_allocs|apply no_bounce_frees]; exact Q.
Qed.

Lemma ledger_weaken {A} (m : comm A) (P Q : A -> list Z -> list Z -> Prop) :
  (forall a al fr, P a al fr -> Q a al fr) -> ledger m P -> ledger m Q.
Proof.
  intros HPQ Hm w a w' H. destruct (Hm w a w' H) as (d & T & Hd).
  exists d. split; [exact T|]. apply HPQ. exact Hd.
Qed.

Lemma hygienic_of_clean {A} (m : comm A) : clean m -> hygienic m.
Proof.
  apply ledger_weaken. intros a al fr [-> ->]. constructor.
Qed.

Lemma ledger_bind {A B} (m : comm A) (k : A -> comm B) P Q :
  ledger m P -> (forall a, ledger (k a) (Q a)) ->
  ledger (bind m k)
         (fun b al fr =>
            exists a al1 fr1 al2 fr2,
              al = al1 ++ al2 /\ fr = fr1 ++ fr2
              /\ P a al1 fr1 /\ Q a b al2 fr2).
Proof.
  intros Hm Hk w b w' H. apply bind_Done in H.
  destruct H as (a & w1 & H1 & H2).
  destruct (Hm w a w1 H1) as (d1 & T1 & L1).
  destruct (Hk a w1 b w' H2) as (d2 & T2 & L2).
  exists (d1 ++ d2). split; [rewrite T2, T1, app_assoc; reflexivity|].
  exists a, (allocs d1), (frees d1), (allocs d2), (frees d2).
  rewrite allocs_app, frees_app. repeat split; assumption.
Qed.

Lemma hygienic_bind {A B} (m : comm A) (k : A -> comm B) :
  hygienic m -> (forall a, hygienic (k a)) -> hygienic (bind m k).
Proof.
  intros Hm Hk.
  eapply ledger_weaken;
    [|apply (ledger_bind m k (fun _ al fr => Permutation al fr)
               (fun _ _ al fr => Permutation al fr) Hm Hk)].
  cbn. intros b al fr (a & al1 & fr1 & al2 & fr2 & -> & -> & P1 & P2).
  apply Permutation_app; assumption.
Qed.

Lemma clean_bind {A B} (m : comm A) (k : A -> comm B) :
  clean m -> (forall a, clean (k a)) -> clean (bind m k).
Proof.
  intros Hm Hk.
  eapply ledger_weaken;
    [|apply (ledger_bind m k (fun _ al fr => al = [] /\ fr = [])
               (fun _ _ al fr => al = [] /\ fr = []) Hm Hk)].
  cbn. intros b al fr (a & al1 & fr1 & al2 & fr2 & -> & -> & [-> ->] & [-> ->]).
  split; reflexivity.
Qed.

Lemma all_freed_of_hygienic {A} (m : comm A) w a w' :
  hygienic m -> m w = Done a w' -> all_freed (added w w').
Proof.
  intros Hm H. destruct (Hm w a w' H) as (d & T & P).
  unfold all_freed. rewrite (added_app _ _ _ T). exact P.
Qed.

Lemma owes_nil {A} (m : comm A) : hygienic m <-> owes [] m.
Proof. split; intros H; exact H. Qed.

Lemma owes_ret {A} (a : A) : owes [] (ret a).
Proof.
  intros w a' w' H. inversion H; subst. exists []. rewrite app_nil_r.
  split; [reflexivity|]. constructor.
Qed.

Lemma owes_bind {A B} L (m : comm A) (k : A -> comm B) :
  hygienic m -> (forall a, owes L (k a)) -> owes L (bind m k).
Proof.
  intros Hm Hk.
  eapply ledger_weaken;
    [|apply (ledger_bind m k (fun _ al fr => Permutation al fr)
               (fun _ _ al fr => Permutation (L ++ al) fr) Hm Hk)].
  cbn. intros b al fr (a & al1 & fr1 & al2 & fr2 & -> & -> & P1 & P2).
  rewrite (Permutation_app_comm al1 al2), app_assoc.
  rewrite (Permutation_app_comm fr1 fr2).
  apply Permutation_app; assumption.
Qed.

Lemma owes_clean_bind {A B} L (m : comm A) (k : A -> comm B) :
  clean m -> (forall a, owes L (k a)) -> owes L (bind m k).
Proof. intros Hm. apply owes_bind. apply hygienic_of_clean. exact Hm. Qed.

Lemma owes_acquire {A B} L (R : A -> list Z) (acq : comm A)
  (k : A -> comm B) :
  acquires R acq -> (forall my, owes (R my ++ L) (k my)) ->
  owes L (bind acq k).
Proof.
  intros Hm Hk.
  eapply ledger_weaken;
    [|apply (ledger_bind acq k
               (fun my al fr => Permutation al (R my ++ fr))
               (fun my _ al fr => Permutation ((R my ++ L) ++ al) fr)
               Hm Hk)].
  cbn. intros b al fr (a & al1 & fr1 & al2 & fr2 & -> & -> & P1 & P2).
  rewrite <- P2, P1. solve_Permutation.
Qed.

Lemma owes_perm {A} L L' (m : comm A) :
  Permutation L L' -> owes L m -> owes L' m.
Proof.
  intros HL. apply ledger_weaken. intros a al fr P.
  rewrite <- P. apply Permutation_app_tail. symmetry. exact HL.
Qed.

Lemma owes_free p : owes [p] (freeBounceBuf p).
Proof.
  intros w a w' H. inversion H; subst. exists [Ev_freeBounceBuf p].
  split; [reflexivity|]. cbn. constructor. constructor.
Qed.

Lemma owes_when_free p my :
  owes (returned p my) (when (negb (my =? p)) (freeBounceBuf my)).
Proof.
  unfold returned. destruct (negb (my =? p)); cbn [when].
  - apply owes_free.
  - apply owes_ret.
Qed.

Lemma clean_emit e : no_bounce e = true -> clean (emit e).
Proof.
  intros He. apply (clean_of_quiet no_bounce); [auto|].
  apply quiet_emit. exact He.
Qed.

(** Straight-line code that allocates and frees nothing. *)
Ltac nb_step :=
  first
    [ quiet_from quiet_tciAlloc
    | quiet_from quiet_tcipOrAlloc
    | apply quiet_tcipFreeIfOwn
    | quiet_from quiet_waitForTxnComplete
    | quiet_from quiet_ofi_get_ll
    | quiet_from quiet_waitForPutsVisAllNodes
    | quiet_from quiet_waitForPutsVisOneNode
    | quiet_from quiet_retireDelayedAmDone
    | quiet_from quiet_amRequest_mcm
    | quiet_from quiet_amWaitForDone
    | quiet_step ].

Ltac nb_auto := repeat nb_step.

Ltac clean_auto :=
  apply (clean_of_quiet no_bounce); [auto|]; nb_auto.

Lemma acquires_allocBounceBuf E live size p :
  fresh E live -> live p ->
  acquires (returned p) (allocBounceBuf E size).
Proof.
  intros HF Hp w my w' H. unfold allocBounceBuf, bind in H. cbn in H.
  inversion H; subst. eexists. split; [reflexivity|]. cbn.
  unfold returned.
  destruct (Z.eqb_spec (bounceBuf E (trace w) size) p) as [Heq|_];
    [|reflexivity].
  exfalso. apply (proj2 (HF (trace w) size)). rewrite Heq. exact Hp.
Qed.

Lemma acquires_ret p : acquires (returned p) (ret p).
Proof.
  intros w my w' H. inversion H; subst. exists []. rewrite app_nil_r.
  split; [reflexivity|]. unfold returned. rewrite Z.eqb_refl.
  reflexivity.
Qed.

Lemma acquires_bind {A} (R : A -> list Z) (m : comm A) (k : A -> comm A) :
  acquires R m ->
  (forall a, hygienic (k a)) ->
  (forall a w b w', k a w = Done b w' -> b = a) ->
  acquires R (bind m k).
Proof.
  intros Hm Hk Hres.
  eapply ledger_weaken;
    [|apply (ledger_bind m k
               (fun my al fr => Permutation al (R my ++ fr))
               (fun a b al fr => Permutation al fr /\ b = a) Hm)].
  - cbn. intros b al fr
      (a & al1 & fr1 & al2 & fr2 & -> & -> & P1 & [P2 ->]).
    rewrite P1, P2. solve_Permutation.
  - intros a w b w' H. destruct (Hk a w b w' H) as (d & T & C).
    exists d. split; [exact T|]. split; [exact C|].
    exact (Hres a w b w' H).
Qed.

Lemma acquires_bind_clean {A} (R : A -> list Z) (m : comm A)
  (k : A -> comm A) :
  acquires R m ->
  (forall a, clean (k a)) ->
  (forall a w b w', k a w = Done b w' -> b = a) ->
  acquires R (bind m k).
Proof.
  intros Hm Hk. apply acquires_bind; [exact Hm|].
  intros a. apply hygienic_of_clean. apply Hk.
Qed.

Lemma owes_app {A B} L1 L2 (m : comm A) (k : A -> comm B) :
  owes L1 m -> (forall a, owes L2 (k a)) -> owes (L1 ++ L2) (bind m k).
Proof.
  intros Hm Hk.
  eapply ledger_weaken;
    [|apply (ledger_bind m k (fun _ al fr => Permutation (L1 ++ al) fr)
               (fun _ _ al fr => Permutation (L2 ++ al) fr) Hm Hk)].
  cbn. intros b al fr (a & al1 & fr1 & al2 & fr2 & -> & -> & P1 & P2).
  rewrite <- P1, <- P2. rewrite <- !app_assoc. apply Permutation_app_head.
  rewrite !app_assoc. apply Permutation_app_tail. apply Permutation_app_comm.
Qed.

Lemma owes_when L (b : bool) m :
  owes L m -> owes (if b then L else []) (when b m).
Proof. destruct b; cbn [when]; [auto|intros _; apply owes_ret]. Qed.

Lemma acquires_localOrBounceDesc G E live addr size copy :
  fresh E live -> live addr ->
  acquires (returned addr) (localOrBounceDesc G E addr size copy).
Proof.
  intros HF Ha. unfold localOrBounceDesc.
  destruct (mrGetDesc G addr size); [apply acquires_ret|].
  apply acquires_bind_clean.
  - eapply acquires_allocBounceBuf; eassumption.
  - intros a. clean_auto.
  - intros a w b w' H.
    apply bind_Done in H. destruct H as (x & w1 & _ & H).
    apply bind_Done in H. destruct H as ([] & w2 & _ & H).
    inversion H; reflexivity.
Qed.

Lemma acquires_localOrBounceKey G E live addr size copy :
  fresh E live -> live addr ->
  acquires (returned addr) (localOrBounceKey G E addr size copy).
Proof.
  intros HF Ha. unfold localOrBounceKey.
  destruct (negb (mrGetLocalKey G addr size)); [|apply acquires_ret].
  apply acquires_bind_clean.
  - eapply acquires_allocBounceBuf; eassumption.
  - intros a. clean_auto.
  - intros a w b w' H.
    apply bind_Done in H. destruct H as ([] & w1 & _ & H).
    apply bind_Done in H. destruct H as ([] & w2 & _ & H).
    inversion H; reflexivity.
Qed.

Lemma acquires_amRequest_bounceReq G E live req reqSize :
  fresh E live -> live (req_addr req) ->
  acquires (returned (req_addr req)) (amRequest_bounceReq G E req reqSize).
Proof.
  intros HF Ha. unfold amRequest_bounceReq.
  destruct (mrGetDesc G (req_addr req) reqSize); [apply acquires_ret|].
  apply acquires_bind_clean.
  - eapply acquires_allocBounceBuf; eassumption.
  - intros a. clean_auto.
  - intros a w b w' H.
    apply bind_Done in H. destruct H as (x & w1 & _ & H).
    apply bind_Done in H. destruct H as ([] & w2 & _ & H).
    inversion H; reflexivity.
Qed.

Lemma acquires_amRequest_setUpDone G E live ppAmDone :
  fresh E live -> live (amDone_addr E) ->
  acquires (returned_done E) (amRequest_setUpDone G E ppAmDone).
Proof.
  intros HF Ha w p w' H. unfold amRequest_setUpDone in H.
  destruct ppAmDone.
  - destruct (mrGetLocalKey G (amDone_addr E) 1) eqn:Hk; cbn [negb] in H.
    + cbn in H. inversion H; subst. eexists. split; [reflexivity|].
      cbn. unfold returned_done.
      rewrite Z.eqb_refl, andb_false_r. reflexivity.
    + unfold allocBounceBuf, bind in H. cbn in H.
      destruct (mrGetLocalKey G (bounceBuf E (trace w) 1) 1);
        cbn in H; [|discriminate].
      inversion H; subst. eexists.
      split; [rewrite <- app_assoc; reflexivity|]. cbn.
      unfold returned_done.
      destruct (HF (trace w) 1) as [Hn Hl].
      destruct (Z.eqb_spec (bounceBuf E (trace w) 1) NULL);
        [contradiction|].
      destruct (Z.eqb_spec (bounceBuf E (trace w) 1) (amDone_addr E)) as [Heq|];
        [|reflexivity].
      exfalso. apply Hl. rewrite Heq. exact Ha.
  - inversion H; subst. exists []. rewrite app_nil_r.
    split; [reflexivity|]. reflexivity.
Qed.

Lemma owes_amRequest_finish E req tcip myTcip myReq pAmDone :
  owes (returned (req_addr req) myReq ++ returned_done E pAmDone)
       (amRequest_finish E req tcip myTcip myReq pAmDone).
Proof.
  unfold amRequest_finish.
  apply owes_clean_bind; [clean_auto|intros _].
  apply owes_app; [apply owes_when_free|intros _].
  unfold returned_done.
  destruct (negb (pAmDone =? NULL)); cbn [andb when]; [|apply owes_ret].
  apply owes_clean_bind; [clean_auto|intros _].
  destruct (negb (pAmDone =? amDone_addr E)); cbn [when];
    [apply owes_free|apply owes_ret].
Qed.

Lemma clean_amRequest_xmit G E node myReq reqSize pAmDone myTcip :
  clean (amRequest_xmit G E node myReq reqSize pAmDone myTcip).
Proof. unfold amRequest_xmit. clean_auto. Qed.

Lemma hygienic_amRequestCommon G E live fuel node req reqSize ppAmDone tcip :
  fresh E live -> live (amDone_addr E) -> live (req_addr req) ->
  hygienic (amRequestCommon G E fuel node req reqSize ppAmDone tcip).
Proof.
  intros HF Hd Hr. unfold amRequestCommon. apply owes_nil.
  eapply owes_acquire;
    [eapply acquires_amRequest_setUpDone; eassumption|intros pAmDone].
  rewrite app_nil_r.
  apply owes_clean_bind; [clean_auto|intros myTcip].
  eapply owes_acquire;
    [eapply acquires_amRequest_bounceReq; eassumption|intros myReq].
  apply owes_clean_bind; [clean_auto|intros _].
  apply owes_clean_bind; [apply clean_amRequest_xmit|intros _].
  apply owes_amRequest_finish.
Qed.

Lemma fresh_weaken E (live live' : Z -> Prop) :
  (forall a, live' a -> live a) -> fresh E live -> fresh E live'.
Proof.
  intros Hl HF tr sz. destruct (HF tr sz) as [Hn Hx].
  split; [exact Hn|]. intros H. apply Hx. apply Hl. exact H.
Qed.

Lemma hygienic_amRequestRMA G E live fuel node op addr raddr size :
  fresh E live -> live (amDone_addr E) -> live (amReq_addr E) ->
  hygienic (amRequestRMA G E fuel node op addr raddr size).
Proof.
  intros HF Hd Hr. unfold amRequestRMA. apply owes_nil.
  apply owes_clean_bind; [clean_auto|intros _].
  apply owes_nil. eapply hygienic_amRequestCommon; eassumption.
Qed.

Lemma hygienic_ofi_put_xfer G E live fuel addr node raddr size :
  fresh E live -> live (amDone_addr E) -> live (amReq_addr E) ->
  live addr ->
  hygienic (ofi_put_xfer G E fuel addr node raddr size).
Proof.
  intros HF Hd Hr Ha. unfold ofi_put_xfer. apply owes_nil.
  destruct (mrGetKey G node raddr size) as [[mrKey mrRaddr]|].
  - eapply owes_acquire;
      [eapply acquires_localOrBounceDesc; eassumption|intros myAddr].
    rewrite app_nil_r.
    apply owes_clean_bind; [clean_auto|intros tcip].
    apply owes_clean_bind; [clean_auto|intros t].
    apply owes_clean_bind; [clean_auto|intros _].
    apply owes_clean_bind; [clean_auto|intros _].
    apply owes_when_free.
  - eapply owes_acquire;
      [eapply acquires_localOrBounceKey; eassumption|intros myAddr].
    rewrite app_nil_r.
    apply owes_bind; [eapply hygienic_amRequestRMA; eassumption|intros _].
    apply owes_when_free.
Qed.

Lemma owes_when_copy_free addr my size :
  owes (returned addr my)
       (when (negb (my =? addr))
          (emit (Ev_memcpy addr my size) ;;; freeBounceBuf my)).
Proof.
  unfold returned. destruct (negb (my =? addr)); cbn [when].
  - apply owes_clean_bind; [clean_auto|intros _]. apply owes_free.
  - apply owes_ret.
Qed.

Lemma hygienic_ofi_get_xfer G E live fuel addr node raddr size :
  fresh E live -> live (amDone_addr E) -> live (amReq_addr E) ->
  live addr ->
  hygienic (ofi_get_xfer G E fuel addr node raddr size).
Proof.
  intros HF Hd Hr Ha. unfold ofi_get_xfer. apply owes_nil.
  eapply owes_acquire with (R := returned addr);
    [|intros myAddr; rewrite app_nil_r; apply owes_when_copy_free].
  destruct (mrGetKey G node raddr size) as [[mrKey mrRaddr]|].
  - apply acquires_bind_clean.
    + eapply acquires_localOrBounceDesc; eassumption.
    + intros a. clean_auto.
    + intros a w b w' H.
      repeat (apply bind_Done in H; destruct H as (? & ? & _ & H)).
      inversion H; reflexivity.
  - apply acquires_bind.
    + eapply acquires_localOrBounceKey; eassumption.
    + intros a. apply owes_nil.
      apply owes_bind; [eapply hygienic_amRequestRMA; eassumption|intros _].
      apply owes_ret.
    + intros a w b w' H.
      apply bind_Done in H. destruct H as (? & ? & _ & H).
      inversion H; reflexivity.
Qed.

Lemma hygienic_splitLoop k (xfer : Z -> Z -> comm unit) size :
  (forall i c, 0 <= i -> 0 < c -> i + c <= size -> hygienic (xfer i c)) ->
  forall i chunkSize,
    0 <= i -> 0 < chunkSize ->
    hygienic (splitLoop k xfer size i chunkSize).
Proof.
  intros Hx. induction k as [|k IH]; intros i chunkSize Hi Hc;
    cbn [splitLoop].
  - destruct (i <? size); [intros w a w' H; discriminate|].
    apply owes_nil, owes_ret.
  - destruct (Z.ltb_spec i size) as [Hlt|_]; [|apply owes_nil, owes_ret].
    apply hygienic_bind.
    + apply Hx; [exact Hi| |];
        destruct (Z.ltb_spec (size - i) chunkSize); lia.
    + intros _. apply IH;
        destruct (Z.ltb_spec (size - i) chunkSize); lia.
Qed.

Lemma hygienic_ofi_put G E fuel node :
  0 < max_msg_size G ->
  forall addr raddr size,
    0 < size -> fresh E (xfer_live E addr size) ->
    hygienic (ofi_put G E fuel addr node raddr size).
Proof.
  intros Hmax. induction fuel as [|fuel IH]; intros addr raddr size Hs HF;
    cbn [ofi_put]; [intros w a w' H; discriminate|].
  destruct (max_msg_size G <? size).
  - apply hygienic_splitLoop; [|lia|exact Hmax].
    intros i c Hi Hc Hic. apply IH; [exact Hc|].
    eapply fresh_weaken; [|exact HF].
    unfold xfer_live. intros a [H|[H|H]]; [auto|auto|right; right; lia].
  - eapply hygienic_ofi_put_xfer; [exact HF| | |]; unfold xfer_live;
      [auto|auto|right; right; lia].
Qed.

Lemma hygienic_ofi_get G E fuel node :
  0 < max_msg_size G ->
  forall addr raddr size,
    0 < size -> fresh E (xfer_live E addr size) ->
    hygienic (ofi_get G E fuel addr node raddr size).
Proof.
  intros Hmax. induction fuel as [|fuel IH]; intros addr raddr size Hs HF;
    cbn [ofi_get]; [intros w a w' H; discriminate|].
  destruct (max_msg_size G <? size).
  - apply hygienic_splitLoop; [|lia|exact Hmax].
    intros i c Hi Hc Hic. apply IH; [exact Hc|].
    eapply fresh_weaken; [|exact HF].
    unfold xfer_live. intros a [H|[H|H]]; [auto|auto|right; right; lia].
  - eapply hygienic_ofi_get_xfer; [exact HF| | |]; unfold xfer_live;
      [auto|auto|right; right; lia].
Qed.

(** X24: [amRequestCommon] leaks no bounce buffer.  Given an allocator
    that returns neither [NULL] nor the address of the request or of the
    function's own 'done' flag, a call that returns has freed every
    bounce buffer it allocated, each once, and nothing else. *)
Theorem amRequestCommon_frees_bounce
  G E fuel node req reqSize ppAmDone tcip w w' :
  fresh E (am_live E (req_addr req)) ->
  amRequestCommon G E fuel node req reqSize ppAmDone tcip w = Done tt w' ->
  all_freed (added w w').
Proof.
  intros HF H. eapply all_freed_of_hygienic; [|exact H].
  eapply hygienic_amRequestCommon; [exact HF| |]; unfold am_live; auto.
Qed.

Lemma fresh_E_heap_am : fresh E_heap (am_live E_heap 536).
Proof.
  intros tr sz. unfold am_live, NULL.
  cbn [bounceBuf amDone_addr E_heap].
  split; [lia|]. intros [H|H]; lia.
Qed.

Lemma amRequestCommon_frees_bounce_witness :
  fresh E_heap (am_live E_heap (req_addr req_get))
  /\ amRequestCommon G_heap E_heap 3 1 req_get 48 true None w_bound
     = Done tt
         (world_after
            (amRequestCommon G_heap E_heap 3 1 req_get 48 true None w_bound)
            w_bound)
  /\ all_freed
       (added w_bound
          (world_after
             (amRequestCommon G_heap E_heap 3 1 req_get 48 true None
                              w_bound) w_bound)).
Proof.
  assert (H1 := fresh_E_heap_am).
  assert (H2 : amRequestCommon G_heap E_heap 3 1 req_get 48 true None
                               w_bound
               = Done tt
                   (world_after
                      (amRequestCommon G_heap E_heap 3 1 req_get 48 true
                                       None w_bound) w_bound))
    by (vm_compute; reflexivity).
  split; [exact H1|]. split; [exact H2|].
  exact (amRequestCommon_frees_bounce G_heap E_heap 3 1 req_get 48 true None
           w_bound _ H1 H2).
Defined.

(** There both the 'done' flag and the request are on the stack, which
    is not registered: each gets a bounce buffer, and both are freed. *)
Example amRequestCommon_bounces :
  trace (world_after
           (amRequestCommon G_heap E_heap 3 1 req_get 48 true None w_bound)
           w_bound)
  = [Ev_allocBounceBuf 8192 1;
     Ev_store 8192 0;
     Ev_allocBounceBuf 16384 48;
     Ev_memcpy 16384 536 48;
     Ev_waitForPutsVisOneNode 1;
     Ev_fi_send 0 16384 48 1 (txnTrkEncodeDone 520);
     Ev_waitForTxnComplete 0 (txnTrkEncodeDone 520);
     Ev_freeBounceBuf 16384;
     Ev_amWaitForDone 8192;
     Ev_freeBounceBuf 8192].
Proof. vm_compute. reflexivity. Qed.

(** X25: [ofi_put] leaks no bounce buffer, whether it splits the
    transfer or not and whether it writes directly or has the target
    GET the data.  Given an allocator that returns neither [NULL] nor an
    address inside the caller's buffer nor that of the AM request or its
    'done' flag, a call that returns has freed every bounce buffer it
    allocated, each once, and nothing else. *)
Theorem ofi_put_frees_bounce G E fuel addr node raddr size w w' :
  0 < max_msg_size G -> 0 < size ->
  fresh E (xfer_live E addr size) ->
  ofi_put G E fuel addr node raddr size w = Done tt w' ->
  all_freed (added w w').
Proof.
  intros Hmax Hs HF H. eapply all_freed_of_hygienic; [|exact H].
  apply hygienic_ofi_put; assumption.
Qed.

Lemma fresh_E_heap_xfer : fresh E_heap (xfer_live E_heap 5001300 2500).
Proof.
  intros tr sz. unfold xfer_live, NULL.
  cbn [bounceBuf amDone_addr amReq_addr E_heap].
  split; [lia|]. intros [H|[H|H]]; lia.
Qed.

Lemma ofi_put_frees_bounce_witness :
  0 < max_msg_size G_heap /\ 0 < 2500
  /\ fresh E_heap (xfer_live E_heap 5001300 2500)
  /\ ofi_put G_heap E_heap 6 5001300 1 200000 2500 w_bound
     = Done tt
         (world_after
            (ofi_put G_heap E_heap 6 5001300 1 200000 2500 w_bound) w_bound)
  /\ all_freed
       (added w_bound
          (world_after
             (ofi_put G_heap E_heap 6 5001300 1 200000 2500 w_bound)
             w_bound)).
Proof.
  assert (H1 : 0 < max_msg_size G_heap) by (vm_compute; reflexivity).
  assert (H2 : 0 < 2500) by lia.
  assert (H3 := fresh_E_heap_xfer).
  assert (H4 : ofi_put G_heap E_heap 6 5001300 1 200000 2500 w_bound
               = Done tt
                   (world_after
                      (ofi_put G_heap E_heap 6 5001300 1 200000 2500
                               w_bound) w_bound))
    by (vm_compute; reflexivity).
  split; [exact H1|]. split; [exact H2|]. split; [exact H3|].
  split; [exact H4|].
  exact (ofi_put_frees_bounce G_heap E_heap 6 5001300 1 200000 2500 w_bound
           _ H1 H2 H3 H4).
Defined.

(** There the PUT goes out in three chunks, each through a bounce
    buffer and an AM with two more: nine buffers, all freed. *)
Example ofi_put_bounces :
  let d := added w_bound
             (world_after
                (ofi_put G_heap E_heap 6 5001300 1 200000 2500 w_bound)
                w_bound) in
  length (allocs d) = 9%nat /\ length (frees d) = 9%nat.
Proof. vm_compute. split; reflexivity. Qed.

(** X26: [ofi_get] leaks no bounce buffer, under the same condition on
    the allocator: a call that returns has freed every bounce buffer it
    allocated, each once, and nothing else. *)
Theorem ofi_get_frees_bounce G E fuel addr node raddr size w w' :
  0 < max_msg_size G -> 0 < size ->
  fresh E (xfer_live E addr size) ->
  ofi_get G E fuel addr node raddr size w = Done tt w' ->
  all_freed (added w w').
Proof.
  intros Hmax Hs HF H. eapply all_freed_of_hygienic; [|exact H].
  apply hygienic_ofi_get; assumption.
Qed.

Lemma ofi_get_frees_bounce_witness :
  0 < max_msg_size G_heap /\ 0 < 2500
  /\ fresh E_heap (xfer_live E_heap 5001300 2500)
  /\ ofi_get G_heap E_heap 6 5001300 1 200000 2500 w_bound
     = Done tt
         (world_after
            (ofi_get G_heap E_heap 6 5001300 1 200000 2500 w_bound) w_bound)
  /\ all_freed
       (added w_bound
          (world_after
             (ofi_get G_heap E_heap 6 5001300 1 200000 2500 w_bound)
             w_bound)).
Proof.
  assert (H1 : 0 < max_msg_size G_heap) by (vm_compute; reflexivity).
  assert (H2 : 0 < 2500) by lia.
  assert (H3 := fresh_E_heap_xfer).
  assert (H4 : ofi_get G_heap E_heap 6 5001300 1 200000 2500 w_bound
               = Done tt
                   (world_after
                      (ofi_get G_heap E_heap 6 5001300 1 200000 2500
                               w_bound) w_bound))
    by (vm_compute; reflexivity).
  split; [exact H1|]. split; [exact H2|]. split; [exact H3|].
  split; [exact H4|].
  exact (ofi_get_frees_bounce G_heap E_heap 6 5001300 1 200000 2500 w_bound
           _ H1 H2 H3 H4).
Defined.

(** *** Atomic operations *)

Lemma clean_doCpuAMO obj op ty size : clean (doCpuAMO obj op ty size).
Proof.
  unfold doCpuAMO. apply (clean_of_quiet no_bounce); [auto|].
  apply quiet_bind; [auto with quiet|intros _].
  destruct op; destruct ty; cbn [is_int_datatype]; nb_auto.
Qed.

Lemma owes_then_clean {A B} L (m : comm A) (k : A -> comm B) :
  owes L m -> (forall a, clean (k a)) -> owes L (bind m k).
Proof.
  intros Hm Hk. apply (owes_perm (L ++ [])); [rewrite app_nil_r; reflexivity|].
  apply owes_app; [exact Hm|]. intros a. apply owes_nil.
  apply hygienic_of_clean. apply Hk.
Qed.

Lemma acquires_ext {A} (R R' : A -> list Z) (m : comm A) :
  (forall a, R a = R' a) -> acquires R m -> acquires R' m.
Proof.
  intros HR. apply ledger_weaken. intros a al fr. rewrite HR. auto.
Qed.

Lemma acquires_amoBounce G E live p size copy :
  fresh E live -> live p ->
  acquires (returned p) (amoBounce G E p size copy).
Proof.
  intros HF Hp. unfold amoBounce.
  destruct (negb (p =? NULL));
    [eapply acquires_localOrBounceDesc; eassumption|apply acquires_ret].
Qed.

Lemma acquires_amoBounce_res G E live p size copy :
  fresh E live -> live p ->
  acquires (returned_res p) (amoBounce G E p size copy).
Proof.
  intros HF Hp. unfold amoBounce.
  destruct (Z.eqb_spec p NULL) as [Hn|Hn]; cbn [negb].
  - intros w my w' H. inversion H; subst. exists []. rewrite app_nil_r.
    split; [reflexivity|]. unfold returned_res. rewrite Z.eqb_refl.
    reflexivity.
  - eapply acquires_ext;
      [|eapply acquires_localOrBounceDesc; eassumption].
    intros a. unfold returned_res, returned.
    destruct (Z.eqb_spec p NULL); [contradiction|reflexivity].
Qed.

Lemma hygienic_ofi_amo G E live fuel node object mrKey
  operand1 operand2 result ofiOp ofiType size :
  fresh E live -> live operand1 -> live operand2 -> live result ->
  hygienic (ofi_amo G E fuel node object mrKey operand1 operand2 result
                    ofiOp ofiType size).
Proof.
  intros HF H1 H2 Hr. unfold ofi_amo. apply owes_nil.
  eapply owes_acquire;
    [eapply acquires_amoBounce_res; eassumption|intros myRes].
  eapply owes_acquire;
    [eapply acquires_amoBounce; [exact HF|exact H1]|intros myOpnd1].
  eapply owes_acquire;
    [eapply acquires_amoBounce; [exact HF|exact H2]|intros myOpnd2].
  apply owes_clean_bind; [clean_auto|intros tcip].
  apply owes_clean_bind; [clean_auto|intros _].
  apply owes_clean_bind; [clean_auto|intros t].
  apply owes_clean_bind; [clean_auto|intros _].
  apply owes_clean_bind; [clean_auto|intros _].
  apply owes_clean_bind; [clean_auto|intros _].
  apply owes_clean_bind; [clean_auto|intros _].
  apply owes_clean_bind; [clean_auto|intros _].
  apply (owes_perm (returned_res result myRes
                    ++ returned operand1 myOpnd1
                    ++ returned operand2 myOpnd2));
    [solve_Permutation|].
  apply owes_app; [|intros _; apply owes_app; [|intros _]];
    [|apply owes_when_free|apply owes_when_free].
  unfold returned_res.
  destruct (negb (result =? NULL) && negb (myRes =? result)); cbn [when];
    [|apply owes_ret].
  apply owes_clean_bind; [clean_auto|intros _]. apply owes_free.
Qed.

Lemma clean_setUpDelayedAmDone E : clean (setUpDelayedAmDone E).
Proof. unfold setUpDelayedAmDone. clean_auto. Qed.

Lemma hygienic_amRequestAMO G E live fuel node object
  operand1 operand2 result ofiOp ofiType size :
  fresh E live -> live (amDone_addr E) -> live (amReq_addr E) ->
  live result ->
  hygienic (amRequestAMO G E fuel node object operand1 operand2 result
                         ofiOp ofiType size).
Proof.
  intros HF Hd Hq Hr. unfold amRequestAMO. apply owes_nil.
  apply owes_clean_bind; [clean_auto|intros tcip].
  eapply owes_acquire with (R := fun dr => returned result (snd dr)).
  - destruct (result =? NULL).
    + intros w dr w' H. apply bind_Done in H.
      destruct H as (d & w1 & Hs & H). inversion H; subst dr w1.
      destruct (clean_setUpDelayedAmDone E w d w' Hs) as (dd & T & Ha & Hf).
      exists dd. split; [exact T|]. rewrite Ha, Hf. cbn. unfold returned.
      rewrite Z.eqb_refl. reflexivity.
    + destruct (negb (mrGetLocalKey G result size)).
      * intros w dr w' H. apply bind_Done in H.
        destruct H as (p & w1 & Ha & H).
        apply bind_Done in H. destruct H as ([] & w2 & Hc & H).
        inversion H; subst dr w2.
        destruct (acquires_allocBounceBuf E live size result HF Hr
                    w p w1 Ha) as (d1 & T1 & P1).
        assert (w' = w1).
        { destruct (mrGetLocalKey G p size); cbn in Hc;
            [inversion Hc; reflexivity|discriminate]. }
        subst w'. exists d1. split; [exact T1|exact P1].
      * intros w dr w' H. inversion H; subst. exists [].
        rewrite app_nil_r. split; [reflexivity|]. cbn. unfold returned.
        rewrite Z.eqb_refl. reflexivity.
  - intros dr. rewrite app_nil_r. cbn zeta.
    apply owes_clean_bind; [clean_auto|intros _].
    apply owes_clean_bind; [clean_auto|intros _].
    apply owes_bind;
      [eapply hygienic_amRequestCommon; eassumption|intros _].
    apply owes_then_clean; [apply owes_when_copy_free|intros _; clean_auto].
Qed.

Lemma hygienic_doAMO G E fuel node object operand1 operand2 result
  ofiOp ofiType size :
  fresh E (amo_live E operand1 operand2 result) ->
  hygienic (doAMO G E fuel node object operand1 operand2 result
                  ofiOp ofiType size).
Proof.
  intros HF. unfold doAMO.
  destruct (chpl_numNodes G <=? 1);
    [apply hygienic_of_clean, clean_doCpuAMO|].
  apply owes_nil. apply owes_clean_bind; [clean_auto|intros _].
  destruct (if isAtomicValid G ofiType
            then mrGetKey G node object size else None) as [[mrKey mrRaddr]|].
  - apply owes_nil.
    eapply hygienic_ofi_amo; [exact HF| | |]; unfold amo_live; auto.
  - destruct (node =? chpl_nodeID G).
    + apply owes_clean_bind; [clean_auto|intros _].
      apply owes_nil, hygienic_of_clean, clean_doCpuAMO.
    + apply owes_nil.
      eapply hygienic_amRequestAMO; [exact HF| | |]; unfold amo_live; auto.
Qed.

(** X27: [doAMO] leaks no bounce buffer, whichever way the operation
    goes: on the CPU, as a native atomic, or by active message.  Given
    an allocator that returns neither [NULL] nor the address of an
    operand, of the result, or of the AM request and its 'done' flag, a
    call that returns has freed every bounce buffer it allocated, each
    once, and nothing else. *)
Theorem doAMO_frees_bounce G E fuel node object operand1 operand2 result
  ofiOp ofiType size w w' :
  fresh E (amo_live E operand1 operand2 result) ->
  doAMO G E fuel node object operand1 operand2 result ofiOp ofiType size w
  = Done tt w' ->
  all_freed (added w w').
Proof.
  intros HF H. eapply all_freed_of_hygienic; [|exact H].
  apply hygienic_doAMO. exact HF.
Qed.

Lemma fresh_E_heap_amo : fresh E_heap (amo_live E_heap 5001400 NULL 5001300).
Proof.
  intros tr sz. unfold amo_live, NULL.
  cbn [bounceBuf amDone_addr amReq_addr E_heap].
  split; [lia|]. intros [H|[H|[H|[H|H]]]]; lia.
Qed.

Lemma doAMO_frees_bounce_witness :
  fresh E_heap (amo_live E_heap 5001400 NULL 5001300)
  /\ doAMO G_heap E_heap 3 1 300000 5001400 NULL 5001300 FI_SUM FI_INT64 8
           w_bound
     = Done tt
         (world_after
            (doAMO G_heap E_heap 3 1 300000 5001400 NULL 5001300
                   FI_SUM FI_INT64 8 w_bound) w_bound)
  /\ all_freed
       (added w_bound
          (world_after
             (doAMO G_heap E_heap 3 1 300000 5001400 NULL 5001300
                    FI_SUM FI_INT64 8 w_bound) w_bound)).
Proof.
  assert (H1 := fresh_E_heap_amo).
  assert (H2 : doAMO G_heap E_heap 3 1 300000 5001400 NULL 5001300
                     FI_SUM FI_INT64 8 w_bound
               = Done tt
                   (world_after
                      (doAMO G_heap E_heap 3 1 300000 5001400 NULL 5001300
                             FI_SUM FI_INT64 8 w_bound) w_bound))
    by (vm_compute; reflexivity).
  split; [exact H1|]. split; [exact H2|].
  exact (doAMO_frees_bounce G_heap E_heap 3 1 300000 5001400 NULL 5001300
           FI_SUM FI_INT64 8 w_bound _ H1 H2).
Defined.

(** There the fetching add goes by active message: the result, the
    'done' flag and the request each get a bounce buffer. *)
Example doAMO_bounces :
  let d := added w_bound
             (world_after
                (doAMO G_heap E_heap 3 1 300000 5001400 NULL 5001300
                       FI_SUM FI_INT64 8 w_bound) w_bound) in
  allocs d = [8192; 16384; 24576] /\ frees d = [24576; 16384; 8192].
Proof. vm_compute. split; reflexivity. Qed.

(** ** executeOn *)

Ltac nw_step :=
  first
    [ quiet_from quiet_tcipOrAlloc
    | quiet_from quiet_amRequest_bounceReq
    | quiet_from quiet_amRequest_mcm
    | quiet_from quiet_waitForTxnComplete
    | quiet_from quiet_freeBounceBuf
    | apply quiet_tcipFreeIfOwn
    | quiet_step ].

(** A request that asks for no 'done' flag waits for none. *)
Lemma quiet_amRequestCommon_nb G E fuel node req reqSize tcip :
  quiet ev_nowait (amRequestCommon G E fuel node req reqSize false tcip).
Proof.
  assert (Hrest : quiet ev_nowait
            (myTcip <- tcipOrAlloc G E fuel tcip ;;
             myReq <- amRequest_bounceReq G E req reqSize ;;
             amRequest_mcm G E fuel node req myTcip ;;;
             amRequest_xmit G E node myReq reqSize NULL myTcip ;;;
             amRequest_finish E req tcip myTcip myReq NULL)).
  { unfold amRequest_xmit, amRequest_finish.
    change (negb (NULL =? NULL)) with false. cbn [when].
    repeat nw_step. }
  intros w. exact (Hrest w).
Qed.

Lemma filter_amWait_nowait d :
  forallb ev_nowait d = true -> List.filter ev_amWait d = [].
Proof.
  intros H. apply (filter_nil_of_class ev_nowait); [exact H|].
  intros e He. unfold ev_nowait in He. destruct (ev_amWait e);
    [discriminate|reflexivity].
Qed.

(** X28: the buffers of [amRequestExecOn].  Given an allocator that
    returns neither [NULL] nor the address of the bundle, of the request
    or of its 'done' flag: a blocking call that returns, and one whose
    bundle fits a request, has freed every buffer it allocated; a
    non-blocking call with a larger bundle has copied the payload to the
    heap, has waited for no 'done' flag after that, and has left the
    copy allocated, for the target to have it freed, while it freed
    every other buffer it allocated. *)
Theorem amRequestExecOn_buffers
  G E Ly fuel node arg argSize fast blocking w w' :
  fresh E (exec_live E arg) ->
  amRequestExecOn G E Ly fuel node arg argSize fast blocking w = Done tt w' ->
  execOn_buffers Ly arg argSize blocking w w'.
Proof.
  intros HF H. unfold execOn_buffers.
  assert (Hd : exec_live E arg (amDone_addr E)) by (left; reflexivity).
  assert (Hq : exec_live E arg (amReq_addr E))
    by (right; left; reflexivity).
  assert (Ha : exec_live E arg arg) by (right; right; reflexivity).
  destruct (blocking || (argSize <=? sizeof_amRequest_t Ly)) eqn:Hc.
  - (* everything is freed *)
    eapply all_freed_of_hygienic; [|exact H].
    unfold amRequestExecOn. apply owes_nil.
    apply owes_clean_bind; [clean_auto|intros _].
    apply owes_clean_bind; [clean_auto|intros _].
    destruct (argSize <=? sizeof_amRequest_t Ly).
    + apply owes_nil. eapply hygienic_amRequestCommon; eassumption.
    + rewrite orb_false_r in Hc. subst blocking. cbn [negb orb andb].
      rewrite andb_true_r.
      eapply owes_acquire
        with (R := fun p => if negb (mrGetLocalKey G arg argSize)
                            then [p] else []).
      * destruct (negb (mrGetLocalKey G arg argSize)).
        -- intros w0 p w1 H0. unfold allocBounceBuf, bind in H0.
           cbn in H0. inversion H0; subst. eexists.
           split; [rewrite <- app_assoc; reflexivity|]. reflexivity.
        -- intros w0 p w1 H0. inversion H0; subst. exists [].
           rewrite app_nil_r. split; reflexivity.
      * intros p. rewrite app_nil_r.
        apply owes_bind;
          [eapply hygienic_amRequestCommon; eassumption|intros _].
        apply owes_when. apply owes_free.
  - (* the payload is handed over *)
    apply orb_false_iff in Hc. destruct Hc as [-> Hbig].
    unfold amRequestExecOn in H. rewrite Hbig in H. cbn [negb orb andb] in H.
    apply bind_Done in H. destruct H as ([] & w0 & Hchk & H).
    assert (w0 = w).
    { destruct (negb (fast && true)); cbn in Hchk;
        [inversion Hchk; reflexivity|discriminate]. }
    subst w0. clear Hchk.
    apply bind_Done in H. destruct H as ([] & w1 & Hret & H).
    apply bind_Done in H. destruct H as (p & w2 & Hcopy & H).
    apply bind_Done in H. destruct H as ([] & w3 & Hreq & H).
    cbn [when] in H. inversion H; subst w3. clear H.
    assert (Cr : clean (retireDelayedAmDone E false)) by clean_auto.
    destruct (Cr w tt w1 Hret) as (d1 & T1 & A1 & F1).
    unfold allocBounceBuf, bind in Hcopy. cbn in Hcopy.
    inversion Hcopy; subst p w2. clear Hcopy.
    destruct (hygienic_amRequestCommon G E (exec_live E arg) fuel node
                {| b_op := am_opExecOnLrg; amo_ofiOp := FI_OP_OTHER;
                   req_addr := amReq_addr E |}
                (sizeof_amRequest_execOnLrg_t Ly) false None HF Hd Hq
                _ _ _ Hreq) as (d2 & T2 & P2).
    assert (Q2 := quiet_Done _ _ _ _ _
                    (quiet_amRequestCommon_nb G E fuel node _ _ None) Hreq).
    destruct Q2 as (d2' & T2' & Q2).
    assert (d2' = d2) by (rewrite T2 in T2'; eapply app_inv_head; eauto).
    subst d2'. cbn [trace] in T2.
    assert (T : trace w'
                = trace w
                  ++ d1 ++ Ev_allocBounceBuf (bounceBuf E (trace w1)
                                (argSize - offsetof_payload Ly))
                              (argSize - offsetof_payload Ly)
                     :: Ev_memcpy (bounceBuf E (trace w1)
                                     (argSize - offsetof_payload Ly))
                                  (arg + offsetof_payload Ly)
                                  (argSize - offsetof_payload Ly)
                     :: d2).
    { rewrite T2, T1, <- !app_assoc. reflexivity. }
    exists (bounceBuf E (trace w1) (argSize - offsetof_payload Ly)), d1, d2.
    rewrite (added_app _ _ _ T).
    split; [reflexivity|]. split; [apply filter_amWait_nowait; exact Q2|].
    change (?a :: ?b :: d2) with ([a; b] ++ d2).
    rewrite !allocs_app, !frees_app, A1, F1. cbn. constructor. exact P2.
Qed.

Lemma fresh_E_heap_exec : fresh E_heap (exec_live E_heap 5001300).
Proof.
  intros tr sz. unfold exec_live, NULL.
  cbn [bounceBuf amDone_addr amReq_addr E_heap].
  split; [lia|]. intros [H|[H|H]]; lia.
Qed.

Lemma amRequestExecOn_buffers_witness :
  fresh E_heap (exec_live E_heap 5001300)
  /\ amRequestExecOn G_heap E_heap Ly_demo 3 1 5001300 200 false false
                     w_bound
     = Done tt
         (world_after
            (amRequestExecOn G_heap E_heap Ly_demo 3 1 5001300 200
                             false false w_bound) w_bound)
  /\ execOn_buffers Ly_demo 5001300 200 false w_bound
       (world_after
          (amRequestExecOn G_heap E_heap Ly_demo 3 1 5001300 200
                           false false w_bound) w_bound).
Proof.
  assert (H1 := fresh_E_heap_exec).
  assert (H2 : amRequestExecOn G_heap E_heap Ly_demo 3 1 5001300 200
                               false false w_bound
               = Done tt
                   (world_after
                      (amRequestExecOn G_heap E_heap Ly_demo 3 1 5001300
                                       200 false false w_bound) w_bound))
    by (vm_compute; reflexivity).
  split; [exact H1|]. split; [exact H2|].
  exact (amRequestExecOn_buffers G_heap E_heap Ly_demo 3 1 5001300 200
           false false w_bound _ H1 H2).
Defined.

(** There: the 160 bytes of payload are copied to the heap, the request
    goes through a bounce buffer of its own, which is freed, and the
    copy of the payload stays. *)
Example chpl_comm_execute_on_nb_large :
  trace (world_after
           (chpl_comm_execute_on_nb G_heap E_heap Ly_demo 3 1 5001300 200
                                    w_bound) w_bound)
  = [Ev_allocBounceBuf 8192 160;
     Ev_memcpy 8192 5001340 160;
     Ev_allocBounceBuf 16384 56;
     Ev_memcpy 16384 536 56;
     Ev_waitForPutsVisAllNodes;
     Ev_fi_inject 0 16384 56 1;
     Ev_freeBounceBuf 16384].
Proof. vm_compute. reflexivity. Qed.

(** The blocking call copies the payload as well, the bundle not being
    registered, waits for the target, and frees the copy. *)
Example chpl_comm_execute_on_large :
  let d := added w_bound
             (world_after
                (chpl_comm_execute_on G_heap E_heap Ly_demo 3 1 5001300 200
                                      w_bound) w_bound) in
  allocs d = [8192; 16384; 24576] /\ frees d = [24576; 16384; 8192]
  /\ List.filter ev_amWait d = [Ev_amWaitForDone 16384].
Proof. vm_compute. repeat split; reflexivity. Qed.

(** An executeOn for the calling node itself ends the program at
    once. *)
Example chpl_comm_execute_on_self :
  chpl_comm_execute_on G_heap E_heap Ly_demo 3 0 5001300 200 w_bound
  = Aborted w_bound.
Proof. reflexivity. Qed.

(** ** The delayed 'done' *)

Lemma composes_same_flags : composes same_flags.
Proof.
  split; [intros w; reflexivity|].
  intros w1 w2 w3 H1 H2. unfold same_flags in *. congruence.
Qed.

Lemma flags_of_same_prvData {A} (m : comm A) :
  preserves same_prvData m -> preserves same_flags m.
Proof.
  intros Hm w a w' H. unfold same_flags, prv_flags.
  rewrite (Hm w a w' H). reflexivity.
Qed.

Lemma pres_emit_flags e : preserves same_flags (emit e).
Proof. apply flags_of_same_prvData, pres_emit_prv. Qed.

Lemma pres_upd_tci_flags i f : preserves same_flags (upd_tci i f).
Proof. apply flags_of_same_prvData, pres_upd_tci_prv. Qed.

Lemma pres_checkTxCmplsFn_flags E i :
  preserves same_flags (checkTxCmplsFn E i).
Proof. intros w a w' H. cbn in H. inversion H; subst. reflexivity. Qed.

Lemma pres_tciFree_flags i : preserves same_flags (tciFree i).
Proof.
  intros w a w' H. rewrite tciFree_Done in H. inversion H; subst.
  destruct (bound (tciAt (tciTab w) i)); reflexivity.
Qed.

Lemma pres_tciAlloc_flags G E fuel : preserves same_flags (tciAlloc G E fuel).
Proof. apply flags_of_same_prvData, pres_tciAllocCommon_prv. Qed.

Lemma pres_tcipOrAlloc_flags G E fuel tcip :
  preserves same_flags (tcipOrAlloc G E fuel tcip).
Proof.
  destruct tcip; [apply pres_ret, composes_same_flags|].
  apply pres_tciAlloc_flags.
Qed.

Lemma pres_tcipFreeIfOwn_flags tcip myTcip :
  preserves same_flags (tcipFreeIfOwn tcip myTcip).
Proof.
  destruct tcip; [apply pres_ret, composes_same_flags|].
  apply pres_tciFree_flags.
Qed.

Ltac pres_flags :=
  repeat first
    [ apply pres_OFI_RIDE_OUT_EAGAIN;
        [apply composes_same_flags|apply pres_checkTxCmplsFn_flags
        |apply pres_emit_flags]
    | apply pres_ret; apply composes_same_flags
    | apply pres_bind; [apply composes_same_flags| |intros ?]
    | apply pres_when; [apply composes_same_flags|]
    | apply pres_CHK_SOME; apply composes_same_flags
    | apply pres_CHK_TRUE; apply composes_same_flags
    | apply pres_assert_SOME; apply composes_same_flags
    | apply pres_get_tci; apply composes_same_flags
    | apply pres_get_prv; apply composes_same_flags
    | apply pres_abort
    | apply pres_emit_flags
    | apply pres_tciFree_flags
    | apply pres_tciAlloc_flags
    | apply pres_tcipOrAlloc_flags
    | apply pres_tcipFreeIfOwn_flags
    | apply pres_checkTxCmplsFn_flags
    | apply pres_upd_tci_flags
    | apply pres_allocBounceBuf;
        [apply pres_emit_flags|apply composes_same_flags]
    | match goal with
      | |- preserves _ (if ?c then _ else _) => destruct c
      | |- preserves _ (match ?o with Some _ => _ | None => _ end) =>
          destruct o
      end ].

Lemma pres_mcmReleaseOneNode_flags G E fuel node tcip :
  preserves same_flags (mcmReleaseOneNode G E fuel node tcip).
Proof.
  unfold mcmReleaseOneNode, ofi_get_ll, waitForTxnComplete,
    incr_numTxnsOut, incr_numTxnsSent.
  pres_flags.
Qed.

Lemma pres_waitForPutsVisOneNode_flags G E fuel node tcip :
  preserves same_flags (waitForPutsVisOneNode G E fuel node tcip).
Proof.
  intros w a w' H. unfold waitForPutsVisOneNode in H.
  apply bind_Done in H. destruct H as ([] & w1 & He & H).
  inversion He; subst w1. clear He.
  apply bind_Done in H. destruct H as (t & w2 & Ht & H).
  inversion Ht; subst t w2. clear Ht.
  destruct (negb (haveDeliveryComplete G) && bound _); cbn [when] in H;
    [|inversion H; subst; reflexivity].
  apply bind_Done in H. destruct H as (o & w2 & Ho & H).
  inversion Ho; subst o w2. clear Ho. cbn [prvData] in H.
  destruct (prvData w) as [p|] eqn:Hp; [|discriminate].
  apply bind_Done in H. destruct H as (p0 & w2 & Hc & H).
  inversion Hc; subst p0 w2. clear Hc.
  destruct (putBitmap p) as [b|]; [|inversion H; subst; cbn;
                                    unfold same_flags, prv_flags; cbn;
                                    rewrite Hp; reflexivity].
  destruct (bitmapTest b node); cbn [when] in H;
    [|inversion H; subst; unfold same_flags, prv_flags; cbn;
      rewrite Hp; reflexivity].
  apply bind_Done in H. destruct H as ([] & w2 & Hs & H).
  inversion Hs; subst w2. clear Hs.
  apply pres_mcmReleaseOneNode_flags in H.
  unfold same_flags, prv_flags in *. rewrite H. cbn. rewrite Hp. reflexivity.
Qed.

Lemma pres_waitForPutsVisAllNodes_flags G E fuel tcip ending :
  ending = false ->
  preserves same_flags (waitForPutsVisAllNodes G E fuel tcip ending).
Proof.
  intros -> w a w' H. unfold waitForPutsVisAllNodes in H.
  apply bind_Done in H. destruct H as ([] & w1 & He & H).
  assert (F1 : same_flags w w1) by (inversion He; subst; reflexivity).
  destruct ((1 <? chpl_numNodes G) && negb (haveDeliveryComplete G));
    cbn [when] in H; [|inversion H; subst; exact F1].
  apply bind_Done in H. destruct H as (myTcip & w2 & Ha & H).
  pose proof (pres_tcipOrAlloc_flags G E fuel tcip w1 myTcip w2 Ha) as F2.
  apply bind_Done in H. destruct H as (t & w3 & Ht & H).
  inversion Ht; subst t w3. clear Ht.
  apply bind_Done in H. destruct H as ([] & w3 & Hb & H).
  pose proof (pres_tcipFreeIfOwn_flags tcip myTcip w3 a w' H) as F4.
  assert (F3 : same_flags w2 w3).
  { destruct (bound (tciAt (tciTab w2) myTcip)); cbn [when] in Hb;
      [|inversion Hb; subst; reflexivity].
    apply bind_Done in Hb. destruct Hb as (o & w4 & Ho & Hb).
    inversion Ho; subst o w4. clear Ho.
    destruct (prvData w2) as [p|] eqn:Hp; [|discriminate].
    apply bind_Done in Hb. destruct Hb as (p0 & w4 & Hc & Hb).
    inversion Hc; subst p0 w4. clear Hc.
    destruct (putBitmap p) as [b|];
      [|inversion Hb; subst; reflexivity].
    apply bind_Done in Hb. destruct Hb as (b' & w4 & Hr & Hb).
    apply mcmReleaseAllNodes_step in Hr. destruct Hr as (_ & _ & _ & Pr).
    inversion Hb; subst w3. unfold same_flags, prv_flags. cbn.
    rewrite Hp. reflexivity. }
  unfold same_flags in *. congruence.
Qed.

Lemma pres_amRequest_mcm_flags G E fuel node req myTcip :
  preserves same_flags (amRequest_mcm G E fuel node req myTcip).
Proof.
  unfold amRequest_mcm.
  destruct (_ || _ || _);
    [apply pres_waitForPutsVisAllNodes_flags; reflexivity|].
  destruct (_ || _);
    [apply pres_waitForPutsVisOneNode_flags
    |apply pres_ret, composes_same_flags].
Qed.

Lemma pres_amRequestCommon_flags G E fuel node req reqSize ppAmDone tcip :
  preserves same_flags
    (amRequestCommon G E fuel node req reqSize ppAmDone tcip).
Proof.
  unfold amRequestCommon, amRequest_setUpDone, amRequest_bounceReq,
    amRequest_xmit, amRequest_finish, amWaitForDone, freeBounceBuf,
    waitForTxnComplete, incr_numTxnsOut, incr_numTxnsSent.
  apply pres_bind; [apply composes_same_flags|pres_flags|intros pAmDone].
  apply pres_bind; [apply composes_same_flags|pres_flags|intros myTcip].
  apply pres_bind; [apply composes_same_flags|pres_flags|intros myReq].
  apply pres_bind;
    [apply composes_same_flags|apply pres_amRequest_mcm_flags|intros _].
  pres_flags.
Qed.

Lemma filter_amWait_of_class P d :
  (forall e, P e = true -> ev_amWait e = false) ->
  forallb P d = true -> List.filter ev_amWait d = [].
Proof. intros HP H. exact (filter_nil_of_class P ev_amWait d H HP). Qed.

(** X29: the delayed 'done' of a non-fetching atomic operation that
    goes by active message (more than one node, the object on another
    node and not reachable by a native atomic).  A call that returns
    has first waited for the 'done' of an earlier such operation of the
    task, if one was pending, and for no 'done' after that; unless the
    task is ending it has cleared the task's own 'done' flag and left
    it pending, so that the task's next operation waits for it; for an
    ending task it leaves nothing pending. *)
Theorem doAMO_delays_done
  G E fuel node object operand1 operand2 ofiOp ofiType size p w w' :
  1 < chpl_numNodes G ->
  node <> chpl_nodeID G ->
  (if isAtomicValid G ofiType then mrGetKey G node object size else None)
  = None ->
  prvData w = Some p ->
  doAMO G E fuel node object operand1 operand2 NULL ofiOp ofiType size w
  = Done tt w' ->
  done_delayed E p w w'.
Proof.
  intros Hn Hnode Hkey Hp H. unfold doAMO in H.
  destruct (Z.leb_spec (chpl_numNodes G) 1) as [|_]; [lia|].
  apply bind_Done in H. destruct H as ([] & w1 & Hr & H).
  destruct (retireDelayedAmDone_step E false w p Hp)
    as (w1' & Hr' & T1 & _ & _ & P1).
  rewrite Hr' in Hr. inversion Hr; subst w1'. clear Hr Hr'.
  cbn zeta in P1. rewrite Hkey in H.
  destruct (Z.eqb_spec node (chpl_nodeID G)) as [|_]; [contradiction|].
  unfold amRequestAMO in H. change (NULL =? NULL) with true in H.
  cbn [negb when] in H.
  apply bind_Done in H. destruct H as (tcip & w2 & Ha & H).
  pose proof (pres_tciAllocCommon_prv G E fuel false w1 tcip w2 Ha) as P2.
  unfold same_prvData in P2. rewrite P1 in P2.
  eapply quiet_Done in Ha; [|apply quiet_tciAlloc].
  destruct Ha as (d2 & T2 & Q2).
  apply (filter_amWait_of_class ev_yield) in Q2;
    [|intros []; cbn; congruence].
  apply bind_Done in H. destruct H as (dr & w3 & Hs & H).
  apply bind_Done in Hs. destruct Hs as (d & w3' & Hs & Hret).
  inversion Hret; subst dr w3'. clear Hret. cbn [fst snd] in H.
  apply bind_Done in H. destruct H as ([] & w4 & H1 & H).
  apply bind_Done in H. destruct H as ([] & w5 & H2 & H).
  apply bind_Done in H. destruct H as ([] & w6 & Hreq & H).
  apply bind_Done in H. destruct H as ([] & w7 & Hw7 & Hfree).
  inversion Hw7; subst w7. clear Hw7.
  (* the two operand copies *)
  assert (S4 : exists d4, trace w5 = trace w3 ++ d4
                          /\ List.filter ev_amWait d4 = []
                          /\ prvData w5 = prvData w3).
  { destruct (negb (operand1 =? NULL)), (negb (operand2 =? NULL));
      cbn [when] in H1, H2; inversion H1; subst w4; inversion H2; subst w5;
      cbn; eexists; (split; [rewrite <- ?app_assoc; try reflexivity;
                             symmetry; apply app_nil_r|]);
      split; reflexivity. }
  destruct S4 as (d4 & T4 & Q4 & P4).
  (* the request *)
  assert (Hnb : fst d = true).
  { unfold setUpDelayedAmDone, bind, get_comm_taskPrvdata in Hs.
    rewrite P2 in Hs. cbn in Hs.
    destruct (taskIsEnding p); inversion Hs; reflexivity. }
  rewrite Hnb in Hreq. cbn [negb] in Hreq.
  pose proof (pres_amRequestCommon_flags _ _ _ _ _ _ _ _ _ _ _ Hreq) as F6.
  eapply quiet_Done in Hreq; [|apply quiet_amRequestCommon_nb].
  destruct Hreq as (d6 & T6 & Q6). apply filter_amWait_nowait in Q6.
  (* the end *)
  pose proof (pres_tciFree_flags _ _ _ _ Hfree) as F7.
  rewrite tciFree_Done in Hfree.
  assert (T7 : trace w' = trace w6).
  { inversion Hfree. destruct (bound (tciAt (tciTab w6) tcip)); reflexivity. }
  (* the set-up *)
  unfold setUpDelayedAmDone, bind, get_comm_taskPrvdata in Hs.
  rewrite P2 in Hs. cbn in Hs.
  unfold same_flags, prv_flags in F6, F7. rewrite F6, P4 in F7.
  destruct (taskIsEnding p) eqn:Hend; inversion Hs; subst d w3; clear Hs;
    cbn in F7, T4.
  - rewrite P2 in F7. cbn in F7.
    destruct (prvData w') as [p'|] eqn:Hp'; [|discriminate].
    cbn in F7. inversion F7 as [[Fa Fb]].
    exists p', (d2 ++ d4 ++ d6).
    split; [exact Hp'|]. split; [rewrite Hend; exact Fa|].
    split; [exact Fb|].
    split; [apply added_app; rewrite T7, T6, T4, T2, T1, <- !app_assoc;
            reflexivity|].
    split; [rewrite !filter_app_list, Q2, Q4, Q6; reflexivity|].
    intros Hf. congruence.
  - destruct (prvData w') as [p'|] eqn:Hp'; [|discriminate].
    cbn in F7. inversion F7 as [[Fa Fb]].
    exists p', (d2 ++ [Ev_store (prvAmDone_addr E) 0] ++ d4 ++ d6).
    split; [exact Hp'|]. split; [rewrite Hend; exact Fa|].
    split; [exact Fb|].
    split; [apply added_app; rewrite T7, T6, T4, T2, T1, <- !app_assoc;
            reflexivity|].
    split; [rewrite !filter_app_list, Q2, Q4, Q6; reflexivity|].
    intros _. apply in_or_app. right. left. reflexivity.
Qed.

Lemma doAMO_delays_done_witness :
  1 < chpl_numNodes G_heap
  /\ 1 <> chpl_nodeID G_heap
  /\ (if isAtomicValid G_heap FI_INT64 then mrGetKey G_heap 1 300000 8
      else None) = None
  /\ prvData w_bound = Some prv_fresh
  /\ doAMO G_heap E_heap 3 1 300000 5001400 NULL NULL FI_SUM FI_INT64 8
           w_bound
     = Done tt
         (world_after
            (doAMO G_heap E_heap 3 1 300000 5001400 NULL NULL
                   FI_SUM FI_INT64 8 w_bound) w_bound)
  /\ done_delayed E_heap prv_fresh w_bound
       (world_after
          (doAMO G_heap E_heap 3 1 300000 5001400 NULL NULL
                 FI_SUM FI_INT64 8 w_bound) w_bound).
Proof.
  assert (H1 : 1 < chpl_numNodes G_heap) by (vm_compute; reflexivity).
  assert (H2 : 1 <> chpl_nodeID G_heap) by (vm_compute; discriminate).
  assert (H3 : (if isAtomicValid G_heap FI_INT64
                then mrGetKey G_heap 1 300000 8 else None) = None)
    by (vm_compute; reflexivity).
  assert (H4 : prvData w_bound = Some prv_fresh) by reflexivity.
  assert (H5 : doAMO G_heap E_heap 3 1 300000 5001400 NULL NULL
                     FI_SUM FI_INT64 8 w_bound
               = Done tt
                   (world_after
                      (doAMO G_heap E_heap 3 1 300000 5001400 NULL NULL
                             FI_SUM FI_INT64 8 w_bound) w_bound))
    by (vm_compute; reflexivity).
  split; [exact H1|]. split; [exact H2|]. split; [exact H3|].
  split; [exact H4|]. split; [exact H5|].
  exact (doAMO_delays_done G_heap E_heap 3 1 300000 5001400 NULL
           FI_SUM FI_INT64 8 prv_fresh w_bound _ H1 H2 H3 H4 H5).
Defined.

(** There the add returns as soon as the request is sent. *)
Example doAMO_first_add :
  trace (world_after
           (doAMO G_heap E_heap 3 1 300000 5001400 NULL NULL
                  FI_SUM FI_INT64 8 w_bound) w_bound)
  = [Ev_store 528 0;
     Ev_memcpy 576 5001400 8;
     Ev_allocBounceBuf 16384 72;
     Ev_memcpy 16384 536 72;
     Ev_waitForPutsVisAllNodes;
     Ev_fi_send 0 16384 72 1 (txnTrkEncodeDone 520);
     Ev_waitForTxnComplete 0 (txnTrkEncodeDone 520);
     Ev_freeBounceBuf 16384].
Proof. vm_compute. reflexivity. Qed.

(** The task's next add starts by waiting for the 'done' of that one. *)
Example doAMO_second_add :
  List.firstn 2
    (trace (world_after
              (doAMO G_heap E_heap 3 1 300000 5001400 NULL NULL
                     FI_SUM FI_INT64 8 w_done_pending) w_done_pending))
  = [Ev_amWaitForDone 528; Ev_store 528 0].
Proof. vm_compute. reflexivity. Qed.

(** ** Buffered PUTs *)

Lemma xbind_XDone {A B} (m : xcomm A) (k : A -> xcomm B) s b s' :
  xbind m k s = XDone b s' ->
  exists a s1, m s = XDone a s1 /\ k a s1 = XDone b s'.
Proof.
  unfold xbind. destruct (m s) as [a s1| |]; intros H; try discriminate.
  exists a, s1. split; [reflexivity|exact H].
Qed.

Lemma lift_XDone {A} (m : comm A) s a s' :
  lift m s = XDone a s' ->
  exists w',
    m (xw s) = Done a w'
    /\ xw s' = w' /\ put_buff s' = put_buff s
    /\ xtrace s' = xtrace s ++ List.map Xe (added (xw s) w').
Proof.
  unfold lift. destruct (m (xw s)) as [a0 w'| |]; intros H; try discriminate.
  inversion H; subst. exists w'. repeat split.
Qed.

Lemma xadded_app s s' d : xtrace s' = xtrace s ++ d -> xadded s s' = d.
Proof. intros H. unfold xadded. rewrite H. apply drop_app_length. Qed.

Lemma filter_map_Xe d :
  List.filter x_is_traffic (List.map Xe d)
  = List.map Xe (List.filter is_put_traffic d).
Proof.
  induction d as [|e d IH]; [reflexivity|]. cbn.
  destruct (is_put_traffic e); cbn; rewrite IH; reflexivity.
Qed.

(** A silent step of the world above adds nothing. *)
Lemma lift_silent {A} (m : comm A) s a s' :
  (forall w a w', m w = Done a w' -> trace w' = trace w) ->
  lift m s = XDone a s' ->
  xtrace s' = xtrace s /\ put_buff s' = put_buff s
  /\ m (xw s) = Done a (xw s').
Proof.
  intros Hm H. apply lift_XDone in H.
  destruct H as (w' & Hw & <- & Hp & T).
  split; [|split; [exact Hp|exact Hw]].
  rewrite T. unfold added. rewrite (Hm _ _ _ Hw), drop_all. cbn.
  apply app_nil_r.
Qed.

(** *** The bitmap of a batch *)

Lemma bitmapSet_map_length b i :
  length (b_map (bitmapSet b i)) = length (b_map b).
Proof. unfold bitmapSet. cbn. apply length_insert. Qed.

Lemma bitmapClear_map_length b i :
  length (b_map (bitmapClear b i)) = length (b_map b).
Proof. unfold bitmapClear. cbn. apply length_insert. Qed.

Lemma bitmapZero_map_length b :
  length (b_map (bitmapZero b)) = length (b_map b).
Proof. unfold bitmapZero. cbn. apply length_imap. Qed.

Lemma fold_bitmapSet_shape nodes b :
  b_len (fold_left bitmapSet nodes b) = b_len b
  /\ length (b_map (fold_left bitmapSet nodes b)) = length (b_map b).
Proof.
  revert b. induction nodes as [|n nodes IH]; intros b; [split; reflexivity|].
  cbn [fold_left]. destruct (IH (bitmapSet b n)) as [H1 H2].
  rewrite H1, H2, bitmapSet_map_length. split; reflexivity.
Qed.

Lemma fold_bitmapClear_map_length nodes b :
  length (b_map (fold_left bitmapClear nodes b)) = length (b_map b).
Proof.
  revert b. induction nodes as [|n nodes IH]; intros b; [reflexivity|].
  cbn [fold_left]. rewrite IH. apply bitmapClear_map_length.
Qed.

(** A bitmap with the words for [len] bits has room for each. *)
Lemma has_room_of_length b i :
  length (b_map b) = Z.to_nat (bitmapNumElems (b_len b)) ->
  0 <= i < b_len b -> bitmap_has_room b i.
Proof.
  intros Hl Hi. split; [lia|]. rewrite Hl.
  unfold bitmapNumElems, bitmapElemIdx, bitmapElemWidth.
  assert (H1 : i / 64 <= (b_len b - 1) / 64) by (apply Z.div_le_mono; lia).
  assert (H2 : 0 <= i / 64) by (apply Z.div_pos; lia).
  rewrite Z.quot_div_nonneg by lia. lia.
Qed.

Lemma bitmapTest_bitmapZero b j :
  0 <= j < b_len b -> bitmapTest (bitmapZero b) j = false.
Proof.
  intros Hj. unfold bitmapTest, bitmapElem, bitmapZero. cbn [b_map b_len].
  rewrite list_lookup_imap.
  destruct (b_map b !! Z.to_nat (bitmapElemIdx j)) as [x|]; cbn;
    [|reflexivity].
  assert (Hlt : Z.of_nat (Z.to_nat (bitmapElemIdx j))
                < bitmapNumElems (b_len b)).
  { unfold bitmapNumElems, bitmapElemIdx, bitmapElemWidth.
    assert (H1 : j / 64 <= (b_len b - 1) / 64)
      by (apply Z.div_le_mono; lia).
    assert (H2 : 0 <= j / 64) by (apply Z.div_pos; lia).
    rewrite Z.quot_div_nonneg by lia. lia. }
  apply Z.ltb_lt in Hlt. rewrite Hlt. reflexivity.
Qed.

Lemma fold_bitmapSet_test nodes : forall b j,
  (forall n, In n nodes -> bitmap_has_room b n) -> 0 <= j ->
  bitmapTest (fold_left bitmapSet nodes b) j
  = existsb (Z.eqb j) nodes || bitmapTest b j.
Proof.
  induction nodes as [|n nodes IH]; intros b j Hroom Hj; [reflexivity|].
  cbn [fold_left existsb]. rewrite IH.
  - rewrite bitmapTest_bitmapSet_any;
      [|apply Hroom; left; reflexivity|exact Hj].
    rewrite (Z.eqb_sym n j).
    destruct (j =? n), (existsb (Z.eqb j) nodes), (bitmapTest b j);
      reflexivity.
  - intros m Hm. destruct (Hroom m (or_intror Hm)) as [H0 Hl].
    split; [exact H0|]. rewrite bitmapSet_map_length. exact Hl.
  - exact Hj.
Qed.

(** The nodes whose bit the batch loop sets are the targets of the
    batch. *)
Lemma batch_bitmap_targets G info :
  buff_ok G info ->
  bitmapSetBits (fold_left bitmapSet (batch_nodes info)
                           (bitmapZero (pb_nodeBitmap info)))
  = batch_targets G info.
Proof.
  intros (_ & Hlen & Hmap & _ & Hnodes).
  unfold bitmapSetBits, batch_targets.
  destruct (fold_bitmapSet_shape (batch_nodes info)
              (bitmapZero (pb_nodeBitmap info))) as [-> _].
  cbn [bitmapZero b_len]. rewrite Hlen.
  apply List.filter_ext_in. intros j Hj.
  apply List.in_map_iff in Hj. destruct Hj as (k & <- & Hk).
  apply List.in_seq in Hk.
  rewrite fold_bitmapSet_test; [|intros n Hn|lia].
  - rewrite bitmapTest_bitmapZero by lia. apply orb_false_r.
  - rewrite List.Forall_forall in Hnodes. specialize (Hnodes n Hn).
    apply has_room_of_length.
    + rewrite bitmapZero_map_length. cbn [bitmapZero b_len].
      rewrite Hlen. exact Hmap.
    + cbn [bitmapZero b_len]. lia.
Qed.

(** *** The batch loop *)

Lemma seq_shift_map {A} (f : nat -> A) n :
  List.map f (seq 1 n) = List.map (fun k => f (S k)) (seq 0 n).
Proof. rewrite <- seq_shift, List.map_map. reflexivity. Qed.

Lemma ofi_put_V_loop_step v_len tcip av lm lv rv rm sv n :
  forall vi b s b' s',
    ofi_put_V_loop n vi v_len tcip av lm lv rv rm sv b s = XDone b' s' ->
    xtrace s'
    = xtrace s
      ++ List.map (fun k =>
                     Xe_fi_writemsg tcip (arr av (vi + Z.of_nat k))
                       (arr sv (vi + Z.of_nat k)) (arr lm (vi + Z.of_nat k))
                       (arr lv (vi + Z.of_nat k)) (arr rv (vi + Z.of_nat k))
                       (arr rm (vi + Z.of_nat k))
                       (txnTrkEncodeId ofi_put_V_LINE)
                       (vi + Z.of_nat k <? v_len - 1))
                  (seq 0 n)
    /\ b' = fold_left bitmapSet
              (List.map (fun k => arr lv (vi + Z.of_nat k)) (seq 0 n)) b
    /\ put_buff s' = put_buff s.
Proof.
  induction n as [|n IH]; intros vi b s b' s' H; cbn [ofi_put_V_loop] in H.
  - inversion H; subst. cbn. rewrite app_nil_r. repeat split.
  - apply xbind_XDone in H. destruct H as ([] & s1 & He & H).
    inversion He; subst s1. clear He.
    apply xbind_XDone in H. destruct H as ([] & s2 & H2 & H).
    apply lift_silent in H2;
      [|intros w a w' Hw; cbn in Hw; inversion Hw; reflexivity].
    destruct H2 as (T2 & P2 & _).
    apply xbind_XDone in H. destruct H as ([] & s3 & H3 & H).
    apply lift_silent in H3;
      [|intros w a w' Hw; cbn in Hw; inversion Hw; reflexivity].
    destruct H3 as (T3 & P3 & _).
    apply IH in H. destruct H as (T & Hb & P).
    cbn [seq List.map fold_left]. rewrite !seq_shift_map.
    replace (vi + Z.of_nat 0) with vi by lia.
    split; [|split].
    + rewrite T, T3, T2. cbn [xtrace]. rewrite <- app_assoc. cbn [app].
      f_equal. f_equal. apply List.map_ext. intros k.
      replace (vi + 1 + Z.of_nat k) with (vi + Z.of_nat (S k)) by lia.
      reflexivity.
    + rewrite Hb. f_equal. apply List.map_ext. intros k.
      replace (vi + 1 + Z.of_nat k) with (vi + Z.of_nat (S k)) by lia.
      reflexivity.
    + rewrite P, P3, P2. reflexivity.
Qed.

Lemma quiet_sched_waitForBatchRoom G E fuel tcip v_len :
  quiet ev_sched (waitForBatchRoom G E fuel tcip v_len).
Proof.
  induction fuel as [|fuel IH]; intros w; cbn [waitForBatchRoom];
    destruct (u64 (txCQLen G - numTxnsOut (tciAt (tciTab w) tcip))
              <? u64 v_len);
    try exact I; try apply (quiet_ret ev_sched tt w).
  apply (quiet_bind ev_sched (emit Ev_sched_yield)
           (fun _ => checkTxCmplsFn E tcip ;;;
                     waitForBatchRoom G E fuel tcip v_len)).
  - apply quiet_emit. reflexivity.
  - intros _. apply quiet_bind; [auto with quiet|intros _]. exact IH.
Qed.

(** A step of the world above that adds no traffic. *)
Lemma lift_quiet {A} P (m : comm A) s a s' :
  quiet P m -> (forall e, P e = true -> is_put_traffic e = false) ->
  lift m s = XDone a s' ->
  put_buff s' = put_buff s
  /\ exists d, xtrace s' = xtrace s ++ d
               /\ List.filter x_is_traffic d = [].
Proof.
  intros Hq HP H. apply lift_XDone in H.
  destruct H as (w' & Hw & _ & Hp & T). split; [exact Hp|].
  eapply quiet_Done in Hw; [|exact Hq]. destruct Hw as (d & Td & Q).
  exists (List.map Xe d). rewrite T, (added_app _ _ _ Td).
  split; [reflexivity|]. rewrite filter_map_Xe.
  rewrite (filter_nil_of_class P is_put_traffic d Q HP). reflexivity.
Qed.

Lemma tciFree_trace i w a w' : tciFree i w = Done a w' -> trace w' = trace w.
Proof.
  rewrite tciFree_Done. intros H. inversion H.
  destruct (bound (tciAt (tciTab w) i)); reflexivity.
Qed.

(** A flush, seen from a state [s0] from which nothing has gone onto
    the fabric yet. *)
Lemma put_buff_task_info_flush_step G E fuel info s0 s s' :
  (exists d0, xtrace s = xtrace s0 ++ d0
              /\ List.filter x_is_traffic d0 = []) ->
  put_buff s = Some info ->
  0 < pb_vi info ->
  buff_ok G info ->
  put_buff_task_info_flush G E fuel s = XDone tt s' ->
  flushes_batch G E info s0 s'.
Proof.
  intros (d0 & T0 & F0) Hs Hvi Hok H. unfold put_buff_task_info_flush in H.
  rewrite Hs in H. destruct (Z.ltb_spec 0 (pb_vi info)) as [_|]; [|lia].
  apply xbind_XDone in H. destruct H as (br & s1 & Hput & Hset).
  inversion Hset; subst s'. clear Hset.
  unfold ofi_put_V in Hput.
  apply xbind_XDone in Hput. destruct Hput as (tcip & sa & Ha & Hput).
  apply (lift_quiet ev_yield) in Ha;
    [|apply quiet_tciAlloc|intros []; cbn; congruence].
  destruct Ha as (Pa & da & Ta & Fa).
  apply xbind_XDone in Hput. destruct Hput as (t & sb & Hb & Hput).
  apply lift_silent in Hb;
    [|intros w a w' Hw; inversion Hw; reflexivity].
  destruct Hb as (Tb & Pb & _).
  apply xbind_XDone in Hput. destruct Hput as ([] & sc & Hc & Hput).
  assert (Sc : put_buff sc = put_buff sb
               /\ exists dc, xtrace sc = xtrace sb ++ dc
                             /\ List.filter x_is_traffic dc = []).
  { destruct (txCQ t && _).
    - apply (lift_quiet ev_sched) in Hc; [exact Hc| |intros []; cbn; congruence].
      apply quiet_bind; [auto with quiet|intros _].
      apply quiet_sched_waitForBatchRoom.
    - inversion Hc; subst. split; [reflexivity|]. exists [].
      rewrite app_nil_r. split; reflexivity. }
  destruct Sc as (Pc & dc & Tc & Fc).
  apply xbind_XDone in Hput. destruct Hput as (bl & sd & Hd & Hput).
  apply ofi_put_V_loop_step in Hd. destruct Hd as (Td & Hbl & Pd).
  apply xbind_XDone in Hput. destruct Hput as (br' & se & He & Hput).
  apply lift_XDone in He. destruct He as (we & Hrel & Hwe & Pe & Te).
  apply mcmReleaseAllNodes_step in Hrel.
  destruct Hrel as (Hbr & (myTcip & cq & Huse & Frel) & _ & _).
  destruct (Huse tcip (or_introl eq_refl)) as [-> _].
  apply xbind_XDone in Hput. destruct Hput as ([] & sf & Hf & Hput).
  apply lift_silent in Hf; [|apply tciFree_trace].
  destruct Hf as (Tf & Pf & _).
  inversion Hput; subst br s1. clear Hput.
  (* the bitmap the loop built *)
  assert (Hnodes : bl = fold_left bitmapSet (batch_nodes info)
                          (bitmapZero (pb_nodeBitmap info))).
  { rewrite Hbl. f_equal. unfold batch_nodes, batch_indices.
    rewrite List.map_map. apply List.map_ext. intros k.
    rewrite Z.add_0_l. reflexivity. }
  pose proof (batch_bitmap_targets G info Hok) as Htg.
  rewrite <- Hnodes in Htg.
  destruct Hok as (Hnew & Hlen & Hmap & Hrange & Hin).
  destruct (fold_bitmapSet_shape (batch_nodes info)
              (bitmapZero (pb_nodeBitmap info))) as [Hl1 Hl2].
  rewrite <- Hnodes in Hl1, Hl2. rewrite bitmapZero_map_length in Hl2.
  cbn [bitmapZero b_len] in Hl1.
  exists tcip, cq. eexists. cbn [put_buff].
  split; [reflexivity|]. cbn [pb_vi pb_addr pb_nodeBitmap].
  split; [reflexivity|]. split; [reflexivity|].
  split; [repeat split|]. split; [|split].
  - rewrite Hbr. apply released_bitmap_empty. intros i Hi.
    apply has_room_of_length; [|exact Hi].
    rewrite Hl1, Hl2, Hlen. exact Hmap.
  - unfold buff_ok. cbn [pb_new pb_nodeBitmap pb_vi].
    rewrite Hbr, fold_bitmapClear_len, fold_bitmapClear_map_length.
    rewrite Hl1, Hl2.
    repeat split; try assumption; unfold MAX_CHAINED_PUT_LEN,
      MAX_TXNS_IN_FLIGHT; try lia.
    unfold batch_nodes, batch_indices. cbn. constructor.
  - rewrite Htg in Frel.
    erewrite xadded_app;
      [|cbn [xtrace]; rewrite Tf, Te, Td, Tc, Tb, Ta, T0, <- !app_assoc;
        reflexivity].
    rewrite !filter_app_list, F0, Fa, Fc, filter_map_Xe, Frel.
    cbn [app]. f_equal.
    unfold batch_writes, batch_indices. rewrite List.map_map.
    assert (Hall : forall l : list nat,
               List.filter x_is_traffic
                 (List.map
                    (fun k =>
                       Xe_fi_writemsg tcip
                         (arr (pb_src_addr_v info) (0 + Z.of_nat k))
                         (arr (pb_size_v info) (0 + Z.of_nat k))
                         (arr (pb_local_mr_v info) (0 + Z.of_nat k))
                         (arr (pb_locale_v info) (0 + Z.of_nat k))
                         (arr (pb_tgt_addr_v info) (0 + Z.of_nat k))
                         (arr (pb_remote_mr_v info) (0 + Z.of_nat k))
                         (txnTrkEncodeId ofi_put_V_LINE)
                         (0 + Z.of_nat k <? pb_vi info - 1)) l)
               = List.map
                   (fun k => writemsg_at tcip info (pb_vi info)
                               (Z.of_nat k)) l).
    { induction l as [|k l IH]; [reflexivity|]. cbn [List.map List.filter].
      cbn [x_is_traffic]. rewrite IH. unfold writemsg_at.
      rewrite Z.add_0_l. reflexivity. }
    apply Hall.
Qed.

(** X30: flushing the task's buffer of PUTs.  For a buffer in use that
    holds entries for nodes of the job, a flush that returns has issued
    one [fi_writemsg] for each entry, in the order of the entries, with
    the entry's addresses, size, key and descriptor, and with [FI_MORE]
    on all but the last; then, for each node the batch wrote to, in
    increasing order and once, a dummy GET and the wait for it; and
    nothing else on the fabric.  It leaves the buffer empty and in
    place, with no bit set in its bitmap. *)
Theorem put_buff_task_info_flush_batch G E fuel info s s' :
  put_buff s = Some info ->
  0 < pb_vi info ->
  buff_ok G info ->
  put_buff_task_info_flush G E fuel s = XDone tt s' ->
  flushes_batch G E info s s'.
Proof.
  intros Hs Hvi Hok H.
  apply (put_buff_task_info_flush_step G E fuel info s s s');
    try assumption.
  exists []. rewrite app_nil_r. split; reflexivity.
Qed.

Lemma put_buff_task_info_flush_batch_witness :
  put_buff s_demo = Some info_demo
  /\ 0 < pb_vi info_demo
  /\ buff_ok G_three info_demo
  /\ put_buff_task_info_flush G_three E_demo 3 s_demo
     = XDone tt (xworld_after
                   (put_buff_task_info_flush G_three E_demo 3 s_demo)
                   s_demo)
  /\ flushes_batch G_three E_demo info_demo s_demo
       (xworld_after (put_buff_task_info_flush G_three E_demo 3 s_demo)
                     s_demo).
Proof.
  assert (H1 : put_buff s_demo = Some info_demo) by reflexivity.
  assert (H2 : 0 < pb_vi info_demo) by (cbn; lia).
  assert (H3 : buff_ok G_three info_demo).
  { unfold buff_ok. split; [reflexivity|]. split; [reflexivity|].
    split; [reflexivity|]. split; [vm_compute; split; discriminate|].
    assert (Hb : batch_nodes info_demo = [1; 2; 1])
      by (vm_compute; reflexivity).
    rewrite Hb. change (chpl_numNodes G_three) with 3.
    repeat apply List.Forall_cons; try apply List.Forall_nil; lia. }
  assert (H4 : put_buff_task_info_flush G_three E_demo 3 s_demo
               = XDone tt
                   (xworld_after
                      (put_buff_task_info_flush G_three E_demo 3 s_demo)
                      s_demo))
    by (vm_compute; reflexivity).
  split; [exact H1|]. split; [exact H2|]. split; [exact H3|].
  split; [exact H4|].
  exact (put_buff_task_info_flush_batch G_three E_demo 3 info_demo s_demo _
           H1 H2 H3 H4).
Defined.

(** There: the three writes, the first two with [FI_MORE], on context
    1; then the dummy GETs from nodes 1 and 2, each waited for. *)
Example put_buff_task_info_flush_trace :
  xtrace (xworld_after (put_buff_task_info_flush G_three E_demo 3 s_demo)
                       s_demo)
  = [Xe_fi_writemsg 1 67584 8 0 1 200000 0
       (txnTrkEncodeId ofi_put_V_LINE) true;
     Xe_fi_writemsg 1 68608 16 0 2 300000 0
       (txnTrkEncodeId ofi_put_V_LINE) true;
     Xe_fi_writemsg 1 69632 8 0 1 200008 0
       (txnTrkEncodeId ofi_put_V_LINE) false;
     Xe (Ev_fi_read 1 4096 1 1 4096 0 (txnTrkEncodeDone 520));
     Xe (Ev_waitForTxnComplete 1 (txnTrkEncodeDone 520));
     Xe (Ev_fi_read 1 4096 1 2 4096 0 (txnTrkEncodeDone 520));
     Xe (Ev_waitForTxnComplete 1 (txnTrkEncodeDone 520))].
Proof. vm_compute. reflexivity. Qed.

(** ** The table across a call *)

Lemma composes_same_tab : composes same_tab.
Proof.
  split; [intros w; split; reflexivity|].
  intros w1 w2 w3 [H1 H2] [H3 H4]. split; congruence.
Qed.

Lemma composes_same_length : composes same_length.
Proof.
  split; [intros w; reflexivity|].
  intros w1 w2 w3 H1 H2. unfold same_length in *. congruence.
Qed.

Lemma pres_emit_tab e : preserves same_tab (emit e).
Proof. intros w a w' H. inversion H; subst. split; reflexivity. Qed.

Lemma pres_amRequest_setUpDone_tab G E ppAmDone :
  preserves same_tab (amRequest_setUpDone G E ppAmDone).
Proof.
  unfold amRequest_setUpDone.
  repeat first
    [ apply pres_ret; apply composes_same_tab
    | apply pres_bind; [apply composes_same_tab| |intros ?]
    | apply pres_CHK_TRUE; apply composes_same_tab
    | apply pres_emit_tab
    | apply pres_allocBounceBuf; [apply pres_emit_tab|apply composes_same_tab]
    | match goal with
      | |- preserves _ (if ?c then _ else _) => destruct c
      end ].
Qed.

Lemma pres_amRequest_bounceReq_tab G E req reqSize :
  preserves same_tab (amRequest_bounceReq G E req reqSize).
Proof.
  unfold amRequest_bounceReq.
  repeat first
    [ apply pres_ret; apply composes_same_tab
    | apply pres_bind; [apply composes_same_tab| |intros ?]
    | apply pres_CHK_SOME; apply composes_same_tab
    | apply pres_emit_tab
    | apply pres_allocBounceBuf; [apply pres_emit_tab|apply composes_same_tab]
    | match goal with
      | |- preserves _ (match ?o with Some _ => _ | None => _ end) =>
          destruct o
      end ].
Qed.

Section TableLength.

Variable G : ofi_globals.
Variable E : environ.
Hypothesis HE : env_keeps_length E.
Hypothesis Hn : (0 < numWorkerTxCtxs G)%nat.

Lemma pres_emit_len e : preserves same_length (emit e).
Proof. intros w a w' H. inversion H; subst. reflexivity. Qed.

Lemma pres_upd_tci_len i f : preserves same_length (upd_tci i f).
Proof.
  intros w a w' H. inversion H; subst. unfold same_length. cbn.
  apply length_insert.
Qed.

Lemma pres_set_prvData_len p : preserves same_length (set_prvData p).
Proof. intros w a w' H. inversion H; subst. reflexivity. Qed.

Lemma pres_checkTxCmplsFn_len i :
  preserves same_length (checkTxCmplsFn E i).
Proof.
  intros w a w' H. inversion H; subst. unfold same_length. cbn.
  apply length_insert.
Qed.

Lemma pres_tciFree_len i : preserves same_length (tciFree i).
Proof.
  intros w a w' H. rewrite tciFree_Done in H. inversion H; subst.
  destruct (bound (tciAt (tciTab w) i)); [reflexivity|].
  unfold same_length. cbn. apply length_insert.
Qed.

(** The index a worker's search returns, once recorded as the thread's
    own. *)
Lemma find_worker_in_table fuel w i w' :
  table_has_workers G (tciTab w) ->
  (i0 <- findFreeTciTabEntry G E fuel false ;;
   set_ttcip (Some i0) ;;;
   when (false || (tciTabFixedAssignments G && chpl_task_isFixedThread E))
        (upd_tci i0 (set_bound true)) ;;;
   ret i0) w = Done i w' ->
  (i < length (tciTab w'))%nat /\ same_length w w'.
Proof.
  intros Hlen H. apply bind_Done in H. destruct H as (j & w1 & Hf & H).
  apply findFree_worker_index in Hf; [|exact HE|exact Hn].
  destruct Hf as (Hj & Hl & _ & _).
  unfold table_has_workers in Hlen. unfold same_length.
  cbn in H.
  destruct (tciTabFixedAssignments G && chpl_task_isFixedThread E);
    cbn in H; inversion H; subst; cbn; rewrite ?length_insert; lia.
Qed.

Lemma tciAlloc_in_table fuel w i w' :
  table_has_workers G (tciTab w) -> ttcip_in_table w ->
  tciAlloc G E fuel w = Done i w' ->
  (i < length (tciTab w'))%nat /\ same_length w w'.
Proof.
  intros Hlen Hin H. unfold tciAlloc, tciAllocCommon in H.
  unfold ttcip_in_table in Hin.
  destruct (_ttcip w) as [t|] eqn:Ht.
  - destruct (bound (tciAt (tciTab w) t)) eqn:Hb.
    + inversion H; subst i w'. split; [exact Hin|reflexivity].
    + unfold atomic_exchange_allocated in H.
      destruct (allocated (tciAt (tciTab w) t)) eqn:Ha; cbn [negb] in H.
      * rewrite exchange_true_same in H by exact Ha.
        apply bind_Done in H. destruct H as ([] & w1 & Hs & H).
        cbn in Hs. inversion Hs; subst w1.
        apply find_worker_in_table in H; [|exact Hlen]. exact H.
      * cbn in H. inversion H; subst i w'. unfold same_length. cbn.
        rewrite length_insert. split; [exact Hin|reflexivity].
  - apply find_worker_in_table in H; [|exact Hlen]. exact H.
Qed.

Lemma tcipOrAlloc_in_table fuel tcip w i w' :
  table_has_workers G (tciTab w) -> ttcip_in_table w ->
  (forall t, tcip = Some t -> (t < length (tciTab w))%nat) ->
  tcipOrAlloc G E fuel tcip w = Done i w' ->
  (i < length (tciTab w'))%nat /\ same_length w w'.
Proof.
  intros Hlen Hin Ht H. destruct tcip as [t|]; cbn [tcipOrAlloc] in H.
  - inversion H; subst i w'. split; [apply Ht; reflexivity|reflexivity].
  - eapply tciAlloc_in_table; eassumption.
Qed.

(** The allocator keeps the number of entries from any table: without
    worker entries in place it may return an index outside. *)
Lemma pres_tciAlloc_len fuel : preserves same_length (tciAlloc G E fuel).
Proof.
  assert (Hfind : forall w i w',
    (i0 <- findFreeTciTabEntry G E fuel false ;;
     set_ttcip (Some i0) ;;;
     when (false || (tciTabFixedAssignments G && chpl_task_isFixedThread E))
          (upd_tci i0 (set_bound true)) ;;;
     ret i0) w = Done i w' -> same_length w w').
  { intros w i w' H. apply bind_Done in H. destruct H as (j & w1 & Hf & H).
    apply findFree_worker_index in Hf; [|exact HE|exact Hn].
    destruct Hf as (_ & Hl & _ & _). unfold same_length. cbn in H.
    destruct (tciTabFixedAssignments G && chpl_task_isFixedThread E);
      cbn in H; inversion H; subst; cbn; rewrite ?length_insert; lia. }
  intros w i w' H. unfold tciAlloc, tciAllocCommon in H.
  destruct (_ttcip w) as [t|] eqn:Ht; [|exact (Hfind _ _ _ H)].
  destruct (bound (tciAt (tciTab w) t)) eqn:Hb.
  - inversion H; subst. reflexivity.
  - unfold atomic_exchange_allocated in H.
    destruct (allocated (tciAt (tciTab w) t)) eqn:Ha; cbn [negb] in H.
    + rewrite exchange_true_same in H by exact Ha.
      apply bind_Done in H. destruct H as ([] & w1 & Hs & H).
      cbn in Hs. inversion Hs; subst w1. exact (Hfind _ _ _ H).
    + cbn in H. inversion H; subst. unfold same_length. cbn.
      apply length_insert.
Qed.

Lemma pres_tcipOrAlloc_len fuel tcip :
  preserves same_length (tcipOrAlloc G E fuel tcip).
Proof.
  destruct tcip; [apply pres_ret, composes_same_length|].
  apply pres_tciAlloc_len.
Qed.

Lemma pres_tcipFreeIfOwn_len tcip myTcip :
  preserves same_length (tcipFreeIfOwn tcip myTcip).
Proof.
  destruct tcip; [apply pres_ret, composes_same_length|].
  apply pres_tciFree_len.
Qed.

Ltac pres_len :=
  repeat first
    [ apply pres_ret; apply composes_same_length
    | apply pres_bind; [apply composes_same_length| |intros ?]
    | apply pres_when; [apply composes_same_length|]
    | apply pres_CHK_SOME; apply composes_same_length
    | apply pres_CHK_TRUE; apply composes_same_length
    | apply pres_get_tci; apply composes_same_length
    | apply pres_get_prv; apply composes_same_length
    | apply pres_abort
    | apply pres_OutOfFuel
    | apply pres_emit_len
    | apply pres_set_prvData_len
    | apply pres_tciFree_len
    | apply pres_tcipOrAlloc_len
    | apply pres_tcipFreeIfOwn_len
    | apply pres_checkTxCmplsFn_len
    | apply pres_upd_tci_len
    | match goal with
      | |- preserves _ (if ?c then _ else _) => destruct c
      | |- preserves _ (match ?o with Some _ => _ | None => _ end) =>
          destruct o
      end ].

Lemma pres_mcmReleaseOneNode_len fuel node tcip :
  preserves same_length (mcmReleaseOneNode G E fuel node tcip).
Proof.
  unfold mcmReleaseOneNode, ofi_get_ll, waitForTxnComplete,
    incr_numTxnsOut, incr_numTxnsSent.
  pres_len.
Qed.

Lemma pres_waitForCQRoom_len fuel tcip :
  preserves same_length (waitForCQRoom G E fuel tcip).
Proof.
  induction fuel as [|fuel IH]; intros w a w' H; cbn [waitForCQRoom] in H.
  - destruct (txCQ _ && _); [discriminate|]. inversion H; subst. reflexivity.
  - destruct (txCQ _ && _); [|inversion H; subst; reflexivity].
    revert H. generalize w a w'.
    change (preserves same_length
              (emit Ev_sched_yield ;;;
               checkTxCmplsFn E tcip ;;; waitForCQRoom G E fuel tcip)).
    pres_len. exact IH.
Qed.

Lemma pres_mcmReleaseNodes_len fuel nodes b myTcip :
  preserves same_length (mcmReleaseNodes G E fuel nodes b myTcip).
Proof.
  revert b. induction nodes as [|node nodes IH]; intros b;
    cbn [mcmReleaseNodes]; [apply pres_ret, composes_same_length|].
  apply pres_bind; [apply composes_same_length
                   |apply pres_checkTxCmplsFn_len|intros _].
  apply pres_bind; [apply composes_same_length
                   |apply pres_waitForCQRoom_len|intros _].
  apply pres_bind; [apply composes_same_length
                   |apply pres_mcmReleaseOneNode_len|intros _].
  apply IH.
Qed.

Lemma pres_mcmReleaseAllNodes_len fuel b tcip :
  preserves same_length (mcmReleaseAllNodes G E fuel b tcip).
Proof.
  unfold mcmReleaseAllNodes.
  apply pres_bind; [apply composes_same_length
                   |apply pres_tcipOrAlloc_len|intros myTcip].
  apply pres_bind; [apply composes_same_length
                   |apply pres_mcmReleaseNodes_len|intros b'].
  pres_len.
Qed.

Lemma pres_amRequest_mcm_len fuel node req myTcip :
  preserves same_length (amRequest_mcm G E fuel node req myTcip).
Proof.
  unfold amRequest_mcm, waitForPutsVisAllNodes, waitForPutsVisOneNode.
  destruct (_ || _ || _).
  - apply pres_bind; [apply composes_same_length
                     |apply pres_emit_len|intros _].
    apply pres_when; [apply composes_same_length|].
    apply pres_bind; [apply composes_same_length
                     |apply pres_tcipOrAlloc_len|intros t].
    apply pres_bind; [apply composes_same_length
                     |apply pres_get_tci, composes_same_length|intros x].
    apply pres_bind; [apply composes_same_length| |intros _; pres_len].
    apply pres_when; [apply composes_same_length|].
    apply pres_bind; [apply composes_same_length
                     |apply pres_get_prv, composes_same_length|intros o].
    apply pres_bind; [apply composes_same_length
                     |apply pres_CHK_SOME, composes_same_length|intros p].
    destruct (putBitmap p); [|apply pres_ret, composes_same_length].
    apply pres_bind; [apply composes_same_length
                     |apply pres_mcmReleaseAllNodes_len|intros b'].
    apply pres_set_prvData_len.
  - destruct (_ || _); [|apply pres_ret, composes_same_length].
    apply pres_bind; [apply composes_same_length
                     |apply pres_emit_len|intros _].
    apply pres_bind; [apply composes_same_length
                     |apply pres_get_tci, composes_same_length|intros x].
    apply pres_when; [apply composes_same_length|].
    apply pres_bind; [apply composes_same_length
                     |apply pres_get_prv, composes_same_length|intros o].
    apply pres_bind; [apply composes_same_length
                     |apply pres_CHK_SOME, composes_same_length|intros p].
    destruct (putBitmap p); [|apply pres_ret, composes_same_length].
    apply pres_when; [apply composes_same_length|].
    apply pres_bind; [apply composes_same_length
                     |apply pres_set_prvData_len|intros _].
    apply pres_mcmReleaseOneNode_len.
Qed.

End TableLength.

(** ** Completions reaped while a call is retried *)

Lemma reaped_le E tr n out :
  cq_sane E -> 0 <= out < 2 ^ 64 -> 0 <= reaped E tr n out <= out.
Proof.
  intros Hs. revert out. induction n as [|n IH]; intros out Ho;
    cbn [reaped]; [lia|].
  pose proof (Hs tr out ltac:(lia)) as Hc.
  assert (Hu : u64 (out - cqEvents E tr out) = out - cqEvents E tr out)
    by (unfold u64; apply Z.mod_small; lia).
  rewrite Hu. specialize (IH (out - cqEvents E tr out) ltac:(lia)). lia.
Qed.

(** ** The transmission of an AM request *)



(** There the request is injected on context 1 after two retries, each
    of which reaped a completion: of the three transactions in flight
    one is left, and eight have been issued. *)
Example amRequestCommon_inject_counters :
  let w' := world_after
              (amRequestCommon G_demo E_retry 4 1 req_nop 16 false None
                               w_inflight) w_inflight in
  trace w' = [Ev_fi_inject 1 536 16 1]
  /\ numTxnsOut (tciAt (tciTab w') 1) = 1
  /\ numTxnsSent (tciAt (tciTab w') 1) = 8.
Proof. vm_compute. repeat split. Qed.

(** Asked for a done flag, the same request is sent: the two retries
    leave one transaction in flight, the send makes it two, the wait
    takes one off; eight are issued. *)
Example amRequestCommon_send_counters :
  let w' := world_after
              (amRequestCommon G_demo E_retry 4 1 req_nop 16 true None
                               w_inflight) w_inflight in
  List.filter is_am_xmit (trace w')
  = [Ev_fi_send 1 536 16 1 (txnTrkEncodeDone 520)]
  /\ numTxnsOut (tciAt (tciTab w') 1) = 1
  /\ numTxnsSent (tciAt (tciTab w') 1) = 8.
Proof. vm_compute. repeat split. Qed.

(** ** Forcing visibility returns *)

Lemma cq_sane_E_demo : cq_sane E_demo.
Proof.
  intros tr out Ho. cbn. unfold cq_at_wait.
  destruct (last tr) as [[]|]; lia.
Qed.

Lemma cq_wait_delivers_E_demo : cq_wait_delivers E_demo.
Proof.
  intros tr t ctx out Ho. cbn. unfold cq_at_wait.
  rewrite last_snoc. lia.
Qed.

(** One read of the completion queue with room keeps the room. *)
Lemma checkTxCmplsFn_room G E t w :
  cq_sane E -> cq_has_room G t w ->
  exists w',
    checkTxCmplsFn E t w = Done tt w'
    /\ trace w' = trace w
    /\ cq_has_room G t w'
    /\ numTxnsOut (tciAt (tciTab w') t) <= numTxnsOut (tciAt (tciTab w) t).
Proof.
  intros Hs (Hi & Ho & HL). eexists. split; [reflexivity|]. cbn.
  pose proof (Hs (trace w) (numTxnsOut (tciAt (tciTab w) t)) ltac:(lia))
    as Hc.
  unfold cq_has_room. cbn. rewrite length_insert.
  rewrite tciAt_insert_eq by exact Hi. cbn.
  rewrite u64_small by lia.
  repeat split; try assumption; lia.
Qed.

Lemma waitForCQRoom_room G E fuel t w :
  cq_has_room G t w -> waitForCQRoom G E fuel t w = Done tt w.
Proof.
  intros (Hi & Ho & HL).
  assert (Hc : (txCQLen G <=? numTxnsOut (tciAt (tciTab w) t)) = false)
    by (apply Z.leb_gt; lia).
  destruct fuel; cbn [waitForCQRoom]; rewrite Hc, andb_false_r; reflexivity.
Qed.

(** The dummy GET and its wait leave no more in flight than there
    was. *)
Lemma mcmReleaseOneNode_room G E fuel node t w :
  cq_sane E -> cq_wait_delivers E ->
  cq_has_room G t w ->
  mrGetDesc G (orderDummy G) 1 <> None ->
  mrGetKey G node (orderDummyMap G node) 1 <> None ->
  exists w',
    mcmReleaseOneNode G E fuel node t w = Done tt w'
    /\ cq_has_room G t w'
    /\ numTxnsOut (tciAt (tciTab w') t) <= numTxnsOut (tciAt (tciTab w) t).
Proof.
  intros Hs Hd (Hi & Ho & HL) Hdesc Hkey.
  unfold mcmReleaseOneNode, ofi_get_ll, waitForTxnComplete.
  destruct (mrGetKey G node (orderDummyMap G node) 1) as [[key off]|];
    [|contradiction].
  destruct (mrGetDesc G (orderDummy G) 1) as [desc|]; [|contradiction].
  set (out := numTxnsOut (tciAt (tciTab w) t)) in *.
  assert (Hgen : forall ctx,
    exists w',
      (emit (Ev_fi_read t (orderDummy G) 1 node off key ctx) ;;;
       incr_numTxnsOut t ;;; incr_numTxnsSent t ;;;
       tcipFreeIfOwn (Some t) t ;;;
       (emit (Ev_waitForTxnComplete t ctx) ;;; checkTxCmplsFn E t)) w
      = Done tt w'
      /\ cq_has_room G t w'
      /\ numTxnsOut (tciAt (tciTab w') t) <= out).
  { intros ctx. eexists. split; [reflexivity|]. cbn.
    unfold cq_has_room. cbn. rewrite !length_insert.
    rewrite !tciAt_insert_eq by (rewrite ?length_insert; exact Hi). cbn.
    fold out. rewrite (u64_small (out + 1)) by lia.
    pose proof (Hs ((trace w ++ [Ev_fi_read t (orderDummy G) 1 node off key
                                             ctx])
                    ++ [Ev_waitForTxnComplete t ctx]) (out + 1)
                   ltac:(lia)) as Hc.
    pose proof (Hd (trace w ++ [Ev_fi_read t (orderDummy G) 1 node off key
                                            ctx]) t ctx (out + 1)
                   ltac:(lia)) as Hc1.
    rewrite u64_small by lia.
    repeat split; try assumption; lia. }
  unfold bind at 1. cbn [get_tci].
  destruct (txCQ (tciAt (tciTab w) t)).
  - destruct (Hgen (txnTrkEncodeDone (txnDone_addr E))) as (w' & Hr & Hroom).
    exists w'. split; [|exact Hroom]. rewrite <- Hr. reflexivity.
  - destruct (Hgen NULL) as (w' & Hr & Hroom).
    exists w'. split; [|exact Hroom]. rewrite <- Hr. reflexivity.
Qed.

Lemma mcmReleaseNodes_room G E fuel nodes b t w :
  cq_sane E -> cq_wait_delivers E ->
  cq_has_room G t w ->
  dummies_registered G nodes ->
  exists b' w',
    mcmReleaseNodes G E fuel nodes b t w = Done b' w'
    /\ cq_has_room G t w'
    /\ numTxnsOut (tciAt (tciTab w') t) <= numTxnsOut (tciAt (tciTab w) t).
Proof.
  intros Hs Hd Hroom (Hdesc & Hkeys). revert b w Hroom.
  induction nodes as [|node nodes IH]; intros b w Hroom;
    cbn [mcmReleaseNodes].
  - exists b, w. split; [reflexivity|]. split; [exact Hroom|lia].
  - apply List.Forall_cons_iff in Hkeys. destruct Hkeys as [Hk Hkeys].
    destruct (checkTxCmplsFn_room G E t w Hs Hroom)
      as (w1 & H1 & _ & R1 & L1).
    pose proof (waitForCQRoom_room G E fuel t w1 R1) as H2.
    destruct (mcmReleaseOneNode_room G E fuel node t w1 Hs Hd R1 Hdesc Hk)
      as (w2 & H3 & R2 & L2).
    destruct (IH Hkeys (bitmapClear b node) w2 R2) as (b' & w' & H4 & R & L).
    exists b', w'. split; [|split; [exact R|lia]].
    unfold bind. rewrite H1, H2, H3. exact H4.
Qed.

Lemma tcipOrAlloc_uses G E fuel tcip w t :
  uses_tci tcip w t -> tcipOrAlloc G E fuel tcip w = Done t w.
Proof.
  intros [->|(-> & Ht & Hb)]; [reflexivity|].
  cbn [tcipOrAlloc]. unfold tciAlloc, tciAllocCommon.
  rewrite Ht, Hb. reflexivity.
Qed.

Lemma tcipFreeIfOwn_room G tcip t w :
  cq_has_room G t w ->
  exists w',
    tcipFreeIfOwn tcip t w = Done tt w'
    /\ cq_has_room G t w'
    /\ numTxnsOut (tciAt (tciTab w') t) = numTxnsOut (tciAt (tciTab w) t).
Proof.
  intros (Hi & Ho & HL). destruct tcip as [x|]; cbn [tcipFreeIfOwn].
  - exists w. repeat split; first [assumption|lia].
  - rewrite tciFree_Done. eexists. split; [reflexivity|].
    destruct (bound (tciAt (tciTab w) t));
      [repeat split; first [assumption|lia]|].
    unfold cq_has_room. cbn. rewrite length_insert.
    rewrite tciAt_insert_eq by exact Hi. cbn.
    repeat split; first [assumption|lia].
Qed.

(** X31: [mcmReleaseAllNodes] returns.  On a context the caller passes,
    or the bound context of the caller's thread, that has fewer than
    [txCQLen] transactions in flight, with the [orderDummy]s registered
    and a completion queue that delivers (a read returns no more
    completions than there are transactions in flight, and the reads of
    a wait return at least one), the call returns for every amount of
    fuel: its loop never has to wait for room in the queue, for the
    context comes out of every dummy GET with no more in flight than it
    went in with. *)
Theorem mcmReleaseAllNodes_returns G E fuel b tcip t w :
  cq_sane E -> cq_wait_delivers E ->
  uses_tci tcip w t ->
  cq_has_room G t w ->
  dummies_registered G (bitmapSetBits b) ->
  exists b' w',
    mcmReleaseAllNodes G E fuel b tcip w = Done b' w'
    /\ cq_has_room G t w'
    /\ numTxnsOut (tciAt (tciTab w') t) <= numTxnsOut (tciAt (tciTab w) t).
Proof.
  intros Hs Hd Hu Hroom Hreg. unfold mcmReleaseAllNodes.
  pose proof (tcipOrAlloc_uses G E fuel tcip w t Hu) as H0.
  destruct (mcmReleaseNodes_room G E fuel (bitmapSetBits b) b t w
              Hs Hd Hroom Hreg) as (b' & w1 & H1 & R1 & L1).
  destruct (tcipFreeIfOwn_room G tcip t w1 R1) as (w' & H2 & R2 & L2).
  exists b', w'. split; [|split; [exact R2|lia]].
  unfold bind. rewrite H0, H1, H2. reflexivity.
Qed.

Lemma mcmReleaseAllNodes_returns_witness :
  cq_sane E_demo
  /\ cq_wait_delivers E_demo
  /\ uses_tci (Some O) w_bound O
  /\ cq_has_room G_three O w_bound
  /\ dummies_registered G_three (bitmapSetBits b_nodes_1_2)
  /\ exists b' w',
       mcmReleaseAllNodes G_three E_demo 0 b_nodes_1_2 (Some O) w_bound
       = Done b' w'
       /\ cq_has_room G_three O w'
       /\ numTxnsOut (tciAt (tciTab w') O)
          <= numTxnsOut (tciAt (tciTab w_bound) O).
Proof.
  assert (H1 := cq_sane_E_demo).
  assert (H2 := cq_wait_delivers_E_demo).
  assert (H3 : uses_tci (Some O) w_bound O) by (left; reflexivity).
  assert (H4 : cq_has_room G_three O w_bound)
    by (unfold cq_has_room; cbn; lia).
  assert (H5 : dummies_registered G_three (bitmapSetBits b_nodes_1_2)).
  { split; [discriminate|].
    repeat apply List.Forall_cons; try apply List.Forall_nil; discriminate. }
  split; [exact H1|]. split; [exact H2|]. split; [exact H3|].
  split; [exact H4|]. split; [exact H5|].
  exact (mcmReleaseAllNodes_returns G_three E_demo 0 b_nodes_1_2 (Some O) O
           w_bound H1 H2 H3 H4 H5).
Defined.

(** Without any fuel, on three nodes. *)
Example mcmReleaseAllNodes_no_fuel :
  mcmReleaseAllNodes G_three E_demo 0 b_nodes_1_2 (Some O) w_bound
  = mcmReleaseAllNodes G_three E_demo 3 b_nodes_1_2 (Some O) w_bound.
Proof. vm_compute. reflexivity. Qed.
